(** * ECFS core-file reconstruction: a shallow embedding of [core_accessors.c]

    The C file works on memory-mapped ELF images through struct pointers
    ([ElfW(Ehdr)], [ElfW(Phdr)], [ElfW(Shdr)], [ElfW(Nhdr)], [ElfW(Sym)]).
    An image is modelled as the list of its bytes; a struct field access
    [p->f] is a little-endian load at the field's offset and an assignment
    [p->f = v] a store at that offset, so that what the code later writes
    out of the mapping carries every update made through a struct pointer.
    The layout is the 64-bit one ([__ELF_NATIVE_CLASS == 64], LP64:
    [sizeof(long) = 8]).

    Part I holds the model, one module per group of C functions; Part II
    holds the properties. *)

From Stdlib Require Import ZArith List Lia Bool String Ascii.
From coqutil Require Import Byte Word.LittleEndianList Datatypes.RecordSetters.
From stdpp Require Import base list gmap.
Import ListNotations.
Import DoubleBraceUpdate.
Local Open Scope Z_scope.

(** * Part I: the model *)

(** ** Byte images *)

Module Mem.

Definition image := list byte.

(** [st.st_size] of a file, or the length of a mapping. *)
Definition size (m : image) : Z := Z.of_nat (length m).

(** Bytes [off, off+n) of an image, as far as they exist. *)
Definition slice (m : image) (off n : Z) : list byte :=
  firstn (Z.to_nat n) (skipn (Z.to_nat off) m).

(** Unsigned little-endian load of [w] bytes at [off].  Bytes past the end
    of the image read as zero (in C such an access is undefined). *)
Definition load (w : nat) (m : image) (off : Z) : Z :=
  le_combine (slice m off (Z.of_nat w)).

(** Little-endian store of the low [w] bytes of [v] at [off].  A store that
    does not lie inside the image leaves it unchanged (in C: undefined). *)
Definition store (w : nat) (m : image) (off v : Z) : image :=
  if (0 <=? off) && (off + Z.of_nat w <=? size m)
  then firstn (Z.to_nat off) m ++ le_split w v ++ skipn (Z.to_nat off + w) m
  else m.

(** The C string starting at the head of a byte list: the bytes before the
    first NUL. *)
Fixpoint cstring (l : list byte) : list byte :=
  match l with
  | [] => []
  | b :: l' => if Byte.eqb b Byte.x00 then [] else b :: cstring l'
  end.

(** [(char * )&m[off]] read as a C string. *)
Definition cstring_at (m : image) (off : Z) : list byte :=
  cstring (skipn (Z.to_nat off) m).

(** A string literal as bytes. *)
Definition bytes_of_string (s : string) : list byte :=
  List.map byte_of_ascii (list_ascii_of_string s).

#[global] Instance byte_eq_dec : EqDecision byte := Byte.byte_eq_dec.

(** [!strcmp(a, lit)] on NUL-terminated strings. *)
Definition streq (a b : list byte) : bool :=
  bool_decide (a = b).

Definition wrap64 (z : Z) : Z := z mod 2 ^ 64.
Definition wrap32 (z : Z) : Z := z mod 2 ^ 32.

(** Conversion of an unsigned 64-bit value to [int] (two's complement
    truncation). *)
Definition to_int (z : Z) : Z :=
  let r := z mod 2 ^ 32 in if r <? 2 ^ 31 then r else r - 2 ^ 32.

End Mem.

(** ** ELF layout (from <elf.h>, 64-bit class) *)

Module Elf.
Import Mem.

(** A struct field: offset inside the struct and width in bytes. *)
Record field := Field { f_off : Z; f_width : nat }.

Definition get (m : image) (base : Z) (f : field) : Z :=
  load (f_width f) m (base + f_off f).
Definition set (m : image) (base : Z) (f : field) (v : Z) : image :=
  store (f_width f) m (base + f_off f) v.

(** Elf64_Ehdr *)
Definition e_type := Field 16 2.
Definition e_entry := Field 24 8.
Definition e_phoff := Field 32 8.
Definition e_shoff := Field 40 8.
Definition e_phnum := Field 56 2.
Definition e_shentsize := Field 58 2.
Definition e_shnum := Field 60 2.
Definition e_shstrndx := Field 62 2.
Definition sizeof_Ehdr := 64.

(** Elf64_Phdr *)
Definition p_type := Field 0 4.
Definition p_flags := Field 4 4.
Definition p_offset := Field 8 8.
Definition p_vaddr := Field 16 8.
Definition p_paddr := Field 24 8.
Definition p_filesz := Field 32 8.
Definition p_memsz := Field 40 8.
Definition p_align := Field 48 8.
Definition sizeof_Phdr := 56.

(** Elf64_Shdr *)
Definition sh_name := Field 0 4.
Definition sh_type := Field 4 4.
Definition sh_flags := Field 8 8.
Definition sh_addr := Field 16 8.
Definition sh_offset := Field 24 8.
Definition sh_size := Field 32 8.
Definition sh_link := Field 40 4.
Definition sh_info := Field 44 4.
Definition sh_addralign := Field 48 8.
Definition sh_entsize := Field 56 8.
Definition sizeof_Shdr := 64.

Definition st_size := Field 16 8.
Definition sizeof_Sym := 24.

(** Elf64_Nhdr *)
Definition n_namesz := Field 0 4.
Definition n_descsz := Field 4 4.
Definition n_type := Field 8 4.
Definition sizeof_Nhdr := 12.

Definition sizeof_long := 8.
Definition sizeof_Addr := 8.

(** [&phdr[i]] and [&shdr[i]] for a table that starts at [tab]. *)
Definition phdr_at (tab i : Z) : Z := tab + sizeof_Phdr * i.
Definition shdr_at (tab i : Z) : Z := tab + sizeof_Shdr * i.

Definition ET_DYN := 3.
Definition ET_CORE := 4.
Definition PT_LOAD := 1.
Definition PT_DYNAMIC := 2.
Definition PT_INTERP := 3.
Definition PT_NOTE := 4.
Definition PT_GNU_EH_FRAME := 0x6474e550.
Definition PF_X := 1.
Definition PF_W := 2.
Definition PF_R := 4.
Definition ET_NONE := 0.
Definition SHT_NULL := 0.
Definition SHT_PROGBITS := 1.
Definition SHT_SYMTAB := 2.
Definition SHT_STRTAB := 3.
Definition SHT_RELA := 4.
Definition SHT_DYNAMIC := 6.
Definition SHT_NOTE := 7.
Definition SHT_SHLIB := 10.
Definition SHT_DYNSYM := 11.
Definition SHT_GNU_HASH := 0x6ffffff6.
Definition SHF_WRITE := 1.
Definition SHF_ALLOC := 2.
Definition SHF_EXECINSTR := 4.
Definition sizeof_Rela := 24.
Definition SHN_UNDEF := 0.
Definition STB_GLOBAL := 1.
Definition STT_FUNC := 2.
Definition NT_PRSTATUS := 1.
Definition NT_FPREGSET := 2.
Definition NT_PRPSINFO := 3.
Definition NT_AUXV := 6.
Definition NT_SIGINFO := 0x53494749.
Definition NT_FILE := 0x46494c45.

End Elf.

(** ** What the headers outside this file define

    [core_accessors.c] takes struct sizes from the system headers and
    constants and macros from [ecfs.h]; neither is part of the file.  They
    are the fields of [Headers], and every definition below is parametric
    in them. *)

Class Headers := {
  (** <sys/procfs.h>, <signal.h> *)
  sizeof_elf_prstatus : Z;
  sizeof_elf_prpsinfo : Z;
  sizeof_siginfo_t : Z;
  sizeof_elf_fpregset_t : Z;
  (** ecfs.h: where the descriptor of the note at offset [notes] starts *)
  ELFNOTE_DESC : Mem.image -> Z -> Z;
  (** ecfs.h: personality bits *)
  ELF_STATIC : Z;
  ELF_PIE : Z;
  ELF_HEURISTICS : Z;
  ELF_STRIPPED_SHDRS : Z;
  (** ecfs.h: protocol tags of [fd_info_t.net] *)
  NET_TCP : Z;
  NET_UDP : Z
}.

(** ** NoteParse: [parse_nt_files], [parse_notes_area] *)

Module Notes.
Import Mem Elf.

Record nt_file_entry := {
  nf_addr : Z;
  nf_size : Z;
  nf_pgoff : Z;
  nf_path : list byte
}.

Record nt_file_struct := {
  fcount : Z;
  page_size : Z;
  files : list nt_file_entry
}.

Record notedesc_t := {
  thread_count : Z;
  prstatus : option (list byte);
  thread_core_info : gmap Z (list byte);
  psinfo : option (list byte);
  siginfo : option (list byte);
  auxv : option (list byte);
  auxv_size : Z;
  nt_files : option nt_file_struct;
  fpu : option (list byte)
}.

(** A zeroed [notedesc_t], as [heapAlloc] hands it out. *)
Definition notedesc_zero : notedesc_t :=
  {| thread_count := 0; prstatus := None; thread_core_info := ∅;
     psinfo := None; siginfo := None; auxv := None; auxv_size := 0;
     nt_files := None; fpu := None |}.

(** [long] read as a signed value. *)
Definition signed64 (z : Z) : Z := if z <? 2 ^ 63 then z else z - 2 ^ 64.

(** The [count] file names of an NT_FILE note, one after the other from
    offset [p] on ([offset += j + 1] after each). *)
Fixpoint nt_paths (n : nat) (m : image) (p : Z) : list (list byte) :=
  match n with
  | O => []
  | S n' =>
      let s := cstring_at m p in
      s :: nt_paths n' m (p + Z.of_nat (length s) + 1)
  end.

(** The [i]-th [file_map_range] of the note at [data]. *)
Definition nt_range (m : image) (data : Z) (i : nat) : Z * Z * Z :=
  let fmp := data + 2 * sizeof_long + 3 * sizeof_long * Z.of_nat i in
  (load 8 m fmp, load 8 m (fmp + 8), load 8 m (fmp + 16)).

Definition parse_nt_files (m : image) (data : Z) : nt_file_struct :=
  let count := signed64 (load 8 m data) in
  let n := Z.to_nat count in
  let name_offset := (2 + 3 * count) * sizeof_long in
  let paths := nt_paths n m (data + name_offset) in
  {| fcount := count;
     page_size := load 8 m (data + sizeof_long);
     files :=
       List.map (fun i =>
         let '(start, end_, ofs) := nt_range m data i in
         {| nf_addr := start; nf_size := wrap64 (end_ - start);
            nf_pgoff := ofs; nf_path := nth i paths [] |})
         (seq 0 n) |}.

Section WithHeaders.
Context {H : Headers}.

(** [(x + 3) & ~3] *)
Definition align4 (x : Z) : Z := Z.land (x + 3) (Z.lnot 3).

(** Modelled from the spec: the macro ELFNOTE_NEXT of ecfs.h, which is not
    part of the source.  "Each entry has a header of three 32-bit words
    (n_namesz, n_descsz, n_type), followed by name then descriptor; the
    next entry begins at align4(name_end + descsz)."  The descriptor
    follows the name: the name ends where [ELFNOTE_DESC], the macro that
    [parse_notes_area] reads the descriptor with, says the descriptor
    begins. *)
Definition name_end (m : image) (notes : Z) : Z := ELFNOTE_DESC m notes.
Definition ELFNOTE_NEXT (m : image) (notes : Z) : Z :=
  align4 (name_end m notes + get m notes n_descsz).

(** The body of the [switch] on [notes->n_type]. *)
Definition note_switch (m : image) (notes : Z) (nd : notedesc_t) : notedesc_t :=
  let desc := ELFNOTE_DESC m notes in
  let descsz := get m notes n_descsz in
  let ty := get m notes n_type in
  let copy := slice m desc descsz in
  if ty =? NT_PRSTATUS then
    if negb (descsz =? sizeof_elf_prstatus) then nd
    else
      let tc := thread_count nd in
      {| thread_count := tc + 1;
         prstatus := if tc =? 0 then Some copy else prstatus nd;
         thread_core_info := <[tc := copy]> (thread_core_info nd);
         psinfo := psinfo nd; siginfo := siginfo nd; auxv := auxv nd;
         auxv_size := auxv_size nd; nt_files := nt_files nd; fpu := fpu nd |}
  else if ty =? NT_PRPSINFO then
    if negb (descsz =? sizeof_elf_prpsinfo) then nd
    else
      {| thread_count := thread_count nd; prstatus := prstatus nd;
         thread_core_info := thread_core_info nd;
         psinfo := Some copy; siginfo := siginfo nd; auxv := auxv nd;
         auxv_size := auxv_size nd; nt_files := nt_files nd; fpu := fpu nd |}
  else if ty =? NT_SIGINFO then
    if negb (descsz =? sizeof_siginfo_t) then nd
    else
      {| thread_count := thread_count nd; prstatus := prstatus nd;
         thread_core_info := thread_core_info nd;
         psinfo := psinfo nd; siginfo := Some copy; auxv := auxv nd;
         auxv_size := auxv_size nd; nt_files := nt_files nd; fpu := fpu nd |}
  else if ty =? NT_AUXV then
    {| thread_count := thread_count nd; prstatus := prstatus nd;
       thread_core_info := thread_core_info nd;
       psinfo := psinfo nd; siginfo := siginfo nd; auxv := Some copy;
       auxv_size := descsz; nt_files := nt_files nd; fpu := fpu nd |}
  else if ty =? NT_FILE then
    {| thread_count := thread_count nd; prstatus := prstatus nd;
       thread_core_info := thread_core_info nd;
       psinfo := psinfo nd; siginfo := siginfo nd; auxv := auxv nd;
       auxv_size := auxv_size nd;
       nt_files := Some (parse_nt_files m desc); fpu := fpu nd |}
  else if ty =? NT_FPREGSET then
    if negb (descsz =? sizeof_elf_fpregset_t) then nd
    else
      {| thread_count := thread_count nd; prstatus := prstatus nd;
         thread_core_info := thread_core_info nd;
         psinfo := psinfo nd; siginfo := siginfo nd; auxv := auxv nd;
         auxv_size := auxv_size nd; nt_files := nt_files nd;
         fpu := Some copy |}
  else nd.

(** [len = (notes->n_descsz + notes->n_namesz + sizeof(long) + 3) & ~3]:
    the sum of the two 32-bit sizes is a 32-bit sum, the rest is [size_t]
    arithmetic. *)
Definition note_len (m : image) (notes : Z) : Z :=
  Z.land (wrap32 (get m notes n_descsz + get m notes n_namesz) + sizeof_long + 3)
         (wrap64 (Z.lnot 3)).

(** The two cursors of the walk: the byte counter [i] of the [for] and the
    entry pointer [notes] (an offset into the mapping, which is page
    aligned). *)
Record cursor := Cursor { cur_i : Z; cur_notes : Z }.

(** [i += len] and [notes = ELFNOTE_NEXT(notes)]. *)
Definition advance (m : image) (c : cursor) : cursor :=
  {| cur_i := wrap64 (cur_i c + note_len m (cur_notes c));
     cur_notes := ELFNOTE_NEXT m (cur_notes c) |}.

(** [for (i = 0; i < elfdesc->noteSize; i += len) { switch ...; }].  Every
    round adds at least 8 to [i]; [fuel] bounds the number of rounds. *)
Fixpoint notes_loop (fuel : nat) (m : image) (noteSize : Z) (c : cursor)
    (nd : notedesc_t) : notedesc_t :=
  match fuel with
  | O => nd
  | S fuel' =>
      if cur_i c <? noteSize
      then notes_loop fuel' m noteSize (advance m c) (note_switch m (cur_notes c) nd)
      else nd
  end.

(** [parse_notes_area(elfdesc)], with [nhdr] the offset of the note
    segment in the mapping [m] and [noteSize] its [p_filesz]. *)
Definition parse_notes_area (m : image) (nhdr noteSize : Z) : notedesc_t :=
  notes_loop (Z.to_nat noteSize) m noteSize (Cursor 0 nhdr) notedesc_zero.

(** The number of rounds the [for] makes from the cursor [c] on. *)
Fixpoint note_rounds (fuel : nat) (m : image) (noteSize : Z) (c : cursor) : nat :=
  match fuel with
  | O => O
  | S fuel' =>
      if cur_i c <? noteSize
      then S (note_rounds fuel' m noteSize (advance m c))
      else O
  end.

(** The note format: the descriptor of an entry starts behind the header
    and the name, the name padded to a multiple of four bytes. *)
Definition note_format (m : image) : Prop :=
  forall p, ELFNOTE_DESC m p = p + sizeof_Nhdr + align4 (get m p n_namesz).

(** The first [n] entries of a region that starts at [p], each a header,
    the name and the descriptor, name and descriptor padded to a multiple
    of four bytes. *)
Fixpoint note_entries (n : nat) (m : image) (p : Z) : list Z :=
  match n with
  | O => []
  | S n' =>
      p :: note_entries n' m
             (p + sizeof_Nhdr + align4 (get m p n_namesz) + align4 (get m p n_descsz))
  end.

End WithHeaders.
End Notes.

(** ** The NT_FILE note as the kernel packs it *)

Module NtFile.
Import Mem Elf Notes.

(** The format that [parse_nt_files] undoes, from the comment in front of
    it: [long count], [long page_size], [count] ranges of
    [long start, long end, long file_ofs], then [count] file names, each
    with its NUL. *)
Definition pack_range (f : nt_file_entry) : list byte :=
  le_split 8 (nf_addr f) ++ le_split 8 (nf_addr f + nf_size f) ++ le_split 8 (nf_pgoff f).

Definition pack_name (f : nt_file_entry) : list byte := nf_path f ++ [Byte.x00].

Definition pack (page : Z) (fs : list nt_file_entry) : list byte :=
  le_split 8 (Z.of_nat (length fs)) ++ le_split 8 page
  ++ flat_map pack_range fs ++ flat_map pack_name fs.

(** A mapped file whose fields fit their [long]s and whose name is a C
    string. *)
Definition packable (f : nt_file_entry) : Prop :=
  0 <= nf_addr f /\ 0 <= nf_size f /\ nf_addr f + nf_size f < 2 ^ 64 /\
  0 <= nf_pgoff f < 2 ^ 64 /\ Forall (fun b => b <> Byte.x00) (nf_path f).

End NtFile.

(** ** TextMerge: [merge_exe_text_into_core], [merge_text_image] *)

Module TextMerge.
Import Mem Elf.

(** What [write(out, buf + off, count)] appends to the output when [buf]
    is the mapping [m]: the bytes of the mapping from [off] on and, when
    [count] reaches past the mapping, the bytes [beyond] that follow it in
    the address space as far as they can be read. *)
Definition write_from (m beyond : image) (off count : Z) : list byte :=
  slice (m ++ beyond) off count.

(** The locals of [merge_text_image] that the header walk updates. *)
Record walk := {
  w_mem : image;
  w_textOffset : Z;
  w_nextOffset : Z;
  w_found : Z
}.

(** One round of
    [for (i = 0; i < ehdr->e_phnum; i++)] in [merge_text_image]. *)
Definition image_step (phdr text_addr tlen i : Z) (s : walk) : walk :=
  let m := w_mem s in
  let ph := phdr_at phdr i in
  if text_addr =? get m ph p_vaddr then
    {| w_mem := set m ph p_filesz (get m ph p_memsz);
       w_textOffset := get m ph p_offset;
       w_nextOffset := get m (phdr_at phdr (i + 1)) p_offset;
       w_found := w_found s + 1 |}
  else if negb (w_found s =? 0) && (get m ph p_type =? PT_LOAD) then
    {| w_mem := set m ph p_offset (wrap64 (get m ph p_offset + (tlen - 4096)));
       w_textOffset := w_textOffset s;
       w_nextOffset := w_nextOffset s;
       w_found := w_found s |}
  else s.

Fixpoint image_loop (fuel : nat) (phdr text_addr tlen i : Z) (s : walk) : walk :=
  match fuel with
  | O => s
  | S fuel' =>
      if i <? get (w_mem s) 0 e_phnum
      then image_loop fuel' phdr text_addr tlen (i + 1)
             (image_step phdr text_addr tlen i s)
      else s
  end.

(** [e_phnum] is a 16-bit field: the walk ends within [2^16] rounds. *)
Definition phdr_fuel : nat := Z.to_nat (2 ^ 16).

(** The header walk of [merge_text_image] on the mapping of the core.
    [textOffset] and [nextOffset] are uninitialised locals; they are read
    only after [found_text] became non-zero, that is after an assignment,
    so that their first value (here 0) is never seen. *)
Definition image_walk (core : image) (text_addr tlen : Z) : walk :=
  image_loop phdr_fuel (get core 0 e_phoff) text_addr tlen 0
    {| w_mem := core; w_textOffset := 0; w_nextOffset := 0; w_found := 0 |}.

(** [merge_text_image(path, text_addr, text_image, text_len)]: the new
    contents of the core file, or [None] when the function returns -1 and
    leaves the file as it is.  ([write] errors are not modelled; the model
    is about [0 <= text_len].) *)
Definition merge_text_image (core beyond : image) (text_addr : Z)
    (text_image : list byte) (text_len : Z) : option image :=
  let s := image_walk core text_addr text_len in
  if w_found s =? 0 then None
  else Some (write_from (w_mem s) beyond 0 (w_textOffset s)
             ++ slice text_image 0 text_len
             ++ write_from (w_mem s) beyond (w_nextOffset s)
                  (wrap64 (size core - w_textOffset s))).

(** The locals of [merge_exe_text_into_core] that the header walk
    updates. *)
Record exe_walk := {
  x_mem : image;
  x_textVaddr : Z;
  x_textOffset : Z;
  x_dataOffset : Z;
  x_found : Z;
  x_data_index : Z
}.

(** One round of the [for] of [merge_exe_text_into_core]. *)
Definition exe_step (phdr tlen i : Z) (s : exe_walk) : exe_walk :=
  let m := x_mem s in
  let ph := phdr_at phdr i in
  if (get m ph p_vaddr <=? x_textVaddr s)
     && (x_textVaddr s <? wrap64 (get m ph p_vaddr + get m ph p_memsz)) then
    let m1 := set m ph p_filesz (get m ph p_memsz) in
    let nx := phdr_at phdr (i + 1) in
    {| x_mem := set m1 nx p_offset (wrap64 (get m1 nx p_offset + (tlen - 4096)));
       x_textVaddr := get m ph p_vaddr;
       x_textOffset := get m ph p_offset;
       x_dataOffset := get m nx p_offset;
       x_found := x_found s + 1;
       x_data_index := i + 1 |}
  else if negb (x_found s =? 0) then
    if i =? x_data_index s then s
    else
      {| x_mem := set m ph p_offset (wrap64 (get m ph p_offset + (tlen - 4096)));
         x_textVaddr := x_textVaddr s;
         x_textOffset := x_textOffset s;
         x_dataOffset := x_dataOffset s;
         x_found := x_found s;
         x_data_index := x_data_index s |}
  else s.

Fixpoint exe_loop (fuel : nat) (phdr tlen i : Z) (s : exe_walk) : exe_walk :=
  match fuel with
  | O => s
  | S fuel' =>
      if i <? get (x_mem s) 0 e_phnum
      then exe_loop fuel' phdr tlen (i + 1) (exe_step phdr tlen i s)
      else s
  end.

(** The header walk of [merge_exe_text_into_core]; [data_index] is
    uninitialised and read only after [found_text] became non-zero. *)
Definition exe_walk_of (core : image) (text_base tlen : Z) : exe_walk :=
  exe_loop phdr_fuel (get core 0 e_phoff) tlen 0
    {| x_mem := core; x_textVaddr := text_base; x_textOffset := 0;
       x_dataOffset := 0; x_found := 0; x_data_index := 0 |}.

(** [merge_exe_text_into_core(path, memdesc)] with
    [text_base = memdesc->text.base], [textseg = memdesc->textseg] and
    [text_size = memdesc->text.size]. *)
Definition merge_exe_text_into_core (core beyond : image) (text_base : Z)
    (textseg : list byte) (text_size : Z) : option image :=
  if text_base =? 0 then None
  else
    let s := exe_walk_of core text_base text_size in
    if x_textVaddr s =? 0 then None
    else Some (write_from (x_mem s) beyond 0 (x_textOffset s)
               ++ slice textseg 0 text_size
               ++ write_from (x_mem s) beyond (x_dataOffset s)
                    (wrap64 (size core - x_textOffset s))).

(** *** Vocabulary for the properties of the two header walks *)

Section WalkState.
Variables (core : image) (tlen k : Z).

Definition phoff_of : Z := get core 0 e_phoff.
Definition phnum_of : Z := get core 0 e_phnum.
Definition ph_of (j : Z) : Z := phdr_at phoff_of j.
Definition tabend_of : Z := phoff_of + sizeof_Phdr * phnum_of.

(** Header [j] of the core covers address [a]: the test of
    [merge_exe_text_into_core]. *)
Definition contains (j a : Z) : Prop :=
  get core (ph_of j) p_vaddr <= a
  < wrap64 (get core (ph_of j) p_vaddr + get core (ph_of j) p_memsz).

(** What the walk of [merge_text_image] has made of [p_offset] and
    [p_filesz] of header [j] when it stands before header [i], [k] being
    the text header. *)
Definition exp_off (i j : Z) : Z :=
  if (k <? j) && (j <? i) && (get core (ph_of j) p_type =? PT_LOAD)
  then wrap64 (get core (ph_of j) p_offset + (tlen - 4096))
  else get core (ph_of j) p_offset.

Definition exp_fsz (i j : Z) : Z :=
  if (j =? k) && (k <? i) then get core (ph_of k) p_memsz
  else get core (ph_of j) p_filesz.

Record image_inv (i : Z) (s : walk) : Prop := {
  ii_size : size (w_mem s) = size core;
  ii_head : firstn (Z.to_nat phoff_of) (w_mem s) = firstn (Z.to_nat phoff_of) core;
  ii_tail : skipn (Z.to_nat tabend_of) (w_mem s) = skipn (Z.to_nat tabend_of) core;
  ii_type : forall j, 0 <= j < phnum_of ->
            get (w_mem s) (ph_of j) p_type = get core (ph_of j) p_type;
  ii_vaddr : forall j, 0 <= j < phnum_of ->
            get (w_mem s) (ph_of j) p_vaddr = get core (ph_of j) p_vaddr;
  ii_memsz : forall j, 0 <= j < phnum_of ->
            get (w_mem s) (ph_of j) p_memsz = get core (ph_of j) p_memsz;
  ii_off : forall j, 0 <= j < phnum_of ->
            get (w_mem s) (ph_of j) p_offset = exp_off i j;
  ii_fsz : forall j, 0 <= j < phnum_of ->
            get (w_mem s) (ph_of j) p_filesz = exp_fsz i j;
  ii_found : w_found s = if k <? i then 1 else 0;
  ii_text : k < i -> w_textOffset s = get core (ph_of k) p_offset;
  ii_next : k < i -> w_nextOffset s = get core (ph_of (k + 1)) p_offset
}.

(** The same for the walk of [merge_exe_text_into_core], started with
    [text_base]. *)
Definition xexp_off (i j : Z) : Z :=
  if (k <? j) && ((j <? i) || (j =? k + 1) && (k <? i))
  then wrap64 (get core (ph_of j) p_offset + (tlen - 4096))
  else get core (ph_of j) p_offset.

Record exe_inv (text_base i : Z) (s : exe_walk) : Prop := {
  xi_size : size (x_mem s) = size core;
  xi_head : firstn (Z.to_nat phoff_of) (x_mem s) = firstn (Z.to_nat phoff_of) core;
  xi_tail : k + 1 < phnum_of \/ i <= k ->
            skipn (Z.to_nat tabend_of) (x_mem s) = skipn (Z.to_nat tabend_of) core;
  xi_type : forall j, 0 <= j < phnum_of ->
            get (x_mem s) (ph_of j) p_type = get core (ph_of j) p_type;
  xi_vaddr : forall j, 0 <= j < phnum_of ->
            get (x_mem s) (ph_of j) p_vaddr = get core (ph_of j) p_vaddr;
  xi_memsz : forall j, 0 <= j < phnum_of ->
            get (x_mem s) (ph_of j) p_memsz = get core (ph_of j) p_memsz;
  xi_off : forall j, 0 <= j < phnum_of ->
            get (x_mem s) (ph_of j) p_offset = xexp_off i j;
  xi_fsz : forall j, 0 <= j < phnum_of ->
            get (x_mem s) (ph_of j) p_filesz = exp_fsz i j;
  xi_found : x_found s = if k <? i then 1 else 0;
  xi_tv : x_textVaddr s =
          if k <? i then get core (ph_of k) p_vaddr else text_base;
  xi_di : k < i -> x_data_index s = k + 1;
  xi_text : k < i -> x_textOffset s = get core (ph_of k) p_offset;
  xi_data : k < i -> x_dataOffset s = get core (ph_of (k + 1)) p_offset
}.

(** Header [k] is the text header for address [a], and the only one:
    its [p_vaddr] is [a], it covers [a], and no other header of the table
    has that [p_vaddr] or covers [a]. *)
Definition text_header (a : Z) : Prop :=
  0 <= k < phnum_of /\
  get core (ph_of k) p_vaddr = a /\
  contains k a /\
  forall j, 0 <= j < phnum_of -> j <> k ->
    get core (ph_of j) p_vaddr <> a /\ ~ contains j a.

(** The program-header table lies behind the ELF header and inside the
    file. *)
Definition table_ok : Prop :=
  sizeof_Ehdr <= phoff_of /\ tabend_of <= size core.

(** The mapping [m] is the core with nothing but its program-header
    table rewritten. *)
Definition patched_table (m : image) : Prop :=
  size m = size core /\
  firstn (Z.to_nat phoff_of) m = firstn (Z.to_nat phoff_of) core /\
  skipn (Z.to_nat tabend_of) m = skipn (Z.to_nat tabend_of) core.

(** The program headers of [out] after the merge of text header [k]. *)
Definition headers_merged (out : image) : Prop :=
  get out 0 e_phoff = phoff_of /\
  get out 0 e_phnum = phnum_of /\
  get out (ph_of k) p_filesz = get out (ph_of k) p_memsz /\
  forall j, k < j < phnum_of ->
    get out (ph_of j) p_type = PT_LOAD ->
    get out (ph_of j) p_offset =
    wrap64 (get core (ph_of j) p_offset + (tlen - 4096)).

End WalkState.

End TextMerge.

(** ** C strings: the libc functions the code calls

    A string is the list of its bytes up to the terminating NUL; a
    pointer into it is an index. *)

Module CStr.
Import Mem.

Definition chr (c : ascii) : byte := byte_of_ascii c.
Definition lit (s : string) : list byte := bytes_of_string s.

(** [strchr(s, c)]: index of the first [c], [None] for NULL. *)
Fixpoint strchr (s : list byte) (c : byte) : option nat :=
  match s with
  | [] => None
  | b :: s' => if Byte.eqb b c then Some O else option_map S (strchr s' c)
  end.

(** [strrchr(s, c)]: index of the last [c]. *)
Fixpoint strrchr (s : list byte) (c : byte) : option nat :=
  match s with
  | [] => None
  | b :: s' =>
      match strrchr s' c with
      | Some i => Some (S i)
      | None => if Byte.eqb b c then Some O else None
      end
  end.

Fixpoint is_prefix (pat s : list byte) : bool :=
  match pat, s with
  | [], _ => true
  | _ :: _, [] => false
  | a :: pat', b :: s' => Byte.eqb a b && is_prefix pat' s'
  end.

(** [strstr(s, pat)]: index of the first occurrence of [pat]. *)
Fixpoint strstr (s pat : list byte) : option nat :=
  if is_prefix pat s then Some O
  else match s with
       | [] => None
       | _ :: s' => option_map S (strstr s' pat)
       end.

(** [strstr(s, pat) != NULL] *)
Definition has (s : list byte) (pat : string) : bool :=
  match strstr s (lit pat) with Some _ => true | None => false end.

Definition isspace (b : byte) : bool :=
  let n := byte.unsigned b in (n =? 32) || ((9 <=? n) && (n <=? 13)).

Definition digit (b : byte) : option Z :=
  let n := byte.unsigned b in
  if (48 <=? n) && (n <=? 57) then Some (n - 48) else None.

Definition xdigit (b : byte) : option Z :=
  let n := byte.unsigned b in
  if (48 <=? n) && (n <=? 57) then Some (n - 48)
  else if (97 <=? n) && (n <=? 102) then Some (n - 87)
  else if (65 <=? n) && (n <=? 70) then Some (n - 55)
  else None.

Fixpoint skip_space (s : list byte) : list byte :=
  match s with
  | b :: s' => if isspace b then skip_space s' else s
  | [] => []
  end.

(** The value of the longest prefix of digits, from accumulator [acc]. *)
Fixpoint digits (dig : byte -> option Z) (radix : Z) (s : list byte) (acc : Z) : Z :=
  match s with
  | b :: s' =>
      match dig b with
      | Some d => digits dig radix s' (radix * acc + d)
      | None => acc
      end
  | [] => acc
  end.

(** [atoi(s)] for values that fit an [int]. *)
Definition atoi (s : list byte) : Z :=
  match skip_space s with
  | b :: s' =>
      if Byte.eqb b (chr "-") then - digits digit 10 s' 0
      else if Byte.eqb b (chr "+") then digits digit 10 s' 0
      else digits digit 10 (b :: s') 0
  | [] => 0
  end.

(** [strtoul(s, NULL, 16)]: blanks, an optional sign, an optional [0x],
    hexadecimal digits; a value that does not fit gives [ULONG_MAX], a
    minus sign negates in 64 bits. *)
Definition strtoul16 (s : list byte) : Z :=
  let s0 := skip_space s in
  let neg := match s0 with b :: _ => Byte.eqb b (chr "-") | [] => false end in
  let s1 :=
    match s0 with
    | b :: s' => if Byte.eqb b (chr "-") || Byte.eqb b (chr "+") then s' else s0
    | [] => []
    end in
  let s2 :=
    match s1 with
    | z :: x :: d :: _ =>
        if Byte.eqb z (chr "0")
           && (Byte.eqb x (chr "x") || Byte.eqb x (chr "X"))
           && (match xdigit d with Some _ => true | None => false end)
        then skipn 2 s1 else s1
    | _ => s1
    end in
  let v := digits xdigit 16 s2 0 in
  if v <? 2 ^ 64 then (if neg then wrap64 (- v) else v) else 2 ^ 64 - 1.

(** A C string holds no NUL. *)
Definition nul_free (s : list byte) : Prop := Forall (fun b => b <> Byte.x00) s.

End CStr.

(** ** Snapshot: [get_maps] *)

Module ProcMaps.
Import Mem Elf CStr.

(** The fields of [mappings_t] (ecfs.h) that this file uses. *)
Record mappings_t := {
  base : Z;
  size : Z;
  p_flags : Z;
  elfmap : Z;
  textbase : Z;
  heap : Z;
  stack : Z;
  thread_stack : Z;
  stack_tid : Z;
  padding : Z;
  vdso : Z;
  vsyscall : Z;
  shlib : Z;
  filename : option (list byte);
  filemap_exe : Z;
  filemap : Z;
  anonmap_exe : Z;
  special : Z;
  text_image : option (list byte);
  text_len : Z
}.

(** A zeroed entry of the array the caller allocates. *)
Definition mapping_zero : mappings_t :=
  {| base := 0; size := 0; p_flags := 0; elfmap := 0; textbase := 0;
     heap := 0; stack := 0; thread_stack := 0; stack_tid := 0; padding := 0;
     vdso := 0; vsyscall := 0; shlib := 0; filename := None;
     filemap_exe := 0; filemap := 0; anonmap_exe := 0; special := 0;
     text_image := None; text_len := 0 |}.

(** The kinds of assignment [get_maps] makes to a field of an entry. *)
Inductive update :=
| SetElfmap0
| SetBase (v : Z)
| SetSize (v : Z)
| SetFlags (v : Z)
| SetFilename (v : list byte)
| SetStackTid (v : Z)
| IncElfmap | IncTextbase | IncHeap | IncStack | IncThreadStack | IncPadding
| IncVdso | IncVsyscall | IncShlib | IncFilemapExe | IncFilemap
| IncAnonmapExe | IncSpecial.

Definition apply_update (u : update) (e : mappings_t) : mappings_t :=
  let 'Build_mappings_t b sz fl em tb hp st ts tid pad vd vs sl fn fx fm ax sp ti tl := e in
  match u with
  | SetElfmap0 => Build_mappings_t b sz fl 0 tb hp st ts tid pad vd vs sl fn fx fm ax sp ti tl
  | SetBase v => Build_mappings_t v sz fl em tb hp st ts tid pad vd vs sl fn fx fm ax sp ti tl
  | SetSize v => Build_mappings_t b v fl em tb hp st ts tid pad vd vs sl fn fx fm ax sp ti tl
  | SetFlags v => Build_mappings_t b sz v em tb hp st ts tid pad vd vs sl fn fx fm ax sp ti tl
  | SetFilename v => Build_mappings_t b sz fl em tb hp st ts tid pad vd vs sl (Some v) fx fm ax sp ti tl
  | SetStackTid v => Build_mappings_t b sz fl em tb hp st ts v pad vd vs sl fn fx fm ax sp ti tl
  | IncElfmap => Build_mappings_t b sz fl (em + 1) tb hp st ts tid pad vd vs sl fn fx fm ax sp ti tl
  | IncTextbase => Build_mappings_t b sz fl em (tb + 1) hp st ts tid pad vd vs sl fn fx fm ax sp ti tl
  | IncHeap => Build_mappings_t b sz fl em tb (hp + 1) st ts tid pad vd vs sl fn fx fm ax sp ti tl
  | IncStack => Build_mappings_t b sz fl em tb hp (st + 1) ts tid pad vd vs sl fn fx fm ax sp ti tl
  | IncThreadStack => Build_mappings_t b sz fl em tb hp st (ts + 1) tid pad vd vs sl fn fx fm ax sp ti tl
  | IncPadding => Build_mappings_t b sz fl em tb hp st ts tid (pad + 1) vd vs sl fn fx fm ax sp ti tl
  | IncVdso => Build_mappings_t b sz fl em tb hp st ts tid pad (vd + 1) vs sl fn fx fm ax sp ti tl
  | IncVsyscall => Build_mappings_t b sz fl em tb hp st ts tid pad vd (vs + 1) sl fn fx fm ax sp ti tl
  | IncShlib => Build_mappings_t b sz fl em tb hp st ts tid pad vd vs (sl + 1) fn fx fm ax sp ti tl
  | IncFilemapExe => Build_mappings_t b sz fl em tb hp st ts tid pad vd vs sl fn (fx + 1) fm ax sp ti tl
  | IncFilemap => Build_mappings_t b sz fl em tb hp st ts tid pad vd vs sl fn fx (fm + 1) ax sp ti tl
  | IncAnonmapExe => Build_mappings_t b sz fl em tb hp st ts tid pad vd vs sl fn fx fm (ax + 1) sp ti tl
  | IncSpecial => Build_mappings_t b sz fl em tb hp st ts tid pad vd vs sl fn fx fm ax (sp + 1) ti tl
  end.

(** [maps[i].f = ...]: an index outside the caller's array is an access
    out of bounds, [None]. *)
Definition assign (maps : list mappings_t) (i : nat) (u : update) :
    option (list mappings_t) :=
  match maps !! i with
  | Some e => Some (<[i := apply_update u e]> maps)
  | None => None
  end.

Fixpoint assigns (maps : list mappings_t) (i : nat) (us : list update) :
    option (list mappings_t) :=
  match us with
  | [] => Some maps
  | u :: us' =>
      match assign maps i u with
      | Some maps' => assigns maps' i us'
      | None => None
      end
  end.

(** The locals that live across the lines: the array and the 32 bytes of
    [q = alloca(32)]. *)
Record state := { maps : list mappings_t; q : list byte }.

(** The classification of a line: the index it writes to and what it
    writes there, with the new contents of [q]. *)
Definition classify (tmp : list byte) (chp : option nat) (path : list byte)
    (lc : nat) (q0 : list byte) : option (nat * list update * list byte) :=
  let from_slash :=
    match strchr tmp (chr "/") with Some i => skipn i tmp | None => [] end in
  let is_exe :=
    match chp with
    | Some c => streq (skipn (S c) tmp) path
    | None => false
    end in
  if is_exe then
    if negb (has tmp "---p") then
      Some (lc, [SetFilename from_slash; IncElfmap]
                ++ (if has tmp "r-xp" || has tmp "rwxp" then [IncTextbase] else []), q0)
    else Some (lc, [], q0)
  else if has tmp "[heap]" then Some (lc, [IncHeap], q0)
  else if has tmp "[stack]" then Some (lc, [IncStack], q0)
  else if has tmp "[stack:" then
    match strchr tmp (chr ":") with
    | None => None
    | Some c =>
        let rest := skipn (S c) tmp in
        match strchr rest (chr "]") with
        | None => None
        | Some i =>
            if (i <=? length q0)%nat then
              let q1 := firstn i rest ++ skipn i q0 in
              Some (i, [IncThreadStack; SetStackTid (atoi q1)], q1)
            else None
        end
    end
  else if has tmp "---p" then Some (lc, [IncPadding], q0)
  else if has tmp "[vdso]" then Some (lc, [IncVdso], q0)
  else if has tmp "[vsyscall]" then Some (lc, [IncVsyscall], q0)
  else
    match strrchr tmp (chr "/") with
    | Some c =>
        let p := skipn c tmp in
        if has p ".so" then Some (lc, [IncShlib; SetFilename from_slash], q0)
        else if has p "rwxp" || has p "r-xp"
        then Some (lc, [SetFilename from_slash; IncFilemapExe], q0)
        else Some (lc, [SetFilename from_slash; IncFilemap], q0)
    | None =>
        if has tmp "rwxp" || has tmp "r-xp" then Some (lc, [IncAnonmapExe], q0)
        else Some (lc, [], q0)
    end.

(** "Set segment permissions (Or is it a special file?)" *)
Definition permissions (tmp : list byte) : list update :=
  if has tmp "r--p" then [SetFlags PF_R]
  else if has tmp "rw-p" then [SetFlags (Z.lor PF_R PF_W)]
  else if has tmp "-w-p" then [SetFlags PF_W]
  else if has tmp "--xp" then [SetFlags PF_X]
  else if has tmp "r-xp" then [SetFlags (Z.lor PF_X PF_R)]
  else if has tmp "-wxp" then [SetFlags (Z.lor PF_X PF_W)]
  else if has tmp "rwxp" then [SetFlags (Z.lor (Z.lor PF_X PF_W) PF_R)]
  else if has tmp "r--s" || has tmp "rw-s" || has tmp "-w-s" || has tmp "--xs"
          || has tmp "r-xs" || has tmp "-wxs" || has tmp "rwxs"
  then [IncSpecial]
  else [].

(** The body of the [for] for the line that [fgets] put into [buf]; [None]
    where the C code dereferences NULL or leaves an array. *)
Definition get_maps_line (path : list byte) (lc : nat) (buf : list byte)
    (s : state) : option state :=
  match strchr buf (chr "-") with
  | None => None
  | Some dash =>
      let lo := strtoul16 (firstn dash buf) in
      let hi := strtoul16 (skipn (S dash) buf) in
      let chp := strrchr buf (chr "/") in
      let tmp :=
        match chp with
        | Some c =>
            match strchr (skipn c buf) (chr "010") with
            | Some n => Some (firstn (c + n) buf)
            | None => None
            end
        | None => Some buf
        end in
      match tmp with
      | None => None
      | Some tmp =>
          match assigns (maps s) lc [SetElfmap0; SetBase lo; SetSize (wrap64 (hi - lo))] with
          | None => None
          | Some m1 =>
              match classify tmp chp path lc (q s) with
              | None => None
              | Some (i, us, q1) =>
                  match assigns m1 i us with
                  | None => None
                  | Some m2 =>
                      match assigns m2 lc (permissions tmp) with
                      | None => None
                      | Some m3 => Some {| maps := m3; q := q1 |}
                      end
                  end
              end
          end
      end
  end.

(** [get_maps(pid, maps, path)] on the lines of [/proc/pid/maps] as
    [fgets] returns them, from line [lc] on. *)
Fixpoint get_maps_from (path : list byte) (lc : nat) (lines : list (list byte))
    (s : state) : option state :=
  match lines with
  | [] => Some s
  | buf :: lines' =>
      match get_maps_line path lc buf s with
      | Some s' => get_maps_from path (S lc) lines' s'
      | None => None
      end
  end.

Definition get_maps (path : list byte) (lines : list (list byte))
    (maps0 : list mappings_t) (q0 : list byte) : option (list mappings_t) :=
  option_map maps (get_maps_from path 0 lines {| maps := maps0; q := q0 |}).

End ProcMaps.

(** ** The handle: the structs of ecfs.h, with the fields this file uses *)

Module Handle.
Import Mem ProcMaps.

Record elfdesc_t := {
  mem : image;
  nhdr : Z;
  noteSize : Z;
  text_filesz : Z;
  text_memsz : Z;
  dynlinked : Z;
  pie : Z;
  textVaddr : Z;
  textSize : Z;
  textOffset : Z;
  dataVaddr : Z;
  dataSize : Z;
  dataOffset : Z;
  bssVaddr : Z;
  bssSize : Z;
  bssOffset : Z;
  o_datafsize : Z;
  dynVaddr : Z;
  dynSize : Z;
  dynOffset : Z;
  ehframe_Vaddr : Z;
  ehframe_Size : Z;
  ehframeOffset : Z;
  interpVaddr : Z;
  interpSize : Z;
  interpOffset : Z;
  noteVaddr : Z;
  noteOffset : Z
}.

(** A zeroed descriptor around the mapping [m]. *)
Definition elfdesc_zero (m : image) : elfdesc_t :=
  {| mem := m; nhdr := 0; noteSize := 0; text_filesz := 0; text_memsz := 0;
     dynlinked := 0; pie := 0; textVaddr := 0; textSize := 0; textOffset := 0;
     dataVaddr := 0; dataSize := 0; dataOffset := 0; bssVaddr := 0;
     bssSize := 0; bssOffset := 0; o_datafsize := 0; dynVaddr := 0;
     dynSize := 0; dynOffset := 0; ehframe_Vaddr := 0; ehframe_Size := 0;
     ehframeOffset := 0; interpVaddr := 0; interpSize := 0; interpOffset := 0;
     noteVaddr := 0; noteOffset := 0 |}.

Record memdesc_t := {
  mapcount : Z;
  maps : list mappings_t;
  task_pid : Z;
  text_base : Z;
  text_size : Z;
  textseg : list byte;
  exe_path : list byte;
  exe_comm : list byte;
  md_pie : Z;
  heap_base : Z;
  heap_size : Z;
  stack_base : Z;
  stack_size : Z;
  vdso_base : Z;
  vdso_size : Z;
  vsyscall_base : Z;
  vsyscall_size : Z;
  o_entry : Z;
  fdinfo_size : Z
}.

(** [struct section_meta] *)
Record section_meta := {
  relVaddr : Z; relOff : Z;
  relaVaddr : Z; relaOff : Z;
  plt_relVaddr : Z; plt_relOff : Z;
  plt_relaVaddr : Z; plt_relaOff : Z;
  gotVaddr : Z; gotOff : Z;
  hashVaddr : Z; hashOff : Z;
  initVaddr : Z; initOff : Z;
  finiVaddr : Z; finiOff : Z;
  dsymVaddr : Z; dsymOff : Z;
  dstrVaddr : Z; dstrOff : Z;
  strSiz : Z; pltSiz : Z
}.

(** [global_hacks] *)
Record hacks_t := {
  hash_size : Z;
  rela_size : Z;
  plt_rela_size : Z;
  init_size : Z;
  fini_size : Z;
  got_size : Z;
  plt_size : Z;
  ehframe_size : Z;
  plt_vaddr : Z;
  ehframe_vaddr : Z;
  stripped : Z;
  eh_frame_offset_workaround : Z
}.

Definition hacks_zero : hacks_t :=
  {| hash_size := 0; rela_size := 0; plt_rela_size := 0; init_size := 0;
     fini_size := 0; got_size := 0; plt_size := 0; ehframe_size := 0;
     plt_vaddr := 0; ehframe_vaddr := 0; stripped := 0;
     eh_frame_offset_workaround := 0 |}.

(** One entry of [struct lib_mappings]. *)
Record lib_t := {
  lib_name : list byte;
  lib_path : list byte;
  lib_addr : Z;
  lib_size : Z;
  lib_flags : Z;
  lib_offset : Z;
  lib_injected : Z
}.

(** [ecfs_file_t] *)
Record ecfs_file_t := {
  prstatus_offset : Z; prstatus_size : Z;
  fdinfo_offset : Z; ef_fdinfo_size : Z;
  siginfo_offset : Z; siginfo_size : Z;
  auxv_offset : Z; ef_auxv_size : Z;
  exepath_offset : Z; exepath_size : Z;
  personality_offset : Z; personality_size : Z;
  arglist_offset : Z; arglist_size : Z;
  stb_offset : Z
}.

End Handle.

(** ** Snapshot: [fill_sock_info], [get_fd_links] *)

Module FdLinks.
Import Mem CStr.

Record sock_t := { src_addr : Z; dst_addr : Z; src_port : Z; dst_port : Z }.

Record fd_info_t := { fd : Z; path : list byte; net : Z; socket : sock_t }.

(** What [sscanf] reads from a line of /proc/net/tcp or /proc/net/udp that
    has the kernel's format: the two addresses (already as numbers, the
    second [sscanf] with [%X]), the two ports and the inode. *)
Record net_line := {
  local_addr : Z; local_port : Z; rem_addr : Z; rem_port : Z; inode : Z
}.

Definition fd_info_zero : fd_info_t :=
  {| fd := 0; path := []; net := 0;
     socket := {| src_addr := 0; dst_addr := 0; src_port := 0; dst_port := 0 |} |}.

Section WithHeaders.
Context {H : Headers}.

(** [while (fgets(buf, sizeof(buf), fp)) { sscanf(...); if (_inode == inode) {...} }]
    over the lines behind the heading. *)
Definition scan_table (tag ino : Z) (lines : list net_line) (f : fd_info_t) : fd_info_t :=
  fold_left (fun f l =>
    if inode l =? ino
    then {| fd := fd f; path := path f; net := tag;
            socket := {| src_addr := local_addr l; dst_addr := rem_addr l;
                         src_port := local_port l; dst_port := rem_port l |} |}
    else f) lines f.

(** [fill_sock_info(fdinfo, inode)] on the two tables. *)
Definition fill_sock_info (f : fd_info_t) (ino : Z) (tcp udp : list net_line) : fd_info_t :=
  scan_table NET_UDP ino udp (scan_table NET_TCP ino tcp f).

(** The locals of [get_fd_links] across the directory entries:
    [fdinfo_tmp] and the entries filled so far. *)
Record state := { fdinfo_tmp : fd_info_t; entries : list fd_info_t }.

(** One entry [(d_name, link target)] of /proc/pid/fd. *)
Definition fd_link_step (tcp udp : list net_line) (ent : list byte * list byte)
    (s : state) : option state :=
  let '(d_name, target) := ent in
  let dot := match d_name with b :: _ => Byte.eqb b (chr ".") | [] => false end in
  if dot then Some s
  else if (256 <=? length (entries s))%nat then None
  else if has target "socket" then
    match strchr target (chr ":") with
    | None => None
    | Some c =>
        let ino := wrap32 (atoi (skipn (c + 2) target)) in
        let tmp := fill_sock_info (fdinfo_tmp s) ino tcp udp in
        Some {| fdinfo_tmp := tmp;
                entries := entries s
                  ++ [{| fd := atoi d_name; path := target;
                         net := if net tmp =? 0 then 0 else net tmp;
                         socket := if net tmp =? 0 then socket fd_info_zero
                                   else socket tmp |}] |}
    end
  else
    Some {| fdinfo_tmp := fdinfo_tmp s;
            entries := entries s
              ++ [{| fd := atoi d_name; path := target; net := 0;
                     socket := socket fd_info_zero |}] |}.

Fixpoint fd_links_loop (tcp udp : list net_line)
    (dir : list (list byte * list byte)) (s : state) : option state :=
  match dir with
  | [] => Some s
  | ent :: dir' =>
      match fd_link_step tcp udp ent s with
      | Some s' => fd_links_loop tcp udp dir' s'
      | None => None
      end
  end.

(** [get_fd_links(memdesc, &fdinfo)]: the filled entries (their number is
    the return value).  [tmp0] is what the uninitialised [fdinfo_tmp]
    holds at entry. *)
Definition get_fd_links (tcp udp : list net_line)
    (dir : list (list byte * list byte)) (tmp0 : fd_info_t) : option (list fd_info_t) :=
  option_map entries (fd_links_loop tcp udp dir {| fdinfo_tmp := tmp0; entries := [] |}).

End WithHeaders.
End FdLinks.

(** ** PmemRead: [read_pmem], [get_segment_from_pmem],
    [create_shlib_text_mappings] *)

Module Pmem.
Import Mem Elf ProcMaps Handle.

Definition SIGCONT := 18.
Definition SIGSTOP := 19.

(** What the functions do to the outside world. *)
Inductive event :=
| Alloc (len : Z)
| Signal (pid sig : Z)
| OpenMem (pid : Z)
| Pread (pid vaddr len : Z).

(** Results with the events they caused, in order. *)
Definition io (A : Type) : Type := A * list event.
Definition ret {A} (a : A) : io A := (a, []).
Definition bind {A B} (m : io A) (k : A -> io B) : io B :=
  let '(a, t1) := m in let '(b, t2) := k a in (b, t1 ++ t2).
Definition emit (e : event) : io unit := (tt, [e]).

Notation "x <- m ;; k" := (bind m (fun x => k))
  (at level 100, m at next level, right associativity).
Notation "m ;;; k" := (bind m (fun _ => k))
  (at level 100, right associativity).

Section WithProcess.

(** The live process: what [pread] on /proc/pid/mem returns for
    [(pid, vaddr, len)], the count (or -1) and the bytes it stored. *)
Variable os_pread : Z -> Z -> Z -> Z * list byte.

Definition read_pmem (pid vaddr len : Z) : io (Z * list byte) :=
  emit (OpenMem pid) ;;;
  emit (Pread pid vaddr len) ;;;
  let '(bytes, data) := os_pread pid vaddr len in
  ret (if wrap64 bytes =? len then bytes else -1, data).

(** [vaddr >= maps[i].base && vaddr < maps[i].base + maps[i].size] *)
Definition inside (vaddr : Z) (mp : mappings_t) : bool :=
  (base mp <=? vaddr) && (vaddr <? wrap64 (base mp + size mp)).

(** [get_segment_from_pmem(vaddr, memdesc, &ptr)]: the return value and
    the buffer [*ptr] ([None] when it is not assigned). *)
Definition get_segment_from_pmem (vaddr : Z) (md : memdesc_t) :
    io (Z * option (list byte)) :=
  match List.find (inside vaddr) (firstn (Z.to_nat (mapcount md)) (maps md)) with
  | Some mp =>
      emit (Alloc (size mp)) ;;;
      emit (Signal (task_pid md) SIGSTOP) ;;;
      r <- read_pmem (task_pid md) (base mp) (size mp) ;;
      emit (Signal (task_pid md) SIGCONT) ;;;
      ret (fst r, Some (snd r))
  | None => ret (-1, None)
  end.

(** The body of the [for] of [create_shlib_text_mappings] for [maps[i]],
    as a function from the entry to its new value. *)
Definition shlib_text_step (md : memdesc_t) (mp : mappings_t) : io mappings_t :=
  if shlib mp =? 0 then ret mp
  else if Z.land (p_flags mp) PF_X =? 0 then ret mp
  else
    r <- get_segment_from_pmem (base mp) md ;;
    let '(tlen, buf) := r in
    ret (Build_mappings_t (base mp) (size mp) (p_flags mp) (elfmap mp) (textbase mp)
           (heap mp) (stack mp) (thread_stack mp) (stack_tid mp) (padding mp)
           (vdso mp) (vsyscall mp) (shlib mp) (filename mp) (filemap_exe mp)
           (filemap mp) (anonmap_exe mp) (special mp)
           (match buf with Some b => Some b | None => text_image mp end)
           (if tlen <? 0 then text_len mp else tlen)).

(** The mappings do not wrap around the address space. *)
Definition no_wrap (md : memdesc_t) : Prop :=
  forall mp, In mp (maps md) ->
    0 <= base mp /\ 0 <= size mp /\ base mp + size mp < 2 ^ 64.

(** [pread] returns -1 or a count of at most [len]. *)
Definition pread_ok : Prop :=
  forall pid vaddr len, 0 <= len -> -1 <= fst (os_pread pid vaddr len) <= len.

End WithProcess.
End Pmem.

(** ** Personality: [build_elf_stats], [check_for_pie],
    [check_for_stripped_shdr], [parse_orig_phdrs] and the lookups in the
    NT_FILE table *)

Module Personality.
Import Mem Elf CStr Notes Handle.

(** [int check_for_pie(int pid)] on the mapped executable. *)
Definition check_for_pie (exe : image) : Z :=
  let phdr := get exe 0 e_phoff in
  if existsb (fun i =>
       let ph := phdr_at phdr (Z.of_nat i) in
       (get exe ph p_type =? PT_LOAD)
       && negb (Z.land (get exe ph p_flags) PF_X =? 0)
       && (get exe ph p_vaddr =? 0))
     (seq 0 (Z.to_nat (get exe 0 e_phnum)))
  then 1 else 0.

(** [int check_for_stripped_shdr(int pid)] on the mapped executable. *)
Definition check_for_stripped_shdr (exe : image) : Z :=
  if (get exe 0 e_shnum =? 0) || (get exe 0 e_shoff =? SHN_UNDEF) then 1 else 0.

(** Modelled from the spec: the assignment to [global_hacks.stripped],
    which the caller of these functions makes and which is not part of the
    source.  "STRIPPED_SHDRS iff the original executable has zero section
    headers": the flag is what [check_for_stripped_shdr], the test of the
    source for that, returns on the original executable. *)
Definition stripped_of (exe : image) : Z := check_for_stripped_shdr exe.

(** The executable has zero section headers: its ELF header counts none
    ([e_shnum] is 0) or has no section header table ([e_shoff] is 0). *)
Definition no_section_headers (exe : image) : Prop :=
  get exe 0 e_shnum = 0 \/ get exe 0 e_shoff = 0.

(** [strrchr(path, '/') + 1]; [None] when [strrchr] returns NULL and the
    comparison that follows reads from address 1. *)
Definition basename (path : list byte) : option (list byte) :=
  match strrchr path (chr "/") with
  | Some c => Some (skipn (S c) path)
  | None => None
  end.

Definition file_zero : nt_file_entry :=
  {| nf_addr := 0; nf_size := 0; nf_pgoff := 0; nf_path := [] |}.

(** The loop of [lookup_text_base] and [lookup_text_size]: the first file
    whose base name is [exe_comm] gives the result, 0 if there is none. *)
Fixpoint lookup_text (sel : nt_file_entry -> Z) (exe_comm : list byte)
    (fs : list nt_file_entry) : option Z :=
  match fs with
  | [] => Some 0
  | f :: fs' =>
      match basename (nf_path f) with
      | None => None
      | Some p => if streq exe_comm p then Some (sel f) else lookup_text sel exe_comm fs'
      end
  end.

(** The loop of [lookup_data_base] and [lookup_data_size], which looks at
    [files[i + 1]] behind a match; behind the last file that is the entry
    [after] the table. *)
Fixpoint lookup_data (sel : nt_file_entry -> Z) (exe_comm : list byte)
    (fs : list nt_file_entry) (after : nt_file_entry) : option Z :=
  match fs with
  | [] => Some 0
  | f :: fs' =>
      match basename (nf_path f) with
      | None => None
      | Some p =>
          if streq exe_comm p then
            let nx := match fs' with g :: _ => g | [] => after end in
            match basename (nf_path nx) with
            | None => None
            | Some p' =>
                if streq exe_comm p' then Some (sel nx)
                else lookup_data sel exe_comm fs' after
            end
          else lookup_data sel exe_comm fs' after
      end
  end.

Definition lookup_text_base (exe_comm : list byte) (fm : nt_file_struct) : option Z :=
  lookup_text nf_addr exe_comm (files fm).
Definition lookup_text_size (exe_comm : list byte) (fm : nt_file_struct) : option Z :=
  lookup_text nf_size exe_comm (files fm).
Definition lookup_data_base (exe_comm : list byte) (fm : nt_file_struct) : option Z :=
  lookup_data nf_addr exe_comm (files fm) file_zero.
Definition lookup_data_size (exe_comm : list byte) (fm : nt_file_struct) : option Z :=
  lookup_data nf_size exe_comm (files fm) file_zero.

(** The [switch (phdr[i].p_type)] of [parse_orig_phdrs]. *)
Definition orig_phdr_step (exe : image) (exe_comm : list byte) (fm : nt_file_struct)
    (text_base : Z) (ph : Z) (e : elfdesc_t) : option elfdesc_t :=
  let ty := get exe ph p_type in
  let rebase := if pie e =? 0 then 0 else text_base in
  if ty =? PT_LOAD then
    if negb (get exe ph p_offset =? 0) then
      match lookup_data_base exe_comm fm, lookup_data_size exe_comm fm with
      | Some db, Some ds =>
          let e1 := e{{ dataVaddr := db; dataSize := ds;
                        bssSize := wrap64 (get exe ph p_memsz - get exe ph p_filesz);
                        o_datafsize := get exe ph p_filesz }} in
          Some (if pie e =? 0
                then e1{{ bssVaddr := wrap64 (get exe ph p_vaddr + get exe ph p_filesz) }}
                else e1)
      | _, _ => None
      end
    else
      match lookup_text_size exe_comm fm with
      | Some ts => Some e{{ textVaddr := text_base; textSize := ts }}
      | None => None
      end
  else if ty =? PT_DYNAMIC then
    Some e{{ dynVaddr := wrap64 (get exe ph p_vaddr + rebase);
             dynSize := get exe ph p_memsz }}
  else if ty =? PT_GNU_EH_FRAME then
    Some e{{ ehframe_Vaddr := wrap64 (get exe ph p_vaddr + rebase);
             ehframe_Size := get exe ph p_memsz }}
  else if ty =? PT_INTERP then
    Some e{{ dynlinked ::= Z.add 1;
             interpVaddr := get exe ph p_vaddr;
             interpSize := if get exe ph p_memsz =? 0 then get exe ph p_filesz
                           else get exe ph p_memsz }}
  else Some e.

Fixpoint orig_phdr_loop (exe : image) (exe_comm : list byte) (fm : nt_file_struct)
    (text_base : Z) (phs : list Z) (e : elfdesc_t) : option elfdesc_t :=
  match phs with
  | [] => Some e
  | ph :: phs' =>
      match orig_phdr_step exe exe_comm fm text_base ph e with
      | Some e' => orig_phdr_loop exe exe_comm fm text_base phs' e'
      | None => None
      end
  end.

(** The addresses [&phdr[0]], ..., [&phdr[e_phnum - 1]] of the mapped
    executable. *)
Definition phdrs_of (exe : image) : list Z :=
  List.map (fun i => phdr_at (get exe 0 e_phoff) (Z.of_nat i))
    (seq 0 (Z.to_nat (get exe 0 e_phnum))).

(** [parse_orig_phdrs(elfdesc, memdesc, notedesc)] with
    [map_text_base = memdesc->text.base], [exe] the mapped executable and
    [fm = notedesc->nt_files].  [inl n] is the return value [n] without a
    descriptor update; [None] stands for a read from address 1.  (The
    function also copies the new [pie] into [memdesc->pie].) *)
Definition parse_orig_phdrs (e : elfdesc_t) (map_text_base : Z) (exe_comm : list byte)
    (exe : image) (fm : nt_file_struct) : option (Z + elfdesc_t) :=
  if map_text_base =? 0 then Some (inl (-1))
  else
    match lookup_text_base exe_comm fm with
    | None => None
    | Some text_base =>
        let e1 :=
          if get exe 0 e_type =? ET_DYN then e{{ pie ::= Z.add 1 }} else e in
        option_map inr (orig_phdr_loop exe exe_comm fm text_base (phdrs_of exe) e1)
    end.

Section WithHeaders.
Context {H : Headers}.

(** [build_elf_stats(handle)]: the value of [handle->elfstat.personality],
    from the descriptor, [opts.heuristics] and [global_hacks.stripped]. *)
Definition build_elf_stats (e : elfdesc_t) (heuristics stripped : Z) : Z :=
  let p0 := 0 in
  let p1 := if dynlinked e =? 0 then Z.lor p0 ELF_STATIC else p0 in
  let p2 := if pie e =? 0 then p1 else Z.lor p1 ELF_PIE in
  let p3 := if heuristics =? 0 then p2 else Z.lor p2 ELF_HEURISTICS in
  if stripped =? 0 then p3 else Z.lor p3 ELF_STRIPPED_SHDRS.

(** Bit [flag] is set in the personality [p]. *)
Definition has_bit (p flag : Z) : Prop := Z.land p flag <> 0.

(** The four personality flags are bits of their own. *)
Definition flags_disjoint : Prop :=
  ELF_STATIC <> 0 /\ ELF_PIE <> 0 /\ ELF_HEURISTICS <> 0 /\ ELF_STRIPPED_SHDRS <> 0 /\
  Z.land ELF_STATIC ELF_PIE = 0 /\ Z.land ELF_STATIC ELF_HEURISTICS = 0 /\
  Z.land ELF_STATIC ELF_STRIPPED_SHDRS = 0 /\ Z.land ELF_PIE ELF_HEURISTICS = 0 /\
  Z.land ELF_PIE ELF_STRIPPED_SHDRS = 0 /\ Z.land ELF_HEURISTICS ELF_STRIPPED_SHDRS = 0.

End WithHeaders.
End Personality.

(** ** Offsets from the program headers of the core: [xref_phdrs_for_offsets] *)

Module Xref.
Import Mem Elf Handle.

(** [a >= phdr[i].p_vaddr && a < phdr[i].p_vaddr + phdr[i].p_memsz] *)
Definition covers (m : image) (ph a : Z) : bool :=
  (get m ph p_vaddr <=? a) && (a <? wrap64 (get m ph p_vaddr + get m ph p_memsz)).

(** The body of the [for] for the header at [ph]; the tests run one after
    the other on the descriptor as the ones before have left it. *)
Definition xref_step (hacks : hacks_t) (ph : Z) (e : elfdesc_t) : elfdesc_t :=
  let m := mem e in
  let off := get m ph p_offset in
  let va := get m ph p_vaddr in
  let e := if get m ph p_type =? PT_NOTE
           then e{{ noteOffset := off; noteVaddr := va }} else e in
  let e := if covers m ph (interpVaddr e)
           then e{{ interpOffset := wrap64 (off + interpVaddr e - va) }} else e in
  let e := if covers m ph (dynVaddr e)
           then e{{ dynOffset := wrap64 (off + dynVaddr e - va) }} else e in
  let e := if negb (dynlinked e =? 0) then
             if covers m ph (ehframe_Vaddr e)
             then e{{ ehframeOffset := wrap64 (off + ehframe_Vaddr e - va) }} else e
           else
             if covers m ph (wrap64 (ehframe_vaddr hacks))
             then e{{ ehframeOffset := wrap64 (off + ehframe_vaddr hacks - va) }} else e in
  let e := if textVaddr e =? va
           then e{{ textOffset := off; textSize := get m ph p_memsz }} else e in
  if dataVaddr e =? va then
    let e := e{{ dataOffset := off }} in
    let e := if negb (pie e =? 0)
             then e{{ bssVaddr := wrap64 (dataVaddr e + o_datafsize e) }} else e in
    e{{ bssOffset := wrap64 (off + bssVaddr e - dataVaddr e) }}
  else e.

(** [xref_phdrs_for_offsets(memdesc, elfdesc)] with [global_hacks]. *)
Definition xref_phdrs_for_offsets (hacks : hacks_t) (e : elfdesc_t) : elfdesc_t :=
  fold_left (fun e ph => xref_step hacks ph e) (Personality.phdrs_of (mem e)) e.

End Xref.

(** ** SymRecon: [build_local_symtab_and_finalize] *)

Module SymRecon.
Import Mem Elf CStr.

(** [struct fde_func_data] (eh_frame.h): what [get_all_functions] returns
    for a function. *)
Record fde_func_data := { fn_addr : Z; fn_size : Z }.

Definition hex_digit (d : Z) : byte :=
  nth (Z.to_nat d) (lit "0123456789abcdef") Byte.x30.

Fixpoint hex_aux (fuel : nat) (n : Z) (acc : list byte) : list byte :=
  match fuel with
  | O => acc
  | S fuel' =>
      let acc' := hex_digit (n mod 16) :: acc in
      if n / 16 =? 0 then acc' else hex_aux fuel' (n / 16) acc'
  end.

(** What ["%lx"] prints for a 64-bit value. *)
Definition hex (n : Z) : list byte := hex_aux 16 n [].

(** [xfmtstrdup("sub_%lx", addr)] *)
Definition sub_name (addr : Z) : list byte := lit "sub_" ++ hex addr.

(** [heapAlloc(8192 * 32)] *)
Definition strtab_capacity : Z := 8192 * 32.

(** [(((STB_GLOBAL) << 4) + ((STT_FUNC) & 0xf))] *)
Definition func_info : Z := Z.shiftl STB_GLOBAL 4 + Z.land STT_FUNC 15.

(** The bytes of an [ElfW(Sym)]. *)
Definition encode_sym (name info other shndx value size : Z) : list byte :=
  le_split 4 name ++ le_split 1 info ++ le_split 1 other ++ le_split 2 shndx
  ++ le_split 8 value ++ le_split 8 size.

(** The first [for]: the symbol array and the string buffer, from those
    built so far; [symstroff] is the number of bytes in the buffer.  A
    name that does not fit the buffer is written past it, [None]. *)
Fixpoint build_symtab (fns : list fde_func_data) (text_shdr_index : Z)
    (symtab strtab : list byte) : option (list byte * list byte) :=
  match fns with
  | [] => Some (symtab, strtab)
  | f :: fns' =>
      let symstroff := Z.of_nat (length strtab) in
      let sname := sub_name (fn_addr f) in
      if symstroff + Z.of_nat (length sname) + 1 <=? strtab_capacity then
        build_symtab fns' text_shdr_index
          (symtab ++ encode_sym symstroff func_info 0 text_shdr_index
                       (fn_addr f) (fn_size f))
          (strtab ++ sname ++ [Byte.x00])
      else None
  end.

(** [&StringTable[shdr[i].sh_name]] *)
Definition name_at (m : image) (StringTable sh : Z) : list byte :=
  cstring_at m (StringTable + get m sh sh_name).

Record walk := { w_mem : image; w_dsymcount : Z }.

(** One round of the [for] that patches [.symtab] and [.strtab] and
    counts the dynamic symbols. *)
Definition patch_step (shdr StringTable symtab_offset symtab_size stloff symstroff i : Z)
    (s : walk) : walk :=
  let m := w_mem s in
  let sh := shdr_at shdr i in
  let name := name_at m StringTable sh in
  if streq name (lit ".symtab") then
    {| w_mem := set (set m sh sh_offset symtab_offset) sh sh_size symtab_size;
       w_dsymcount := w_dsymcount s |}
  else if streq name (lit ".strtab") then
    {| w_mem := set (set m sh sh_offset stloff) sh sh_size symstroff;
       w_dsymcount := w_dsymcount s |}
  else if streq name (lit ".dynsym") then
    {| w_mem := m; w_dsymcount := to_int (get m sh sh_size / sizeof_Sym) |}
  else s.

Fixpoint patch_loop (fuel : nat)
    (shdr StringTable symtab_offset symtab_size stloff symstroff i : Z)
    (s : walk) : walk :=
  match fuel with
  | O => s
  | S fuel' =>
      if i <? get (w_mem s) 0 e_shnum
      then patch_loop fuel' shdr StringTable symtab_offset symtab_size stloff
             symstroff (i + 1)
             (patch_step shdr StringTable symtab_offset symtab_size stloff
                symstroff i s)
      else s
  end.

(** The second [for]: the first [.got.plt] gets its size, then [break]. *)
Fixpoint got_loop (fuel : nat) (shdr StringTable dsymcount i : Z) (m : image) : image :=
  match fuel with
  | O => m
  | S fuel' =>
      if i <? get m 0 e_shnum then
        let sh := shdr_at shdr i in
        if streq (name_at m StringTable sh) (lit ".got.plt")
        then set m sh sh_size
               (wrap64 (dsymcount * sizeof_Addr + 3 * sizeof_Addr))
        else got_loop fuel' shdr StringTable dsymcount (i + 1) m
      else m
  end.

Definition shdr_fuel : nat := Z.to_nat (2 ^ 16).

(** The mapping of the output file after the two loops. *)
Definition patch_headers (m : image) (symtab_size symstroff : Z) : image :=
  let shdr := get m 0 e_shoff in
  let StringTable := get m (shdr_at shdr (get m 0 e_shstrndx)) sh_offset in
  let symtab_offset := size m in
  let stloff := size m + symtab_size in
  let s := patch_loop shdr_fuel shdr StringTable symtab_offset symtab_size
             stloff symstroff 0 {| w_mem := m; w_dsymcount := 0 |} in
  got_loop shdr_fuel shdr StringTable (w_dsymcount s) 0 (w_mem s).

(** [build_local_symtab_and_finalize(outfile, handle)]: the new contents
    of the output file [m], from the function table of
    [get_all_functions] (empty when that fails) and the static
    [text_shdr_index]. *)
Definition build_local_symtab_and_finalize (m : image) (fns : list fde_func_data)
    (text_shdr_index : Z) : option image :=
  match build_symtab fns text_shdr_index [] [] with
  | None => None
  | Some (symtab, strtab) =>
      Some (patch_headers m (sizeof_Sym * Z.of_nat (length fns))
              (Z.of_nat (length strtab))
            ++ symtab ++ strtab)
  end.

(** *** Vocabulary for the properties *)

Section Output.
Variable m : image.

Definition shoff_of : Z := get m 0 e_shoff.
Definition shnum_of : Z := get m 0 e_shnum.
Definition sh_of (i : Z) : Z := shdr_at shoff_of i.
Definition shend_of : Z := shoff_of + sizeof_Shdr * shnum_of.
Definition strtab_of : Z := get m (sh_of (get m 0 e_shstrndx)) sh_offset.

(** The name of section [i]. *)
Definition section_name (i : Z) : list byte := name_at m strtab_of (sh_of i).

(** The section header table lies behind the ELF header and inside the
    file, the section names behind the table: the layout that
    [build_section_headers] writes. *)
Definition shdrs_ok : Prop :=
  sizeof_Ehdr <= shoff_of /\ shend_of <= size m /\ shend_of <= strtab_of.

(** Section [i] is the first, or the last, of its name. *)
Definition first_named (name : string) (i : Z) : Prop :=
  0 <= i < shnum_of /\ section_name i = lit name /\
  forall j, 0 <= j < i -> section_name j <> lit name.

Definition last_named (name : string) (i : Z) : Prop :=
  0 <= i < shnum_of /\ section_name i = lit name /\
  forall j, i < j < shnum_of -> section_name j <> lit name.



End Output.

(** The section header table of [m] during the first loop, with the four
    values the loop stores. *)
Section Patched.
Variable m : image.
Variables symoff symsz stloff strsz : Z.

Definition named (i : Z) (name : string) : bool :=
  streq (section_name m i) (lit name).

(** What the first loop has made of section [j] after [i] rounds. *)
Definition patched_offset (i j : Z) : Z :=
  if (j <? i) && named j ".symtab" then wrap64 symoff
  else if (j <? i) && named j ".strtab" then wrap64 stloff
  else get m (sh_of m j) sh_offset.

Definition patched_size (i j : Z) : Z :=
  if (j <? i) && named j ".symtab" then wrap64 symsz
  else if (j <? i) && named j ".strtab" then wrap64 strsz
  else get m (sh_of m j) sh_size.

Fixpoint dynsym_count (n : nat) : Z :=
  match n with
  | O => 0
  | S n' =>
      if named (Z.of_nat n') ".dynsym"
      then to_int (get m (sh_of m (Z.of_nat n')) sh_size / sizeof_Sym)
      else dynsym_count n'
  end.

Record patch_inv (i : Z) (s : walk) : Prop := {
  pi_size : size (w_mem s) = size m;
  pi_head : firstn (Z.to_nat (shoff_of m)) (w_mem s) = firstn (Z.to_nat (shoff_of m)) m;
  pi_tail : skipn (Z.to_nat (shend_of m)) (w_mem s) = skipn (Z.to_nat (shend_of m)) m;
  pi_keep : forall j f, 0 <= j < shnum_of m -> 0 <= f_off f ->
      f_off f + Z.of_nat (f_width f) <= 24 \/
      40 <= f_off f /\ f_off f + Z.of_nat (f_width f) <= 64 ->
      get (w_mem s) (sh_of m j) f = get m (sh_of m j) f;
  pi_off : forall j, 0 <= j < shnum_of m ->
      get (w_mem s) (sh_of m j) sh_offset = patched_offset i j;
  pi_sz : forall j, 0 <= j < shnum_of m ->
      get (w_mem s) (sh_of m j) sh_size = patched_size i j;
  pi_count : w_dsymcount s = dynsym_count (Z.to_nat i)
}.
End Patched.

(** What the finalizer has made of the mapping [m]. *)
Record finalized (m pm : image) (symsz strsz : Z) : Prop := {
  fz_size : size pm = size m;
  fz_head : firstn (Z.to_nat (shoff_of m)) pm = firstn (Z.to_nat (shoff_of m)) m;
  fz_tail : skipn (Z.to_nat (shend_of m)) pm = skipn (Z.to_nat (shend_of m)) m;
  fz_keep : forall j f, 0 <= j < shnum_of m -> 0 <= f_off f ->
      f_off f + Z.of_nat (f_width f) <= 24 \/
      40 <= f_off f /\ f_off f + Z.of_nat (f_width f) <= 64 ->
      get pm (sh_of m j) f = get m (sh_of m j) f;
  fz_off : forall j, 0 <= j < shnum_of m ->
      get pm (sh_of m j) sh_offset =
      patched_offset m (size m) (size m + symsz) (shnum_of m) j;
  fz_sz : forall j, 0 <= j < shnum_of m -> section_name m j <> lit ".got.plt" ->
      get pm (sh_of m j) sh_size = patched_size m symsz strsz (shnum_of m) j;
  fz_got : forall g, first_named m ".got.plt" g ->
      get pm (sh_of m g) sh_size =
      wrap64 (dynsym_count m (Z.to_nat (shnum_of m)) * sizeof_Addr + 3 * sizeof_Addr)
}.

(** The symbol array and the string table of a function table, with the
    first name at offset [off]. *)
Fixpoint symtab_bytes (fns : list fde_func_data) (tsi off : Z) : list byte :=
  match fns with
  | [] => []
  | f :: r =>
      encode_sym off func_info 0 tsi (fn_addr f) (fn_size f)
      ++ symtab_bytes r tsi (off + Z.of_nat (length (sub_name (fn_addr f))) + 1)
  end.

Fixpoint strtab_bytes (fns : list fde_func_data) : list byte :=
  match fns with
  | [] => []
  | f :: r => sub_name (fn_addr f) ++ [Byte.x00] ++ strtab_bytes r
  end.

(** The offset of the [k]-th name in the string table. *)
Definition name_offset (fns : list fde_func_data) (k : nat) : Z :=
  Z.of_nat (length (strtab_bytes (firstn k fns))).



End SymRecon.

(** ** Sections: [get_internal_sh_offset], [build_section_headers],
    [core2ecfs] *)

(** What [ecfs.h] and the system headers define for the section table. *)
Class Layout := {
  MAX_SHDR_COUNT : Z;
  SHT_INJECTED : Z;
  UNKNOWN_SHDR_SIZE : Z;
  sizeof_fd_info_t : Z;
  sizeof_elf_stat_t : Z;
  ELF_PRARGSZ : Z;
  (** the bytes of an [elf_stat_t] whose [personality] is the argument *)
  elf_stat_image : Z -> list byte
}.

Module Sections.
Import Mem Elf CStr Handle.

Definition HEAP := 0.
Definition STACK := 1.
Definition VDSO := 2.
Definition VSYSCALL := 3.

(** [for (j = 0; j < e_phnum; j++) if (test(phdr[j])) return phdr[j].p_offset;]
    from index [j] on; [None] when the loop ends. *)
Fixpoint phdr_search (fuel : nat) (m : image) (test : Z -> bool) (j : Z) : option Z :=
  match fuel with
  | O => None
  | S fuel' =>
      if j <? get m 0 e_phnum then
        let ph := phdr_at (get m 0 e_phoff) j in
        if test ph then Some (get m ph p_offset)
        else phdr_search fuel' m test (j + 1)
      else None
  end.

Definition vaddr_is (m : image) (b : Z) (ph : Z) : bool :=
  get m ph p_vaddr =? b.

(** [base >= p_vaddr && base < p_vaddr + p_memsz] *)
Definition vaddr_covers (m : image) (b : Z) (ph : Z) : bool :=
  (get m ph p_vaddr <=? b) && (b <? wrap64 (get m ph p_vaddr + get m ph p_memsz)).

(** The outer loop over the mappings that carry the flag. *)
Fixpoint maps_search (m : image) (flag : ProcMaps.mappings_t -> Z)
    (test : image -> Z -> Z -> bool) (maps : list ProcMaps.mappings_t) : Z :=
  match maps with
  | [] => 0
  | mp :: rest =>
      if flag mp =? 0 then maps_search m flag test rest
      else match phdr_search TextMerge.phdr_fuel m (test m (ProcMaps.base mp)) 0 with
           | Some off => off
           | None => maps_search m flag test rest
           end
  end.

(** [get_internal_sh_offset(elfdesc, memdesc, type)]; [None] when
    [maps[type]] lies outside the array. *)
Definition get_internal_sh_offset (e : elfdesc_t) (md : memdesc_t) (type : Z) : option Z :=
  let m := mem e in
  let maps := firstn (Z.to_nat (mapcount md)) (maps md) in
  if type =? HEAP then Some (maps_search m ProcMaps.heap vaddr_is maps)
  else if type =? STACK then Some (maps_search m ProcMaps.stack vaddr_covers maps)
  else if type =? VDSO then Some (maps_search m ProcMaps.vdso vaddr_is maps)
  else if type =? VSYSCALL then Some (maps_search m ProcMaps.vsyscall vaddr_is maps)
  else if (type <? 0) || (mapcount md <? type) then Some 0
  else match Handle.maps md !! Z.to_nat type with
       | None => None
       | Some mp =>
           Some (match phdr_search TextMerge.phdr_fuel m (vaddr_is m (ProcMaps.base mp)) 0 with
                 | Some off => off
                 | None => 0
                 end)
       end.

(** What ["%d"] prints for an [int]. *)
Definition dec_digit (d : Z) : byte :=
  nth (Z.to_nat d) (lit "0123456789") Byte.x30.

Fixpoint dec_aux (fuel : nat) (n : Z) (acc : list byte) : list byte :=
  match fuel with
  | O => acc
  | S fuel' =>
      let acc' := dec_digit (n mod 10) :: acc in
      if n / 10 =? 0 then acc' else dec_aux fuel' (n / 10) acc'
  end.

Definition dec (n : Z) : list byte :=
  if n <? 0 then chr "-" :: dec_aux 10 (- n) [] else dec_aux 10 n [].

(** An [ElfW(Shdr)] in the array [shdr]. *)
Record Shdr := {
  shdr_name : Z;
  shdr_type : Z;
  shdr_flags : Z;
  shdr_addr : Z;
  shdr_offset : Z;
  shdr_size : Z;
  shdr_link : Z;
  shdr_info : Z;
  shdr_addralign : Z;
  shdr_entsize : Z
}.

(** The bytes of an [ElfW(Shdr)]. *)
Definition encode_shdr (s : Shdr) : list byte :=
  le_split 4 (shdr_name s) ++ le_split 4 (shdr_type s) ++ le_split 8 (shdr_flags s)
  ++ le_split 8 (shdr_addr s) ++ le_split 8 (shdr_offset s) ++ le_split 8 (shdr_size s)
  ++ le_split 4 (shdr_link s) ++ le_split 4 (shdr_info s)
  ++ le_split 8 (shdr_addralign s) ++ le_split 8 (shdr_entsize s).

(** The two arrays under construction: [scount] is the number of headers,
    [stoffset] the number of bytes of names. *)
Record table := { shdrs : list Shdr; StringTable : list byte }.

Definition scount (t : table) : Z := Z.of_nat (length (shdrs t)).
Definition stoffset (t : table) : Z := Z.of_nat (length (StringTable t)).

(** The assignments to [shdr[scount]], in the order the code makes them,
    then [strcpy(&StringTable[stoffset], name)], [stoffset += strlen(name) + 1],
    [scount++].  A field holds what fits its type. *)
Definition emit (type offset addr flags info link entsize size addralign : Z)
    (name : list byte) (t : table) : table :=
  {| shdrs := shdrs t ++
       [ {| shdr_name := wrap32 (stoffset t);
            shdr_type := wrap32 type;
            shdr_flags := wrap64 flags;
            shdr_addr := wrap64 addr;
            shdr_offset := wrap64 offset;
            shdr_size := wrap64 size;
            shdr_link := wrap32 link;
            shdr_info := wrap32 info;
            shdr_addralign := wrap64 addralign;
            shdr_entsize := wrap64 entsize |} ];
     StringTable := StringTable t ++ name ++ [Byte.x00] |}.

Section WithLayout.
Context {H : Headers} {L : Layout}.

(** [x <= 0 ? UNKNOWN_SHDR_SIZE : x] *)
Definition known (x : Z) : Z := if x <=? 0 then UNKNOWN_SHDR_SIZE else x.

(** The name of a library section and the next [data_count]. *)
Definition lib_section_name (l : lib_t) (data_count : Z) : list byte * Z :=
  let flags := lib_flags l in
  if flags =? Z.lor PF_R PF_X then (lib_name l ++ lit ".text", data_count)
  else if flags =? Z.lor PF_R PF_W
  then (lib_name l ++ lit ".data." ++ dec data_count, data_count + 1)
  else if flags =? PF_R then (lib_name l ++ lit ".relro", data_count)
  else (lib_name l ++ lit ".undef", data_count).

(** The loop over the libraries. *)
Fixpoint emit_libs (libs : list lib_t) (data_count : Z) (t : table) : table :=
  match libs with
  | [] => t
  | l :: rest =>
      let '(str, data_count') := lib_section_name l data_count in
      emit_libs rest data_count'
        (emit (if lib_injected l =? 0 then SHT_SHLIB else SHT_INJECTED)
              (lib_offset l) (lib_addr l) SHF_ALLOC 0 0 0 (lib_size l) 8 str t)
  end.

(** The sections in front of [.text]. *)
Definition emit_head (dynamic : bool) (e : elfdesc_t) (smeta : section_meta)
    (hacks : hacks_t) : table :=
  let t := {| shdrs := []; StringTable := [] |} in
  let t := emit SHT_NULL 0 0 0 0 0 0 0 0 (lit "") t in
  let t := if dynamic
    then emit SHT_PROGBITS (interpOffset e) (interpVaddr e) SHF_ALLOC 0 0 0
              (interpSize e) 1 (lit ".interp") t
    else t in
  let t := emit SHT_NOTE (noteOffset e) (noteVaddr e) SHF_ALLOC 0 0 0
              (noteSize e) 4 (lit ".note") t in
  if dynamic then
    let t := emit SHT_GNU_HASH (hashOff smeta) (hashVaddr smeta) SHF_ALLOC 0 0 0
                (known (hash_size hacks)) 4 (lit ".hash") t in
    let dynsym_index := scount t in
    let t := emit SHT_DYNSYM (dsymOff smeta) (dsymVaddr smeta) SHF_ALLOC 0
                (scount t + 1) sizeof_Sym (dstrOff smeta - dsymOff smeta)
                sizeof_long (lit ".dynsym") t in
    let t := emit SHT_STRTAB (dstrOff smeta) (dstrVaddr smeta) SHF_ALLOC 0 0
                sizeof_Sym (strSiz smeta) 1 (lit ".dynstr") t in
    let t := emit SHT_RELA (relaOff smeta) (relaVaddr smeta) SHF_ALLOC 0
                dynsym_index sizeof_Rela (known (rela_size hacks)) sizeof_long
                (lit ".rela.dyn") t in
    let t := emit SHT_RELA (plt_relaOff smeta) (plt_relaVaddr smeta) SHF_ALLOC 0
                dynsym_index sizeof_Rela (known (plt_rela_size hacks)) sizeof_long
                (lit ".rela.plt") t in
    let t := emit SHT_PROGBITS (initOff smeta) (initVaddr smeta)
                (Z.lor SHF_ALLOC SHF_EXECINSTR) 0 0 0 (known (init_size hacks))
                sizeof_long (lit ".init") t in
    let init_end := wrap64 (initVaddr smeta + known (init_size hacks)) in
    emit SHT_PROGBITS
         (wrap64 (initOff smeta + known (init_size hacks))
          + (Z.land (wrap64 (init_end + 16)) (wrap64 (Z.lnot 15)) - init_end))
         (plt_vaddr hacks) (Z.lor SHF_ALLOC SHF_EXECINSTR) 0 0 16
         (known (plt_size hacks)) 16 (lit ".plt") t
  else t.

(** [.text] to [.heap]; the offset of [.eh_frame] moves over four zero
    bytes in [elfdesc->mem], which sets the workaround flag.  [None] when
    that test reads outside the mapping. *)
Definition emit_body (dynamic : bool) (e : elfdesc_t) (md : memdesc_t)
    (smeta : section_meta) (hacks : hacks_t) (t : table) : option (table * Z) :=
  let t := emit SHT_PROGBITS (textOffset e) (textVaddr e)
              (Z.lor SHF_ALLOC SHF_EXECINSTR) 0 0 0 (textSize e) 16 (lit ".text") t in
  let t := if dynamic then
      let t := emit SHT_PROGBITS (finiOff smeta) (finiVaddr smeta)
                  (Z.lor SHF_ALLOC SHF_EXECINSTR) 0 0 0 (known (fini_size hacks)) 16
                  (lit ".fini") t in
      emit SHT_PROGBITS (ehframeOffset e) (ehframe_Vaddr e)
           (Z.lor SHF_ALLOC SHF_EXECINSTR) 0 0 0 (ehframe_Size e) 4
           (lit ".eh_frame_hdr") t
    else t in
  let eh_offset :=
    if dynamic then wrap64 (ehframeOffset e + ehframe_Size e) else wrap64 (ehframeOffset e) in
  if size (mem e) <? eh_offset + 4 then None else
  let zeroes := load 4 (mem e) eh_offset =? 0 in
  let ehsz := wrap64 (ehframe_Vaddr e + ehframe_Size e - textVaddr e) in
  let t := emit SHT_PROGBITS (if zeroes then eh_offset + 4 else eh_offset)
              (if dynamic then ehframe_Vaddr e + ehframe_Size e else ehframe_vaddr hacks)
              (Z.lor SHF_ALLOC SHF_EXECINSTR) 0 0 0
              (if ehframe_size hacks <=? 0 then ehsz else ehframe_size hacks) 8
              (lit ".eh_frame") t in
  let t := if dynamic then
      let t := emit SHT_DYNAMIC (dynOffset e) (dynVaddr e) (Z.lor SHF_ALLOC SHF_WRITE)
                  0 0 16 (dynSize e) sizeof_long (lit ".dynamic") t in
      emit SHT_PROGBITS (gotOff smeta) (gotVaddr smeta) (Z.lor SHF_ALLOC SHF_WRITE)
           0 0 sizeof_long (known (got_size hacks)) sizeof_long (lit ".got.plt") t
    else t in
  let t := emit SHT_PROGBITS (dataOffset e) (dataVaddr e) (Z.lor SHF_ALLOC SHF_WRITE)
              0 0 0 (dataSize e) sizeof_long (lit ".data") t in
  let t := emit SHT_PROGBITS (bssOffset e) (bssVaddr e) (Z.lor SHF_ALLOC SHF_WRITE)
              0 0 0 (bssSize e) sizeof_long (lit ".bss") t in
  match get_internal_sh_offset e md HEAP with
  | None => None
  | Some heap_offset =>
      Some (emit SHT_PROGBITS heap_offset (heap_base md) (Z.lor SHF_ALLOC SHF_WRITE)
              0 0 0 (heap_size md) sizeof_long (lit ".heap") t,
            if zeroes then 1 else eh_frame_offset_workaround hacks)
  end.

(** [.prstatus] to [.shstrtab]. *)
Definition emit_tail (e : elfdesc_t) (md : memdesc_t) (ef : ecfs_file_t)
    (e_shoff : Z) (t : table) : option table :=
  let t := emit SHT_PROGBITS (prstatus_offset ef) 0 0 0 0 sizeof_elf_prstatus
              (prstatus_size ef) 4 (lit ".prstatus") t in
  let t := emit SHT_PROGBITS (fdinfo_offset ef) 0 0 0 0 sizeof_fd_info_t
              (ef_fdinfo_size ef) 4 (lit ".fdinfo") t in
  let t := emit SHT_PROGBITS (siginfo_offset ef) 0 0 0 0 sizeof_siginfo_t
              (siginfo_size ef) 4 (lit ".siginfo") t in
  let t := emit SHT_PROGBITS (auxv_offset ef) 0 0 0 0 8 (ef_auxv_size ef) 8
              (lit ".auxvector") t in
  let t := emit SHT_PROGBITS (exepath_offset ef) 0 0 0 0 8 (exepath_size ef) 1
              (lit ".exepath") t in
  let t := emit SHT_PROGBITS (personality_offset ef) 0 0 0 0 sizeof_elf_stat_t
              (personality_size ef) 1 (lit ".personality") t in
  let t := emit SHT_PROGBITS (arglist_offset ef) 0 0 0 0 1 (arglist_size ef) 1
              (lit ".arglist") t in
  match get_internal_sh_offset e md STACK, get_internal_sh_offset e md VDSO,
        get_internal_sh_offset e md VSYSCALL with
  | Some stack_offset, Some vdso_offset, Some vsyscall_offset =>
      let t := emit SHT_PROGBITS stack_offset (stack_base md) (Z.lor SHF_ALLOC SHF_WRITE)
                  0 0 0 (stack_size md) sizeof_long (lit ".stack") t in
      let t := emit SHT_PROGBITS vdso_offset (vdso_base md) (Z.lor SHF_ALLOC SHF_WRITE)
                  0 0 0 (vdso_size md) sizeof_long (lit ".vdso") t in
      let t := emit SHT_PROGBITS vsyscall_offset (vsyscall_base md)
                  (Z.lor SHF_ALLOC SHF_WRITE) 0 0 0 (vsyscall_size md) sizeof_long
                  (lit ".vsyscall") t in
      let t := emit SHT_SYMTAB 0 0 0 0 (scount t + 1) sizeof_Sym 0 4 (lit ".symtab") t in
      let t := emit SHT_STRTAB 0 0 0 0 0 0 0 1 (lit ".strtab") t in
      Some (emit SHT_STRTAB (e_shoff + sizeof_Shdr * (scount t + 1)) 0 0 0 0 0
              (stoffset t + Z.of_nat (length (lit ".shstrtab")) + 1) 1
              (lit ".shstrtab") t)
  | _, _, _ => None
  end.

(** The six stores into the ELF header that end [build_section_headers]. *)
Definition patch_ehdr (f : image) (entry shoff shstrndx shnum : Z) : image :=
  let f := set f 0 e_entry entry in
  let f := set f 0 Elf.e_shoff shoff in
  let f := set f 0 e_shstrndx shstrndx in
  let f := set f 0 e_shentsize sizeof_Shdr in
  let f := set f 0 e_shnum shnum in
  set f 0 e_type ET_NONE.

(** What [build_section_headers] leaves behind: the output file, its
    return value and the two globals it sets. *)
Record built := {
  b_file : image;
  b_scount : Z;
  b_text_shdr_index : Z;
  b_workaround : Z
}.

(** [build_section_headers(fd, outfile, handle, ecfs_file)], with [file]
    the bytes written to [fd] so far.  The arrays hold [MAX_SHDR_COUNT]
    headers and [MAX_SHDR_COUNT * 64] bytes of names; filling them past
    that is [None]. *)
Definition build_section_headers (file : image) (personality : Z) (e : elfdesc_t)
    (md : memdesc_t) (libs : list lib_t) (smeta : section_meta) (hacks : hacks_t)
    (ef : ecfs_file_t) : option built :=
  let dynamic := Z.land personality ELF_STATIC =? 0 in
  let e_shoff := size file in
  let t := emit_head dynamic e smeta hacks in
  let text_shdr_index := scount t in
  match emit_body dynamic e md smeta hacks t with
  | None => None
  | Some (t, workaround) =>
      let t := if dynamic then emit_libs libs 0 t else t in
      match emit_tail e md ef e_shoff t with
      | None => None
      | Some t =>
          if (MAX_SHDR_COUNT <? scount t) || (MAX_SHDR_COUNT * 64 <? stoffset t)
          then None
          else
            let e_shstrndx_ := scount t - 1 in
            let f := file ++ concat (List.map encode_shdr (shdrs t)) ++ StringTable t in
            Some {| b_file := patch_ehdr f (o_entry md) e_shoff e_shstrndx_ (scount t);
                    b_scount := scount t;
                    b_text_shdr_index := text_shdr_index;
                    b_workaround := workaround |}
      end
  end.

(** The offsets [core2ecfs] computes before it writes anything. *)
Definition ecfs_layout (st_size : Z) (nd : Notes.notedesc_t) (md : memdesc_t) : ecfs_file_t :=
  let prstatus_offset := st_size in
  let prstatus_size := Notes.thread_count nd * sizeof_elf_prstatus in
  let fdinfo_offset := prstatus_offset + Notes.thread_count nd * sizeof_elf_prstatus in
  let fdinfo_size := Handle.fdinfo_size md in
  let siginfo_offset := fdinfo_offset + fdinfo_size in
  let siginfo_size := sizeof_siginfo_t in
  let auxv_offset := siginfo_offset + siginfo_size in
  let auxv_size := Notes.auxv_size nd in
  let exepath_offset := auxv_offset + auxv_size in
  let exepath_size := Z.of_nat (length (exe_path md)) + 1 in
  let personality_offset := exepath_offset + exepath_size in
  let personality_size := sizeof_elf_stat_t in
  let arglist_offset := personality_offset + personality_size in
  let arglist_size := ELF_PRARGSZ in
  {| prstatus_offset := prstatus_offset; prstatus_size := prstatus_size;
     fdinfo_offset := fdinfo_offset; ef_fdinfo_size := fdinfo_size;
     siginfo_offset := siginfo_offset; siginfo_size := siginfo_size;
     auxv_offset := auxv_offset; ef_auxv_size := auxv_size;
     exepath_offset := exepath_offset; exepath_size := exepath_size;
     personality_offset := personality_offset; personality_size := personality_size;
     arglist_offset := arglist_offset; arglist_size := arglist_size;
     stb_offset := arglist_offset + arglist_size |}.

(** [write(fd, buf, n)] from a buffer that may be NULL: the kernel refuses
    a NULL buffer and nothing is written. *)
Definition write_buf (buf : option (list byte)) (n : Z) : list byte :=
  match buf with
  | Some b => slice b 0 n
  | None => []
  end.

(** The [prstatus] structs of the threads [i .. thread_count - 1]. *)
Fixpoint thread_prstatus (n : nat) (i : Z) (nd : Notes.notedesc_t) : option (list byte) :=
  match n with
  | O => Some []
  | S n' =>
      match Notes.thread_core_info nd !! i, thread_prstatus n' (i + 1) nd with
      | Some p, Some rest => Some (slice p 0 sizeof_elf_prstatus ++ rest)
      | _, _ => None
      end
  end.

(** What [core2ecfs] has written when it calls [build_section_headers];
    a failed write of the first [prstatus] ends the program. *)
Definition payload (e : elfdesc_t) (md : memdesc_t) (nd : Notes.notedesc_t)
    (fdinfo : option (list byte)) (arglist : list byte) (personality : Z) : option image :=
  match Notes.prstatus nd,
        thread_prstatus (Z.to_nat (Notes.thread_count nd - 1)) 1 nd with
  | Some p, Some threads =>
      Some (mem e
            ++ slice p 0 sizeof_elf_prstatus
            ++ threads
            ++ write_buf fdinfo (Handle.fdinfo_size md)
            ++ write_buf (Notes.siginfo nd) sizeof_siginfo_t
            ++ write_buf (Notes.auxv nd) (Notes.auxv_size nd)
            ++ (exe_path md ++ [Byte.x00])
            ++ elf_stat_image personality
            ++ slice arglist 0 ELF_PRARGSZ)
  | _, _ => None
  end.

(** [core2ecfs(outfile, handle)]: the contents of [outfile], with
    [opts.heuristics], [global_hacks], the buffers [memdesc->fdinfo] and
    [handle->arglist], and the function table that [get_all_functions]
    finds in the file. *)
Definition core2ecfs (e : elfdesc_t) (md : memdesc_t) (nd : Notes.notedesc_t)
    (libs : list lib_t) (smeta : section_meta) (hacks : hacks_t) (heuristics : Z)
    (fdinfo : option (list byte)) (arglist : list byte)
    (fns : list SymRecon.fde_func_data) : option image :=
  let ef := ecfs_layout (size (mem e)) nd md in
  let personality := Personality.build_elf_stats e heuristics (stripped hacks) in
  match payload e md nd fdinfo arglist personality with
  | None => None
  | Some file =>
      match build_section_headers file personality e md libs smeta hacks ef with
      | None => None
      | Some b =>
          let f := set (b_file b) 0 Elf.e_shoff (stb_offset ef) in
          let f := set f 0 e_shnum (b_scount b) in
          SymRecon.build_local_symtab_and_finalize f fns (b_text_shdr_index b)
      end
  end.

(** *** Vocabulary for the properties *)

Fixpoint lib_names (libs : list lib_t) (data_count : Z) : list (list byte) :=
  match libs with
  | [] => []
  | l :: rest =>
      let '(str, data_count') := lib_section_name l data_count in
      str :: lib_names rest data_count'
  end.

Definition head_names (dynamic : bool) : list (list byte) :=
  [lit ""] ++ (if dynamic then [lit ".interp"] else []) ++ [lit ".note"]
  ++ (if dynamic
      then [lit ".hash"; lit ".dynsym"; lit ".dynstr"; lit ".rela.dyn";
            lit ".rela.plt"; lit ".init"; lit ".plt"]
      else []).

Definition body_names (dynamic : bool) : list (list byte) :=
  [lit ".text"] ++ (if dynamic then [lit ".fini"; lit ".eh_frame_hdr"] else [])
  ++ [lit ".eh_frame"]
  ++ (if dynamic then [lit ".dynamic"; lit ".got.plt"] else [])
  ++ [lit ".data"; lit ".bss"; lit ".heap"].

Definition tail_names : list (list byte) :=
  [lit ".prstatus"; lit ".fdinfo"; lit ".siginfo"; lit ".auxvector";
   lit ".exepath"; lit ".personality"; lit ".arglist"; lit ".stack";
   lit ".vdso"; lit ".vsyscall"; lit ".symtab"; lit ".strtab"; lit ".shstrtab"].

(** The names of the sections of an output, in the order of the table. *)
Definition section_names (dynamic : bool) (libs : list lib_t) : list (list byte) :=
  head_names dynamic ++ body_names dynamic
  ++ (if dynamic then lib_names libs 0 else []) ++ tail_names.

(** The names in front of the fixed tail of the table. *)
Definition front_names (dynamic : bool) (libs : list lib_t) : list (list byte) :=
  head_names dynamic ++ body_names dynamic ++ (if dynamic then lib_names libs 0 else []).

End WithLayout.

(** The string table that holds the names [ns], one after the other. *)
Definition strings (ns : list (list byte)) : list byte :=
  concat (List.map (fun n => n ++ [Byte.x00]) ns).

(** The table [t] holds one header per name of [ns], in order, and the
    [sh_name] of each is the 32-bit offset of its name in the string table. *)
Record holds (t : table) (ns : list (list byte)) : Prop := {
  h_len : length (shdrs t) = length ns;
  h_strings : StringTable t = strings ns;
  h_name : forall j s, shdrs t !! j = Some s ->
      shdr_name s = wrap32 (Z.of_nat (length (strings (firstn j ns))))
}.

(** The file [core2ecfs] hands to the symbol reconstruction: the table
    [t] and its string table behind [file], the header patched by
    [build_section_headers] and then by [core2ecfs]. *)
Definition sealed (file : image) (t : table) (entry stb : Z) : image :=
  let f := patch_ehdr (file ++ concat (List.map encode_shdr (shdrs t)) ++ StringTable t)
             entry (size file) (scount t - 1) (scount t) in
  set (set f 0 Elf.e_shoff stb) 0 e_shnum (scount t).

(** The shape of the name of a library section. *)
Definition lib_like (n : list byte) : Prop :=
  (exists a, n = a ++ lit ".text") \/
  (exists a, n = a ++ lit ".relro") \/
  (exists a, n = a ++ lit ".undef") \/
  (exists a d, n = a ++ [d] /\ In d (lit "0123456789")).

(** The bytes of the core that [core2ecfs] keeps: everything but the six
    header fields [e_type], [e_entry], [e_shoff], [e_shentsize], [e_shnum]
    and [e_shstrndx]. *)
Definition in_kept_ehdr (off len : Z) : Prop :=
  off + len <= 16 \/ 18 <= off /\ off + len <= 24 \/ 32 <= off /\ off + len <= 40 \/
  48 <= off /\ off + len <= 58 \/ 64 <= off.



End Sections.

(** ** Sample inputs

    Small images and tables on which the model runs; the examples of
    Part II evaluate the code on them. *)

Module Sample.
Import Mem Elf.

(** The values of the absent headers on Linux x86-64 (glibc); the
    descriptor of a note follows its name, padded to four bytes, as the
    ELF note format has it. *)
Definition linux_x86_64 : Headers :=
  {| sizeof_elf_prstatus := 336;
     sizeof_elf_prpsinfo := 136;
     sizeof_siginfo_t := 128;
     sizeof_elf_fpregset_t := 512;
     ELFNOTE_DESC := fun m notes =>
       notes + sizeof_Nhdr + Z.land (get m notes n_namesz + 3) (Z.lnot 3);
     ELF_STATIC := 2;
     ELF_PIE := 4;
     ELF_HEURISTICS := 16;
     ELF_STRIPPED_SHDRS := 256;
     NET_TCP := 1;
     NET_UDP := 2 |}.

Definition zeros (n : nat) : list byte := repeat Byte.x00 n.

Definition ehdr (type phoff shoff phnum shnum shstrndx : Z) : list byte :=
  bytes_of_string (String "127"%char "ELF") ++ le_split 12 0x000000000000010102
  ++ le_split 2 type ++ le_split 2 62 ++ le_split 4 1 ++ le_split 8 0
  ++ le_split 8 phoff ++ le_split 8 shoff ++ le_split 4 0 ++ le_split 2 64
  ++ le_split 2 56 ++ le_split 2 phnum ++ le_split 2 64 ++ le_split 2 shnum
  ++ le_split 2 shstrndx.

Definition phdr (type flags offset vaddr filesz memsz : Z) : list byte :=
  le_split 4 type ++ le_split 4 flags ++ le_split 8 offset ++ le_split 8 vaddr
  ++ le_split 8 vaddr ++ le_split 8 filesz ++ le_split 8 memsz
  ++ le_split 8 4096.

Definition shdr (name type offset size : Z) : list byte :=
  le_split 4 name ++ le_split 4 type ++ le_split 8 0 ++ le_split 8 0
  ++ le_split 8 offset ++ le_split 8 size ++ le_split 4 0 ++ le_split 4 0
  ++ le_split 8 1 ++ le_split 8 0.

Definition nhdr (namesz descsz type : Z) : list byte :=
  le_split 4 namesz ++ le_split 4 descsz ++ le_split 4 type.

(** A core of three pages: the headers (a note header, the text header
    with one page in the file and two in memory, the data header), the
    page the kernel left for the text, and a page of data. *)
Definition core : image :=
  ehdr ET_CORE 64 0 3 0 0
  ++ phdr PT_NOTE 0 232 0 0 0
  ++ phdr PT_LOAD (PF_R + PF_X) 4096 0x400000 4096 8192
  ++ phdr PT_LOAD (PF_R + PF_W) 8192 0x601000 4096 4096
  ++ zeros (Z.to_nat 3864)
  ++ zeros (Z.to_nat 4096)
  ++ repeat Byte.x2a (Z.to_nat 4096).

(** A position-independent executable as current linkers lay it out: type
    DYN, a read-only LOAD at address 0, the executable LOAD behind it, an
    interpreter. *)
Definition pie_exe : image :=
  ehdr ET_DYN 64 0 4 0 0
  ++ phdr PT_INTERP PF_R 0x318 0x318 28 28
  ++ phdr PT_LOAD PF_R 0 0 0x1000 0x1000
  ++ phdr PT_LOAD (PF_R + PF_X) 0x1000 0x1000 0x1000 0x1000
  ++ phdr PT_LOAD (PF_R + PF_W) 0x2000 0x3000 0x1000 0x2000.

(** The NT_FILE table of a process that runs /usr/bin/app. *)
Definition app_files : Notes.nt_file_struct :=
  {| Notes.fcount := 3; Notes.page_size := 4096;
     Notes.files :=
       [ {| Notes.nf_addr := 0x555555554000; Notes.nf_size := 0x1000;
            Notes.nf_pgoff := 0; Notes.nf_path := CStr.lit "/usr/bin/app" |};
         {| Notes.nf_addr := 0x555555555000; Notes.nf_size := 0x1000;
            Notes.nf_pgoff := 1; Notes.nf_path := CStr.lit "/usr/bin/app" |};
         {| Notes.nf_addr := 0x7ffff7dd3000; Notes.nf_size := 0x1000;
            Notes.nf_pgoff := 0; Notes.nf_path := CStr.lit "/lib/libc.so.6" |} ] |}.

(** A maps file: the thread stack is the third of eighteen lines. *)
Definition maps_line (s : string) : list byte := CStr.lit s ++ [CStr.chr "010"].

Definition maps_lines : list (list byte) :=
  [ maps_line "00400000-0040c000 r-xp 00000000 08:01 1311 /bin/cat";
    maps_line "0060b000-0060c000 rw-p 0000b000 08:01 1311 /bin/cat";
    maps_line "7f2a40000000-7f2a40021000 rw-p 00000000 00:00 0 [stack:4321]";
    maps_line "7f2a44000000-7f2a441bb000 r-xp 00000000 08:01 2977 /lib/libc-2.19.so";
    maps_line "7ffc3a000000-7ffc3a021000 rw-p 00000000 00:00 0 [stack]";
    maps_line "01c3a000-01c5b000 rw-p 00000000 00:00 0 [heap]";
    maps_line "7f2a45000000-7f2a45002000 r-xp 00000000 08:01 555 /usr/bin/helper" ]
  ++ repeat (maps_line "7f2a46000000-7f2a46001000 rw-p 00000000 00:00 0 ") 11.

(** A socket that both kernel tables list under inode 7. *)
Definition tcp_table : list FdLinks.net_line :=
  [ {| FdLinks.local_addr := 0x0100007F; FdLinks.local_port := 8080;
       FdLinks.rem_addr := 0x0100000A; FdLinks.rem_port := 443;
       FdLinks.inode := 7 |} ].

Definition udp_table : list FdLinks.net_line :=
  [ {| FdLinks.local_addr := 0; FdLinks.local_port := 53;
       FdLinks.rem_addr := 0; FdLinks.rem_port := 0;
       FdLinks.inode := 7 |} ].

(** Two pages of text as read from the live process. *)
Definition text : list byte := repeat Byte.x90 (Z.to_nat 8192).


(** A note region of two entries: an NT_PRSTATUS whose descriptor has 8
    bytes instead of 336, and an NT_AUXV of 16 bytes. *)
Definition notes : image :=
  nhdr 5 8 NT_PRSTATUS ++ CStr.lit "CORE" ++ zeros 4 ++ zeros 8
  ++ nhdr 5 16 NT_AUXV ++ CStr.lit "CORE" ++ zeros 4 ++ repeat Byte.x07 16.

(** A note region of two entries whose first has a name of 5 and a
    descriptor of 6 bytes: an NT_PRSTATUS of the wrong size, then, 28 bytes
    on, an NT_AUXV of 16 bytes. *)
Definition odd_notes : image :=
  nhdr 5 6 NT_PRSTATUS ++ CStr.lit "CORE" ++ zeros 4 ++ repeat Byte.x2a 6 ++ zeros 2
  ++ nhdr 5 16 NT_AUXV ++ CStr.lit "CORE" ++ zeros 4 ++ repeat Byte.x07 16.

(** A process with one mapping, and a [pread] that delivers. *)
Definition one_map : Handle.memdesc_t :=
  {| Handle.mapcount := 1;
     Handle.maps := [ProcMaps.apply_update (ProcMaps.SetBase 0x400000)
                       (ProcMaps.apply_update (ProcMaps.SetSize 0x1000)
                          ProcMaps.mapping_zero)];
     Handle.task_pid := 4321; Handle.text_base := 0x400000;
     Handle.text_size := 0x1000; Handle.textseg := []; Handle.exe_path := CStr.lit "/bin/cat";
     Handle.exe_comm := CStr.lit "cat"; Handle.md_pie := 0; Handle.heap_base := 0;
     Handle.heap_size := 0; Handle.stack_base := 0; Handle.stack_size := 0;
     Handle.vdso_base := 0; Handle.vdso_size := 0; Handle.vsyscall_base := 0;
     Handle.vsyscall_size := 0; Handle.o_entry := 0; Handle.fdinfo_size := 0 |}.

Definition pread_all (pid vaddr len : Z) : Z * list byte :=
  (len, repeat Byte.x90 (Z.to_nat len)).

End Sample.

(** ** A sample run of [core2ecfs] *)

Module SampleRun.
Import Mem Elf Handle Sample.

(** Values for the absent constants of the section table; [elf_stat_t] is
    taken to be the personality word alone. *)
Definition layout : Layout :=
  {| MAX_SHDR_COUNT := 2048;
     SHT_INJECTED := 0x200000;
     UNKNOWN_SHDR_SIZE := 64;
     sizeof_fd_info_t := 4144;
     sizeof_elf_stat_t := 4;
     ELF_PRARGSZ := 80;
     elf_stat_image := fun p => le_split 4 p |}.

(** Two functions as [get_all_functions] reports them. *)
Definition fns : list SymRecon.fde_func_data :=
  [ {| SymRecon.fn_addr := 0x400100; SymRecon.fn_size := 32 |};
    {| SymRecon.fn_addr := 0x4002a0; SymRecon.fn_size := 64 |} ].

(** A file of four sections: the null section, a [.dynsym] of two
    symbols, a [.got.plt], the section names. *)
Definition tiny_ecfs : image :=
  ehdr ET_NONE 0 64 0 4 3
  ++ shdr 0 SHT_NULL 0 0
  ++ shdr 1 SHT_DYNSYM 0 48
  ++ shdr 9 SHT_PROGBITS 0 0
  ++ shdr 18 SHT_STRTAB 320 28
  ++ [Byte.x00] ++ CStr.lit ".dynsym" ++ [Byte.x00] ++ CStr.lit ".got.plt"
  ++ [Byte.x00] ++ CStr.lit ".shstrtab" ++ [Byte.x00].

(** The handle of a dynamically linked process dumped into [core]. *)
Definition elfdesc : elfdesc_t :=
  (elfdesc_zero core){{ dynlinked := 1; noteOffset := 232;
    textVaddr := 0x400000; textOffset := 4096; textSize := 8192;
    dataVaddr := 0x601000; dataOffset := 8192; dataSize := 4096;
    ehframe_Vaddr := 0x400800; ehframeOffset := 6144; ehframe_Size := 64 }}.

Definition memdesc : memdesc_t :=
  {| mapcount := 0; maps := []; task_pid := 4321; text_base := 0x400000;
     text_size := 8192; textseg := []; exe_path := CStr.lit "/bin/cat";
     exe_comm := CStr.lit "cat"; md_pie := 0; heap_base := 0x1c3a000;
     heap_size := 0x21000; stack_base := 0x7ffc3a000000; stack_size := 0x21000;
     vdso_base := 0; vdso_size := 0; vsyscall_base := 0; vsyscall_size := 0;
     o_entry := 0x400400; fdinfo_size := 0 |}.

Definition notedesc : Notes.notedesc_t :=
  {| Notes.thread_count := 1;
     Notes.prstatus := Some (zeros (Z.to_nat 336));
     Notes.thread_core_info := <[0 := zeros (Z.to_nat 336)]> ∅;
     Notes.psinfo := None;
     Notes.siginfo := Some (zeros (Z.to_nat 128));
     Notes.auxv := Some (zeros (Z.to_nat 32));
     Notes.auxv_size := 32;
     Notes.nt_files := None;
     Notes.fpu := None |}.

Definition libs : list lib_t :=
  [ {| lib_name := CStr.lit "libc-2.19.so"; lib_path := CStr.lit "/lib/libc-2.19.so";
       lib_addr := 0x7f2a44000000; lib_size := 0x1bb000; lib_flags := 5;
       lib_offset := 0; lib_injected := 0 |};
    {| lib_name := CStr.lit "libc-2.19.so"; lib_path := CStr.lit "/lib/libc-2.19.so";
       lib_addr := 0x7f2a443bb000; lib_size := 0x2000; lib_flags := 6;
       lib_offset := 0; lib_injected := 0 |} ].

Definition smeta : section_meta :=
  {| relVaddr := 0; relOff := 0; relaVaddr := 0; relaOff := 0;
     plt_relVaddr := 0; plt_relOff := 0; plt_relaVaddr := 0; plt_relaOff := 0;
     gotVaddr := 0x601000; gotOff := 8192; hashVaddr := 0; hashOff := 0;
     initVaddr := 0x400300; initOff := 4864; finiVaddr := 0; finiOff := 0;
     dsymVaddr := 0x400200; dsymOff := 4608; dstrVaddr := 0x400260; dstrOff := 4704;
     strSiz := 64; pltSiz := 0 |}.

Definition arglist : list byte := zeros (Z.to_nat 80).

Definition personality : Z :=
  @Personality.build_elf_stats linux_x86_64 elfdesc 0 (stripped hacks_zero).

(** What [core2ecfs] writes before the section header table, and the
    file it leaves. *)
Definition payload_file : image :=
  default [] (@Sections.payload linux_x86_64 layout elfdesc memdesc notedesc
                (Some []) arglist personality).

Definition ecfs : image :=
  default [] (@Sections.core2ecfs linux_x86_64 layout elfdesc memdesc notedesc libs
                smeta hacks_zero 0 (Some []) arglist fns).

End SampleRun.

(** ** Sample inputs for the edge cases *)

Module SampleEdges.
Import Mem Elf Handle Sample.

(** The core with the text merged in by [merge_text_image]. *)
Definition merged : image :=
  default [] (TextMerge.merge_text_image core [] 0x400000 text 8192).

(** A file of three sections without a [.dynsym]: the null section, a
    [.got.plt], the section names. *)
Definition static_ecfs : image :=
  ehdr ET_NONE 0 64 0 3 2
  ++ shdr 0 SHT_NULL 0 0
  ++ shdr 1 SHT_PROGBITS 0 0
  ++ shdr 10 SHT_STRTAB 256 20
  ++ [Byte.x00] ++ CStr.lit ".got.plt" ++ [Byte.x00] ++ CStr.lit ".shstrtab"
  ++ [Byte.x00].

(** [SampleRun.tiny_ecfs] behind the finalizer. *)
Definition tiny_out : image :=
  default [] (SymRecon.build_local_symtab_and_finalize SampleRun.tiny_ecfs SampleRun.fns 0).

(** The notes of a core without an NT_SIGINFO note, and the file that
    [core2ecfs] makes of it. *)
Definition notedesc_nosig : Notes.notedesc_t :=
  {| Notes.thread_count := 1;
     Notes.prstatus := Some (zeros (Z.to_nat 336));
     Notes.thread_core_info := <[0 := zeros (Z.to_nat 336)]> ∅;
     Notes.psinfo := None;
     Notes.siginfo := None;
     Notes.auxv := Some (zeros (Z.to_nat 32));
     Notes.auxv_size := 32;
     Notes.nt_files := None;
     Notes.fpu := None |}.

Definition ecfs_nosig : image :=
  default [] (@Sections.core2ecfs linux_x86_64 SampleRun.layout SampleRun.elfdesc
                SampleRun.memdesc notedesc_nosig SampleRun.libs SampleRun.smeta hacks_zero 0
                (Some []) SampleRun.arglist SampleRun.fns).

(** The directory /proc/pid/fd of a process with a terminal and a socket. *)
Definition fd_dir : list (list byte * list byte) :=
  [ (CStr.lit ".", []); (CStr.lit "..", []);
    (CStr.lit "0", CStr.lit "/dev/pts/1");
    (CStr.lit "3", CStr.lit "socket:[7]") ].

Definition fd_table : list FdLinks.fd_info_t :=
  default [] (@FdLinks.get_fd_links linux_x86_64 tcp_table udp_table fd_dir
                FdLinks.fd_info_zero).

(** The array that [get_maps] leaves for [maps_lines]. *)
Definition maps_table : list ProcMaps.mappings_t :=
  default [] (ProcMaps.get_maps (CStr.lit "cat") maps_lines
                (repeat ProcMaps.mapping_zero 18) (repeat Byte.x00 32)).

End SampleEdges.

(** * Part II: properties *)

(** ** Loads, stores and alignment *)

Section MemFacts.
Import Mem Elf.

Lemma length_slice_le (m : image) (off n : Z) :
  (length (slice m off n) <= Z.to_nat n)%nat.
Proof. unfold slice. rewrite length_firstn. lia. Qed.

Lemma load_range (w : nat) (m : image) (off : Z) :
  0 <= load w m off < 2 ^ (8 * Z.of_nat w).
Proof.
  unfold load.
  pose proof (le_combine_bound (slice m off (Z.of_nat w))) as Hb.
  pose proof (length_slice_le m off (Z.of_nat w)) as Hl.
  split; [lia|].
  eapply Z.lt_le_trans; [apply Hb|].
  apply Z.pow_le_mono_r; lia.
Qed.

Lemma get_range (m : image) (base : Z) (f : field) :
  0 <= get m base f < 2 ^ (8 * Z.of_nat (f_width f)).
Proof. apply load_range. Qed.

Lemma land_lnot3 (y : Z) : Z.land y (Z.lnot 3) = 4 * (y / 4).
Proof.
  change (Z.lnot 3) with (Z.lnot (Z.ones 2)).
  rewrite <- Z.ldiff_land, Z.ldiff_ones_r by lia.
  rewrite Z.shiftr_div_pow2, Z.shiftl_mul_pow2 by lia.
  change (2 ^ 2) with 4. lia.
Qed.

Lemma land_mask64 (y : Z) :
  0 <= y < 2 ^ 64 -> Z.land y (wrap64 (Z.lnot 3)) = 4 * (y / 4).
Proof.
  intros Hy. unfold wrap64.
  rewrite <- Z.land_ones by lia.
  rewrite Z.land_assoc, (Z.land_comm y), <- Z.land_assoc.
  rewrite (Z.land_ones y) by lia.
  rewrite Z.mod_small by lia.
  rewrite Z.land_comm. apply land_lnot3.
Qed.

End MemFacts.

Section MemStore.
Import Mem Elf.

Lemma firstn_skipn_app_l {A} (n k : nat) (a x : list A) :
  (n + k <= length a)%nat ->
  firstn k (skipn n (a ++ x)) = firstn k (skipn n a).
Proof.
  intros Hl. rewrite skipn_app.
  replace (n - length a)%nat with 0%nat by lia.
  rewrite firstn_app, length_skipn.
  replace (k - (length a - n))%nat with 0%nat by lia.
  simpl. apply app_nil_r.
Qed.

Lemma firstn_skipn_firstn {A} (n k j : nat) (l : list A) :
  (n + k <= j)%nat ->
  firstn k (skipn n (firstn j l)) = firstn k (skipn n l).
Proof.
  intros Hl. destruct (le_lt_dec j (length l)) as [Hj|Hj].
  - symmetry.
    transitivity (firstn k (skipn n (firstn j l ++ skipn j l))).
    + rewrite firstn_skipn. reflexivity.
    + apply firstn_skipn_app_l. rewrite length_firstn. lia.
  - replace (firstn j l) with l by (symmetry; apply firstn_all2; lia).
    reflexivity.
Qed.

Lemma skipn_app_r {A} (n : nat) (a b c : list A) :
  (length a + length b <= n)%nat ->
  skipn n (a ++ b ++ c) = skipn (n - length a - length b) c.
Proof.
  intros Hl. rewrite !skipn_app.
  rewrite (skipn_all2 a) by lia.
  rewrite (skipn_all2 b) by lia.
  reflexivity.
Qed.

Lemma store_in (w : nat) (m : image) (off v : Z) :
  0 <= off -> off + Z.of_nat w <= size m ->
  store w m off v =
  firstn (Z.to_nat off) m ++ le_split w v ++ skipn (Z.to_nat off + w) m.
Proof.
  intros H0 H1. unfold store.
  rewrite (proj2 (Z.leb_le 0 off) H0), (proj2 (Z.leb_le _ _) H1). reflexivity.
Qed.

Lemma image_split (w : nat) (m : image) (off : Z) :
  m = firstn (Z.to_nat off) m ++ slice m off (Z.of_nat w)
        ++ skipn (Z.to_nat off + w) m.
Proof.
  unfold slice. rewrite Nat2Z.id.
  rewrite <- (firstn_skipn (Z.to_nat off) m) at 1. f_equal.
  rewrite <- (firstn_skipn w (skipn (Z.to_nat off) m)) at 1. f_equal.
  rewrite skipn_skipn. f_equal. lia.
Qed.

Lemma size_store (w : nat) (m : image) (off v : Z) :
  size (store w m off v) = size m.
Proof.
  unfold store.
  destruct ((0 <=? off) && (off + Z.of_nat w <=? size m)) eqn:E; [|reflexivity].
  apply andb_true_iff in E. destruct E as [E0 E1].
  apply Z.leb_le in E0, E1. unfold size in *.
  rewrite !length_app, length_firstn, length_le_split, length_skipn. lia.
Qed.

Lemma length_store (w : nat) (m : image) (off v : Z) :
  length (store w m off v) = length m.
Proof. pose proof (size_store w m off v) as Hs. unfold size in Hs. lia. Qed.

Lemma firstn_store (w : nat) (m : image) (off v : Z) (n : nat) :
  Z.of_nat n <= off ->
  firstn n (store w m off v) = firstn n m.
Proof.
  intros Hn. unfold store.
  destruct ((0 <=? off) && (off + Z.of_nat w <=? size m)) eqn:E; [|reflexivity].
  apply andb_true_iff in E. destruct E as [E0 E1].
  apply Z.leb_le in E0, E1. unfold size in *.
  rewrite firstn_app, firstn_firstn.
  rewrite length_firstn.
  replace (n - Init.Nat.min (Z.to_nat off) (length m))%nat with 0%nat by lia.
  simpl. rewrite app_nil_r. f_equal. lia.
Qed.

Lemma skipn_store (w : nat) (m : image) (off v : Z) (n : nat) :
  off + Z.of_nat w <= Z.of_nat n ->
  skipn n (store w m off v) = skipn n m.
Proof.
  intros Hn. unfold store.
  destruct ((0 <=? off) && (off + Z.of_nat w <=? size m)) eqn:E; [|reflexivity].
  apply andb_true_iff in E. destruct E as [E0 E1].
  apply Z.leb_le in E0, E1. unfold size in *.
  rewrite skipn_app_r
    by (rewrite length_firstn, length_le_split; lia).
  rewrite length_firstn, length_le_split, skipn_skipn. f_equal. lia.
Qed.

Lemma load_store_same (w : nat) (m : image) (off v : Z) :
  0 <= off -> off + Z.of_nat w <= size m ->
  load w (store w m off v) off = v mod 2 ^ (8 * Z.of_nat w).
Proof.
  intros H0 H1. unfold load, slice. rewrite store_in by assumption.
  unfold size in H1. rewrite Nat2Z.id.
  rewrite drop_app_length' by (rewrite length_firstn; lia).
  rewrite take_app_length' by (symmetry; apply length_le_split).
  rewrite le_combine_split. f_equal. f_equal. lia.
Qed.

Lemma load_store_disjoint (w w' : nat) (m : image) (off off' v : Z) :
  0 <= off' ->
  off' + Z.of_nat w' <= off \/ off + Z.of_nat w <= off' ->
  load w' (store w m off v) off' = load w' m off'.
Proof.
  intros H0' Hd. unfold load, slice. rewrite Nat2Z.id.
  destruct Hd as [Hd|Hd].
  - unfold store.
    destruct ((0 <=? off) && (off + Z.of_nat w <=? size m)) eqn:E; [|reflexivity].
    apply andb_true_iff in E. destruct E as [E0 E1].
    apply Z.leb_le in E0, E1. unfold size in *.
    rewrite firstn_skipn_app_l by (rewrite length_firstn; lia).
    rewrite firstn_skipn_firstn by lia. reflexivity.
  - rewrite skipn_store by lia. reflexivity.
Qed.

Lemma get_set_same (m : image) (base : Z) (f : field) (v : Z) :
  0 <= base + f_off f -> base + f_off f + Z.of_nat (f_width f) <= size m ->
  get (set m base f v) base f = v mod 2 ^ (8 * Z.of_nat (f_width f)).
Proof. intros. unfold get, set. apply load_store_same; assumption. Qed.

Lemma get_set_disjoint (m : image) (base base' : Z) (f f' : field) (v : Z) :
  0 <= base' + f_off f' ->
  base' + f_off f' + Z.of_nat (f_width f') <= base + f_off f \/
  base + f_off f + Z.of_nat (f_width f) <= base' + f_off f' ->
  get (set m base f v) base' f' = get m base' f'.
Proof. intros. unfold get, set. apply load_store_disjoint; assumption. Qed.

(** Loads see only the bytes they cover. *)
Lemma load_skipn_eq (w : nat) (m m' : image) (off : Z) (n : nat) :
  (n <= Z.to_nat off)%nat -> skipn n m = skipn n m' ->
  load w m off = load w m' off.
Proof.
  intros Hn He. unfold load, slice.
  replace (Z.to_nat off) with ((Z.to_nat off - n) + n)%nat by lia.
  rewrite <- !skipn_skipn, He. reflexivity.
Qed.

Lemma load_firstn_eq (w : nat) (m m' : image) (off : Z) (n : nat) :
  (Z.to_nat off + w <= n)%nat -> (n <= length m)%nat -> (n <= length m')%nat ->
  firstn n m = firstn n m' ->
  load w m off = load w m' off.
Proof.
  intros Hn Hl Hl' He. unfold load, slice. rewrite Nat2Z.id.
  rewrite <- (firstn_skipn n m), <- (firstn_skipn n m').
  rewrite !firstn_skipn_app_l by (rewrite length_firstn; lia).
  rewrite He. reflexivity.
Qed.

End MemStore.

(** ** NoteParse *)

Section NoteFacts.
Import Mem Elf Notes.
Context {H : Headers}.

Lemma align4_div (x : Z) : align4 x = 4 * ((x + 3) / 4).
Proof. apply land_lnot3. Qed.

Lemma align4_shift (n y : Z) : n mod 4 = 0 -> align4 (n + y) = n + align4 y.
Proof.
  intros Hn. rewrite !align4_div.
  replace (n + y + 3) with (y + 3 + (n / 4) * 4)
    by (pose proof (Z.div_mod n 4); lia).
  rewrite Z.div_add by lia.
  pose proof (Z.div_mod n 4). lia.
Qed.

Lemma align4_aligned (x : Z) : align4 x mod 4 = 0.
Proof.
  rewrite align4_div, Z.mul_comm. apply Z.mod_mul. lia.
Qed.

(** In the note format the macro moves the entry pointer over the header,
    the padded name and the padded descriptor. *)
Lemma next_stride (m : image) (notes : Z) :
  note_format m -> notes mod 4 = 0 ->
  ELFNOTE_NEXT m notes =
  notes + sizeof_Nhdr + align4 (get m notes n_namesz) + align4 (get m notes n_descsz).
Proof.
  intros Hf Ha. unfold ELFNOTE_NEXT, name_end. rewrite Hf.
  apply align4_shift.
  pose proof (align4_aligned (get m notes n_namesz)) as Hn.
  unfold sizeof_Nhdr.
  rewrite <- Z.add_assoc, Z.add_mod, Ha by lia.
  rewrite (Z.add_mod 12), Hn by lia. reflexivity.
Qed.

Lemma note_len_div (m : image) (notes : Z) :
  note_len m notes =
  4 * ((wrap32 (get m notes n_descsz + get m notes n_namesz) + sizeof_long + 3) / 4).
Proof.
  unfold note_len. apply land_mask64.
  unfold wrap32, sizeof_long.
  assert (0 <= (get m notes n_descsz + get m notes n_namesz) mod 2 ^ 32 < 2 ^ 32)
    by (apply Z.mod_pos_bound; lia).
  lia.
Qed.

Lemma note_len_range (m : image) (notes : Z) :
  8 <= note_len m notes < 2 ^ 33.
Proof.
  rewrite note_len_div. unfold wrap32, sizeof_long.
  assert (0 <= (get m notes n_descsz + get m notes n_namesz) mod 2 ^ 32 < 2 ^ 32)
    by (apply Z.mod_pos_bound; lia).
  Z.div_mod_to_equations. lia.
Qed.

(** One more round than [noteSize - i] never changes the result: the fuel
    of [parse_notes_area] is enough. *)
Lemma notes_loop_fuel (fuel : nat) (m : image) (noteSize : Z) (c : cursor)
    (nd : notedesc_t) :
  noteSize <= 2 ^ 63 -> 0 <= cur_i c ->
  (Z.to_nat (noteSize - cur_i c) <= fuel)%nat ->
  notes_loop (S fuel) m noteSize c nd = notes_loop fuel m noteSize c nd.
Proof.
  intros Hsz. revert c nd.
  induction fuel as [|fuel IH]; intros c nd Hi Hf.
  - simpl. destruct (cur_i c <? noteSize) eqn:E; [|reflexivity].
    apply Z.ltb_lt in E. lia.
  - change (notes_loop (S (S fuel)) m noteSize c nd)
      with (if cur_i c <? noteSize
            then notes_loop (S fuel) m noteSize (advance m c)
                   (note_switch m (cur_notes c) nd)
            else nd).
    change (notes_loop (S fuel) m noteSize c nd)
      with (if cur_i c <? noteSize
            then notes_loop fuel m noteSize (advance m c)
                   (note_switch m (cur_notes c) nd)
            else nd).
    destruct (cur_i c <? noteSize) eqn:E; [|reflexivity].
    apply Z.ltb_lt in E.
    pose proof (note_len_range m (cur_notes c)) as Hl.
    assert (Hadv : cur_i (advance m c) = cur_i c + note_len m (cur_notes c)).
    { simpl. unfold wrap64. apply Z.mod_small. lia. }
    apply IH; rewrite Hadv; lia.
Qed.

(** The loop applies the [switch] to the entries of the region, one
    round an entry. *)
Lemma notes_loop_entries (m : image) (noteSize : Z) (fuel : nat) :
  note_format m ->
  forall (c : cursor) (nd : notedesc_t),
  cur_notes c mod 4 = 0 ->
  notes_loop fuel m noteSize c nd =
  fold_left (fun nd p => note_switch m p nd)
    (note_entries (note_rounds fuel m noteSize c) m (cur_notes c)) nd.
Proof.
  intros Hf. induction fuel as [|fuel IH]; intros c nd Ha; [reflexivity|].
  cbn [notes_loop note_rounds].
  destruct (cur_i c <? noteSize); [|reflexivity].
  cbn [note_entries fold_left].
  rewrite IH by (cbn [advance cur_notes]; apply align4_aligned).
  cbn [advance cur_notes]. rewrite (next_stride m (cur_notes c) Hf Ha). reflexivity.
Qed.

Lemma note_entries_next (m : image) (n : nat) : forall (p : Z) (k : nat) (a b : Z),
  note_entries n m p !! k = Some a -> note_entries n m p !! S k = Some b ->
  p mod 4 = 0 ->
  a mod 4 = 0 /\
  b = a + sizeof_Nhdr + align4 (get m a n_namesz) + align4 (get m a n_descsz).
Proof.
  induction n as [|n IH]; intros p k a b Ha Hb Hp; [discriminate Ha|].
  destruct k as [|k].
  - cbn in Ha. injection Ha as <-. destruct n as [|n]; [discriminate Hb|].
    cbn in Hb. injection Hb as <-. split; [exact Hp|reflexivity].
  - cbn [note_entries] in Ha, Hb. cbn in Ha. cbn in Hb.
    apply (IH _ k a b Ha Hb).
    pose proof (align4_aligned (get m p n_namesz)) as Hn.
    pose proof (align4_aligned (get m p n_descsz)) as Hd.
    unfold sizeof_Nhdr.
    rewrite Z.add_mod, Hd by lia. rewrite (Z.add_mod (p + 12)), Hn by lia.
    rewrite (Z.add_mod p), Hp by lia. reflexivity.
Qed.

(** C3 (amended).  [parse_notes_area] applies its [switch] to one entry a
    round of its loop, starting with the entry at [nhdr]; in the note
    format (the descriptor behind the name, the name padded to four bytes)
    and with [nhdr] on a four-byte boundary, the entry behind an entry
    begins at align4(name_end + descsz), [name_end] being the end of the
    padded name, where the descriptor starts: from one entry header to the
    next the walk moves by the header size plus [n_namesz] rounded up to a
    multiple of four plus [n_descsz] rounded up to a multiple of four. *)
Theorem note_walk_stride (m : Mem.image) (nhdr noteSize : Z) :
  note_format m -> nhdr mod 4 = 0 ->
  let entries :=
    note_entries (note_rounds (Z.to_nat noteSize) m noteSize (Cursor 0 nhdr)) m nhdr in
  parse_notes_area m nhdr noteSize =
    fold_left (fun nd p => note_switch m p nd) entries notedesc_zero /\
  (forall p, entries !! 0%nat = Some p -> p = nhdr) /\
  (forall k p next, entries !! k = Some p -> entries !! S k = Some next ->
     next = cur_notes (advance m (Cursor 0 p)) /\
     next = align4 (name_end m p + get m p n_descsz) /\
     next - p = sizeof_Nhdr + align4 (get m p n_namesz) + align4 (get m p n_descsz)).
Proof.
  intros Hf Ha entries. split; [|split].
  - unfold parse_notes_area, entries.
    apply (notes_loop_entries m noteSize (Z.to_nat noteSize) Hf (Cursor 0 nhdr)).
    exact Ha.
  - unfold entries. intros p Hp.
    destruct (note_rounds (Z.to_nat noteSize) m noteSize (Cursor 0 nhdr));
      [discriminate Hp|]. cbn in Hp. injection Hp as <-. reflexivity.
  - intros k p next Hp Hn.
    destruct (note_entries_next m _ nhdr k p next Hp Hn Ha) as [Hpa Hnext].
    pose proof (next_stride m p Hf Hpa) as Hs.
    split; [cbn [advance cur_notes]; rewrite Hs; exact Hnext|].
    split; [fold (ELFNOTE_NEXT m p); rewrite Hs; exact Hnext|].
    rewrite Hnext. lia.
Qed.

(** C4.  An NT_PRSTATUS entry whose descriptor size is not
    [sizeof(struct elf_prstatus)], and an entry of a type the [switch] does
    not know, leave the note descriptor as it was (no prstatus record is
    stored and [thread_count] keeps its value), and the walk goes on with
    the next entry. *)
Theorem wrong_sized_prstatus_skipped (m : Mem.image) (noteSize : Z) (c : cursor)
    (nd : notedesc_t) (fuel : nat) :
  cur_i c < noteSize ->
  (get m (cur_notes c) n_type = NT_PRSTATUS /\
   get m (cur_notes c) n_descsz <> sizeof_elf_prstatus) \/
  (get m (cur_notes c) n_type <> NT_PRSTATUS /\
   get m (cur_notes c) n_type <> NT_PRPSINFO /\
   get m (cur_notes c) n_type <> NT_SIGINFO /\
   get m (cur_notes c) n_type <> NT_AUXV /\
   get m (cur_notes c) n_type <> NT_FILE /\
   get m (cur_notes c) n_type <> NT_FPREGSET) ->
  note_switch m (cur_notes c) nd = nd /\
  thread_count (note_switch m (cur_notes c) nd) = thread_count nd /\
  prstatus (note_switch m (cur_notes c) nd) = prstatus nd /\
  thread_core_info (note_switch m (cur_notes c) nd) = thread_core_info nd /\
  notes_loop (S fuel) m noteSize c nd =
  notes_loop fuel m noteSize (advance m c) nd.
Proof.
  intros Hi Hcase.
  assert (Hsw : note_switch m (cur_notes c) nd = nd).
  { unfold note_switch. destruct Hcase as [[Hty Hsz]|(H1 & H2 & H3 & H4 & H5 & H6)].
    - rewrite Hty, Z.eqb_refl.
      destruct (get m (cur_notes c) n_descsz =? sizeof_elf_prstatus) eqn:E;
        [apply Z.eqb_eq in E; contradiction|reflexivity].
    - repeat match goal with
             | Hne : ?a <> ?b |- context [?a =? ?b] =>
                 rewrite (proj2 (Z.eqb_neq a b) Hne)
             end.
      reflexivity. }
  rewrite Hsw. repeat split.
  simpl. rewrite (proj2 (Z.ltb_lt _ _) Hi), Hsw. reflexivity.
Qed.

End NoteFacts.

(** ** TextMerge *)

Section ImageWalk.
Import Mem Elf TextMerge.

Variables (core : image) (text_addr tlen k : Z).

Local Abbreviation phoff := (phoff_of core).
Local Abbreviation phnum := (phnum_of core).
Local Abbreviation ph := (ph_of core).
Local Abbreviation tabend := (tabend_of core).
Local Abbreviation image_inv := (TextMerge.image_inv core tlen k).
Local Abbreviation exp_off := (TextMerge.exp_off core tlen k).
Local Abbreviation exp_fsz := (TextMerge.exp_fsz core k).

Hypothesis Hoff : sizeof_Ehdr <= phoff.
Hypothesis Hin : tabend <= size core.
Hypothesis Hk : 0 <= k < phnum.
Hypothesis Hmatch : get core (ph k) p_vaddr = text_addr.
Hypothesis Huniq :
  forall j, 0 <= j < phnum -> j <> k -> get core (ph j) p_vaddr <> text_addr.

Lemma phnum_range : 0 <= phnum < 2 ^ 16.
Proof. apply (get_range core 0 e_phnum). Qed.

Lemma phoff_range : 0 <= phoff.
Proof. apply (get_range core 0 e_phoff). Qed.

Ltac layout :=
  unfold tabend_of, ph_of, phdr_at, sizeof_Phdr, sizeof_Ehdr, size in *; cbn [f_off f_width p_type p_flags p_offset
    p_vaddr p_paddr p_filesz p_memsz p_align e_phnum e_phoff] in *.

Lemma image_inv_phnum (i : Z) (s : walk) :
  image_inv i s -> get (w_mem s) 0 e_phnum = phnum.
Proof.
  intros I. unfold get, phnum_of, get.
  pose proof phoff_range. pose proof (ii_size _ _ _ _ _ I) as Hs.
  apply (load_firstn_eq _ _ _ _ (Z.to_nat phoff)).
  - layout. lia.
  - pose proof phnum_range. layout. lia.
  - pose proof phnum_range. layout. lia.
  - apply (ii_head _ _ _ _ _ I).
Qed.

Lemma image_inv_init :
  image_inv 0 {| w_mem := core; w_textOffset := 0; w_nextOffset := 0; w_found := 0 |}.
Proof.
  constructor; cbn [w_mem w_found w_textOffset w_nextOffset]; try reflexivity; try lia.
  - intros j Hj. unfold TextMerge.exp_off.
    replace (j <? 0) with false by (symmetry; apply Z.ltb_ge; lia).
    rewrite andb_false_r. reflexivity.
  - intros j Hj. unfold TextMerge.exp_fsz.
    replace (k <? 0) with false by (symmetry; apply Z.ltb_ge; lia).
    rewrite andb_false_r. reflexivity.
  - replace (k <? 0) with false by (symmetry; apply Z.ltb_ge; lia). reflexivity.
Qed.


Ltac side := solve [pose proof phnum_range; pose proof phoff_range; layout; lia].

Lemma image_step_inv (i : Z) (s : walk) :
  0 <= i < phnum -> image_inv i s ->
  image_inv (i + 1) (image_step phoff text_addr tlen i s).
Proof.
  intros Hi I. unfold image_step. fold (ph i). fold (ph (i + 1)).
  pose proof (ii_size _ _ _ _ _ I) as Hs.
  rewrite (ii_vaddr _ _ _ _ _ I i Hi).
  destruct (text_addr =? get core (ph i) p_vaddr) eqn:Em.
  - (* the text header *)
    apply Z.eqb_eq in Em.
    assert (i = k) as -> by (destruct (Z.eq_dec i k); [assumption|exfalso; eapply Huniq; eauto]).
    constructor; cbn [w_mem w_found w_textOffset w_nextOffset].
    + unfold set. rewrite size_store. exact Hs.
    + unfold set. rewrite firstn_store by side. apply (ii_head _ _ _ _ _ I).
    + unfold set. rewrite skipn_store by side. apply (ii_tail _ _ _ _ _ I).
    + intros j Hj. rewrite get_set_disjoint by side. apply (ii_type _ _ _ _ _ I j Hj).
    + intros j Hj. rewrite get_set_disjoint by side. apply (ii_vaddr _ _ _ _ _ I j Hj).
    + intros j Hj. rewrite get_set_disjoint by side. apply (ii_memsz _ _ _ _ _ I j Hj).
    + intros j Hj. rewrite get_set_disjoint by side. rewrite (ii_off _ _ _ _ _ I j Hj).
      unfold TextMerge.exp_off. destruct (k <? j) eqn:E1; [|reflexivity].
      apply Z.ltb_lt in E1.
      replace (j <? k) with false by (symmetry; apply Z.ltb_ge; lia).
      replace (j <? k + 1) with false by (symmetry; apply Z.ltb_ge; lia).
      reflexivity.
    + intros j Hj. unfold TextMerge.exp_fsz.
      replace (k <? k + 1) with true by (symmetry; apply Z.ltb_lt; lia).
      destruct (j =? k) eqn:E1.
      * apply Z.eqb_eq in E1. subst j. rewrite get_set_same by side.
        rewrite (ii_memsz _ _ _ _ _ I k Hk).
        apply Z.mod_small. apply (get_range core (ph k) p_memsz).
      * apply Z.eqb_neq in E1. rewrite get_set_disjoint by side.
        rewrite (ii_fsz _ _ _ _ _ I j Hj). unfold TextMerge.exp_fsz.
        replace (j =? k) with false by (symmetry; apply Z.eqb_neq; lia).
        reflexivity.
    + rewrite (ii_found _ _ _ _ _ I).
      replace (k <? k) with false by (symmetry; apply Z.ltb_ge; lia).
      replace (k <? k + 1) with true by (symmetry; apply Z.ltb_lt; lia).
      reflexivity.
    + intros _. rewrite (ii_off _ _ _ _ _ I k Hk). unfold TextMerge.exp_off.
      replace (k <? k) with false by (symmetry; apply Z.ltb_ge; lia).
      reflexivity.
    + intros _. destruct (Z.eq_dec (k + 1) phnum) as [El|El].
      * unfold get. apply (load_skipn_eq _ _ _ _ (Z.to_nat tabend)).
        -- side.
        -- apply (ii_tail _ _ _ _ _ I).
      * rewrite (ii_off _ _ _ _ _ I (k + 1)) by lia. unfold TextMerge.exp_off.
        replace (k + 1 <? k) with false by (symmetry; apply Z.ltb_ge; lia).
        rewrite andb_false_r. reflexivity.
  - (* another header *)
    apply Z.eqb_neq in Em.
    assert (i <> k) as Hik by (intros ->; apply Em; symmetry; exact Hmatch).
    rewrite (ii_found _ _ _ _ _ I), (ii_type _ _ _ _ _ I i Hi).
    destruct (negb ((if k <? i then 1 else 0) =? 0)
              && (get core (ph i) p_type =? PT_LOAD)) eqn:Eb.
    + apply andb_true_iff in Eb. destruct Eb as [Eb1 Eb2].
      assert (k < i) as Hki.
      { destruct (k <? i) eqn:E; [apply Z.ltb_lt in E; exact E|discriminate]. }
      constructor; cbn [w_mem w_found w_textOffset w_nextOffset].
      * unfold set. rewrite size_store. exact Hs.
      * unfold set. rewrite firstn_store by side. apply (ii_head _ _ _ _ _ I).
      * unfold set. rewrite skipn_store by side. apply (ii_tail _ _ _ _ _ I).
      * intros j Hj. rewrite get_set_disjoint by side. apply (ii_type _ _ _ _ _ I j Hj).
      * intros j Hj. rewrite get_set_disjoint by side. apply (ii_vaddr _ _ _ _ _ I j Hj).
      * intros j Hj. rewrite get_set_disjoint by side. apply (ii_memsz _ _ _ _ _ I j Hj).
      * intros j Hj. destruct (Z.eq_dec j i) as [->|Hji].
        -- rewrite get_set_same by side. rewrite (ii_off _ _ _ _ _ I i Hi).
           unfold TextMerge.exp_off.
           replace (i <? i) with false by (symmetry; apply Z.ltb_ge; lia).
           replace (k <? i) with true by (symmetry; apply Z.ltb_lt; lia).
           replace (i <? i + 1) with true by (symmetry; apply Z.ltb_lt; lia).
           rewrite Eb2. cbn [andb].
           unfold wrap64. change (8 * Z.of_nat (f_width p_offset)) with 64.
           apply Z.mod_mod. lia.
        -- rewrite get_set_disjoint by side. rewrite (ii_off _ _ _ _ _ I j Hj).
           unfold TextMerge.exp_off.
           destruct (Z.lt_ge_cases j i).
           ++ replace (j <? i) with true by (symmetry; apply Z.ltb_lt; lia).
              replace (j <? i + 1) with true by (symmetry; apply Z.ltb_lt; lia).
              reflexivity.
           ++ replace (j <? i) with false by (symmetry; apply Z.ltb_ge; lia).
              replace (j <? i + 1) with false by (symmetry; apply Z.ltb_ge; lia).
              reflexivity.
      * intros j Hj. rewrite get_set_disjoint by side. rewrite (ii_fsz _ _ _ _ _ I j Hj).
        unfold TextMerge.exp_fsz.
        replace (k <? i) with true by (symmetry; apply Z.ltb_lt; lia).
        replace (k <? i + 1) with true by (symmetry; apply Z.ltb_lt; lia).
        reflexivity.
      * replace (k <? i) with true by (symmetry; apply Z.ltb_lt; lia).
        replace (k <? i + 1) with true by (symmetry; apply Z.ltb_lt; lia).
        reflexivity.
      * intros _. apply (ii_text _ _ _ _ _ I Hki).
      * intros _. apply (ii_next _ _ _ _ _ I Hki).
    + (* nothing is written *)
      assert (Hsame : (k <? i + 1) = (k <? i)).
      { destruct (Z.lt_ge_cases k i).
        - replace (k <? i) with true by (symmetry; apply Z.ltb_lt; lia).
          apply Z.ltb_lt; lia.
        - replace (k <? i) with false by (symmetry; apply Z.ltb_ge; lia).
          apply Z.ltb_ge; lia. }
      constructor; try apply I.
      * intros j Hj. rewrite (ii_off _ _ _ _ _ I j Hj). unfold TextMerge.exp_off.
        destruct (Z.eq_dec j i) as [->|Hji].
        -- replace (i <? i) with false by (symmetry; apply Z.ltb_ge; lia).
           replace (i <? i + 1) with true by (symmetry; apply Z.ltb_lt; lia).
           rewrite andb_false_r. cbn [andb].
           destruct (k <? i) eqn:E; [|reflexivity].
           cbn [negb Z.eqb andb] in Eb. rewrite Eb. reflexivity.
        -- destruct (Z.lt_ge_cases j i).
           ++ replace (j <? i) with true by (symmetry; apply Z.ltb_lt; lia).
              replace (j <? i + 1) with true by (symmetry; apply Z.ltb_lt; lia).
              reflexivity.
           ++ replace (j <? i) with false by (symmetry; apply Z.ltb_ge; lia).
              replace (j <? i + 1) with false by (symmetry; apply Z.ltb_ge; lia).
              reflexivity.
      * intros j Hj. rewrite (ii_fsz _ _ _ _ _ I j Hj). unfold TextMerge.exp_fsz.
        rewrite Hsame. reflexivity.
      * rewrite (ii_found _ _ _ _ _ I), Hsame. reflexivity.
      * intros Hlt. apply (ii_text _ _ _ _ _ I). lia.
      * intros Hlt. apply (ii_next _ _ _ _ _ I). lia.
Qed.

Lemma image_loop_inv (fuel : nat) (i : Z) (s : walk) :
  0 <= i <= phnum -> (Z.to_nat (phnum - i) <= fuel)%nat ->
  image_inv i s ->
  image_inv phnum (image_loop fuel phoff text_addr tlen i s).
Proof.
  revert i s. induction fuel as [|fuel IH]; intros i s Hi Hf I.
  - simpl. replace phnum with i by lia. exact I.
  - simpl. rewrite (image_inv_phnum _ _ I).
    destruct (i <? phnum) eqn:E.
    + apply Z.ltb_lt in E. apply IH; [lia|lia|].
      apply image_step_inv; [lia|exact I].
    + apply Z.ltb_ge in E. replace phnum with i by lia. exact I.
Qed.

Lemma image_walk_inv : image_inv phnum (image_walk core text_addr tlen).
Proof.
  unfold image_walk. fold phoff. apply image_loop_inv.
  - pose proof phnum_range. lia.
  - pose proof phnum_range. unfold phdr_fuel. lia.
  - apply image_inv_init.
Qed.

End ImageWalk.

Section ExeWalk.
Import Mem Elf TextMerge.

Variables (core : image) (text_base tlen k : Z).

Local Abbreviation phoff := (phoff_of core).
Local Abbreviation phnum := (phnum_of core).
Local Abbreviation ph := (ph_of core).
Local Abbreviation tabend := (tabend_of core).
Local Abbreviation contains := (TextMerge.contains core).
Local Abbreviation exe_inv := (TextMerge.exe_inv core tlen k text_base).
Local Abbreviation xexp_off := (TextMerge.xexp_off core tlen k).
Local Abbreviation xexp_fsz := (TextMerge.exp_fsz core k).

Hypothesis Hoff : sizeof_Ehdr <= phoff.
Hypothesis Hin : tabend <= size core.
Hypothesis Hk : 0 <= k < phnum.
Hypothesis Hc_k : contains k text_base.
Hypothesis Hc_before : forall j, 0 <= j < k -> ~ contains j text_base.
Hypothesis Hc_after :
  forall j, k < j < phnum -> ~ contains j (get core (ph k) p_vaddr).

Lemma xphnum_range : 0 <= phnum < 2 ^ 16.
Proof. apply (get_range core 0 e_phnum). Qed.

Lemma xphoff_range : 0 <= phoff.
Proof. apply (get_range core 0 e_phoff). Qed.

Ltac layout :=
  unfold tabend_of, ph_of, phdr_at, sizeof_Phdr, sizeof_Ehdr, size in *; cbn [f_off f_width p_type p_flags p_offset
    p_vaddr p_paddr p_filesz p_memsz p_align e_phnum e_phoff] in *.
Ltac side := solve [pose proof xphnum_range; pose proof xphoff_range; layout; lia].
Ltac decide_test :=
  match goal with
  | |- context [?a <? ?b] =>
      first [ replace (a <? b) with true by (symmetry; apply Z.ltb_lt; lia)
            | replace (a <? b) with false by (symmetry; apply Z.ltb_ge; lia) ]
  | |- context [?a =? ?b] =>
      first [ replace (a =? b) with true by (symmetry; apply Z.eqb_eq; lia)
            | replace (a =? b) with false by (symmetry; apply Z.eqb_neq; lia) ]
  end.
Ltac decide_tests :=
  repeat decide_test;
  rewrite ?andb_false_r, ?andb_true_r, ?orb_false_r, ?orb_true_r;
  cbn [andb orb negb].

Lemma exe_inv_phnum (i : Z) (s : exe_walk) :
  exe_inv i s -> get (x_mem s) 0 e_phnum = phnum.
Proof.
  intros I. unfold get, phnum_of, get.
  pose proof (xi_size _ _ _ _ _ _ I) as Hs.
  apply (load_firstn_eq _ _ _ _ (Z.to_nat phoff)); [side|side|side|].
  apply (xi_head _ _ _ _ _ _ I).
Qed.

Lemma exe_inv_init :
  exe_inv 0 {| x_mem := core; x_textVaddr := text_base; x_textOffset := 0;
               x_dataOffset := 0; x_found := 0; x_data_index := 0 |}.
Proof.
  constructor; cbn [x_mem x_found x_textOffset x_dataOffset x_textVaddr x_data_index];
    try reflexivity; try lia.
  - intros j Hj. unfold TextMerge.xexp_off. decide_tests. reflexivity.
  - intros j Hj. unfold TextMerge.exp_fsz. decide_tests. reflexivity.
  - decide_tests. reflexivity.
  - decide_tests. reflexivity.
Qed.

Lemma contains_dec (j a : Z) :
  ((get core (ph j) p_vaddr <=? a)
   && (a <? wrap64 (get core (ph j) p_vaddr + get core (ph j) p_memsz))) = true
  <-> contains j a.
Proof.
  unfold TextMerge.contains. rewrite andb_true_iff, Z.leb_le, Z.ltb_lt. tauto.
Qed.

Lemma exe_step_inv (i : Z) (s : exe_walk) :
  0 <= i < phnum -> exe_inv i s ->
  exe_inv (i + 1) (exe_step phoff tlen i s).
Proof.
  intros Hi I. unfold exe_step. fold (ph i). fold (ph (i + 1)).
  pose proof (xi_size _ _ _ _ _ _ I) as Hs.
  rewrite (xi_vaddr _ _ _ _ _ _ I i Hi), (xi_memsz _ _ _ _ _ _ I i Hi), (xi_tv _ _ _ _ _ _ I), (xi_found _ _ _ _ _ _ I).
  destruct (Z.lt_trichotomy i k) as [Hlt|[Heq|Hgt]].
  - (* before the text header *)
    replace (k <? i) with false by (symmetry; apply Z.ltb_ge; lia).
    destruct ((get core (ph i) p_vaddr <=? text_base)
      && (text_base <? wrap64 (get core (ph i) p_vaddr + get core (ph i) p_memsz))) eqn:Ec.
    { apply contains_dec in Ec. exfalso. apply (Hc_before i); [lia|exact Ec]. }
    cbn [Z.eqb negb].
    constructor; try apply I.
    + intros _. apply (xi_tail _ _ _ _ _ _ I). lia.
    + intros j Hj. rewrite (xi_off _ _ _ _ _ _ I j Hj). unfold TextMerge.xexp_off.
      destruct (k <? j) eqn:E1; [|reflexivity]. apply Z.ltb_lt in E1.
      decide_tests. reflexivity.
    + intros j Hj. rewrite (xi_fsz _ _ _ _ _ _ I j Hj). unfold TextMerge.exp_fsz.
      decide_tests. reflexivity.
    + rewrite (xi_found _ _ _ _ _ _ I). decide_tests. reflexivity.
    + rewrite (xi_tv _ _ _ _ _ _ I). decide_tests. reflexivity.
    + intros ?; lia.
    + intros ?; lia.
    + intros ?; lia.
  - (* the text header *)
    subst i.
    replace (k <? k) with false by (symmetry; apply Z.ltb_ge; lia).
    destruct ((get core (ph k) p_vaddr <=? text_base)
      && (text_base <? wrap64 (get core (ph k) p_vaddr + get core (ph k) p_memsz))) eqn:Ec.
    2:{ exfalso. apply contains_dec in Hc_k. rewrite Hc_k in Ec. discriminate. }
    assert (Hnext : get (x_mem s) (ph (k + 1)) p_offset = get core (ph (k + 1)) p_offset).
    { destruct (Z.eq_dec (k + 1) phnum) as [El|El].
      - unfold get. apply (load_skipn_eq _ _ _ _ (Z.to_nat tabend)); [side|].
        apply (xi_tail _ _ _ _ _ _ I). lia.
      - rewrite (xi_off _ _ _ _ _ _ I (k + 1)) by lia. unfold TextMerge.xexp_off.
        decide_tests. reflexivity. }
    rewrite (get_set_disjoint _ (ph k) (ph (k + 1))) by side.
    rewrite Hnext.
    constructor; cbn [x_mem x_found x_textOffset x_dataOffset x_textVaddr x_data_index].
    + unfold set. rewrite !size_store. exact Hs.
    + unfold set. rewrite !firstn_store by side. apply (xi_head _ _ _ _ _ _ I).
    + intros [Hn|Hn]; [|lia].
      unfold set. rewrite !skipn_store by side. apply (xi_tail _ _ _ _ _ _ I). lia.
    + intros j Hj. rewrite !get_set_disjoint by side. apply (xi_type _ _ _ _ _ _ I j Hj).
    + intros j Hj. rewrite !get_set_disjoint by side. apply (xi_vaddr _ _ _ _ _ _ I j Hj).
    + intros j Hj. rewrite !get_set_disjoint by side. apply (xi_memsz _ _ _ _ _ _ I j Hj).
    + intros j Hj. unfold TextMerge.xexp_off. destruct (Z.eq_dec j (k + 1)) as [->|Hj1].
      * rewrite get_set_same by (unfold set; rewrite ?size_store; side).
        decide_tests. unfold wrap64. change (8 * Z.of_nat (f_width p_offset)) with 64.
        apply Z.mod_mod. lia.
      * rewrite !get_set_disjoint by side. rewrite (xi_off _ _ _ _ _ _ I j Hj).
        unfold TextMerge.xexp_off. destruct (k <? j) eqn:E1; [|reflexivity].
        apply Z.ltb_lt in E1. decide_tests. reflexivity.
    + intros j Hj. unfold TextMerge.exp_fsz. rewrite get_set_disjoint by side.
      destruct (Z.eq_dec j k) as [->|Hjk].
      * rewrite get_set_same by side. decide_tests.
        apply Z.mod_small. apply (get_range core (ph k) p_memsz).
      * rewrite get_set_disjoint by side. rewrite (xi_fsz _ _ _ _ _ _ I j Hj).
        unfold TextMerge.exp_fsz. decide_tests. reflexivity.
    + decide_tests. reflexivity.
    + decide_tests. reflexivity.
    + reflexivity.
    + intros _. rewrite (xi_off _ _ _ _ _ _ I k Hk). unfold TextMerge.xexp_off. decide_tests. reflexivity.
    + reflexivity.
  - (* after the text header *)
    replace (k <? i) with true by (symmetry; apply Z.ltb_lt; lia).
    destruct ((get core (ph i) p_vaddr <=? get core (ph k) p_vaddr)
      && (get core (ph k) p_vaddr <? wrap64 (get core (ph i) p_vaddr + get core (ph i) p_memsz))) eqn:Ec.
    { apply contains_dec in Ec. exfalso. apply (Hc_after i); [lia|exact Ec]. }
    cbn [Z.eqb negb]. rewrite (xi_di _ _ _ _ _ _ I) by lia.
    destruct (i =? k + 1) eqn:Ed.
    + apply Z.eqb_eq in Ed. subst i.
      constructor; try apply I.
      * intros [Hn|Hn]; [|lia]. apply (xi_tail _ _ _ _ _ _ I). lia.
      * intros j Hj. rewrite (xi_off _ _ _ _ _ _ I j Hj). unfold TextMerge.xexp_off.
        destruct (k <? j) eqn:E1; [|reflexivity]. apply Z.ltb_lt in E1.
        destruct (Z.eq_dec j (k + 1)) as [->|Hj1].
        -- decide_tests. reflexivity.
        -- decide_tests. reflexivity.
      * intros j Hj. rewrite (xi_fsz _ _ _ _ _ _ I j Hj). unfold TextMerge.exp_fsz.
        decide_tests. reflexivity.
      * rewrite (xi_found _ _ _ _ _ _ I). decide_tests. reflexivity.
      * rewrite (xi_tv _ _ _ _ _ _ I). decide_tests. reflexivity.
      * intros _. apply (xi_di _ _ _ _ _ _ I). lia.
      * intros _. apply (xi_text _ _ _ _ _ _ I). lia.
      * intros _. apply (xi_data _ _ _ _ _ _ I). lia.
    + apply Z.eqb_neq in Ed.
      constructor; cbn [x_mem x_found x_textOffset x_dataOffset x_textVaddr x_data_index].
      * unfold set. rewrite size_store. exact Hs.
      * unfold set. rewrite firstn_store by side. apply (xi_head _ _ _ _ _ _ I).
      * intros [Hn|Hn]; [|lia].
        unfold set. rewrite skipn_store by side. apply (xi_tail _ _ _ _ _ _ I). lia.
      * intros j Hj. rewrite get_set_disjoint by side. apply (xi_type _ _ _ _ _ _ I j Hj).
      * intros j Hj. rewrite get_set_disjoint by side. apply (xi_vaddr _ _ _ _ _ _ I j Hj).
      * intros j Hj. rewrite get_set_disjoint by side. apply (xi_memsz _ _ _ _ _ _ I j Hj).
      * intros j Hj. unfold TextMerge.xexp_off. destruct (Z.eq_dec j i) as [->|Hji].
        -- rewrite get_set_same by side. rewrite (xi_off _ _ _ _ _ _ I i Hi).
           unfold TextMerge.xexp_off. decide_tests.
           unfold wrap64. change (8 * Z.of_nat (f_width p_offset)) with 64.
           apply Z.mod_mod. lia.
        -- rewrite get_set_disjoint by side. rewrite (xi_off _ _ _ _ _ _ I j Hj).
           unfold TextMerge.xexp_off. destruct (k <? j) eqn:E1; [|reflexivity].
           apply Z.ltb_lt in E1.
           destruct (Z.lt_ge_cases j i);
             destruct (Z.eq_dec j (k + 1)) as [->|Hj1]; decide_tests; reflexivity.
      * intros j Hj. rewrite get_set_disjoint by side. rewrite (xi_fsz _ _ _ _ _ _ I j Hj).
        unfold TextMerge.exp_fsz. decide_tests. reflexivity.
      * decide_tests. reflexivity.
      * decide_tests. reflexivity.
      * reflexivity.
      * intros _. apply (xi_text _ _ _ _ _ _ I). lia.
      * intros _. apply (xi_data _ _ _ _ _ _ I). lia.
Qed.

Lemma exe_loop_inv (fuel : nat) (i : Z) (s : exe_walk) :
  0 <= i <= phnum -> (Z.to_nat (phnum - i) <= fuel)%nat ->
  exe_inv i s ->
  exe_inv phnum (exe_loop fuel phoff tlen i s).
Proof.
  revert i s. induction fuel as [|fuel IH]; intros i s Hi Hf I.
  - simpl. replace phnum with i by lia. exact I.
  - simpl. rewrite (exe_inv_phnum _ _ I).
    destruct (i <? phnum) eqn:E.
    + apply Z.ltb_lt in E. apply IH; [lia|lia|].
      apply exe_step_inv; [lia|exact I].
    + apply Z.ltb_ge in E. replace phnum with i by lia. exact I.
Qed.

Lemma exe_walk_inv : exe_inv phnum (exe_walk_of core text_base tlen).
Proof.
  unfold exe_walk_of. fold phoff. apply exe_loop_inv.
  - pose proof xphnum_range. lia.
  - pose proof xphnum_range. unfold phdr_fuel. lia.
  - apply exe_inv_init.
Qed.

End ExeWalk.

Section MergeOutput.
Import Mem Elf TextMerge.

Lemma write_head (m beyond : image) (t : Z) :
  0 <= t <= size m ->
  write_from m beyond 0 t = firstn (Z.to_nat t) m.
Proof.
  intros Ht. unfold write_from, slice, size in *.
  change (skipn (Z.to_nat 0) (m ++ beyond)) with (m ++ beyond).
  rewrite firstn_app.
  replace (Z.to_nat t - length m)%nat with 0%nat by lia.
  simpl. apply app_nil_r.
Qed.

Lemma write_tail (m beyond : image) (t n : Z) :
  0 <= t <= n -> n <= size m -> size m < 2 ^ 64 ->
  write_from m beyond n (wrap64 (size m - t)) =
  skipn (Z.to_nat n) m ++ firstn (Z.to_nat (n - t)) beyond.
Proof.
  intros Ht Hn Hs. unfold write_from, slice, wrap64.
  rewrite Z.mod_small by lia. unfold size in *.
  rewrite skipn_app.
  replace (Z.to_nat n - length m)%nat with 0%nat by lia.
  simpl. rewrite firstn_app, length_skipn.
  rewrite firstn_all2 by (rewrite length_skipn; lia).
  f_equal. f_equal. lia.
Qed.

Lemma firstn_write_head (m beyond rest : image) (t : Z) (n : nat) :
  Z.of_nat n <= t -> Z.of_nat n <= size m ->
  firstn n (write_from m beyond 0 t ++ rest) = firstn n m.
Proof.
  intros Ht Hn. unfold write_from, slice, size in *.
  change (skipn (Z.to_nat 0) (m ++ beyond)) with (m ++ beyond).
  rewrite firstn_app, firstn_firstn.
  replace (Init.Nat.min n (Z.to_nat t)) with n by lia.
  rewrite length_firstn, length_app.
  replace (n - Init.Nat.min (Z.to_nat t) (length m + length beyond))%nat
    with 0%nat by lia.
  simpl. rewrite app_nil_r, firstn_app.
  replace (n - length m)%nat with 0%nat by lia.
  simpl. apply app_nil_r.
Qed.

Lemma length_write_head (m beyond : image) (t : Z) (n : nat) :
  Z.of_nat n <= t -> Z.of_nat n <= size m ->
  (n <= length (write_from m beyond 0 t))%nat.
Proof.
  intros Ht Hn. unfold write_from, slice, size in *.
  change (skipn (Z.to_nat 0) (m ++ beyond)) with (m ++ beyond).
  rewrite length_firstn, length_app. lia.
Qed.

Variables (core beyond : image) (text : list byte) (a tlen k : Z).

Local Abbreviation phoff := (phoff_of core).
Local Abbreviation phnum := (phnum_of core).
Local Abbreviation ph := (ph_of core).
Local Abbreviation tabend := (tabend_of core).

Hypothesis Htab : table_ok core.
Hypothesis Htext : text_header core k a.

Lemma image_walk_ok : image_inv core tlen k phnum (image_walk core a tlen).
Proof.
  destruct Htab as [H1 H2]. destruct Htext as (Hk & Hv & Hc & Ho).
  apply image_walk_inv; try assumption.
  intros j Hj Hjk. apply (Ho j Hj Hjk).
Qed.

Lemma exe_walk_ok : exe_inv core tlen k a phnum (exe_walk_of core a tlen).
Proof.
  destruct Htab as [H1 H2]. destruct Htext as (Hk & Hv & Hc & Ho).
  apply exe_walk_inv; try assumption.
  - intros j Hj. apply (Ho j); lia.
  - intros j Hj. rewrite Hv. apply (Ho j); lia.
Qed.

(** Header fields of an output whose first [tabend] bytes are those of the
    patched mapping. *)
Lemma get_output (m out : image) (base : Z) (f : field) :
  firstn (Z.to_nat tabend) out = firstn (Z.to_nat tabend) m ->
  tabend <= size m -> (Z.to_nat tabend <= length out)%nat ->
  0 <= base + f_off f -> base + f_off f + Z.of_nat (f_width f) <= tabend ->
  get out base f = get m base f.
Proof.
  intros He Hm Ho H0 H1. unfold get.
  apply (load_firstn_eq _ _ _ _ (Z.to_nat tabend)); unfold size in *; try lia.
  exact He.
Qed.


Ltac layout :=
  unfold tabend_of, ph_of, phdr_at, sizeof_Phdr, sizeof_Ehdr, size in *;
  cbn [f_off f_width p_type p_flags p_offset p_vaddr p_paddr p_filesz p_memsz
       p_align e_phnum e_phoff] in *.

Lemma table_facts : 0 <= phnum < 2 ^ 16 /\ sizeof_Ehdr <= phoff /\ tabend <= size core.
Proof.
  destruct Htab as [H1 H2]. split; [apply (get_range core 0 e_phnum)|]. tauto.
Qed.

(** The program headers of an output that starts with the first
    [textOffset] bytes of the patched mapping [m], the table lying in
    front of the text. *)
Lemma patched_headers (m rest : image) (t : Z) :
  tabend <= t -> size m = size core ->
  firstn (Z.to_nat phoff) m = firstn (Z.to_nat phoff) core ->
  (forall j, 0 <= j < phnum -> get m (ph j) p_type = get core (ph j) p_type) ->
  (forall j, 0 <= j < phnum -> get m (ph j) p_memsz = get core (ph j) p_memsz) ->
  get m (ph k) p_filesz = get core (ph k) p_memsz ->
  (forall j, k < j < phnum -> get core (ph j) p_type = PT_LOAD ->
     get m (ph j) p_offset = wrap64 (get core (ph j) p_offset + (tlen - 4096))) ->
  headers_merged core tlen k (write_from m beyond 0 t ++ rest).
Proof.
  intros Ht Hs Hh Hty Hms Hfs Hof.
  destruct table_facts as (Hn & Ho & Hi).
  destruct Htext as (Hk & _).
  assert (Hte : 0 <= tabend) by (layout; lia).
  set (out := write_from m beyond 0 t ++ rest).
  assert (He : firstn (Z.to_nat tabend) out = firstn (Z.to_nat tabend) m).
  { apply firstn_write_head; rewrite ?Hs; lia. }
  assert (Hl : (Z.to_nat tabend <= length out)%nat).
  { unfold out. rewrite length_app.
    pose proof (length_write_head m beyond t (Z.to_nat tabend)) as Hw.
    rewrite Hs in Hw. lia. }
  assert (Hg : forall base f, 0 <= base + f_off f ->
             base + f_off f + Z.of_nat (f_width f) <= tabend ->
             get out base f = get m base f).
  { intros base f H0 H1. apply get_output; try assumption. rewrite Hs. exact Hi. }
  assert (Hhd : forall f, f_off f + Z.of_nat (f_width f) <= sizeof_Ehdr -> 0 <= f_off f ->
             get m 0 f = get core 0 f).
  { intros f Hf H0. unfold get.
    apply (load_firstn_eq _ _ _ _ (Z.to_nat phoff));
      [layout; lia|layout; lia|layout; lia|exact Hh]. }
  split; [|split; [|split]].
  - rewrite Hg by (layout; lia). apply Hhd; layout; lia.
  - rewrite Hg by (layout; lia). apply Hhd; layout; lia.
  - rewrite !Hg by (layout; lia). rewrite Hfs, Hms by lia. reflexivity.
  - intros j Hj Hty'. rewrite Hg in Hty' by (layout; lia).
    rewrite Hty in Hty' by lia.
    rewrite Hg by (layout; lia). apply Hof; assumption.
Qed.

Lemma image_walk_found : (w_found (image_walk core a tlen) =? 0) = false.
Proof.
  pose proof image_walk_ok as I. destruct Htext as (Hk & _).
  rewrite (ii_found _ _ _ _ _ I).
  replace (k <? phnum) with true by (symmetry; apply Z.ltb_lt; lia).
  reflexivity.
Qed.

Lemma exe_walk_found :
  a <> 0 -> (a =? 0) = false /\ ((x_textVaddr (exe_walk_of core a tlen) =? 0) = false).
Proof.
  intros Ha. pose proof exe_walk_ok as I. destruct Htext as (Hk & Hv & _).
  rewrite (xi_tv _ _ _ _ _ _ I).
  replace (k <? phnum) with true by (symmetry; apply Z.ltb_lt; lia).
  rewrite Hv. split; apply Z.eqb_neq; exact Ha.
Qed.

Lemma merge_text_image_eq :
  merge_text_image core beyond a text tlen =
  Some (write_from (w_mem (image_walk core a tlen)) beyond 0
          (w_textOffset (image_walk core a tlen))
        ++ slice text 0 tlen
        ++ write_from (w_mem (image_walk core a tlen)) beyond
             (w_nextOffset (image_walk core a tlen))
             (wrap64 (size core - w_textOffset (image_walk core a tlen)))).
Proof.
  unfold merge_text_image. cbv zeta. rewrite image_walk_found. reflexivity.
Qed.

Lemma merge_exe_text_into_core_eq :
  a <> 0 ->
  merge_exe_text_into_core core beyond a text tlen =
  Some (write_from (x_mem (exe_walk_of core a tlen)) beyond 0
          (x_textOffset (exe_walk_of core a tlen))
        ++ slice text 0 tlen
        ++ write_from (x_mem (exe_walk_of core a tlen)) beyond
             (x_dataOffset (exe_walk_of core a tlen))
             (wrap64 (size core - x_textOffset (exe_walk_of core a tlen)))).
Proof.
  intros Ha. unfold merge_exe_text_into_core. cbv zeta.
  destruct (exe_walk_found Ha) as [E1 E2]. rewrite E1, E2. reflexivity.
Qed.

Lemma image_out_headers (out : image) :
  tabend <= get core (ph k) p_offset ->
  merge_text_image core beyond a text tlen = Some out ->
  headers_merged core tlen k out.
Proof.
  intros Ht. unfold merge_text_image. rewrite image_walk_found.
  intros [= <-]. pose proof image_walk_ok as I.
  destruct Htext as (Hk & _).
  apply patched_headers.
  - rewrite (ii_text _ _ _ _ _ I) by lia. exact Ht.
  - apply (ii_size _ _ _ _ _ I).
  - apply (ii_head _ _ _ _ _ I).
  - apply (ii_type _ _ _ _ _ I).
  - apply (ii_memsz _ _ _ _ _ I).
  - rewrite (ii_fsz _ _ _ _ _ I) by lia. unfold exp_fsz.
    rewrite Z.eqb_refl.
    replace (k <? phnum) with true by (symmetry; apply Z.ltb_lt; lia).
    reflexivity.
  - intros j Hj Hty. rewrite (ii_off _ _ _ _ _ I) by lia. unfold exp_off.
    replace (k <? j) with true by (symmetry; apply Z.ltb_lt; lia).
    replace (j <? phnum) with true by (symmetry; apply Z.ltb_lt; lia).
    rewrite Hty. reflexivity.
Qed.

Lemma exe_out_headers (out : image) :
  tabend <= get core (ph k) p_offset ->
  merge_exe_text_into_core core beyond a text tlen = Some out ->
  headers_merged core tlen k out.
Proof.
  intros Ht. unfold merge_exe_text_into_core.
  destruct (Z.eq_dec a 0) as [->|Ha]; [rewrite Z.eqb_refl; discriminate|].
  destruct (exe_walk_found Ha) as [E1 E2]. rewrite E1, E2.
  intros [= <-]. pose proof exe_walk_ok as I.
  destruct Htext as (Hk & _).
  apply patched_headers.
  - rewrite (xi_text _ _ _ _ _ _ I) by lia. exact Ht.
  - apply (xi_size _ _ _ _ _ _ I).
  - apply (xi_head _ _ _ _ _ _ I).
  - apply (xi_type _ _ _ _ _ _ I).
  - apply (xi_memsz _ _ _ _ _ _ I).
  - rewrite (xi_fsz _ _ _ _ _ _ I) by lia. unfold exp_fsz.
    rewrite Z.eqb_refl.
    replace (k <? phnum) with true by (symmetry; apply Z.ltb_lt; lia).
    reflexivity.
  - intros j Hj Hty. rewrite (xi_off _ _ _ _ _ _ I) by lia. unfold xexp_off.
    replace (k <? j) with true by (symmetry; apply Z.ltb_lt; lia).
    replace (j <? phnum) with true by (symmetry; apply Z.ltb_lt; lia).
    reflexivity.
Qed.


Lemma merged_layout (m : image) (t n : Z) :
  size m = size core -> t <= n -> 0 <= t -> n <= size core -> size core < 2 ^ 64 ->
  Z.of_nat (length text) = tlen ->
  write_from m beyond 0 t ++ slice text 0 tlen
    ++ write_from m beyond n (wrap64 (size core - t)) =
  firstn (Z.to_nat t) m ++ text ++ skipn (Z.to_nat n) m
    ++ firstn (Z.to_nat (n - t)) beyond.
Proof.
  intros Hs Htn Ht Hn Hsz Hl.
  rewrite write_head by lia.
  rewrite <- Hs, write_tail by lia.
  unfold slice. change (skipn (Z.to_nat 0) text) with text.
  replace (firstn (Z.to_nat tlen) text) with text
    by (symmetry; apply firstn_all2; lia).
  reflexivity.
Qed.

End MergeOutput.

Section MergeTheorems.
Import Mem Elf TextMerge.

(** The layout of what a text-merge pass writes. *)
Lemma merged_output_layout (core beyond : image) (text : list byte) (a tlen k : Z) :
  table_ok core -> text_header core k a -> a <> 0 ->
  k + 1 < phnum_of core ->
  get core (ph_of core k) p_offset <= get core (ph_of core (k + 1)) p_offset ->
  get core (ph_of core (k + 1)) p_offset <= size core ->
  size core < 2 ^ 64 ->
  Z.of_nat (length text) = tlen ->
  let textOffset := Z.to_nat (get core (ph_of core k) p_offset) in
  let nextOffset := Z.to_nat (get core (ph_of core (k + 1)) p_offset) in
  exists m m' junk junk',
    patched_table core m /\ patched_table core m' /\
    merge_exe_text_into_core core beyond a text tlen =
      Some (firstn textOffset m ++ text ++ skipn nextOffset m ++ junk) /\
    merge_text_image core beyond a text tlen =
      Some (firstn textOffset m' ++ text ++ skipn nextOffset m' ++ junk').
Proof.
  intros Htab Htext Ha Hk1 Hord Hnx Hsz Hl textOffset nextOffset.
  pose proof (exe_walk_ok core a tlen k Htab Htext) as X.
  pose proof (image_walk_ok core a tlen k Htab Htext) as I.
  pose proof (get_range core (ph_of core k) p_offset) as Hr.
  assert (Hk : 0 <= k < phnum_of core) by (destruct Htext as (Hk & _); exact Hk).
  exists (x_mem (exe_walk_of core a tlen)), (w_mem (image_walk core a tlen)).
  exists (firstn (Z.to_nat (get core (ph_of core (k + 1)) p_offset
                            - get core (ph_of core k) p_offset)) beyond).
  exists (firstn (Z.to_nat (get core (ph_of core (k + 1)) p_offset
                            - get core (ph_of core k) p_offset)) beyond).
  split; [|split; [|split]].
  - split; [apply (xi_size _ _ _ _ _ _ X)|].
    split; [apply (xi_head _ _ _ _ _ _ X)|].
    apply (xi_tail _ _ _ _ _ _ X). left. exact Hk1.
  - split; [apply (ii_size _ _ _ _ _ I)|].
    split; [apply (ii_head _ _ _ _ _ I)|apply (ii_tail _ _ _ _ _ I)].
  - rewrite (merge_exe_text_into_core_eq core beyond text a tlen k Htab Htext Ha).
    rewrite (xi_text _ _ _ _ _ _ X), (xi_data _ _ _ _ _ _ X) by lia.
    f_equal. apply merged_layout; try lia. apply (xi_size _ _ _ _ _ _ X).
  - rewrite (merge_text_image_eq core beyond text a tlen k Htab Htext).
    rewrite (ii_text _ _ _ _ _ I), (ii_next _ _ _ _ _ I) by lia.
    f_equal. apply merged_layout; try lia. apply (ii_size _ _ _ _ _ I).
Qed.


Lemma sample_table_ok : table_ok Sample.core.
Proof. split; vm_compute; discriminate. Defined.

Lemma sample_text_header : text_header Sample.core 1 0x400000.
Proof.
  split; [vm_compute; split; [discriminate|reflexivity]|].
  split; [vm_compute; reflexivity|].
  split; [vm_compute; split; [discriminate|reflexivity]|].
  intros j Hj Hjk.
  assert (Hn : phnum_of Sample.core = 3) by (vm_compute; reflexivity).
  rewrite Hn in Hj.
  assert (j = 0 \/ j = 2) as [->| ->] by lia.
  - split; [vm_compute; discriminate|].
    vm_compute. intros [_ Hc]. discriminate Hc.
  - split; [vm_compute; discriminate|].
    vm_compute. intros [Hc _]. apply Hc. reflexivity.
Defined.


End MergeTheorems.

(** ** Personality *)

Section PersonalityFacts.
Import Mem Elf Notes Handle Personality.
Context {H : Headers}.

(** How many of the headers are PT_INTERP. *)
Lemma orig_phdr_step_counts (exe : image) (comm : list byte) (fm : nt_file_struct)
    (tb ph : Z) (e e' : elfdesc_t) :
  orig_phdr_step exe comm fm tb ph e = Some e' ->
  pie e' = pie e /\
  dynlinked e' = dynlinked e + (if get exe ph p_type =? PT_INTERP then 1 else 0).
Proof.
  unfold orig_phdr_step. destruct e; cbn [Handle.pie Handle.dynlinked].
  destruct (get exe ph p_type =? PT_LOAD) eqn:E1.
  { apply Z.eqb_eq in E1. rewrite E1. change (PT_LOAD =? PT_INTERP) with false.
    destruct (negb (get exe ph p_offset =? 0)).
    - destruct (lookup_data_base comm fm); [|discriminate].
      destruct (lookup_data_size comm fm); [|discriminate].
      match goal with |- context [if ?c =? 0 then _ else _] => destruct (c =? 0) end;
        intros [= <-]; cbn -[Z.add]; split; lia.
    - destruct (lookup_text_size comm fm); [|discriminate].
      intros [= <-]. cbn -[Z.add]. split; lia. }
  destruct (get exe ph p_type =? PT_DYNAMIC) eqn:E2.
  { apply Z.eqb_eq in E2. rewrite E2. change (PT_DYNAMIC =? PT_INTERP) with false.
    intros [= <-]. cbn -[Z.add]. split; lia. }
  destruct (get exe ph p_type =? PT_GNU_EH_FRAME) eqn:E3.
  { apply Z.eqb_eq in E3. rewrite E3. change (PT_GNU_EH_FRAME =? PT_INTERP) with false.
    intros [= <-]. cbn -[Z.add]. split; lia. }
  destruct (get exe ph p_type =? PT_INTERP) eqn:E4.
  - intros [= <-]. cbn -[Z.add]. split; lia.
  - intros [= <-]. cbn -[Z.add]. split; lia.
Qed.

Lemma orig_phdr_loop_counts (exe : image) (comm : list byte) (fm : nt_file_struct)
    (tb : Z) (phs : list Z) (e e' : elfdesc_t) :
  orig_phdr_loop exe comm fm tb phs e = Some e' ->
  pie e' = pie e /\
  dynlinked e <= dynlinked e' /\
  (dynlinked e' = dynlinked e <->
   forall ph, In ph phs -> get exe ph p_type <> PT_INTERP).
Proof.
  revert e. induction phs as [|ph phs IH]; intros e; simpl.
  - intros [= <-]. split; [reflexivity|]. split; [lia|]. split; [intros _ ph []|reflexivity].
  - destruct (orig_phdr_step exe comm fm tb ph e) as [e1|] eqn:Es; [|discriminate].
    intros Hl. apply orig_phdr_step_counts in Es. destruct Es as [Hp Hd].
    destruct (IH _ Hl) as (Hp' & Hle & Hiff).
    split; [congruence|].
    destruct (get exe ph p_type =? PT_INTERP) eqn:Ei.
    + apply Z.eqb_eq in Ei. split; [lia|]. split.
      * intros Heq. lia.
      * intros Hno. exfalso. apply (Hno ph); [left; reflexivity|exact Ei].
    + apply Z.eqb_neq in Ei. split; [lia|]. split.
      * intros Heq ph' [<-|Hin]; [exact Ei|]. apply Hiff; [lia|exact Hin].
      * intros Hno.
        assert (dynlinked e' = dynlinked e1); [|lia].
        apply Hiff. intros ph' Hin. apply Hno. right. exact Hin.
Qed.

Lemma land_lor_flag (p f g : Z) :
  Z.land f g = 0 -> Z.land (Z.lor p f) g = Z.land p g.
Proof.
  intros Hd. rewrite Z.land_lor_distr_l, Hd. apply Z.lor_0_r.
Qed.

Lemma land_lor_same (p f : Z) :
  f <> 0 -> Z.land (Z.lor p f) f <> 0.
Proof.
  intros Hf Hz. apply Hf.
  rewrite Z.land_lor_distr_l, Z.land_diag in Hz.
  apply Z.lor_eq_0_iff in Hz. tauto.
Qed.

Lemma build_elf_stats_bits (e : elfdesc_t) (heur stripped : Z) :
  flags_disjoint ->
  (has_bit (build_elf_stats e heur stripped) ELF_STATIC <-> dynlinked e = 0) /\
  (has_bit (build_elf_stats e heur stripped) ELF_PIE <-> pie e <> 0) /\
  (has_bit (build_elf_stats e heur stripped) ELF_HEURISTICS <-> heur <> 0) /\
  (has_bit (build_elf_stats e heur stripped) ELF_STRIPPED_SHDRS <-> stripped <> 0).
Proof.
  intros (S0 & P0 & H0 & T0 & SP & SH & ST & PH & PT & HT).
  assert (PS : Z.land ELF_PIE ELF_STATIC = 0) by (rewrite Z.land_comm; exact SP).
  assert (HS : Z.land ELF_HEURISTICS ELF_STATIC = 0) by (rewrite Z.land_comm; exact SH).
  assert (TS : Z.land ELF_STRIPPED_SHDRS ELF_STATIC = 0) by (rewrite Z.land_comm; exact ST).
  assert (HP : Z.land ELF_HEURISTICS ELF_PIE = 0) by (rewrite Z.land_comm; exact PH).
  assert (TP : Z.land ELF_STRIPPED_SHDRS ELF_PIE = 0) by (rewrite Z.land_comm; exact PT).
  assert (TH : Z.land ELF_STRIPPED_SHDRS ELF_HEURISTICS = 0) by (rewrite Z.land_comm; exact HT).
  unfold build_elf_stats, has_bit.
  destruct (dynlinked e =? 0) eqn:Ed; destruct (pie e =? 0) eqn:Ep;
    destruct (heur =? 0) eqn:Eh; destruct (stripped =? 0) eqn:Et;
    rewrite ?Z.eqb_eq, ?Z.eqb_neq in *;
    repeat split; intros Hx; try assumption; try contradiction;
    repeat (first [ rewrite land_lor_flag in Hx by assumption
                  | rewrite Z.land_0_l in Hx ]);
    try (exfalso; apply Hx; reflexivity);
    try (exfalso; revert Hx; apply land_lor_same; assumption);
    repeat (first [ apply land_lor_same; assumption
                  | rewrite land_lor_flag by assumption ]).
Qed.

(** C5 (amended).  With a descriptor whose [pie] and [dynlinked] are still
    zero when [parse_orig_phdrs] runs on the original executable, and
    [global_hacks.stripped] set from that executable, the personality word
    that [build_elf_stats] computes has STATIC set exactly when the
    executable has no PT_INTERP program header, PIE set exactly when its
    ELF type is DYN, and STRIPPED_SHDRS set exactly when the executable has
    zero section headers. *)
Theorem personality_bits (e0 e : elfdesc_t) (tb : Z) (comm : list byte)
    (exe : image) (fm : nt_file_struct) (heur : Z) :
  flags_disjoint ->
  dynlinked e0 = 0 -> pie e0 = 0 ->
  parse_orig_phdrs e0 tb comm exe fm = Some (inr e) ->
  let p := build_elf_stats e heur (stripped_of exe) in
  (has_bit p ELF_STATIC <->
   forall ph, In ph (phdrs_of exe) -> get exe ph p_type <> PT_INTERP) /\
  (has_bit p ELF_PIE <-> get exe 0 e_type = ET_DYN) /\
  (has_bit p ELF_STRIPPED_SHDRS <-> no_section_headers exe).
Proof.
  intros Hfl Hd0 Hp0 Hparse p.
  destruct (build_elf_stats_bits e heur (stripped_of exe) Hfl) as (Bs & Bp & _ & Bt).
  unfold parse_orig_phdrs in Hparse.
  destruct (tb =? 0); [discriminate|].
  destruct (lookup_text_base comm fm) as [text_base|]; [|discriminate].
  match type of Hparse with
  | option_map inr (orig_phdr_loop _ _ _ _ _ ?e1) = _ => set (e1' := e1) in *
  end.
  destruct (orig_phdr_loop exe comm fm text_base (phdrs_of exe) e1') as [e2|] eqn:El;
    [|discriminate].
  injection Hparse as <-.
  apply orig_phdr_loop_counts in El. destruct El as (Hp & _ & Hiff).
  assert (Hd1 : dynlinked e1' = 0).
  { unfold e1'. destruct e0. destruct (get exe 0 e_type =? ET_DYN); cbn -[Z.add] in *; exact Hd0. }
  assert (Hp1 : pie e1' <> 0 <-> get exe 0 e_type = ET_DYN).
  { unfold e1'. destruct e0. destruct (get exe 0 e_type =? ET_DYN) eqn:Et; cbn -[Z.add] in *.
    - apply Z.eqb_eq in Et. rewrite Hp0. split; [intros _; exact Et|intros _; lia].
    - apply Z.eqb_neq in Et. rewrite Hp0. split; [intros Hx; lia|intros Hx; contradiction]. }
  split; [|split].
  - unfold p. rewrite Bs. rewrite Hd1 in Hiff. exact Hiff.
  - unfold p. rewrite Bp, Hp. exact Hp1.
  - unfold p. rewrite Bt.
    unfold stripped_of, check_for_stripped_shdr, no_section_headers, SHN_UNDEF.
    destruct (get exe 0 e_shnum =? 0) eqn:E1; destruct (get exe 0 e_shoff =? 0) eqn:E2;
      rewrite ?Z.eqb_eq, ?Z.eqb_neq in *; simpl; split; intros Hx;
      try discriminate; try tauto; try lia.
Qed.

End PersonalityFacts.

Section PersonalityExamples.
Import Mem Elf Notes Handle Personality.

Lemma sample_flags_disjoint : @flags_disjoint Sample.linux_x86_64.
Proof. vm_compute. repeat split; discriminate. Defined.

Lemma personality_bits_witness :
  exists e,
    parse_orig_phdrs (elfdesc_zero []) 0x555555554000 (CStr.lit "app") Sample.pie_exe
      Sample.app_files = Some (inr e) /\
    let p := @build_elf_stats Sample.linux_x86_64 e 0 (stripped_of Sample.pie_exe) in
    (@has_bit p (@ELF_STATIC Sample.linux_x86_64) <->
     forall ph, In ph (phdrs_of Sample.pie_exe) ->
       get Sample.pie_exe ph p_type <> PT_INTERP) /\
    (@has_bit p (@ELF_PIE Sample.linux_x86_64)
     <-> get Sample.pie_exe 0 e_type = ET_DYN) /\
    (@has_bit p (@ELF_STRIPPED_SHDRS Sample.linux_x86_64)
     <-> no_section_headers Sample.pie_exe).
Proof.
  eexists. split; [vm_compute; reflexivity|].
  match goal with
  | |- context [build_elf_stats ?e _ _] =>
      apply (@personality_bits Sample.linux_x86_64 (elfdesc_zero []) e 0x555555554000
               (CStr.lit "app") Sample.pie_exe Sample.app_files 0)
  end.
  - exact sample_flags_disjoint.
  - reflexivity.
  - reflexivity.
  - vm_compute. reflexivity.
Defined.

(** C5, as stated, fails on a position-independent executable whose
    executable LOAD does not sit at address 0: the PIE bit is set although
    [check_for_pie] finds no executable LOAD at address 0. *)
Lemma pie_without_exec_load_at_zero :
  exists e,
    parse_orig_phdrs (elfdesc_zero []) 0x555555554000 (CStr.lit "app") Sample.pie_exe
      Sample.app_files = Some (inr e) /\
    @has_bit (@build_elf_stats Sample.linux_x86_64 e 0 0) (@ELF_PIE Sample.linux_x86_64) /\
    ~ (get Sample.pie_exe 0 e_type = ET_DYN /\ check_for_pie Sample.pie_exe = 1).
Proof.
  eexists. split; [vm_compute; reflexivity|]. split.
  - vm_compute. discriminate.
  - vm_compute. intros [_ Hc]. discriminate Hc.
Qed.

End PersonalityExamples.

(** ** Snapshot and PmemRead *)

Section SocketFacts.
Import Mem CStr FdLinks.
Context {H : Headers}.

(** C8 (the code at the failing input).  For a socket whose inode both
    tables list, [fill_sock_info] leaves the tag and the addresses of the
    UDP line: the scan of the UDP table runs whether or not the TCP table
    had the inode, and within a table the last line with the inode
    stays. *)
Theorem udp_line_overrides_tcp_match :
  fill_sock_info fd_info_zero 7 Sample.tcp_table Sample.udp_table =
  {| fd := 0; path := []; net := NET_UDP;
     socket := {| src_addr := 0; dst_addr := 0; src_port := 53; dst_port := 0 |} |}.
Proof. reflexivity. Qed.

End SocketFacts.

Section MapsFacts.
Import Mem CStr ProcMaps.

(** C9 (the code at the failing input).  The line [[stack:4321]] is line 2
    of the file; [get_maps] leaves [maps[2]] without the thread-stack mark
    and marks [maps[16]], sixteen being the number of characters between
    the first colon of the line and the closing bracket, with the thread
    id [atoi] reads from those characters, 0. *)
Theorem thread_stack_marks_other_entry :
  exists ms,
    get_maps (lit "cat") Sample.maps_lines (repeat mapping_zero 18)
      (repeat Byte.x00 32) = Some ms /\
    option_map thread_stack (ms !! 2%nat) = Some 0 /\
    option_map thread_stack (ms !! 16%nat) = Some 1 /\
    option_map stack_tid (ms !! 16%nat) = Some 0.
Proof.
  eexists. split; [vm_compute; reflexivity|].
  repeat split; vm_compute; reflexivity.
Qed.

End MapsFacts.

Section PmemFacts.
Import Mem Elf ProcMaps Handle Pmem.
Variable os_pread : Z -> Z -> Z -> Z * list byte.

Lemma find_none_iff {A} (f : A -> bool) (l : list A) :
  List.find f l = None <-> forall x, In x l -> f x = false.
Proof.
  split.
  - intros Hf x Hin. eapply find_none; eauto.
  - induction l as [|a l IH]; intros Hall; simpl; [reflexivity|].
    rewrite (Hall a (or_introl eq_refl)). apply IH.
    intros x Hin. apply Hall. right. exact Hin.
Qed.

Lemma find_first {A} (f : A -> bool) (l : list A) (i : nat) (x : A) :
  nth_error l i = Some x -> f x = true ->
  (forall j y, (j < i)%nat -> nth_error l j = Some y -> f y = false) ->
  List.find f l = Some x.
Proof.
  revert i. induction l as [|a l IH]; intros i Hn Hx Hb.
  - destruct i; discriminate.
  - destruct i as [|i]; simpl in *.
    + injection Hn as ->. rewrite Hx. reflexivity.
    + rewrite (Hb O a ltac:(lia) eq_refl).
      apply (IH i); [exact Hn|exact Hx|].
      intros j y Hj Hy. apply (Hb (S j) y); [lia|exact Hy].
Qed.

Lemma inside_spec (vaddr : Z) (mp : mappings_t) :
  0 <= base mp -> 0 <= size mp -> base mp + size mp < 2 ^ 64 ->
  inside vaddr mp = true <-> base mp <= vaddr < base mp + size mp.
Proof.
  intros Hb Hs Hw. unfold inside, wrap64.
  rewrite Z.mod_small by lia.
  rewrite andb_true_iff, Z.leb_le, Z.ltb_lt. tauto.
Qed.

(** C10.  When [vaddr] lies in none of the mappings,
    [get_segment_from_pmem] returns -1 and does nothing else: no signal,
    no allocation, no read.  When mapping [i] is the first that holds
    [vaddr], it allocates [size] bytes, stops the process, reads [size]
    bytes at the base of the mapping (not at [vaddr]), lets the process
    continue, and returns [size], or -1 when the read was short. *)
Theorem get_segment_from_pmem_spec (vaddr : Z) (md : memdesc_t) :
  no_wrap md -> pread_ok os_pread ->
  let ms := firstn (Z.to_nat (mapcount md)) (maps md) in
  ((forall mp, In mp ms -> ~ (base mp <= vaddr < base mp + size mp)) ->
   get_segment_from_pmem os_pread vaddr md = ((-1, None), [])) /\
  (forall i mp,
     nth_error ms i = Some mp ->
     base mp <= vaddr < base mp + size mp ->
     (forall j mq, (j < i)%nat -> nth_error ms j = Some mq ->
        ~ (base mq <= vaddr < base mq + size mq)) ->
     get_segment_from_pmem os_pread vaddr md =
     ((if fst (os_pread (task_pid md) (base mp) (size mp)) =? size mp
       then size mp else -1,
       Some (snd (os_pread (task_pid md) (base mp) (size mp)))),
      [Alloc (size mp); Signal (task_pid md) SIGSTOP; OpenMem (task_pid md);
       Pread (task_pid md) (base mp) (size mp); Signal (task_pid md) SIGCONT])).
Proof.
  intros Hnw Hos ms.
  assert (Hin : forall mp, In mp ms -> In mp (maps md)).
  { intros mp Hm. unfold ms in Hm.
    rewrite <- (firstn_skipn (Z.to_nat (mapcount md)) (maps md)).
    apply in_or_app. left. exact Hm. }
  split.
  - intros Hout. unfold get_segment_from_pmem. fold ms.
    replace (List.find (inside vaddr) ms) with (@None mappings_t); [reflexivity|].
    symmetry. apply find_none_iff. intros mp Hm.
    destruct (inside vaddr mp) eqn:E; [|reflexivity].
    destruct (Hnw mp (Hin mp Hm)) as (Hb & Hs & Hw).
    apply inside_spec in E; try assumption. exfalso. apply (Hout mp Hm E).
  - intros i mp Hn Hv Hbefore. unfold get_segment_from_pmem. fold ms.
    assert (Hm : In mp ms) by (eapply nth_error_In; eauto).
    destruct (Hnw mp (Hin mp Hm)) as (Hb & Hs & Hw).
    rewrite (find_first (inside vaddr) ms i mp Hn).
    + unfold read_pmem, bind, emit, ret.
      pose proof (Hos (task_pid md) (base mp) (size mp) Hs) as Hr.
      destruct (os_pread (task_pid md) (base mp) (size mp)) as [bytes data] eqn:Eo.
      simpl in *. f_equal. f_equal.
      unfold wrap64.
      destruct (Z.eq_dec bytes (-1)) as [->|Hne].
      * replace (-1 =? size mp) with false by (symmetry; apply Z.eqb_neq; lia).
        destruct ((-1) mod 2 ^ 64 =? size mp); reflexivity.
      * rewrite Z.mod_small by lia.
        destruct (bytes =? size mp) eqn:E; [apply Z.eqb_eq in E; exact E|reflexivity].
    + apply inside_spec; assumption.
    + intros j mq Hj Hq.
      assert (Hmq : In mq ms) by (eapply nth_error_In; eauto).
      destruct (Hnw mq (Hin mq Hmq)) as (Hb' & Hs' & Hw').
      destruct (inside vaddr mq) eqn:E; [|reflexivity].
      apply inside_spec in E; try assumption. exfalso. apply (Hbefore j mq Hj Hq E).
Qed.

End PmemFacts.

(** ** SymRecon *)

Section HexFacts.
Import Mem Elf CStr SymRecon.



Lemma length_hex_aux (fuel : nat) : forall (n : Z) (acc : list byte),
  (length (hex_aux fuel n acc) <= fuel + length acc)%nat.
Proof.
  induction fuel as [|fuel IH]; intros n acc; cbn [hex_aux]; [lia|].
  destruct (n / 16 =? 0).
  - cbn [length]. lia.
  - specialize (IH (n / 16) (hex_digit (n mod 16) :: acc)).
    cbn [length] in IH. lia.
Qed.






Lemma length_sub_name (a : Z) : (length (sub_name a) <= 20)%nat.
Proof.
  unfold sub_name, hex. rewrite length_app.
  pose proof (length_hex_aux 16 a []) as Hl. cbn [length] in Hl.
  change (length (lit "sub_")) with 4%nat. lia.
Qed.


Lemma cstring_terminated (s rest : list byte) :
  Forall (fun b => b <> Byte.x00) s -> cstring (s ++ Byte.x00 :: rest) = s.
Proof.
  induction 1 as [|b s Hb Hs IH]; cbn [cstring app].
  - reflexivity.
  - destruct (Byte.eqb b Byte.x00) eqn:E.
    + apply Byte.byte_dec_bl in E. contradiction.
    + rewrite IH. reflexivity.
Qed.

End HexFacts.

Section SymtabFacts.
Import Mem Elf CStr SymRecon.

Lemma length_encode_sym (a b c d e f : Z) :
  length (encode_sym a b c d e f) = 24%nat.
Proof. unfold encode_sym. rewrite !length_app, !length_le_split. reflexivity. Qed.

Lemma length_symtab_bytes (fns : list fde_func_data) : forall (tsi off : Z),
  length (symtab_bytes fns tsi off) = (24 * length fns)%nat.
Proof.
  induction fns as [|f r IH]; intros tsi off; cbn [symtab_bytes length]; [lia|].
  rewrite length_app, length_encode_sym, IH. lia.
Qed.

Lemma length_strtab_bytes (fns : list fde_func_data) :
  (length (strtab_bytes fns) <= 21 * length fns)%nat.
Proof.
  induction fns as [|f r IH]; cbn [strtab_bytes length]; [lia|].
  rewrite !length_app. cbn [length].
  pose proof (length_sub_name (fn_addr f)). lia.
Qed.

Lemma build_symtab_spec (fns : list fde_func_data) (tsi : Z) :
  forall (sy st : list byte),
  Z.of_nat (length st) + 21 * Z.of_nat (length fns) <= strtab_capacity ->
  build_symtab fns tsi sy st =
  Some (sy ++ symtab_bytes fns tsi (Z.of_nat (length st)), st ++ strtab_bytes fns).
Proof.
  induction fns as [|f r IH]; intros sy st Hc; cbn [build_symtab symtab_bytes strtab_bytes].
  - rewrite !app_nil_r. reflexivity.
  - cbn [length] in Hc. pose proof (length_sub_name (fn_addr f)) as Hl.
    replace (_ <=? strtab_capacity) with true by (symmetry; apply Z.leb_le; lia).
    rewrite IH.
    + f_equal. f_equal.
      * rewrite <- app_assoc. do 3 f_equal.
        rewrite !length_app. cbn [length]. lia.
      * rewrite <- !app_assoc. reflexivity.
    + rewrite !length_app. cbn [length]. lia.
Qed.



Lemma name_offset_le (fns : list fde_func_data) (k : nat) :
  0 <= name_offset fns k <= 21 * Z.of_nat (length fns).
Proof.
  unfold name_offset. pose proof (length_strtab_bytes (firstn k fns)) as Hl.
  rewrite length_firstn in Hl. lia.
Qed.

Lemma load_at_prefix (w : nat) (a b c : list byte) (o : Z) :
  0 <= o -> o + Z.of_nat w <= Z.of_nat (length b) ->
  load w (a ++ b ++ c) (size a + o) = load w b o.
Proof.
  intros Ho Hw. unfold load, slice, size. rewrite Nat2Z.id.
  replace (Z.to_nat (Z.of_nat (length a) + o)) with (Z.to_nat o + length a)%nat by lia.
  rewrite <- skipn_skipn.
  rewrite drop_app_length.
  rewrite firstn_skipn_app_l by lia. reflexivity.
Qed.

Lemma load_le_split (w : nat) (a c : list byte) (v : Z) :
  load w (a ++ le_split w v ++ c) (size a) = v mod 2 ^ (8 * Z.of_nat w).
Proof.
  replace (size a) with (size a + 0) by lia.
  rewrite load_at_prefix; [|lia|rewrite length_le_split; lia].
  unfold load, slice. change (Z.to_nat 0) with 0%nat. rewrite drop_0, Nat2Z.id.
  rewrite firstn_all2 by (rewrite length_le_split; lia).
  rewrite le_combine_split. f_equal. f_equal. lia.
Qed.


End SymtabFacts.

Section FinalizeFacts.
Import Mem Elf CStr SymRecon.
Variable m : image.
Variables symoff symsz stloff strsz : Z.
Hypothesis Hok : shdrs_ok m.

Local Abbreviation shoff := (shoff_of m).
Local Abbreviation shnum := (shnum_of m).
Local Abbreviation shend := (shend_of m).
Local Abbreviation ST := (strtab_of m).
Local Abbreviation sh := (sh_of m).
Local Abbreviation inv := (patch_inv m symoff symsz stloff strsz).

Lemma shnum_range : 0 <= shnum < 2 ^ 16.
Proof. apply (get_range m 0 e_shnum). Qed.

Ltac geom :=
  pose proof shnum_range;
  destruct Hok as (Hg1 & Hg2 & Hg3);
  unfold shend_of, sh_of, shdr_at, sizeof_Shdr, sizeof_Ehdr, size in *;
  cbn [f_off f_width sh_name sh_offset sh_size e_shnum e_shoff e_shstrndx] in *;
  try lia.

Lemma load_app_l (w : nat) (a b : image) (off : Z) :
  0 <= off -> off + Z.of_nat w <= size a ->
  load w (a ++ b) off = load w a off.
Proof.
  intros H0 H1. unfold load, slice. rewrite Nat2Z.id.
  rewrite firstn_skipn_app_l; [reflexivity|]. unfold size in H1. lia.
Qed.

Lemma cstring_skipn_eq (a b : image) (off : Z) (n : nat) :
  (n <= Z.to_nat off)%nat -> skipn n a = skipn n b ->
  cstring_at a off = cstring_at b off.
Proof.
  intros Hn He. unfold cstring_at.
  replace (Z.to_nat off) with ((Z.to_nat off - n) + n)%nat by lia.
  rewrite <- !skipn_skipn, He. reflexivity.
Qed.

(** Under the invariant the loop reads the section count and the names
    it read from the input. *)
Lemma inv_shnum (i : Z) (s : walk) : inv i s -> get (w_mem s) 0 e_shnum = shnum.
Proof.
  intros I. unfold shnum_of, get.
  apply (load_firstn_eq _ _ _ _ (Z.to_nat shoff)).
  - geom.
  - pose proof (pi_size _ _ _ _ _ _ _ I) as Hs. unfold size in Hs. geom.
  - unfold size in *. geom.
  - apply (pi_head _ _ _ _ _ _ _ I).
Qed.

Lemma inv_name (i : Z) (s : walk) (j : Z) :
  inv i s -> 0 <= j < shnum ->
  name_at (w_mem s) ST (sh j) = section_name m j.
Proof.
  intros I Hj. unfold section_name, name_at.
  rewrite (pi_keep _ _ _ _ _ _ _ I j sh_name Hj) by (cbn; lia).
  apply (cstring_skipn_eq _ _ _ (Z.to_nat shend)).
  - pose proof (get_range m (sh j) sh_name) as Hr. geom.
  - apply (pi_tail _ _ _ _ _ _ _ I).
Qed.

Lemma inv_start : inv 0 {| w_mem := m; w_dsymcount := 0 |}.
Proof.
  split; cbn [w_mem w_dsymcount]; try reflexivity.
  - intros j Hj. unfold patched_offset.
    replace (j <? 0) with false by (symmetry; apply Z.ltb_ge; lia). reflexivity.
  - intros j Hj. unfold patched_size.
    replace (j <? 0) with false by (symmetry; apply Z.ltb_ge; lia). reflexivity.
Qed.

(** Two stores into the header of section [i]. *)
Lemma patch_two (m' : image) (i v1 v2 : Z) :
  size m' = size m -> 0 <= i < shnum ->
  let m2 := set (set m' (sh i) sh_offset v1) (sh i) sh_size v2 in
  size m2 = size m /\
  firstn (Z.to_nat shoff) m2 = firstn (Z.to_nat shoff) m' /\
  skipn (Z.to_nat shend) m2 = skipn (Z.to_nat shend) m' /\
  (forall j f, 0 <= j < shnum -> 0 <= f_off f ->
     f_off f + Z.of_nat (f_width f) <= 24 \/
     40 <= f_off f /\ f_off f + Z.of_nat (f_width f) <= 64 ->
     get m2 (sh j) f = get m' (sh j) f) /\
  (forall j f, 0 <= j < shnum -> j <> i -> 0 <= f_off f ->
     f_off f + Z.of_nat (f_width f) <= 64 ->
     get m2 (sh j) f = get m' (sh j) f) /\
  get m2 (sh i) sh_offset = wrap64 v1 /\
  get m2 (sh i) sh_size = wrap64 v2.
Proof.
  intros Hs Hi m2. subst m2. unfold set.
  repeat split.
  - rewrite !size_store. exact Hs.
  - rewrite !firstn_store; [reflexivity| |]; geom.
  - rewrite !skipn_store; [reflexivity| |]; geom.
  - intros j f Hj Hf0 Hf. unfold get.
    rewrite !load_store_disjoint; [reflexivity| | | |]; geom.
  - intros j f Hj Hji Hf0 Hf. unfold get.
    rewrite !load_store_disjoint; [reflexivity| | | |]; geom.
  - unfold get. rewrite load_store_disjoint by geom.
    rewrite load_store_same; [reflexivity| |]; geom.
  - unfold get. rewrite load_store_same; [reflexivity| |].
    + geom.
    + rewrite size_store. geom.
Qed.


Lemma patched_offset_next (i j : Z) :
  patched_offset m symoff stloff (i + 1) j =
  if j =? i
  then (if named m i ".symtab" then wrap64 symoff
        else if named m i ".strtab" then wrap64 stloff
        else get m (sh i) sh_offset)
  else patched_offset m symoff stloff i j.
Proof.
  unfold patched_offset.
  destruct (j =? i) eqn:E.
  - apply Z.eqb_eq in E. subst j.
    replace (i <? i + 1) with true by (symmetry; apply Z.ltb_lt; lia).
    reflexivity.
  - apply Z.eqb_neq in E.
    replace (j <? i + 1) with (j <? i); [reflexivity|].
    destruct (j <? i) eqn:F; symmetry.
    + apply Z.ltb_lt in F. apply Z.ltb_lt. lia.
    + apply Z.ltb_ge in F. apply Z.ltb_ge. lia.
Qed.

Lemma patched_size_next (i j : Z) :
  patched_size m symsz strsz (i + 1) j =
  if j =? i
  then (if named m i ".symtab" then wrap64 symsz
        else if named m i ".strtab" then wrap64 strsz
        else get m (sh i) sh_size)
  else patched_size m symsz strsz i j.
Proof.
  unfold patched_size.
  destruct (j =? i) eqn:E.
  - apply Z.eqb_eq in E. subst j.
    replace (i <? i + 1) with true by (symmetry; apply Z.ltb_lt; lia).
    reflexivity.
  - apply Z.eqb_neq in E.
    replace (j <? i + 1) with (j <? i); [reflexivity|].
    destruct (j <? i) eqn:F; symmetry.
    + apply Z.ltb_lt in F. apply Z.ltb_lt. lia.
    + apply Z.ltb_ge in F. apply Z.ltb_ge. lia.
Qed.

Lemma patched_offset_self (i : Z) :
  patched_offset m symoff stloff i i = get m (sh i) sh_offset.
Proof.
  unfold patched_offset.
  replace (i <? i) with false by (symmetry; apply Z.ltb_ge; lia). reflexivity.
Qed.

Lemma patched_size_self (i : Z) :
  patched_size m symsz strsz i i = get m (sh i) sh_size.
Proof.
  unfold patched_size.
  replace (i <? i) with false by (symmetry; apply Z.ltb_ge; lia). reflexivity.
Qed.

Lemma dynsym_count_next (i : Z) :
  0 <= i ->
  dynsym_count m (Z.to_nat (i + 1)) =
  if named m i ".dynsym"
  then to_int (get m (sh i) sh_size / sizeof_Sym)
  else dynsym_count m (Z.to_nat i).
Proof.
  intros Hi. replace (Z.to_nat (i + 1)) with (S (Z.to_nat i)) by lia.
  cbn [dynsym_count]. rewrite Z2Nat.id by lia. reflexivity.
Qed.

Lemma named_true (i : Z) (a b : string) :
  named m i a = true -> lit a <> lit b -> named m i b = false.
Proof.
  unfold named, streq. intros Ha Hab.
  apply bool_decide_eq_true in Ha. apply bool_decide_eq_false.
  rewrite Ha. exact Hab.
Qed.

Ltac lit_neq := let E := fresh in intro E; vm_compute in E; discriminate E.

Lemma patch_step_inv (i : Z) (s : walk) :
  inv i s -> 0 <= i < shnum ->
  inv (i + 1) (patch_step shoff ST symoff symsz stloff strsz i s).
Proof.
  intros I Hi. unfold patch_step. cbv zeta.
  fold (sh i). rewrite (inv_name i s i I Hi).
  fold (named m i ".symtab"). fold (named m i ".strtab").
  fold (named m i ".dynsym").
  pose proof (pi_size _ _ _ _ _ _ _ I) as Is.
  pose proof (pi_head _ _ _ _ _ _ _ I) as Ih.
  pose proof (pi_tail _ _ _ _ _ _ _ I) as It.
  pose proof (pi_keep _ _ _ _ _ _ _ I) as Ik.
  pose proof (pi_off _ _ _ _ _ _ _ I) as Io.
  pose proof (pi_sz _ _ _ _ _ _ _ I) as Iz.
  pose proof (pi_count _ _ _ _ _ _ _ I) as Ic.
  destruct (named m i ".symtab") eqn:E1;
    [|destruct (named m i ".strtab") eqn:E2;
      [|destruct (named m i ".dynsym") eqn:E3]].
  - destruct (patch_two (w_mem s) i symoff symsz Is Hi)
      as (P1 & P2 & P3 & P4 & P5 & P6 & P7).
    split; cbn [w_mem w_dsymcount].
    + exact P1.
    + rewrite P2. exact Ih.
    + rewrite P3. exact It.
    + intros j f Hj Hf0 Hf. rewrite P4 by assumption. apply Ik; assumption.
    + intros j Hj. rewrite patched_offset_next, E1.
      destruct (j =? i) eqn:E.
      * apply Z.eqb_eq in E. subst j. exact P6.
      * apply Z.eqb_neq in E. rewrite P5 by (cbn; lia || assumption).
        apply Io. exact Hj.
    + intros j Hj. rewrite patched_size_next, E1.
      destruct (j =? i) eqn:E.
      * apply Z.eqb_eq in E. subst j. exact P7.
      * apply Z.eqb_neq in E. rewrite P5 by (cbn; lia || assumption).
        apply Iz. exact Hj.
    + rewrite dynsym_count_next by lia.
      rewrite (named_true i ".symtab" ".dynsym" E1) by lit_neq. exact Ic.
  - destruct (patch_two (w_mem s) i stloff strsz Is Hi)
      as (P1 & P2 & P3 & P4 & P5 & P6 & P7).
    split; cbn [w_mem w_dsymcount].
    + exact P1.
    + rewrite P2. exact Ih.
    + rewrite P3. exact It.
    + intros j f Hj Hf0 Hf. rewrite P4 by assumption. apply Ik; assumption.
    + intros j Hj. rewrite patched_offset_next, E1, E2.
      destruct (j =? i) eqn:E.
      * apply Z.eqb_eq in E. subst j. exact P6.
      * apply Z.eqb_neq in E. rewrite P5 by (cbn; lia || assumption).
        apply Io. exact Hj.
    + intros j Hj. rewrite patched_size_next, E1, E2.
      destruct (j =? i) eqn:E.
      * apply Z.eqb_eq in E. subst j. exact P7.
      * apply Z.eqb_neq in E. rewrite P5 by (cbn; lia || assumption).
        apply Iz. exact Hj.
    + rewrite dynsym_count_next by lia.
      rewrite (named_true i ".strtab" ".dynsym" E2) by lit_neq. exact Ic.
  - split; cbn [w_mem w_dsymcount]; try assumption.
    + intros j Hj. rewrite patched_offset_next, E1, E2.
      destruct (j =? i) eqn:E; [|apply Io; exact Hj].
      apply Z.eqb_eq in E. subst j. rewrite Io by exact Hj.
      apply patched_offset_self.
    + intros j Hj. rewrite patched_size_next, E1, E2.
      destruct (j =? i) eqn:E; [|apply Iz; exact Hj].
      apply Z.eqb_eq in E. subst j. rewrite Iz by exact Hj.
      apply patched_size_self.
    + rewrite dynsym_count_next, E3 by lia.
      rewrite Iz by exact Hi. rewrite patched_size_self. reflexivity.
  - split; try assumption.
    + intros j Hj. rewrite patched_offset_next, E1, E2.
      destruct (j =? i) eqn:E; [|apply Io; exact Hj].
      apply Z.eqb_eq in E. subst j. rewrite Io by exact Hj.
      apply patched_offset_self.
    + intros j Hj. rewrite patched_size_next, E1, E2.
      destruct (j =? i) eqn:E; [|apply Iz; exact Hj].
      apply Z.eqb_eq in E. subst j. rewrite Iz by exact Hj.
      apply patched_size_self.
    + rewrite dynsym_count_next, E3 by lia. exact Ic.
Qed.

Lemma patch_loop_inv (fuel : nat) : forall (i : Z) (s : walk),
  inv i s -> 0 <= i <= shnum -> shnum - i <= Z.of_nat fuel ->
  inv shnum (patch_loop fuel shoff ST symoff symsz stloff strsz i s).
Proof.
  induction fuel as [|fuel IH]; intros i s I Hi Hf.
  - cbn [patch_loop]. replace shnum with i by lia. exact I.
  - cbn [patch_loop]. rewrite (inv_shnum i s I).
    destruct (i <? shnum) eqn:E.
    + apply Z.ltb_lt in E. apply IH; [|lia|lia].
      apply patch_step_inv; [exact I|lia].
    + apply Z.ltb_ge in E. replace shnum with i by lia. exact I.
Qed.

(** The second loop stops at the first [.got.plt]. *)
Lemma got_loop_found (fuel : nat) (m1 : image) (d g : Z) : forall (i : Z),
  size m1 = size m ->
  firstn (Z.to_nat shoff) m1 = firstn (Z.to_nat shoff) m ->
  skipn (Z.to_nat shend) m1 = skipn (Z.to_nat shend) m ->
  (forall j, 0 <= j < shnum -> get m1 (sh j) sh_name = get m (sh j) sh_name) ->
  0 <= i <= g -> g < shnum -> g - i < Z.of_nat fuel ->
  named m g ".got.plt" = true ->
  (forall j, i <= j < g -> named m j ".got.plt" = false) ->
  got_loop fuel shoff ST d i m1 =
  set m1 (sh g) sh_size (wrap64 (d * sizeof_Addr + 3 * sizeof_Addr)).
Proof.
  intros i Hs Hh Ht Hn. revert i.
  assert (Hnum : get m1 0 e_shnum = shnum).
  { unfold shnum_of, get. apply (load_firstn_eq _ _ _ _ (Z.to_nat shoff)).
    - geom.
    - geom.
    - geom.
    - exact Hh. }
  assert (Hname : forall j, 0 <= j < shnum ->
            name_at m1 ST (sh j) = section_name m j).
  { intros j Hj. unfold section_name, name_at. rewrite Hn by exact Hj.
    apply (cstring_skipn_eq _ _ _ (Z.to_nat shend)).
    - pose proof (get_range m (sh j) sh_name) as Hr. geom.
    - exact Ht. }
  induction fuel as [|fuel IH]; intros i Hi Hg Hf Hgot Hno; [lia|].
  cbn [got_loop]. rewrite Hnum.
  replace (i <? shnum) with true by (symmetry; apply Z.ltb_lt; lia).
  fold (sh i). rewrite Hname by lia. fold (named m i ".got.plt").
  destruct (Z.eq_dec i g) as [->|Hne].
  - rewrite Hgot. reflexivity.
  - rewrite (Hno i) by lia. apply IH; try lia; try assumption.
    intros j Hj. apply Hno. lia.
Qed.

Lemma got_loop_none (fuel : nat) (m1 : image) (d : Z) : forall (i : Z),
  size m1 = size m ->
  firstn (Z.to_nat shoff) m1 = firstn (Z.to_nat shoff) m ->
  skipn (Z.to_nat shend) m1 = skipn (Z.to_nat shend) m ->
  (forall j, 0 <= j < shnum -> get m1 (sh j) sh_name = get m (sh j) sh_name) ->
  0 <= i ->
  (forall j, i <= j < shnum -> named m j ".got.plt" = false) ->
  got_loop fuel shoff ST d i m1 = m1.
Proof.
  intros i Hs Hh Ht Hn. revert i.
  assert (Hnum : get m1 0 e_shnum = shnum).
  { unfold shnum_of, get. apply (load_firstn_eq _ _ _ _ (Z.to_nat shoff)).
    - geom.
    - geom.
    - geom.
    - exact Hh. }
  assert (Hname : forall j, 0 <= j < shnum ->
            name_at m1 ST (sh j) = section_name m j).
  { intros j Hj. unfold section_name, name_at. rewrite Hn by exact Hj.
    apply (cstring_skipn_eq _ _ _ (Z.to_nat shend)).
    - pose proof (get_range m (sh j) sh_name) as Hr. geom.
    - exact Ht. }
  induction fuel as [|fuel IH]; intros i Hi Hno; [reflexivity|].
  cbn [got_loop]. rewrite Hnum.
  destruct (i <? shnum) eqn:E; [|reflexivity].
  apply Z.ltb_lt in E.
  fold (sh i). rewrite Hname by lia. fold (named m i ".got.plt").
  rewrite (Hno i) by lia. apply IH; [lia|].
  intros j Hj. apply Hno. lia.
Qed.

End FinalizeFacts.

Section FinalizeOutput.
Import Mem Elf CStr Handle Sections SymRecon.

Lemma build_symtab_inv (fns : list fde_func_data) (tsi : Z) :
  forall (sy st sy' st' : list byte),
  build_symtab fns tsi sy st = Some (sy', st') ->
  sy' = sy ++ symtab_bytes fns tsi (Z.of_nat (length st)) /\
  st' = st ++ strtab_bytes fns /\
  (Z.of_nat (length st) <= strtab_capacity -> Z.of_nat (length st') <= strtab_capacity).
Proof.
  induction fns as [|f r IH]; intros sy st sy' st' E;
    cbn [build_symtab symtab_bytes strtab_bytes] in *.
  - injection E as <- <-. rewrite !app_nil_r. repeat split. intros Hc. exact Hc.
  - destruct (_ <=? strtab_capacity) eqn:Ec; [|discriminate E].
    apply Z.leb_le in Ec.
    apply IH in E. destruct E as (-> & -> & Hcap). split; [|split].
    + rewrite <- app_assoc. do 3 f_equal.
      rewrite !length_app. cbn [length]. lia.
    + rewrite <- !app_assoc. reflexivity.
    + intros _. apply Hcap. rewrite !length_app. cbn [length]. lia.
Qed.

(** The output of the finalizer: the mapping with its patched headers, the
    symbol array, the string table. *)
Lemma finalize_inv (m : image) (fns : list fde_func_data) (tsi : Z) (out : image) :
  build_local_symtab_and_finalize m fns tsi = Some out ->
  Z.of_nat (length (strtab_bytes fns)) <= strtab_capacity /\
  out = patch_headers m (sizeof_Sym * Z.of_nat (length fns))
          (Z.of_nat (length (strtab_bytes fns)))
        ++ symtab_bytes fns tsi 0 ++ strtab_bytes fns.
Proof.
  unfold build_local_symtab_and_finalize. intros E.
  destruct (build_symtab fns tsi [] []) as [[sy st]|] eqn:B; [|discriminate E].
  apply build_symtab_inv in B. destruct B as (-> & -> & Hc).
  injection E as <-. split; [|reflexivity].
  apply Hc. cbn. unfold strtab_capacity. lia.
Qed.

Lemma finalize_some (m : image) (fns : list fde_func_data) (tsi : Z) :
  21 * Z.of_nat (length fns) <= strtab_capacity ->
  build_local_symtab_and_finalize m fns tsi =
  Some (patch_headers m (sizeof_Sym * Z.of_nat (length fns))
          (Z.of_nat (length (strtab_bytes fns)))
        ++ symtab_bytes fns tsi 0 ++ strtab_bytes fns).
Proof.
  intros Hc. unfold build_local_symtab_and_finalize.
  rewrite build_symtab_spec by (cbn [length]; lia). reflexivity.
Qed.

End FinalizeOutput.

Section PatchedHeaders.
Import Mem Elf CStr Handle Sections SymRecon.
Variable m : image.
Variables symsz strsz : Z.
Hypothesis Hok : shdrs_ok m.

Local Abbreviation shoff := (shoff_of m).
Local Abbreviation shnum := (shnum_of m).
Local Abbreviation shend := (shend_of m).
Local Abbreviation ST := (strtab_of m).
Local Abbreviation sh := (sh_of m).
Local Abbreviation symoff := (size m).
Local Abbreviation stloff := (size m + symsz).
Local Abbreviation pm := (patch_headers m symsz strsz).
Local Abbreviation s1 :=
  (patch_loop shdr_fuel shoff ST symoff symsz stloff strsz 0
     {| w_mem := m; w_dsymcount := 0 |}).
Local Abbreviation got_size := (wrap64 (w_dsymcount s1 * sizeof_Addr + 3 * sizeof_Addr)).

Ltac geom2 :=
  pose proof (shnum_range m);
  destruct Hok as (Hg1 & Hg2 & Hg3);
  unfold shend_of, sh_of, shdr_at, sizeof_Shdr, sizeof_Ehdr, size in *;
  cbn [f_off f_width sh_name sh_offset sh_size e_shnum e_shoff e_shstrndx] in *;
  try lia.

Lemma first_loop_inv : patch_inv m symoff symsz stloff strsz shnum s1.
Proof.
  apply patch_loop_inv.
  - exact Hok.
  - apply inv_start.
  - pose proof (shnum_range m). lia.
  - pose proof (shnum_range m). unfold shdr_fuel. lia.
Qed.

Lemma patch_headers_eq : pm = got_loop shdr_fuel shoff ST (w_dsymcount s1) 0 (w_mem s1).
Proof. reflexivity. Qed.

(** With a [.got.plt] in the table: its size is the last store. *)
Lemma patch_headers_got (g : Z) :
  first_named m ".got.plt" g ->
  pm = set (w_mem s1) (sh g) sh_size got_size.
Proof.
  intros (Hg & Hn & Hfirst). rewrite patch_headers_eq.
  pose proof first_loop_inv as I.
  apply (got_loop_found m Hok).
  - apply (pi_size _ _ _ _ _ _ _ I).
  - apply (pi_head _ _ _ _ _ _ _ I).
  - apply (pi_tail _ _ _ _ _ _ _ I).
  - intros j Hj. apply (pi_keep _ _ _ _ _ _ _ I); [exact Hj|cbn; lia|cbn; lia].
  - lia.
  - lia.
  - pose proof (shnum_range m). unfold shdr_fuel. lia.
  - unfold named, streq. apply bool_decide_eq_true. exact Hn.
  - intros j Hj. unfold named, streq. apply bool_decide_eq_false. apply Hfirst. lia.
Qed.

Lemma patch_headers_nogot :
  (forall j, 0 <= j < shnum -> section_name m j <> lit ".got.plt") ->
  pm = w_mem s1.
Proof.
  intros Hno. rewrite patch_headers_eq.
  pose proof first_loop_inv as I.
  apply (got_loop_none m Hok).
  - apply (pi_size _ _ _ _ _ _ _ I).
  - apply (pi_head _ _ _ _ _ _ _ I).
  - apply (pi_tail _ _ _ _ _ _ _ I).
  - intros j Hj. apply (pi_keep _ _ _ _ _ _ _ I); [exact Hj|cbn; lia|cbn; lia].
  - lia.
  - intros j Hj. unfold named, streq. apply bool_decide_eq_false. apply Hno. lia.
Qed.


(** Where the second loop can stop. *)
Lemma got_loop_cases (fuel : nat) (shdr StringTable d : Z) : forall (i : Z) (m1 : image),
  got_loop fuel shdr StringTable d i m1 = m1 \/
  exists g, i <= g < get m1 0 e_shnum /\
    name_at m1 StringTable (shdr_at shdr g) = lit ".got.plt" /\
    got_loop fuel shdr StringTable d i m1 =
    set m1 (shdr_at shdr g) sh_size (wrap64 (d * sizeof_Addr + 3 * sizeof_Addr)).
Proof.
  induction fuel as [|fuel IH]; intros i m1; cbn [got_loop]; [left; reflexivity|].
  destruct (i <? get m1 0 e_shnum) eqn:E; [|left; reflexivity].
  apply Z.ltb_lt in E.
  destruct (streq (name_at m1 StringTable (shdr_at shdr i)) (lit ".got.plt")) eqn:N.
  - right. exists i. split; [lia|]. split; [|reflexivity].
    apply bool_decide_eq_true in N. exact N.
  - destruct (IH (i + 1) m1) as [Hn|(g & Hg & Hname & Hs)].
    + left. exact Hn.
    + right. exists g. split; [lia|]. split; assumption.
Qed.

(** One store into the size of section [g]. *)
Lemma patch_one (m' : image) (g v : Z) :
  size m' = size m -> 0 <= g < shnum ->
  let m2 := set m' (sh g) sh_size v in
  size m2 = size m /\
  firstn (Z.to_nat shoff) m2 = firstn (Z.to_nat shoff) m' /\
  skipn (Z.to_nat shend) m2 = skipn (Z.to_nat shend) m' /\
  (forall j f, 0 <= j < shnum -> 0 <= f_off f ->
     f_off f + Z.of_nat (f_width f) <= 32 \/
     40 <= f_off f /\ f_off f + Z.of_nat (f_width f) <= 64 ->
     get m2 (sh j) f = get m' (sh j) f) /\
  (forall j f, 0 <= j < shnum -> j <> g -> 0 <= f_off f ->
     f_off f + Z.of_nat (f_width f) <= 64 ->
     get m2 (sh j) f = get m' (sh j) f) /\
  get m2 (sh g) sh_size = wrap64 v.
Proof.
  intros Hs Hi m2. subst m2. unfold set.
  repeat split.
  - rewrite !size_store. exact Hs.
  - rewrite !firstn_store; [reflexivity|]; geom2.
  - rewrite !skipn_store; [reflexivity|]; geom2.
  - intros j f Hj Hf0 Hf. unfold get.
    rewrite !load_store_disjoint; [reflexivity| |]; geom2.
  - intros j f Hj Hji Hf0 Hf. unfold get.
    rewrite !load_store_disjoint; [reflexivity| |]; geom2.
  - unfold get. rewrite load_store_same; [reflexivity| |]; geom2.
Qed.

Lemma patched_offset_end (j : Z) :
  0 <= j < shnum ->
  patched_offset m symoff stloff shnum j =
  if named m j ".symtab" then wrap64 symoff
  else if named m j ".strtab" then wrap64 stloff
  else get m (sh j) sh_offset.
Proof.
  intros Hj. unfold patched_offset.
  replace (j <? shnum) with true by (symmetry; apply Z.ltb_lt; lia). reflexivity.
Qed.

Lemma patched_size_end (j : Z) :
  0 <= j < shnum ->
  patched_size m symsz strsz shnum j =
  if named m j ".symtab" then wrap64 symsz
  else if named m j ".strtab" then wrap64 strsz
  else get m (sh j) sh_size.
Proof.
  intros Hj. unfold patched_size.
  replace (j <? shnum) with true by (symmetry; apply Z.ltb_lt; lia). reflexivity.
Qed.

(** What the two loops leave of the mapping: everything but the offsets
    and sizes in the section header table. *)
Lemma patch_headers_frame :
  size pm = size m /\
  firstn (Z.to_nat shoff) pm = firstn (Z.to_nat shoff) m /\
  skipn (Z.to_nat shend) pm = skipn (Z.to_nat shend) m /\
  (forall j f, 0 <= j < shnum -> 0 <= f_off f ->
     f_off f + Z.of_nat (f_width f) <= 24 \/
     40 <= f_off f /\ f_off f + Z.of_nat (f_width f) <= 64 ->
     get pm (sh j) f = get m (sh j) f) /\
  (forall j, 0 <= j < shnum ->
     get pm (sh j) sh_offset = patched_offset m symoff stloff shnum j) /\
  (forall j, 0 <= j < shnum -> section_name m j <> lit ".got.plt" ->
     get pm (sh j) sh_size = patched_size m symsz strsz shnum j).
Proof.
  pose proof first_loop_inv as I.
  pose proof (pi_size _ _ _ _ _ _ _ I) as Is.
  pose proof (pi_head _ _ _ _ _ _ _ I) as Ih.
  pose proof (pi_tail _ _ _ _ _ _ _ I) as It.
  pose proof (pi_keep _ _ _ _ _ _ _ I) as Ik.
  pose proof (pi_off _ _ _ _ _ _ _ I) as Io.
  pose proof (pi_sz _ _ _ _ _ _ _ I) as Iz.
  rewrite patch_headers_eq.
  destruct (got_loop_cases shdr_fuel shoff ST (w_dsymcount s1) 0 (w_mem s1))
    as [->|(g & Hg & Hname & ->)].
  - repeat split; try assumption. intros j Hj _. apply Iz. exact Hj.
  - rewrite (inv_shnum m _ _ _ _ Hok _ _ I) in Hg.
    fold (sh g) in Hname |- *.
    rewrite (inv_name m _ _ _ _ Hok _ _ g I Hg) in Hname.
    destruct (patch_one (w_mem s1) g got_size Is Hg)
      as (P1 & P2 & P3 & P4 & P5 & P6).
    split; [exact P1|]. split; [rewrite P2; exact Ih|]. split; [rewrite P3; exact It|].
    split; [|split].
    + intros j f Hj Hf0 Hf. rewrite P4 by (assumption || lia). apply Ik; assumption.
    + intros j Hj. rewrite P4 by (assumption || (cbn; lia)). apply Io. exact Hj.
    + intros j Hj Hne. rewrite P5; [apply Iz; exact Hj|exact Hj| |cbn; lia|cbn; lia].
      intros ->. contradiction.
Qed.

Lemma patch_headers_got_size (g : Z) :
  first_named m ".got.plt" g ->
  get pm (sh g) sh_size = wrap64 (dynsym_count m (Z.to_nat shnum) * sizeof_Addr + 3 * sizeof_Addr).
Proof.
  intros Hg. rewrite (patch_headers_got g Hg).
  pose proof first_loop_inv as I.
  rewrite <- (pi_count _ _ _ _ _ _ _ I).
  destruct Hg as (Hg & _).
  destruct (patch_one (w_mem s1) g got_size
              (pi_size _ _ _ _ _ _ _ I) Hg) as (_ & _ & _ & _ & _ & P6).
  rewrite P6. unfold wrap64. apply Z.mod_mod. lia.
Qed.

Lemma dynsym_count_none (n : nat) :
  (forall j, 0 <= j < Z.of_nat n -> section_name m j <> lit ".dynsym") ->
  dynsym_count m n = 0.
Proof.
  induction n as [|n IH]; intros Hno; cbn [dynsym_count]; [reflexivity|].
  replace (named m (Z.of_nat n) ".dynsym") with false.
  - apply IH. intros j Hj. apply Hno. lia.
  - symmetry. apply bool_decide_eq_false. apply Hno. lia.
Qed.

Lemma dynsym_count_last (n : nat) (d : Z) :
  0 <= d < Z.of_nat n -> section_name m d = lit ".dynsym" ->
  (forall j, d < j < Z.of_nat n -> section_name m j <> lit ".dynsym") ->
  dynsym_count m n = to_int (get m (sh d) sh_size / sizeof_Sym).
Proof.
  induction n as [|n IH]; intros Hd Hn Hno; [lia|]. cbn [dynsym_count].
  destruct (Z.eq_dec d (Z.of_nat n)) as [E|E].
  - rewrite <- E.
    replace (named m d ".dynsym") with true; [reflexivity|].
    symmetry. apply bool_decide_eq_true. exact Hn.
  - replace (named m (Z.of_nat n) ".dynsym") with false.
    + apply IH; [lia|exact Hn|]. intros j Hj. apply Hno. lia.
    + symmetry. apply bool_decide_eq_false. apply Hno. lia.
Qed.

End PatchedHeaders.

Section FinalizeTheorems.
Import Mem Elf CStr Handle Sections SymRecon.
Variable m : image.
Hypothesis Hok : shdrs_ok m.

Local Abbreviation shoff := (shoff_of m).
Local Abbreviation shnum := (shnum_of m).
Local Abbreviation sh := (sh_of m).

Ltac geom3 :=
  pose proof (shnum_range m);
  destruct Hok as (Hg1 & Hg2 & Hg3);
  unfold shend_of, sh_of, shdr_at, sizeof_Shdr, sizeof_Ehdr, size in *;
  cbn [f_off f_width sh_name sh_offset sh_size e_shnum e_shoff e_shstrndx] in *;
  try lia.

(** A header field of the output is the field of the patched mapping. *)
Lemma get_out_header (pm tail : image) (j : Z) (f : field) :
  size pm = size m -> 0 <= j < shnum -> 0 <= f_off f ->
  f_off f + Z.of_nat (f_width f) <= 64 ->
  get (pm ++ tail) (sh j) f = get pm (sh j) f.
Proof.
  intros Hs Hj Hf0 Hf. unfold get. apply load_app_l; rewrite ?Hs; geom3.
Qed.

Lemma named_symtab_not_got (j : Z) (a : string) :
  section_name m j = lit a -> lit a <> lit ".got.plt" ->
  section_name m j <> lit ".got.plt".
Proof. intros -> Hne. exact Hne. Qed.

(** The finalizer on a file with a [.dynsym] and a [.got.plt]. *)
Lemma finalize_got (fns : list fde_func_data) (tsi g d : Z) :
  first_named m ".got.plt" g -> last_named m ".dynsym" d ->
  get m (sh d) sh_size / sizeof_Sym < 2 ^ 31 ->
  21 * Z.of_nat (length fns) <= strtab_capacity ->
  exists out,
    build_local_symtab_and_finalize m fns tsi = Some out /\
    get out (sh g) sh_size = (get m (sh d) sh_size / sizeof_Sym + 3) * sizeof_Addr /\
    get out (sh d) sh_size = get m (sh d) sh_size.
Proof.
  intros Hg Hd Hfit Hcap.
  eexists. split; [apply finalize_some; exact Hcap|].
  set (symsz := sizeof_Sym * Z.of_nat (length fns)).
  set (strsz := Z.of_nat (length (strtab_bytes fns))).
  destruct (patch_headers_frame m symsz strsz Hok) as (Fs & _ & _ & _ & _ & Fz).
  pose proof (get_range m (sh d) sh_size) as Hr. cbn [f_width sh_size] in Hr.
  destruct Hg as (Hgr & Hgn & Hgf). destruct Hd as (Hdr & Hdn & Hdl).
  split.
  - rewrite get_out_header by (assumption || (cbn; lia)).
    rewrite (patch_headers_got_size m symsz strsz Hok g) by (split; [|split]; assumption).
    rewrite (dynsym_count_last m (Z.to_nat shnum) d); [|lia|exact Hdn|].
    + unfold to_int, wrap64, sizeof_Sym, sizeof_Addr in *.
      assert (0 <= get m (sh d) sh_size / 24) by (apply Z.div_pos; lia).
      rewrite (Z.mod_small (_ / 24)) by lia.
      replace (_ / 24 <? 2 ^ 31) with true by (symmetry; apply Z.ltb_lt; lia).
      rewrite Z.mod_small by lia. lia.
    + intros j Hj. apply Hdl. lia.
  - rewrite get_out_header by (assumption || (cbn; lia)).
    rewrite Fz; [|exact Hdr|rewrite Hdn; intro E; vm_compute in E; discriminate E].
    rewrite patched_size_end by exact Hdr.
    replace (named m d ".symtab") with false.
    + replace (named m d ".strtab") with false; [reflexivity|].
      symmetry. apply bool_decide_eq_false. rewrite Hdn.
      intro E; vm_compute in E; discriminate E.
    + symmetry. apply bool_decide_eq_false. rewrite Hdn.
      intro E; vm_compute in E; discriminate E.
Qed.

(** Without a [.dynsym] the [.got.plt] gets the three reserved words. *)
Lemma finalize_got_static (fns : list fde_func_data) (tsi g : Z) :
  first_named m ".got.plt" g ->
  (forall j, 0 <= j < shnum -> section_name m j <> lit ".dynsym") ->
  21 * Z.of_nat (length fns) <= strtab_capacity ->
  exists out,
    build_local_symtab_and_finalize m fns tsi = Some out /\
    get out (sh g) sh_size = 3 * sizeof_Addr.
Proof.
  intros Hg Hno Hcap.
  eexists. split; [apply finalize_some; exact Hcap|].
  set (symsz := sizeof_Sym * Z.of_nat (length fns)).
  set (strsz := Z.of_nat (length (strtab_bytes fns))).
  destruct (patch_headers_frame m symsz strsz Hok) as (Fs & _).
  pose proof Hg as (Hgr & _).
  rewrite get_out_header by (assumption || (cbn; lia)).
  rewrite (patch_headers_got_size m symsz strsz Hok g Hg).
  rewrite dynsym_count_none; [reflexivity|].
  intros j Hj. apply Hno. lia.
Qed.

End FinalizeTheorems.

Section SymbolFacts.
Import Mem Elf CStr Handle Sections SymRecon.
Variables m pm : image.
Hypothesis Hpm : size pm = size m.
Variable fns : list fde_func_data.
Variable tsi : Z.
Hypothesis Hcap : Z.of_nat (length (strtab_bytes fns)) <= strtab_capacity.

Local Abbreviation n := (Z.of_nat (length fns)).
Local Abbreviation symsz := (sizeof_Sym * n).
Local Abbreviation strsz := (Z.of_nat (length (strtab_bytes fns))).
Local Abbreviation out := (pm ++ symtab_bytes fns tsi 0 ++ strtab_bytes fns).
Local Abbreviation symtab := (size m).
Local Abbreviation strtab := (size m + symsz).



Lemma size_out : size out = strtab + strsz.
Proof.
  unfold size at 1. rewrite !length_app, length_symtab_bytes.
  pose proof Hpm as Hs. unfold size, sizeof_Sym in *. lia.
Qed.




End SymbolFacts.

(** The output [pm ++ tail] of the finalizer, for a patched mapping [pm]
    that differs from [m] in offsets and sizes of section headers only. *)
Section OutputFacts.
Import Mem Elf CStr Handle Sections SymRecon.
Variables (m pm tail : image) (symoff stloff : Z).
Hypothesis Hok : shdrs_ok m.
Hypothesis Hs : size pm = size m.
Hypothesis Hh : firstn (Z.to_nat (shoff_of m)) pm = firstn (Z.to_nat (shoff_of m)) m.
Hypothesis Ht : skipn (Z.to_nat (shend_of m)) pm = skipn (Z.to_nat (shend_of m)) m.
Hypothesis Hk : forall j f, 0 <= j < shnum_of m -> 0 <= f_off f ->
     f_off f + Z.of_nat (f_width f) <= 24 \/
     40 <= f_off f /\ f_off f + Z.of_nat (f_width f) <= 64 ->
     get pm (sh_of m j) f = get m (sh_of m j) f.
Hypothesis Ho : forall j, 0 <= j < shnum_of m ->
     get pm (sh_of m j) sh_offset = patched_offset m symoff stloff (shnum_of m) j.

Local Abbreviation out := (pm ++ tail).

Ltac geom4 :=
  pose proof (shnum_range m);
  destruct Hok as (Hg1 & Hg2 & Hg3);
  unfold shend_of, sh_of, shdr_at, sizeof_Shdr, sizeof_Ehdr, size in *;
  cbn [f_off f_width sh_name sh_offset sh_size e_shnum e_shoff e_shstrndx] in *;
  try lia.

(** The ELF header of the output is that of [m]. *)
Lemma out_ehdr (f : field) :
  0 <= f_off f -> f_off f + Z.of_nat (f_width f) <= 64 ->
  get out 0 f = get m 0 f.
Proof.
  intros Hf0 Hf. unfold get.
  rewrite load_app_l by (rewrite ?Hs; geom4).
  apply (load_firstn_eq _ _ _ _ (Z.to_nat (shoff_of m))); [geom4|geom4|geom4|exact Hh].
Qed.

Lemma out_shoff : shoff_of out = shoff_of m.
Proof. apply out_ehdr; cbn; lia. Qed.

Lemma out_shnum : shnum_of out = shnum_of m.
Proof. apply out_ehdr; cbn; lia. Qed.

Lemma out_sh (j : Z) : sh_of out j = sh_of m j.
Proof. unfold sh_of. rewrite out_shoff. reflexivity. Qed.

Lemma out_header (j : Z) (f : field) :
  0 <= j < shnum_of m -> 0 <= f_off f -> f_off f + Z.of_nat (f_width f) <= 64 ->
  get out (sh_of out j) f = get pm (sh_of m j) f.
Proof.
  intros Hj Hf0 Hf. rewrite out_sh. apply (get_out_header m Hok); assumption.
Qed.

Lemma out_header_kept (j : Z) (f : field) :
  0 <= j < shnum_of m -> 0 <= f_off f ->
  f_off f + Z.of_nat (f_width f) <= 24 \/
  40 <= f_off f /\ f_off f + Z.of_nat (f_width f) <= 64 ->
  get out (sh_of out j) f = get m (sh_of m j) f.
Proof.
  intros Hj Hf0 Hf. rewrite out_header by (assumption || lia). apply Hk; assumption.
Qed.

(** The string table stays where it is, unless it is itself called
    [.symtab] or [.strtab]. *)
Lemma out_strtab :
  0 <= get m 0 e_shstrndx < shnum_of m ->
  section_name m (get m 0 e_shstrndx) <> lit ".symtab" ->
  section_name m (get m 0 e_shstrndx) <> lit ".strtab" ->
  strtab_of out = strtab_of m.
Proof.
  intros Hr Hn1 Hn2. unfold strtab_of.
  rewrite (out_ehdr e_shstrndx) by (cbn; lia).
  rewrite out_header by (assumption || (cbn; lia)).
  rewrite Ho by exact Hr. unfold patched_offset.
  replace (get m 0 e_shstrndx <? shnum_of m) with true
    by (symmetry; apply Z.ltb_lt; lia).
  cbn [andb].
  replace (named m (get m 0 e_shstrndx) ".symtab") with false
    by (symmetry; apply bool_decide_eq_false; exact Hn1).
  replace (named m (get m 0 e_shstrndx) ".strtab") with false
    by (symmetry; apply bool_decide_eq_false; exact Hn2).
  reflexivity.
Qed.

(** A name that ends inside [m] reads the same in the output. *)
Lemma out_name (j : Z) (n rest : list byte) :
  0 <= j < shnum_of m ->
  strtab_of out = strtab_of m ->
  skipn (Z.to_nat (strtab_of m + get m (sh_of m j) sh_name)) m = n ++ Byte.x00 :: rest ->
  Forall (fun b => b <> Byte.x00) n ->
  section_name out j = n.
Proof.
  intros Hj Hst Hn Hnul. unfold section_name, name_at. rewrite Hst.
  rewrite out_header_kept by (assumption || (cbn; lia)).
  unfold cstring_at.
  pose proof (get_range m (sh_of m j) sh_name) as Hr.
  set (p := strtab_of m + get m (sh_of m j) sh_name) in *.
  assert (Hp : (Z.to_nat (shend_of m) <= Z.to_nat p)%nat) by (subst p; geom4).
  assert (Hd : skipn (Z.to_nat p) pm = skipn (Z.to_nat p) m).
  { replace (Z.to_nat p) with ((Z.to_nat p - Z.to_nat (shend_of m)) + Z.to_nat (shend_of m))%nat
      by lia.
    rewrite <- !skipn_skipn, Ht. reflexivity. }
  rewrite skipn_app, Hd, Hn, <- app_assoc. cbn [app].
  apply cstring_terminated. exact Hnul.
Qed.

End OutputFacts.

Section FinalizedFacts.
Import Mem Elf CStr Handle Sections SymRecon.

Lemma patch_headers_finalized (m : image) (symsz strsz : Z) :
  shdrs_ok m -> finalized m (patch_headers m symsz strsz) symsz strsz.
Proof.
  intros Hok.
  destruct (patch_headers_frame m symsz strsz Hok) as (F1 & F2 & F3 & F4 & F5 & F6).
  split; try assumption.
  intros g Hg. apply patch_headers_got_size; assumption.
Qed.

End FinalizedFacts.

(** ** Sections *)

Section TableFacts.
Import Mem Elf CStr Handle Sections.
Context {H : Headers} {L : Layout}.

Lemma strings_app (a b : list (list byte)) : strings (a ++ b) = strings a ++ strings b.
Proof. unfold strings. rewrite map_app, concat_app. reflexivity. Qed.

Lemma strings_one (n : list byte) : strings [n] = n ++ [Byte.x00].
Proof. unfold strings. cbn [List.map concat]. apply app_nil_r. Qed.

Lemma holds_nil : holds {| shdrs := []; StringTable := [] |} [].
Proof.
  split; cbn; try reflexivity. intros j s Hj. destruct j; discriminate Hj.
Qed.

Lemma holds_emit (t : table) (ns : list (list byte))
    (type offset addr flags info link entsize size addralign : Z) (name : list byte) :
  holds t ns ->
  holds (emit type offset addr flags info link entsize size addralign name t)
        (ns ++ [name]).
Proof.
  intros [Hl Hs Hn]. split; cbn [emit shdrs StringTable].
  - rewrite !length_app, Hl. reflexivity.
  - rewrite strings_app, Hs, strings_one. reflexivity.
  - intros j s Hj.
    apply lookup_app_Some in Hj. destruct Hj as [Hj1|[Hj1 Hj2]].
    + rewrite (Hn j s Hj1). apply lookup_lt_Some in Hj1.
      rewrite firstn_app. replace (j - length ns)%nat with 0%nat by lia.
      cbn [firstn]. rewrite app_nil_r. reflexivity.
    + destruct (j - length (shdrs t))%nat as [|k] eqn:E; [|destruct k; discriminate Hj2].
      injection Hj2 as <-. cbn [shdr_name].
      assert (j = length ns) as -> by lia.
      rewrite firstn_app, Nat.sub_diag. cbn [firstn]. rewrite app_nil_r.
      rewrite firstn_all. unfold stoffset. rewrite Hs. reflexivity.
Qed.

Lemma holds_emit_libs (libs : list lib_t) : forall (dc : Z) (t : table) (ns : list (list byte)),
  holds t ns -> holds (emit_libs libs dc t) (ns ++ lib_names libs dc).
Proof.
  induction libs as [|l rest IH]; intros dc t ns Ht; cbn [emit_libs lib_names].
  - rewrite app_nil_r. exact Ht.
  - destruct (lib_section_name l dc) as [str dc'].
    replace (ns ++ str :: lib_names rest dc') with ((ns ++ [str]) ++ lib_names rest dc')
      by (rewrite <- app_assoc; reflexivity).
    apply IH. apply holds_emit. exact Ht.
Qed.

Ltac snoc_lists :=
  repeat match goal with
         | |- context [?a :: ?b :: ?l] => change (a :: b :: l) with ([a] ++ b :: l)
         end;
  rewrite ?app_assoc.

Lemma holds_body (dynamic : bool) (e : elfdesc_t) (md : memdesc_t)
    (smeta : section_meta) (hacks : hacks_t) (t t' : table) (w : Z)
    (ns : list (list byte)) :
  emit_body dynamic e md smeta hacks t = Some (t', w) ->
  holds t ns -> holds t' (ns ++ body_names dynamic).
Proof.
  unfold emit_body, body_names. cbv zeta. intros E Ht.
  destruct (size (mem e) <? _); [discriminate E|].
  destruct (get_internal_sh_offset e md HEAP); [|discriminate E].
  injection E as <- _.
  destruct dynamic; cbn [app]; snoc_lists; repeat apply holds_emit; exact Ht.
Qed.

Lemma holds_tail (e : elfdesc_t) (md : memdesc_t) (ef : ecfs_file_t) (e_shoff : Z)
    (t t' : table) (ns : list (list byte)) :
  emit_tail e md ef e_shoff t = Some t' ->
  holds t ns -> holds t' (ns ++ tail_names).
Proof.
  unfold emit_tail, tail_names. cbv zeta. intros E Ht.
  destruct (get_internal_sh_offset e md STACK); [|discriminate E].
  destruct (get_internal_sh_offset e md VDSO); [|discriminate E].
  destruct (get_internal_sh_offset e md VSYSCALL); [|discriminate E].
  injection E as <-.
  snoc_lists; repeat apply holds_emit; exact Ht.
Qed.

Lemma holds_head (dynamic : bool) (e : elfdesc_t) (smeta : section_meta) (hacks : hacks_t) :
  holds (emit_head dynamic e smeta hacks) (head_names dynamic).
Proof.
  unfold emit_head, head_names. cbv zeta.
  destruct dynamic; cbn [app];
    repeat (first [ exact holds_nil | apply (holds_emit _ []) | apply (holds_emit _ [_])
                  | apply (holds_emit _ [_; _]) | apply (holds_emit _ [_; _; _])
                  | apply (holds_emit _ [_; _; _; _]) | apply (holds_emit _ [_; _; _; _; _])
                  | apply (holds_emit _ [_; _; _; _; _; _])
                  | apply (holds_emit _ [_; _; _; _; _; _; _])
                  | apply (holds_emit _ [_; _; _; _; _; _; _; _])
                  | apply (holds_emit _ [_; _; _; _; _; _; _; _; _]) ]).
Qed.


(** What [build_section_headers] returns, in terms of the table it
    built. *)
Lemma build_section_headers_table (file : image) (personality : Z) (e : elfdesc_t)
    (md : memdesc_t) (libs : list lib_t) (smeta : section_meta) (hacks : hacks_t)
    (ef : ecfs_file_t) (b : built) :
  build_section_headers file personality e md libs smeta hacks ef = Some b ->
  let dynamic := Z.land personality ELF_STATIC =? 0 in
  exists t,
    holds t (section_names dynamic libs) /\
    scount t <= MAX_SHDR_COUNT /\ stoffset t <= MAX_SHDR_COUNT * 64 /\
    b_scount b = scount t /\
    b_text_shdr_index b = Z.of_nat (length (head_names dynamic)) /\
    b_file b =
      patch_ehdr (file ++ concat (List.map encode_shdr (shdrs t)) ++ StringTable t)
        (o_entry md) (size file) (scount t - 1) (scount t).
Proof.
  unfold build_section_headers. cbv zeta. intros E.
  set (dynamic := (Z.land personality ELF_STATIC =? 0)) in *.
  pose proof (holds_head dynamic e smeta hacks) as Hh.
  destruct (emit_body dynamic e md smeta hacks (emit_head dynamic e smeta hacks))
    as [[t1 w]|] eqn:Eb; [|discriminate E].
  pose proof (holds_body _ _ _ _ _ _ _ _ _ Eb Hh) as Hb.
  assert (holds (if dynamic then emit_libs libs 0 t1 else t1)
            ((head_names dynamic ++ body_names dynamic)
             ++ (if dynamic then lib_names libs 0 else []))) as Hl.
  { destruct dynamic; [apply holds_emit_libs; exact Hb|].
    rewrite app_nil_r. exact Hb. }
  destruct (emit_tail e md ef (size file) (if dynamic then emit_libs libs 0 t1 else t1))
    as [t2|] eqn:Et; [|discriminate E].
  pose proof (holds_tail _ _ _ _ _ _ _ Et Hl) as Ht.
  destruct ((MAX_SHDR_COUNT <? scount t2) || (MAX_SHDR_COUNT * 64 <? stoffset t2)) eqn:Ec;
    [discriminate E|].
  apply orb_false_iff in Ec. destruct Ec as [Ec1 Ec2].
  apply Z.ltb_ge in Ec1, Ec2.
  injection E as <-. exists t2. cbn [b_scount b_text_shdr_index b_file].
  split; [unfold section_names; rewrite <- !app_assoc in Ht; exact Ht|].
  split; [exact Ec1|]. split; [exact Ec2|]. split; [reflexivity|].
  split; [|reflexivity].
  rewrite <- (h_len _ _ Hh). reflexivity.
Qed.

End TableFacts.

Section FileFacts.
Import Mem Elf CStr Handle Sections SymRecon.
Context {H : Headers} {L : Layout}.

Lemma size_set (m : image) (base : Z) (f : field) (v : Z) :
  size (set m base f v) = size m.
Proof. apply size_store. Qed.

Lemma skipn_set_ehdr (m : image) (f : field) (v : Z) (n : nat) :
  f_off f + Z.of_nat (f_width f) <= Z.of_nat n ->
  skipn n (set m 0 f v) = skipn n m.
Proof. intros Hn. unfold set. apply skipn_store. lia. Qed.

Lemma length_encode_shdr (s : Shdr) : length (encode_shdr s) = 64%nat.
Proof. unfold encode_shdr. rewrite !length_app, !length_le_split. reflexivity. Qed.

Lemma length_encode_shdrs (l : list Shdr) :
  length (concat (List.map encode_shdr l)) = (64 * length l)%nat.
Proof.
  induction l as [|s l IH]; cbn [List.map concat length]; [lia|].
  rewrite length_app, length_encode_shdr, IH. lia.
Qed.

(** The fields of an encoded section header. *)
Lemma get_encode_shdr (s : Shdr) :
  let b := encode_shdr s in
  get b 0 sh_name = shdr_name s mod 2 ^ 32 /\
  get b 0 sh_type = shdr_type s mod 2 ^ 32 /\
  get b 0 sh_flags = shdr_flags s mod 2 ^ 64 /\
  get b 0 sh_addr = shdr_addr s mod 2 ^ 64 /\
  get b 0 sh_offset = shdr_offset s mod 2 ^ 64 /\
  get b 0 sh_size = shdr_size s mod 2 ^ 64 /\
  get b 0 sh_link = shdr_link s mod 2 ^ 32 /\
  get b 0 sh_info = shdr_info s mod 2 ^ 32 /\
  get b 0 sh_addralign = shdr_addralign s mod 2 ^ 64 /\
  get b 0 sh_entsize = shdr_entsize s mod 2 ^ 64.
Proof.
  cbv zeta. unfold encode_shdr, get.
  cbn [f_off f_width sh_name sh_type sh_flags sh_addr sh_offset sh_size sh_link
       sh_info sh_addralign sh_entsize].
  set (a1 := le_split 4 (shdr_name s)). set (a2 := le_split 4 (shdr_type s)).
  set (a3 := le_split 8 (shdr_flags s)). set (a4 := le_split 8 (shdr_addr s)).
  set (a5 := le_split 8 (shdr_offset s)). set (a6 := le_split 8 (shdr_size s)).
  set (a7 := le_split 4 (shdr_link s)). set (a8 := le_split 4 (shdr_info s)).
  set (a9 := le_split 8 (shdr_addralign s)). set (a10 := le_split 8 (shdr_entsize s)).
  repeat split.
  - apply (load_le_split 4 []).
  - apply (load_le_split 4 a1).
  - replace (a1 ++ a2 ++ a3 ++ a4 ++ a5 ++ a6 ++ a7 ++ a8 ++ a9 ++ a10)
      with ((a1 ++ a2) ++ a3 ++ a4 ++ a5 ++ a6 ++ a7 ++ a8 ++ a9 ++ a10)
      by (rewrite <- !app_assoc; reflexivity).
    apply (load_le_split 8 (a1 ++ a2)).
  - replace (a1 ++ a2 ++ a3 ++ a4 ++ a5 ++ a6 ++ a7 ++ a8 ++ a9 ++ a10)
      with ((a1 ++ a2 ++ a3) ++ a4 ++ a5 ++ a6 ++ a7 ++ a8 ++ a9 ++ a10)
      by (rewrite <- !app_assoc; reflexivity).
    apply (load_le_split 8 (a1 ++ a2 ++ a3)).
  - replace (a1 ++ a2 ++ a3 ++ a4 ++ a5 ++ a6 ++ a7 ++ a8 ++ a9 ++ a10)
      with ((a1 ++ a2 ++ a3 ++ a4) ++ a5 ++ a6 ++ a7 ++ a8 ++ a9 ++ a10)
      by (rewrite <- !app_assoc; reflexivity).
    apply (load_le_split 8 (a1 ++ a2 ++ a3 ++ a4)).
  - replace (a1 ++ a2 ++ a3 ++ a4 ++ a5 ++ a6 ++ a7 ++ a8 ++ a9 ++ a10)
      with ((a1 ++ a2 ++ a3 ++ a4 ++ a5) ++ a6 ++ a7 ++ a8 ++ a9 ++ a10)
      by (rewrite <- !app_assoc; reflexivity).
    apply (load_le_split 8 (a1 ++ a2 ++ a3 ++ a4 ++ a5)).
  - replace (a1 ++ a2 ++ a3 ++ a4 ++ a5 ++ a6 ++ a7 ++ a8 ++ a9 ++ a10)
      with ((a1 ++ a2 ++ a3 ++ a4 ++ a5 ++ a6) ++ a7 ++ a8 ++ a9 ++ a10)
      by (rewrite <- !app_assoc; reflexivity).
    apply (load_le_split 4 (a1 ++ a2 ++ a3 ++ a4 ++ a5 ++ a6)).
  - replace (a1 ++ a2 ++ a3 ++ a4 ++ a5 ++ a6 ++ a7 ++ a8 ++ a9 ++ a10)
      with ((a1 ++ a2 ++ a3 ++ a4 ++ a5 ++ a6 ++ a7) ++ a8 ++ a9 ++ a10)
      by (rewrite <- !app_assoc; reflexivity).
    apply (load_le_split 4 (a1 ++ a2 ++ a3 ++ a4 ++ a5 ++ a6 ++ a7)).
  - replace (a1 ++ a2 ++ a3 ++ a4 ++ a5 ++ a6 ++ a7 ++ a8 ++ a9 ++ a10)
      with ((a1 ++ a2 ++ a3 ++ a4 ++ a5 ++ a6 ++ a7 ++ a8) ++ a9 ++ a10)
      by (rewrite <- !app_assoc; reflexivity).
    apply (load_le_split 8 (a1 ++ a2 ++ a3 ++ a4 ++ a5 ++ a6 ++ a7 ++ a8)).
  - replace (a1 ++ a2 ++ a3 ++ a4 ++ a5 ++ a6 ++ a7 ++ a8 ++ a9 ++ a10)
      with ((a1 ++ a2 ++ a3 ++ a4 ++ a5 ++ a6 ++ a7 ++ a8 ++ a9) ++ a10 ++ [])
      by (rewrite <- !app_assoc, app_nil_r; reflexivity).
    apply (load_le_split 8 (a1 ++ a2 ++ a3 ++ a4 ++ a5 ++ a6 ++ a7 ++ a8 ++ a9)).
Qed.

(** A load inside the [j]-th header of a table written behind [file]. *)
Lemma load_in_table (file rest : list byte) (l : list Shdr) (j : nat) (s : Shdr)
    (w : nat) (o : Z) :
  l !! j = Some s -> 0 <= o -> o + Z.of_nat w <= 64 ->
  load w (file ++ concat (List.map encode_shdr l) ++ rest)
       (size file + 64 * Z.of_nat j + o) =
  load w (encode_shdr s) o.
Proof.
  intros Hj Ho Hw.
  rewrite <- (take_drop_middle l j s Hj).
  rewrite map_app, concat_app. cbn [List.map concat].
  rewrite <- !app_assoc.
  rewrite (app_assoc file).
  replace (size file + 64 * Z.of_nat j + o)
    with (size (file ++ concat (List.map encode_shdr (take j l))) + o).
  - apply load_at_prefix; [exact Ho|]. rewrite length_encode_shdr. lia.
  - unfold size. rewrite length_app, length_encode_shdrs, length_take.
    apply lookup_lt_Some in Hj. lia.
Qed.


Lemma emit_tail_last (e : elfdesc_t) (md : memdesc_t) (ef : ecfs_file_t) (e_shoff : Z)
    (t t' : table) :
  emit_tail e md ef e_shoff t = Some t' ->
  exists s, shdrs t' !! (length (shdrs t') - 1)%nat = Some s /\
    shdr_offset s = wrap64 (e_shoff + sizeof_Shdr * scount t') /\
    shdr_size s = wrap64 (stoffset t').
Proof.
  unfold emit_tail. cbv zeta. intros E.
  destruct (get_internal_sh_offset e md STACK); [|discriminate E].
  destruct (get_internal_sh_offset e md VDSO); [|discriminate E].
  destruct (get_internal_sh_offset e md VSYSCALL); [|discriminate E].
  injection E as <-.
  match goal with |- context [emit _ _ _ _ _ _ _ _ _ (lit ".shstrtab") ?t0] =>
    set (tb := t0); clearbody tb end.
  eexists. split; [|split].
  - cbn [emit shdrs]. rewrite length_app. cbn [length].
    replace (length (shdrs tb) + 1 - 1)%nat with (length (shdrs tb) + 0)%nat by lia.
    rewrite lookup_app_r by lia.
    replace (length (shdrs tb) + 0 - length (shdrs tb))%nat with 0%nat by lia.
    reflexivity.
  - cbn [shdr_offset]. f_equal. unfold scount, sizeof_Shdr. cbn [emit shdrs].
    rewrite length_app. cbn [length]. lia.
  - cbn [shdr_size]. f_equal. unfold stoffset. cbn [emit StringTable].
    rewrite !length_app. change (length (lit ".shstrtab")) with 9%nat.
    cbn [length]. lia.
Qed.

Section Sealed.
Import Mem Elf CStr Handle Sections SymRecon.
Variables (file : image) (t : table) (entry : Z) (ns : list (list byte)).
Hypothesis Hholds : holds t ns.
Hypothesis Hfile : 64 <= size file.
Hypothesis Hcount : 0 < scount t < 2 ^ 16.
Hypothesis Hst : stoffset t < 2 ^ 32.
Hypothesis Hsize : size file + 64 * scount t + stoffset t < 2 ^ 64.
Hypothesis Hlast : exists s, shdrs t !! (length (shdrs t) - 1)%nat = Some s /\
    shdr_offset s = wrap64 (size file + sizeof_Shdr * scount t).

Local Abbreviation f0 := (file ++ concat (List.map encode_shdr (shdrs t)) ++ StringTable t).
Local Abbreviation f := (sealed file t entry (size file)).

Lemma size_f0 : size f0 = size file + 64 * scount t + stoffset t.
Proof.
  unfold size, scount, stoffset. rewrite !length_app, length_encode_shdrs. lia.
Qed.

Lemma size_sealed : size f = size f0.
Proof. unfold sealed, patch_ehdr. cbv zeta. rewrite !size_set. reflexivity. Qed.

Lemma skipn_sealed : skipn 64 f = skipn 64 f0.
Proof.
  unfold sealed, patch_ehdr. cbv zeta.
  rewrite !skipn_set_ehdr by (cbn; lia). reflexivity.
Qed.

Ltac ehdr_get :=
  unfold sealed, patch_ehdr; cbv zeta;
  repeat (rewrite get_set_disjoint by (cbn; lia));
  rewrite get_set_same
    by (cbn [f_off f_width e_entry e_shoff e_shstrndx e_shentsize e_shnum e_type];
        rewrite ?size_set, ?size_f0; unfold stoffset, scount in *; lia).

Lemma sealed_shoff : shoff_of f = size file.
Proof.
  unfold shoff_of. ehdr_get. cbn [f_width e_shoff].
  apply Z.mod_small. pose proof size_f0. unfold scount, stoffset in *. lia.
Qed.

Lemma sealed_shnum : shnum_of f = scount t.
Proof. unfold shnum_of. ehdr_get. cbn [f_width e_shnum]. apply Z.mod_small. lia. Qed.

Lemma sealed_shstrndx : get f 0 e_shstrndx = scount t - 1.
Proof. ehdr_get. cbn [f_width e_shstrndx]. apply Z.mod_small. lia. Qed.

Lemma sealed_entry : get f 0 e_entry = wrap64 entry.
Proof. ehdr_get. reflexivity. Qed.

Lemma sealed_type : get f 0 e_type = ET_NONE.
Proof. ehdr_get. reflexivity. Qed.

Lemma sealed_shentsize : get f 0 e_shentsize = sizeof_Shdr.
Proof. ehdr_get. reflexivity. Qed.

(** A load from the table of the sealed file. *)
Lemma sealed_load (j : nat) (s : Shdr) (w : nat) (o : Z) :
  shdrs t !! j = Some s -> 0 <= o -> o + Z.of_nat w <= 64 ->
  load w f (sh_of f (Z.of_nat j) + o) = load w (encode_shdr s) o.
Proof.
  intros Hj Ho Hw. unfold sh_of, shdr_at. rewrite sealed_shoff.
  rewrite (load_skipn_eq w f f0 _ 64).
  - unfold sizeof_Shdr. apply load_in_table; assumption.
  - unfold sizeof_Shdr. lia.
  - apply skipn_sealed.
Qed.

Lemma sealed_get (j : nat) (s : Shdr) (fld : field) :
  shdrs t !! j = Some s -> 0 <= f_off fld -> f_off fld + Z.of_nat (f_width fld) <= 64 ->
  get f (sh_of f (Z.of_nat j)) fld = get (encode_shdr s) 0 fld.
Proof.
  intros Hj Ho Hw. unfold get. rewrite (sealed_load j s) by assumption. reflexivity.
Qed.

Lemma sealed_strtab : strtab_of f = size file + 64 * scount t.
Proof.
  destruct Hlast as (s & Hs & Ho).
  unfold strtab_of. rewrite sealed_shstrndx.
  replace (scount t - 1) with (Z.of_nat (length (shdrs t) - 1)) by (unfold scount in *; lia).
  rewrite (sealed_get _ s) by (assumption || (cbn; lia)).
  destruct (get_encode_shdr s) as (_ & _ & _ & _ & -> & _).
  rewrite Ho. unfold wrap64, sizeof_Shdr. rewrite Z.mod_mod by lia.
  apply Z.mod_small. unfold stoffset in *. lia.
Qed.

Lemma sealed_ok : shdrs_ok f.
Proof.
  unfold shdrs_ok, shend_of. rewrite sealed_shoff, sealed_shnum, sealed_strtab, size_sealed, size_f0.
  unfold sizeof_Ehdr, sizeof_Shdr, stoffset. lia.
Qed.

Lemma strings_length_take (j : nat) :
  (length (strings (take j ns)) <= length (strings ns))%nat.
Proof.
  rewrite <- (take_drop j ns) at 2. rewrite strings_app, length_app. lia.
Qed.

(** The bytes of the sealed file at the name of section [j]. *)
Lemma sealed_name_bytes (j : nat) (n : list byte) :
  ns !! j = Some n ->
  exists rest,
    skipn (Z.to_nat (strtab_of f + get f (sh_of f (Z.of_nat j)) sh_name)) f =
    n ++ Byte.x00 :: rest.
Proof.
  intros Hn.
  assert (exists s, shdrs t !! j = Some s) as (s & Hs).
  { apply lookup_lt_is_Some. rewrite (h_len _ _ Hholds). apply lookup_lt_Some in Hn. lia. }
  rewrite sealed_strtab.
  rewrite (sealed_get _ s) by (assumption || (cbn; lia)).
  destruct (get_encode_shdr s) as (-> & _).
  rewrite (h_name _ _ Hholds j s Hs). unfold wrap32. rewrite Z.mod_mod by lia.
  pose proof (strings_length_take j) as Hle.
  rewrite <- (h_strings _ _ Hholds) in Hle. unfold stoffset in Hst.
  rewrite Z.mod_small by lia.
  set (p := size file + 64 * scount t + Z.of_nat (length (strings (take j ns)))).
  assert (Hd : skipn (Z.to_nat p) f = skipn (Z.to_nat p) f0).
  { replace (Z.to_nat p) with ((Z.to_nat p - 64) + 64)%nat
      by (subst p; unfold scount in *; lia).
    rewrite <- !skipn_skipn, skipn_sealed. reflexivity. }
  rewrite Hd. subst p.
  replace (Z.to_nat (size file + 64 * scount t + Z.of_nat (length (strings (take j ns)))))
    with (length (file ++ concat (List.map encode_shdr (shdrs t)))
          + length (strings (take j ns)))%nat.
  2:{ rewrite length_app, length_encode_shdrs. unfold size, scount. lia. }
  rewrite (app_assoc file), <- drop_drop, drop_app_length.
  rewrite (h_strings _ _ Hholds).
  assert (strings ns =
          strings (take j ns) ++ n ++ Byte.x00 :: strings (drop (S j) ns)) as ->.
  { rewrite <- (take_drop_middle ns j n Hn) at 1.
    change (n :: drop (S j) ns) with ([n] ++ drop (S j) ns).
    rewrite !strings_app, strings_one, <- app_assoc. reflexivity. }
  rewrite drop_app_length. eexists. reflexivity.
Qed.

Lemma sealed_name (j : nat) (n : list byte) :
  ns !! j = Some n -> nul_free n -> section_name f (Z.of_nat j) = n.
Proof.
  intros Hn Hnul. destruct (sealed_name_bytes j n Hn) as (rest & E).
  unfold section_name, name_at, cstring_at. rewrite E.
  apply cstring_terminated. exact Hnul.
Qed.

End Sealed.

End FileFacts.

Section NameFacts.
Import Mem Elf CStr Handle Sections SymRecon.
Context {H : Headers} {L : Layout}.

Ltac lit_nf := unfold nul_free; repeat constructor; vm_compute; discriminate.

Lemma dec_digit_nonzero (d : Z) : dec_digit d <> Byte.x00.
Proof.
  unfold dec_digit.
  destruct (Z.to_nat d) as [|[|[|[|[|[|[|[|[|[|[|k]]]]]]]]]]];
    vm_compute; discriminate.
Qed.

Lemma dec_digit_digit (d : Z) : In (dec_digit d) (lit "0123456789").
Proof.
  unfold dec_digit.
  destruct (Z.to_nat d) as [|[|[|[|[|[|[|[|[|[|[|k]]]]]]]]]]];
    vm_compute; tauto.
Qed.

Lemma dec_aux_app (fuel : nat) : forall (k : Z) (acc : list byte),
  exists pre, dec_aux fuel k acc = pre ++ acc /\ nul_free pre.
Proof.
  induction fuel as [|fuel IH]; intros k acc; cbn [dec_aux].
  - exists []. split; [reflexivity|constructor].
  - destruct (k / 10 =? 0).
    + exists [dec_digit (k mod 10)]. split; [reflexivity|].
      constructor; [apply dec_digit_nonzero|constructor].
    + destruct (IH (k / 10) (dec_digit (k mod 10) :: acc)) as (pre & E & Hp).
      exists (pre ++ [dec_digit (k mod 10)]). split.
      * rewrite E, <- app_assoc. reflexivity.
      * apply Forall_app. split; [exact Hp|].
        constructor; [apply dec_digit_nonzero|constructor].
Qed.

(** A printed number is not empty, has no NUL and ends in a digit. *)
Lemma dec_shape (k : Z) :
  exists pre d, dec k = pre ++ [d] /\ In d (lit "0123456789") /\ nul_free (dec k).
Proof.
  assert (forall k, exists pre d, dec_aux 10 k [] = pre ++ [d] /\
            In d (lit "0123456789") /\ nul_free (dec_aux 10 k [])) as Haux.
  { intros k0.
    change (dec_aux 10 k0 [])
      with (if k0 / 10 =? 0 then [dec_digit (k0 mod 10)]
            else dec_aux 9 (k0 / 10) [dec_digit (k0 mod 10)]).
    destruct (k0 / 10 =? 0).
    - exists [], (dec_digit (k0 mod 10)). split; [reflexivity|].
      split; [apply dec_digit_digit|].
      constructor; [apply dec_digit_nonzero|constructor].
    - destruct (dec_aux_app 9 (k0 / 10) [dec_digit (k0 mod 10)]) as (pre & E & Hp).
      exists pre, (dec_digit (k0 mod 10)).
      split; [exact E|]. split; [apply dec_digit_digit|].
      rewrite E. apply Forall_app. split; [exact Hp|].
      constructor; [apply dec_digit_nonzero|constructor]. }
  unfold dec. destruct (k <? 0).
  - destruct (Haux (- k)) as (pre & d & E & Hd & Hn).
    exists (chr "-" :: pre), d. rewrite E. split; [reflexivity|].
    split; [exact Hd|]. rewrite <- E.
    constructor; [vm_compute; discriminate|exact Hn].
  - apply Haux.
Qed.

Lemma lib_section_name_shape (l : lib_t) (dc : Z) :
  nul_free (lib_name l) ->
  nul_free (fst (lib_section_name l dc)) /\ lib_like (fst (lib_section_name l dc)).
Proof.
  intros Hl. unfold lib_section_name.
  destruct (lib_flags l =? Z.lor PF_R PF_X);
    [|destruct (lib_flags l =? Z.lor PF_R PF_W);
      [|destruct (lib_flags l =? PF_R)]]; cbn [fst].
  - split; [apply Forall_app; split; [exact Hl|lit_nf]|].
    left. eexists. reflexivity.
  - destruct (dec_shape dc) as (pre & d & E & Hd & Hn). split.
    + apply Forall_app. split; [exact Hl|].
      apply Forall_app. split; [lit_nf|exact Hn].
    + right. right. right. exists (lib_name l ++ lit ".data." ++ pre), d.
      rewrite E, <- !app_assoc. split; [reflexivity|exact Hd].
  - split; [apply Forall_app; split; [exact Hl|lit_nf]|].
    right. left. eexists. reflexivity.
  - split; [apply Forall_app; split; [exact Hl|lit_nf]|].
    right. right. left. eexists. reflexivity.
Qed.

Lemma lib_names_shape (libs : list lib_t) : forall (dc : Z),
  Forall (fun l => nul_free (lib_name l)) libs ->
  Forall (fun n => nul_free n /\ lib_like n) (lib_names libs dc).
Proof.
  induction libs as [|l rest IH]; intros dc Hl; cbn [lib_names]; [constructor|].
  inversion Hl as [|? ? Hl1 Hl2]; subst.
  pose proof (lib_section_name_shape l dc Hl1) as Hs.
  destruct (lib_section_name l dc) as [str dc']. cbn [fst] in Hs.
  constructor; [exact Hs|]. apply IH. exact Hl2.
Qed.

Lemma length_lib_names (libs : list lib_t) : forall (dc : Z),
  length (lib_names libs dc) = length libs.
Proof.
  induction libs as [|l rest IH]; intros dc; cbn [lib_names length]; [reflexivity|].
  destruct (lib_section_name l dc) as [str dc']. cbn [length]. rewrite IH. reflexivity.
Qed.

Lemma suffix_drop (a suf t : list byte) :
  t = a ++ suf -> drop (length t - length suf) t = suf.
Proof.
  intros ->. rewrite length_app.
  replace (length a + length suf - length suf)%nat with (length a) by lia.
  apply drop_app_length.
Qed.

Ltac not_suffix E :=
  apply suffix_drop in E; vm_compute in E; discriminate E.

Ltac not_digit_end E Hd :=
  apply suffix_drop in E; vm_compute in E; injection E as <-;
  vm_compute in Hd; intuition discriminate.

(** The fixed names that no library section can have. *)
Lemma lib_like_not (n : list byte) :
  lib_like n ->
  n <> lit ".dynsym" /\ n <> lit ".got.plt" /\ n <> lit ".symtab" /\
  n <> lit ".strtab" /\ n <> lit ".shstrtab".
Proof.
  intros Hl.
  repeat split; intros ->;
    destruct Hl as [(a & E)|[(a & E)|[(a & E)|(a & d & E & Hd)]]];
    first [ not_suffix E | not_digit_end E Hd ].
Qed.

Lemma section_names_nul_free (dynamic : bool) (libs : list lib_t) :
  Forall (fun l => nul_free (lib_name l)) libs ->
  Forall nul_free (section_names dynamic libs).
Proof.
  intros Hl. unfold section_names, head_names, body_names, tail_names.
  repeat (apply Forall_app; split).
  - lit_nf.
  - destruct dynamic; [|constructor]. constructor; [lit_nf|constructor].
  - lit_nf.
  - destruct dynamic; [|constructor]. repeat (constructor; [lit_nf|]). constructor.
  - lit_nf.
  - destruct dynamic; [|constructor]. repeat (constructor; [lit_nf|]). constructor.
  - lit_nf.
  - destruct dynamic; [|constructor]. repeat (constructor; [lit_nf|]). constructor.
  - repeat (constructor; [lit_nf|]). constructor.
  - destruct dynamic; [|constructor].
    eapply Forall_impl; [apply lib_names_shape; exact Hl|].
    intros n [Hn _]. exact Hn.
  - repeat (constructor; [lit_nf|]). constructor.
Qed.

End NameFacts.

Section PipelineFacts.
Import Mem Elf CStr Handle Sections SymRecon.
Context {H : Headers} {L : Layout}.

(** What [build_section_headers] returns, in terms of the table it built. *)
Lemma build_section_headers_inv (file : image) (personality : Z) (e : elfdesc_t)
    (md : memdesc_t) (libs : list lib_t) (smeta : section_meta) (hacks : hacks_t)
    (ef : ecfs_file_t) (b : built) :
  build_section_headers file personality e md libs smeta hacks ef = Some b ->
  let dynamic := Z.land personality ELF_STATIC =? 0 in
  exists t,
    holds t (section_names dynamic libs) /\
    scount t <= MAX_SHDR_COUNT /\ stoffset t <= MAX_SHDR_COUNT * 64 /\
    (exists s, shdrs t !! (length (shdrs t) - 1)%nat = Some s /\
       shdr_offset s = wrap64 (size file + sizeof_Shdr * scount t) /\
       shdr_size s = wrap64 (stoffset t)) /\
    b_scount b = scount t /\
    b_text_shdr_index b = Z.of_nat (length (head_names dynamic)) /\
    b_file b =
      patch_ehdr (file ++ concat (List.map encode_shdr (shdrs t)) ++ StringTable t)
        (o_entry md) (size file) (scount t - 1) (scount t).
Proof.
  unfold build_section_headers. cbv zeta. intros E.
  set (dynamic := (Z.land personality ELF_STATIC =? 0)) in *.
  pose proof (holds_head dynamic e smeta hacks) as Hh.
  destruct (emit_body dynamic e md smeta hacks (emit_head dynamic e smeta hacks))
    as [[t1 w]|] eqn:Eb; [|discriminate E].
  pose proof (holds_body _ _ _ _ _ _ _ _ _ Eb Hh) as Hb.
  assert (holds (if dynamic then emit_libs libs 0 t1 else t1)
            ((head_names dynamic ++ body_names dynamic)
             ++ (if dynamic then lib_names libs 0 else []))) as Hl.
  { destruct dynamic; [apply holds_emit_libs; exact Hb|].
    rewrite app_nil_r. exact Hb. }
  destruct (emit_tail e md ef (size file) (if dynamic then emit_libs libs 0 t1 else t1))
    as [t2|] eqn:Et; [|discriminate E].
  pose proof (holds_tail _ _ _ _ _ _ _ Et Hl) as Ht.
  pose proof (emit_tail_last _ _ _ _ _ _ Et) as Hlast.
  destruct ((MAX_SHDR_COUNT <? scount t2) || (MAX_SHDR_COUNT * 64 <? stoffset t2)) eqn:Ec;
    [discriminate E|].
  apply orb_false_iff in Ec. destruct Ec as [Ec1 Ec2].
  apply Z.ltb_ge in Ec1, Ec2.
  injection E as <-. exists t2. cbn [b_scount b_text_shdr_index b_file].
  split; [unfold section_names; rewrite <- !app_assoc in Ht; exact Ht|].
  split; [exact Ec1|]. split; [exact Ec2|]. split; [exact Hlast|].
  split; [reflexivity|]. split; [|reflexivity].
  rewrite <- (h_len _ _ Hh). reflexivity.
Qed.

(** What [core2ecfs] returns: the payload, the section header table and
    its names, the header as patched, the work of the finalizer. *)
Lemma core2ecfs_inv (e : elfdesc_t) (md : memdesc_t) (nd : Notes.notedesc_t)
    (libs : list lib_t) (smeta : section_meta) (hacks : hacks_t) (heuristics : Z)
    (fdinfo : option (list byte)) (arglist : list byte) (fns : list fde_func_data)
    (out : image) :
  core2ecfs e md nd libs smeta hacks heuristics fdinfo arglist fns = Some out ->
  let personality := Personality.build_elf_stats e heuristics (stripped hacks) in
  let dynamic := Z.land personality ELF_STATIC =? 0 in
  let stb := stb_offset (ecfs_layout (size (mem e)) nd md) in
  exists file t,
    payload e md nd fdinfo arglist personality = Some file /\
    holds t (section_names dynamic libs) /\
    scount t <= MAX_SHDR_COUNT /\ stoffset t <= MAX_SHDR_COUNT * 64 /\
    (exists s, shdrs t !! (length (shdrs t) - 1)%nat = Some s /\
       shdr_offset s = wrap64 (size file + sizeof_Shdr * scount t) /\
       shdr_size s = wrap64 (stoffset t)) /\
    Z.of_nat (length (strtab_bytes fns)) <= strtab_capacity /\
    out = patch_headers (sealed file t (o_entry md) stb)
            (sizeof_Sym * Z.of_nat (length fns)) (Z.of_nat (length (strtab_bytes fns)))
          ++ symtab_bytes fns (Z.of_nat (length (head_names dynamic))) 0
          ++ strtab_bytes fns.
Proof.
  unfold core2ecfs. cbv zeta. intros E.
  destruct (payload _ _ _ _ _ _) as [file|] eqn:Ep; [|discriminate E].
  destruct (build_section_headers _ _ _ _ _ _ _ _) as [b|] eqn:Eb; [|discriminate E].
  apply build_section_headers_inv in Eb. cbv zeta in Eb.
  destruct Eb as (t & Hh & Hc1 & Hc2 & Hlast & Hsc & Hti & Hf).
  apply finalize_inv in E. destruct E as [Hcap E].
  exists file, t.
  split; [reflexivity|]. split; [exact Hh|]. split; [exact Hc1|].
  split; [exact Hc2|]. split; [exact Hlast|]. split; [exact Hcap|].
  rewrite E, Hf, Hsc, Hti. reflexivity.
Qed.

End PipelineFacts.

Section Pipeline.
Import Mem Elf CStr Handle Sections SymRecon.
Context {H : Headers} {L : Layout}.
Variables (file : image) (t : table) (entry : Z) (ns : list (list byte)).
Variables (pm tail : image) (symsz strsz : Z).
Hypothesis Hholds : holds t ns.
Hypothesis Hfile : 64 <= size file.
Hypothesis Hbig : size file < 2 ^ 63.
Hypothesis Hmax : MAX_SHDR_COUNT < 2 ^ 16.
Hypothesis Hc1 : scount t <= MAX_SHDR_COUNT.
Hypothesis Hc2 : stoffset t <= MAX_SHDR_COUNT * 64.
Hypothesis Hlast : exists s, shdrs t !! (length (shdrs t) - 1)%nat = Some s /\
    shdr_offset s = wrap64 (size file + sizeof_Shdr * scount t).
Hypothesis Hshstr : ns !! (length ns - 1)%nat = Some (lit ".shstrtab").

Local Abbreviation f := (sealed file t entry (size file)).
Hypothesis Hfin : finalized f pm symsz strsz.
Local Abbreviation out := (pm ++ tail).

Lemma pl_count : 0 < scount t < 2 ^ 16.
Proof.
  unfold scount. rewrite (h_len _ _ Hholds).
  apply lookup_lt_Some in Hshstr. unfold scount in Hc1. rewrite (h_len _ _ Hholds) in Hc1. lia.
Qed.

Lemma pl_scount : scount t = Z.of_nat (length ns).
Proof. unfold scount. rewrite (h_len _ _ Hholds). reflexivity. Qed.

Lemma pl_st : stoffset t < 2 ^ 32.
Proof. lia. Qed.

Lemma pl_size : size file + 64 * scount t + stoffset t < 2 ^ 64.
Proof. pose proof pl_count. lia. Qed.

Lemma pl_ok : shdrs_ok f.
Proof. apply (sealed_ok file t entry Hfile pl_count pl_size Hlast). Qed.

Lemma pl_f_shoff : shoff_of f = size file.
Proof. apply (sealed_shoff file t entry Hfile pl_count pl_size). Qed.

Lemma pl_f_shnum : shnum_of f = Z.of_nat (length ns).
Proof. rewrite <- pl_scount. apply (sealed_shnum file t entry Hfile pl_count). Qed.

Lemma pl_shoff : shoff_of out = size file.
Proof.
  rewrite (out_shoff f pm tail pl_ok (fz_size _ _ _ _ Hfin) (fz_head _ _ _ _ Hfin)).
  apply pl_f_shoff.
Qed.

Lemma pl_shnum : shnum_of out = Z.of_nat (length ns).
Proof.
  rewrite (out_shnum f pm tail pl_ok (fz_size _ _ _ _ Hfin) (fz_head _ _ _ _ Hfin)).
  apply pl_f_shnum.
Qed.

Lemma pl_sh (j : Z) : sh_of out j = sh_of f j.
Proof. apply (out_sh f pm tail pl_ok (fz_size _ _ _ _ Hfin) (fz_head _ _ _ _ Hfin)). Qed.

Lemma pl_f_shstrndx : get f 0 e_shstrndx = Z.of_nat (length ns) - 1.
Proof. rewrite <- pl_scount. apply (sealed_shstrndx file t entry Hfile pl_count). Qed.

Lemma pl_shstrndx : get out 0 e_shstrndx = Z.of_nat (length ns) - 1.
Proof.
  rewrite (out_ehdr f pm tail pl_ok (fz_size _ _ _ _ Hfin) (fz_head _ _ _ _ Hfin))
    by (cbn; lia).
  apply pl_f_shstrndx.
Qed.

Lemma pl_f_name (j : nat) (n : list byte) :
  ns !! j = Some n -> nul_free n -> section_name f (Z.of_nat j) = n.
Proof.
  apply (sealed_name file t entry ns Hholds Hfile pl_count pl_st pl_size Hlast).
Qed.

Lemma pl_strtab : strtab_of out = strtab_of f.
Proof.
  assert (Hn : section_name f (get f 0 e_shstrndx) = lit ".shstrtab").
  { rewrite pl_f_shstrndx.
    replace (Z.of_nat (length ns) - 1) with (Z.of_nat (length ns - 1))
      by (apply lookup_lt_Some in Hshstr; lia).
    apply pl_f_name; [exact Hshstr|]. unfold nul_free. repeat constructor; vm_compute; discriminate. }
  apply (out_strtab f pm tail (size f) (size f + symsz) pl_ok (fz_size _ _ _ _ Hfin)
           (fz_head _ _ _ _ Hfin) (fz_off _ _ _ _ Hfin)).
  - rewrite pl_f_shstrndx, pl_f_shnum. apply lookup_lt_Some in Hshstr. lia.
  - rewrite Hn. intro E. vm_compute in E. discriminate E.
  - rewrite Hn. intro E. vm_compute in E. discriminate E.
Qed.

(** Every section of the output has the name the table was built with. *)
Lemma pl_name (j : nat) (n : list byte) :
  ns !! j = Some n -> nul_free n -> section_name out (Z.of_nat j) = n.
Proof.
  intros Hn Hnul.
  destruct (sealed_name_bytes file t entry ns Hholds Hfile pl_count pl_st pl_size Hlast j n Hn)
    as (rest & E).
  apply (out_name f pm tail pl_ok (fz_size _ _ _ _ Hfin) (fz_head _ _ _ _ Hfin)
           (fz_tail _ _ _ _ Hfin) (fz_keep _ _ _ _ Hfin) (Z.of_nat j) n rest).
  - rewrite pl_f_shnum. apply lookup_lt_Some in Hn. lia.
  - apply pl_strtab.
  - exact E.
  - exact Hnul.
Qed.

(** A field that the finalizer keeps is the field of the table. *)
Lemma pl_get (j : nat) (s : Shdr) (fld : field) :
  shdrs t !! j = Some s -> 0 <= f_off fld ->
  f_off fld + Z.of_nat (f_width fld) <= 24 \/
  40 <= f_off fld /\ f_off fld + Z.of_nat (f_width fld) <= 64 ->
  get out (sh_of out (Z.of_nat j)) fld = get (encode_shdr s) 0 fld.
Proof.
  intros Hs Hf0 Hf.
  rewrite (out_header_kept f pm tail pl_ok (fz_size _ _ _ _ Hfin) (fz_head _ _ _ _ Hfin)
             (fz_keep _ _ _ _ Hfin)).
  - apply (sealed_get file t entry Hfile pl_count pl_size); [exact Hs|exact Hf0|lia].
  - rewrite pl_f_shnum, <- (h_len _ _ Hholds). apply lookup_lt_Some in Hs. lia.
  - exact Hf0.
  - exact Hf.
Qed.

End Pipeline.

Section PrefixFacts.
Import Mem Elf CStr Handle Sections SymRecon.

(** Whatever the table looks like, the two loops of the finalizer store
    behind [e_shoff] only. *)
Lemma patch_step_prefix (shdr StringTable a b c d i : Z) (s : walk) (n : nat) :
  0 <= i -> Z.of_nat n <= shdr ->
  size (w_mem (patch_step shdr StringTable a b c d i s)) = size (w_mem s) /\
  firstn n (w_mem (patch_step shdr StringTable a b c d i s)) = firstn n (w_mem s).
Proof.
  intros Hi Hn. unfold patch_step. cbv zeta.
  assert (Hoff : forall fld, 0 <= f_off fld -> Z.of_nat n <= shdr_at shdr i + f_off fld)
    by (intros fld Hf; unfold shdr_at, sizeof_Shdr; lia).
  destruct (streq _ (lit ".symtab")); [|destruct (streq _ (lit ".strtab"));
    [|destruct (streq _ (lit ".dynsym"))]]; cbn [w_mem]; try (split; reflexivity).
  - unfold set. rewrite !size_store.
    rewrite !firstn_store by (apply Hoff; cbn; lia). split; reflexivity.
  - unfold set. rewrite !size_store.
    rewrite !firstn_store by (apply Hoff; cbn; lia). split; reflexivity.
Qed.

Lemma patch_loop_prefix (fuel : nat) (shdr StringTable a b c d : Z) (n : nat) :
  forall (i : Z) (s : walk),
  0 <= i -> Z.of_nat n <= shdr ->
  size (w_mem (patch_loop fuel shdr StringTable a b c d i s)) = size (w_mem s) /\
  firstn n (w_mem (patch_loop fuel shdr StringTable a b c d i s)) = firstn n (w_mem s).
Proof.
  induction fuel as [|fuel IH]; intros i s Hi Hn; cbn [patch_loop]; [split; reflexivity|].
  destruct (i <? _); [|split; reflexivity].
  destruct (IH (i + 1) (patch_step shdr StringTable a b c d i s) ltac:(lia) Hn) as [E1 E2].
  destruct (patch_step_prefix shdr StringTable a b c d i s n Hi Hn) as [E3 E4].
  split; congruence.
Qed.

Lemma got_loop_prefix (fuel : nat) (shdr StringTable d : Z) (n : nat) :
  forall (i : Z) (m : image),
  0 <= i -> Z.of_nat n <= shdr ->
  size (got_loop fuel shdr StringTable d i m) = size m /\
  firstn n (got_loop fuel shdr StringTable d i m) = firstn n m.
Proof.
  intros i m Hi Hn.
  destruct (got_loop_cases fuel shdr StringTable d i m) as [->|(g & Hg & _ & ->)];
    [split; reflexivity|].
  unfold set. rewrite size_store.
  rewrite firstn_store by (unfold shdr_at, sizeof_Shdr; cbn; lia). split; reflexivity.
Qed.

Lemma patch_headers_prefix (m : image) (symsz strsz : Z) (n : nat) :
  Z.of_nat n <= shoff_of m ->
  size (patch_headers m symsz strsz) = size m /\
  firstn n (patch_headers m symsz strsz) = firstn n m.
Proof.
  intros Hn. unfold patch_headers. cbv zeta. fold (shoff_of m).
  match goal with |- context [got_loop _ _ ?st ?dc 0 (w_mem ?s)] =>
    destruct (got_loop_prefix shdr_fuel (shoff_of m) st dc n 0 (w_mem s) ltac:(lia) Hn)
      as [E1 E2]
  end.
  match goal with |- context [patch_loop _ _ ?st ?a ?b ?c ?d 0 ?s] =>
    destruct (patch_loop_prefix shdr_fuel (shoff_of m) st a b c d n 0 s ltac:(lia) Hn)
      as [E3 E4]
  end.
  cbn [w_mem] in E3, E4. split; congruence.
Qed.

Lemma slice_firstn_eq (a b : image) (off len : Z) (n : nat) :
  0 <= off -> 0 <= len -> off + len <= Z.of_nat n -> firstn n a = firstn n b ->
  slice a off len = slice b off len.
Proof.
  intros Ho Hl Hn E. unfold slice.
  rewrite <- (firstn_skipn_firstn (Z.to_nat off) (Z.to_nat len) n a) by lia.
  rewrite <- (firstn_skipn_firstn (Z.to_nat off) (Z.to_nat len) n b) by lia.
  rewrite E. reflexivity.
Qed.

Lemma slice_skipn_eq (a b : image) (off len : Z) (n : nat) :
  Z.of_nat n <= off -> skipn n a = skipn n b ->
  slice a off len = slice b off len.
Proof.
  intros Hn E. unfold slice.
  replace (Z.to_nat off) with ((Z.to_nat off - n) + n)%nat by lia.
  rewrite <- !skipn_skipn, E. reflexivity.
Qed.

Lemma slice_set_disjoint (m : image) (f : field) (v off len : Z) :
  0 <= off -> 0 <= len ->
  off + len <= f_off f \/ f_off f + Z.of_nat (f_width f) <= off ->
  slice (set m 0 f v) off len = slice m off len.
Proof.
  intros Ho Hl [Hd|Hd]; unfold set.
  - apply (slice_firstn_eq _ _ _ _ (Z.to_nat (off + len))); [lia|lia|lia|].
    apply firstn_store. lia.
  - apply (slice_skipn_eq _ _ _ _ (Z.to_nat off)); [lia|].
    apply skipn_store. lia.
Qed.

Lemma slice_app_l (a b : image) (off len : Z) :
  0 <= off -> 0 <= len -> off + len <= size a ->
  slice (a ++ b) off len = slice a off len.
Proof.
  intros Ho Hl Hs. unfold slice. apply firstn_skipn_app_l. unfold size in Hs. lia.
Qed.

End PrefixFacts.

Section IndexFacts.
Import Mem Elf CStr Handle Sections SymRecon.
Context {H : Headers} {L : Layout}.

Lemma section_names_front (dynamic : bool) (libs : list lib_t) :
  section_names dynamic libs = front_names dynamic libs ++ tail_names.
Proof. unfold section_names, front_names. rewrite <- !app_assoc. reflexivity. Qed.

Lemma length_section_names (dynamic : bool) (libs : list lib_t) :
  length (section_names dynamic libs) = (length (front_names dynamic libs) + 13)%nat.
Proof. rewrite section_names_front, length_app. reflexivity. Qed.

Lemma section_names_tail (dynamic : bool) (libs : list lib_t) (k : nat) :
  section_names dynamic libs !! (length (front_names dynamic libs) + k)%nat =
  tail_names !! k.
Proof.
  rewrite section_names_front, lookup_app_r by lia. f_equal. lia.
Qed.

Lemma section_names_text (dynamic : bool) (libs : list lib_t) :
  section_names dynamic libs !! length (head_names dynamic) = Some (lit ".text").
Proof.
  unfold section_names. rewrite lookup_app_r by lia. rewrite Nat.sub_diag. reflexivity.
Qed.


End IndexFacts.

Section BodyFacts.
Import Mem Elf CStr Handle Sections SymRecon.
Context {H : Headers} {L : Layout}.

Lemma payload_prefix (e : elfdesc_t) (md : memdesc_t) (nd : Notes.notedesc_t)
    (fdinfo : option (list byte)) (arglist : list byte) (personality : Z) (file : image) :
  payload e md nd fdinfo arglist personality = Some file ->
  exists rest, file = mem e ++ rest.
Proof.
  unfold payload. intros E.
  destruct (Notes.prstatus nd); [|discriminate E].
  destruct (thread_prstatus _ _ _); [|discriminate E].
  injection E as <-. eexists. reflexivity.
Qed.

Lemma size_sealed_any (file : image) (t : table) (entry stb : Z) :
  size (sealed file t entry stb) =
  size (file ++ concat (List.map encode_shdr (shdrs t)) ++ StringTable t).
Proof. unfold sealed, patch_ehdr. cbv zeta. rewrite !size_set. reflexivity. Qed.

Lemma sealed_any_shoff (file : image) (t : table) (entry stb : Z) :
  64 <= size file -> get (sealed file t entry stb) 0 e_shoff = wrap64 stb.
Proof.
  intros Hf. unfold sealed, patch_ehdr. cbv zeta.
  rewrite get_set_disjoint by (cbn; lia).
  rewrite get_set_same; [reflexivity|cbn; lia|].
  rewrite !size_set. unfold size in *. rewrite length_app. cbn. lia.
Qed.

Lemma sealed_any_slice (file : image) (t : table) (entry stb off len : Z) :
  0 <= off -> 0 <= len -> off + len <= size file ->
  off + len <= 16 \/ 18 <= off /\ off + len <= 24 \/ 32 <= off /\ off + len <= 40 \/
  48 <= off /\ off + len <= 58 \/ 64 <= off ->
  slice (sealed file t entry stb) off len = slice file off len.
Proof.
  intros Ho Hl Hs Hd. unfold sealed, patch_ehdr. cbv zeta.
  rewrite !slice_set_disjoint by (try assumption; cbn; lia).
  apply slice_app_l; assumption.
Qed.

Lemma sealed_any_get (file : image) (t : table) (entry stb : Z) :
  64 <= size file ->
  let f := sealed file t entry stb in
  get f 0 e_type = ET_NONE /\ get f 0 e_entry = wrap64 entry /\
  get f 0 e_shentsize = sizeof_Shdr.
Proof.
  intros Hf. cbv zeta. unfold sealed, patch_ehdr. cbv zeta.
  assert (Hsz : forall x, 64 <= size x -> 64 <= size x) by auto.
  repeat split.
  - repeat (rewrite get_set_disjoint by (cbn; lia)).
    rewrite get_set_same; [reflexivity|cbn; lia|].
    rewrite !size_set. unfold size in *. rewrite length_app. cbn. lia.
  - repeat (rewrite get_set_disjoint by (cbn; lia)).
    rewrite get_set_same; [reflexivity|cbn; lia|].
    rewrite ?size_set. unfold size in *. rewrite length_app. cbn. lia.
  - repeat (rewrite get_set_disjoint by (cbn; lia)).
    rewrite get_set_same; [reflexivity|cbn; lia|].
    rewrite ?size_set. unfold size in *. rewrite length_app. cbn. lia.
Qed.

Lemma keeps_core_generic (core rest f pm tail : image) :
  64 <= size core ->
  (forall off len, 0 <= off -> 0 <= len -> off + len <= size (core ++ rest) ->
     in_kept_ehdr off len -> slice f off len = slice (core ++ rest) off len) ->
  size f = size pm -> size core <= size f ->
  firstn (Z.to_nat (size core)) pm = firstn (Z.to_nat (size core)) f ->
  (forall off len, 0 <= off -> 0 <= len -> off + len <= size core ->
     in_kept_ehdr off len -> slice (pm ++ tail) off len = slice core off len) /\
  (forall fld, 0 <= f_off fld -> f_off fld + Z.of_nat (f_width fld) <= 64 ->
     get (pm ++ tail) 0 fld = get f 0 fld).
Proof.
  intros Hhdr Hsl Hs Hle Hh. split.
  - intros off len Ho Hl Hsz Hd.
    rewrite slice_app_l by lia.
    rewrite (slice_firstn_eq pm f off len (Z.to_nat (size core))) by (lia || exact Hh).
    rewrite Hsl; [|lia|lia| |exact Hd].
    + apply slice_app_l; lia.
    + unfold size in *. rewrite length_app. lia.
  - intros fld Hf0 Hf1. unfold get.
    rewrite load_app_l by lia.
    apply (load_firstn_eq _ _ _ _ (Z.to_nat (size core))).
    + lia.
    + unfold size in *. lia.
    + unfold size in *. lia.
    + exact Hh.
Qed.

(** The text-merged core inside the output of [core2ecfs]: everything
    but six fields of the ELF header. *)
Lemma core2ecfs_keeps_core (e : elfdesc_t) (md : memdesc_t) (nd : Notes.notedesc_t)
    (libs : list lib_t) (smeta : section_meta) (hacks : hacks_t) (heuristics : Z)
    (fdinfo : option (list byte)) (arglist : list byte) (fns : list fde_func_data)
    (out : image) :
  core2ecfs e md nd libs smeta hacks heuristics fdinfo arglist fns = Some out ->
  64 <= size (mem e) ->
  size (mem e) <= stb_offset (ecfs_layout (size (mem e)) nd md) < 2 ^ 64 ->
  (forall off len, 0 <= off -> 0 <= len -> off + len <= size (mem e) ->
     in_kept_ehdr off len -> slice out off len = slice (mem e) off len) /\
  get out 0 e_type = ET_NONE /\
  get out 0 e_entry = wrap64 (o_entry md) /\
  get out 0 e_shoff = stb_offset (ecfs_layout (size (mem e)) nd md) /\
  get out 0 e_shentsize = sizeof_Shdr.
Proof.
  intros E Hhdr Hstb.
  apply core2ecfs_inv in E.
  destruct E as (file & t & Hp & _ & _ & _ & _ & _ & Hout).
  destruct (payload_prefix _ _ _ _ _ _ _ Hp) as (rest & Hfile).
  assert (Hsf : 64 <= size file)
    by (rewrite Hfile; unfold size in *; rewrite length_app; lia).
  pose proof (sealed_any_shoff file t (o_entry md)
                (stb_offset (ecfs_layout (size (mem e)) nd md)) Hsf) as Hshoff.
  unfold wrap64 in Hshoff. rewrite (Z.mod_small _ (2 ^ 64)) in Hshoff by lia.
  destruct (sealed_any_get file t (o_entry md)
              (stb_offset (ecfs_layout (size (mem e)) nd md)) Hsf) as (G1 & G2 & G3).
  pose proof (size_sealed_any file t (o_entry md)
                (stb_offset (ecfs_layout (size (mem e)) nd md))) as Hsz.
  destruct (patch_headers_prefix
              (sealed file t (o_entry md) (stb_offset (ecfs_layout (size (mem e)) nd md)))
              (sizeof_Sym * Z.of_nat (length fns))
              (Z.of_nat (length (strtab_bytes fns))) (Z.to_nat (size (mem e))))
    as [Ps Ph]; [unfold shoff_of; rewrite Hshoff; lia|].
  destruct (keeps_core_generic (mem e) rest
              (sealed file t (o_entry md) (stb_offset (ecfs_layout (size (mem e)) nd md)))
              (patch_headers
                 (sealed file t (o_entry md) (stb_offset (ecfs_layout (size (mem e)) nd md)))
                 (sizeof_Sym * Z.of_nat (length fns))
                 (Z.of_nat (length (strtab_bytes fns))))
              (symtab_bytes fns
                 (Z.of_nat (length (head_names
                    (Z.land (Personality.build_elf_stats e heuristics (stripped hacks))
                       ELF_STATIC =? 0)))) 0 ++ strtab_bytes fns) Hhdr)
    as [K1 K2].
  - intros off len Ho Hl Hs Hd. rewrite <- Hfile in Hs |- *.
    apply sealed_any_slice; assumption.
  - symmetry. exact Ps.
  - rewrite Hsz, Hfile. unfold size. rewrite !length_app. lia.
  - exact Ph.
  - rewrite Hout. split; [exact K1|].
    split; [exact (eq_trans (K2 e_type ltac:(cbn; lia) ltac:(cbn; lia)) G1)|].
    split; [exact (eq_trans (K2 e_entry ltac:(cbn; lia) ltac:(cbn; lia)) G2)|].
    split; [exact (eq_trans (K2 e_shoff ltac:(cbn; lia) ltac:(cbn; lia)) Hshoff)|].
    exact (eq_trans (K2 e_shentsize ltac:(cbn; lia) ltac:(cbn; lia)) G3).
Qed.

End BodyFacts.

Section SymbolPipeline.
Import Mem Elf CStr Handle Sections SymRecon.
Context {H : Headers} {L : Layout}.
Variables (file : image) (t : table) (entry : Z) (ns : list (list byte)).
Variables (pm : image) (fns : list fde_func_data) (tsi : Z).
Hypothesis Hholds : holds t ns.
Hypothesis Hfile : 64 <= size file.
Hypothesis Hbig : size file < 2 ^ 63.
Hypothesis Hmax : MAX_SHDR_COUNT < 2 ^ 16.
Hypothesis Hc1 : scount t <= MAX_SHDR_COUNT.
Hypothesis Hc2 : stoffset t <= MAX_SHDR_COUNT * 64.
Hypothesis Hlast : exists s, shdrs t !! (length (shdrs t) - 1)%nat = Some s /\
    shdr_offset s = wrap64 (size file + sizeof_Shdr * scount t).
Hypothesis Hshstr : ns !! (length ns - 1)%nat = Some (lit ".shstrtab").
Hypothesis Hcap : Z.of_nat (length (strtab_bytes fns)) <= strtab_capacity.
Hypothesis Htsi : 0 <= tsi < 2 ^ 16.

Local Abbreviation f := (sealed file t entry (size file)).
Local Abbreviation n := (Z.of_nat (length fns)).
Local Abbreviation symsz := (sizeof_Sym * n).
Local Abbreviation strsz := (Z.of_nat (length (strtab_bytes fns))).
Hypothesis Hfin : finalized f pm symsz strsz.
Local Abbreviation tail := (symtab_bytes fns tsi 0 ++ strtab_bytes fns).
Local Abbreviation out := (pm ++ tail).
Local Abbreviation symtab := (size file + 64 * scount t + stoffset t).
Local Abbreviation strtab := (symtab + symsz).







Lemma sp_lit_nf (s : string) :
  Forall (fun b => b <> Byte.x00) (lit s) -> nul_free (lit s).
Proof. intros Hs. exact Hs. Qed.








End SymbolPipeline.

Section EndToEnd.
Import Mem Elf CStr Handle Sections SymRecon.
Context {H : Headers} {L : Layout}.
Variables (e : elfdesc_t) (md : memdesc_t) (nd : Notes.notedesc_t)
  (libs : list lib_t) (smeta : section_meta) (hacks : hacks_t) (heuristics : Z)
  (fdinfo : option (list byte)) (arglist : list byte) (fns : list fde_func_data).
Variables (file out : image).

Local Abbreviation personality := (Personality.build_elf_stats e heuristics (stripped hacks)).
Local Abbreviation dynamic := (Z.land personality ELF_STATIC =? 0).
Local Abbreviation ns := (section_names dynamic libs).
Local Abbreviation tsi := (Z.of_nat (length (head_names dynamic))).

Hypothesis Hpayload : payload e md nd fdinfo arglist personality = Some file.
Hypothesis Hcomplete : size file = stb_offset (ecfs_layout (size (mem e)) nd md).
Hypothesis Hrun : core2ecfs e md nd libs smeta hacks heuristics fdinfo arglist fns = Some out.
Hypothesis Hhdr : 64 <= size (mem e).
Hypothesis Hbig : size file < 2 ^ 63.
Hypothesis Hmax : MAX_SHDR_COUNT < 2 ^ 16.

(** The run of [core2ecfs] in one piece. *)
Lemma core2ecfs_pipeline :
  exists t pm,
    holds t ns /\ scount t <= MAX_SHDR_COUNT /\ stoffset t <= MAX_SHDR_COUNT * 64 /\
    (exists s, shdrs t !! (length (shdrs t) - 1)%nat = Some s /\
       shdr_offset s = wrap64 (size file + sizeof_Shdr * scount t)) /\
    Z.of_nat (length (strtab_bytes fns)) <= strtab_capacity /\
    64 <= size file /\
    finalized (sealed file t (o_entry md) (size file)) pm
      (sizeof_Sym * Z.of_nat (length fns)) (Z.of_nat (length (strtab_bytes fns))) /\
    out = pm ++ symtab_bytes fns tsi 0 ++ strtab_bytes fns.
Proof.
  pose proof Hrun as E. apply core2ecfs_inv in E.
  destruct E as (file' & t & Hp & Hh & Hc1 & Hc2 & (s & Hs1 & Hs2 & _) & Hcap & Hout).
  rewrite Hpayload in Hp. injection Hp as <-.
  rewrite <- Hcomplete in Hout.
  destruct (payload_prefix _ _ _ _ _ _ _ Hpayload) as (rest & Hfile).
  assert (Hsf : 64 <= size file)
    by (rewrite Hfile; unfold size in *; rewrite length_app; lia).
  assert (Hshstr : ns !! (length ns - 1)%nat = Some (lit ".shstrtab")).
  { rewrite length_section_names.
    replace (length (front_names dynamic libs) + 13 - 1)%nat
      with (length (front_names dynamic libs) + 12)%nat by lia.
    rewrite section_names_tail. reflexivity. }
  assert (Hlast : exists s, shdrs t !! (length (shdrs t) - 1)%nat = Some s /\
            shdr_offset s = wrap64 (size file + sizeof_Shdr * scount t))
    by (exists s; split; assumption).
  exists t.
  exists (patch_headers (sealed file t (o_entry md) (size file))
            (sizeof_Sym * Z.of_nat (length fns)) (Z.of_nat (length (strtab_bytes fns)))).
  split; [exact Hh|]. split; [exact Hc1|]. split; [exact Hc2|].
  split; [exact Hlast|]. split; [exact Hcap|]. split; [exact Hsf|].
  split; [|exact Hout].
  apply patch_headers_finalized.
  apply (pl_ok file t (o_entry md) ns Hh Hsf Hbig Hmax Hc1 Hc2 Hlast Hshstr).
Qed.

Lemma ns_shstrtab : ns !! (length ns - 1)%nat = Some (lit ".shstrtab").
Proof.
  rewrite length_section_names.
  replace (length (front_names dynamic libs) + 13 - 1)%nat
    with (length (front_names dynamic libs) + 12)%nat by lia.
  rewrite section_names_tail. reflexivity.
Qed.





(** The section header table of the output: where the ELF header says,
    one header per section in the order of [section_names], each with the
    name it was built with. *)
Lemma core2ecfs_sections :
  shoff_of out = size file /\
  shnum_of out = Z.of_nat (length ns) /\
  get out 0 e_shstrndx = Z.of_nat (length ns) - 1 /\
  (forall j nm, ns !! j = Some nm -> nul_free nm -> section_name out (Z.of_nat j) = nm).
Proof.
  destruct core2ecfs_pipeline
    as (t & pm & Hh & Hc1 & Hc2 & Hlast & Hcap & Hsf & Hfin & ->).
  pose proof ns_shstrtab as Hshstr.
  split; [|split; [|split]].
  - apply (pl_shoff file t (o_entry md) ns pm _ _ _ Hh Hsf Hbig Hmax Hc1 Hc2 Hlast Hshstr Hfin).
  - apply (pl_shnum file t (o_entry md) ns pm _ _ _ Hh Hsf Hbig Hmax Hc1 Hc2 Hlast Hshstr Hfin).
  - apply (pl_shstrndx file t (o_entry md) ns pm _ _ _ Hh Hsf Hbig Hmax Hc1 Hc2 Hlast Hshstr Hfin).
  - intros j nm Hj Hnf.
    apply (pl_name file t (o_entry md) ns pm _ _ _ Hh Hsf Hbig Hmax Hc1 Hc2 Hlast Hshstr Hfin);
      assumption.
Qed.

End EndToEnd.

(** ** The output file *)

Section OutputTheorems.
Import Mem Elf CStr Handle Sections SymRecon TextMerge.
Context {H : Headers} {L : Layout}.


(** C6.  In a file whose section header table lies behind the ELF header
    and in front of the section names, the finalizer leaves in the first
    header called [.got.plt] the size [(dynsym_count + 3) * 8], where
    [dynsym_count] is the size of the (last) section called [.dynsym]
    divided by the size of a symbol (24) and 8 is the size of an address;
    the size of [.dynsym] is as it was.  (The count is an [int]: it has to
    be below 2^31.) *)
Theorem got_plt_resized (m : image) (fns : list fde_func_data) (tsi g d : Z) :
  shdrs_ok m ->
  first_named m ".got.plt" g -> last_named m ".dynsym" d ->
  get m (sh_of m d) sh_size / sizeof_Sym < 2 ^ 31 ->
  21 * Z.of_nat (length fns) <= strtab_capacity ->
  exists out,
    build_local_symtab_and_finalize m fns tsi = Some out /\
    get out (sh_of m g) sh_size = (get m (sh_of m d) sh_size / sizeof_Sym + 3) * sizeof_Addr /\
    get out (sh_of m d) sh_size = get m (sh_of m d) sh_size.
Proof. intros Hok. apply finalize_got. exact Hok. Qed.


End OutputTheorems.

(** ** Further properties: TextMerge *)

Section MergeEdges.
Import Mem Elf TextMerge.

Lemma image_loop_no_match (core : image) (a tlen : Z) (fuel : nat) :
  (forall j, 0 <= j < phnum_of core -> get core (ph_of core j) p_vaddr <> a) ->
  forall i, 0 <= i ->
  image_loop fuel (phoff_of core) a tlen i
    {| w_mem := core; w_textOffset := 0; w_nextOffset := 0; w_found := 0 |} =
  {| w_mem := core; w_textOffset := 0; w_nextOffset := 0; w_found := 0 |}.
Proof.
  intros Hno. induction fuel as [|fuel IH]; intros i Hi; [reflexivity|].
  cbn [image_loop w_mem].
  destruct (i <? get core 0 e_phnum) eqn:E; [|reflexivity].
  apply Z.ltb_lt in E.
  assert (Hs : image_step (phoff_of core) a tlen i
            {| w_mem := core; w_textOffset := 0; w_nextOffset := 0; w_found := 0 |} =
            {| w_mem := core; w_textOffset := 0; w_nextOffset := 0; w_found := 0 |}).
  { unfold image_step. cbn [w_mem w_found].
    destruct (a =? get core (phdr_at (phoff_of core) i) p_vaddr) eqn:Ea.
    - apply Z.eqb_eq in Ea. exfalso. apply (Hno i); [unfold phnum_of; lia|].
      symmetry. exact Ea.
    - reflexivity. }
  rewrite Hs. apply IH. lia.
Qed.

(** X1.  No program header of the core has the text address: [merge_text_image]
    returns -1 and writes nothing. *)
Theorem merge_text_image_no_header (core beyond : image) (a : Z) (text : list byte)
    (tlen : Z) :
  (forall j, 0 <= j < phnum_of core -> get core (ph_of core j) p_vaddr <> a) ->
  merge_text_image core beyond a text tlen = None.
Proof.
  intros Hno. unfold merge_text_image, image_walk.
  change (get core 0 e_phoff) with (phoff_of core).
  rewrite (image_loop_no_match core a tlen phdr_fuel Hno 0 ltac:(lia)).
  reflexivity.
Qed.

Lemma exe_loop_no_match (core : image) (a tlen : Z) (fuel : nat) :
  (forall j, 0 <= j < phnum_of core -> ~ contains core j a) ->
  forall i, 0 <= i ->
  exe_loop fuel (phoff_of core) tlen i
    {| x_mem := core; x_textVaddr := a; x_textOffset := 0;
       x_dataOffset := 0; x_found := 0; x_data_index := 0 |} =
  {| x_mem := core; x_textVaddr := a; x_textOffset := 0;
     x_dataOffset := 0; x_found := 0; x_data_index := 0 |}.
Proof.
  intros Hno. induction fuel as [|fuel IH]; intros i Hi; [reflexivity|].
  cbn [exe_loop x_mem].
  destruct (i <? get core 0 e_phnum) eqn:E; [|reflexivity].
  apply Z.ltb_lt in E.
  assert (Hs : exe_step (phoff_of core) tlen i
            {| x_mem := core; x_textVaddr := a; x_textOffset := 0;
               x_dataOffset := 0; x_found := 0; x_data_index := 0 |} =
            {| x_mem := core; x_textVaddr := a; x_textOffset := 0;
               x_dataOffset := 0; x_found := 0; x_data_index := 0 |}).
  { unfold exe_step. cbn [x_mem x_found x_textVaddr].
    destruct ((get core (phdr_at (phoff_of core) i) p_vaddr <=? a)
              && (a <? wrap64 (get core (phdr_at (phoff_of core) i) p_vaddr
                               + get core (phdr_at (phoff_of core) i) p_memsz))) eqn:Ea.
    - exfalso. apply (Hno i); [unfold phnum_of; lia|].
      apply andb_true_iff in Ea. destruct Ea as [E1 E2].
      apply Z.leb_le in E1. apply Z.ltb_lt in E2. split; assumption.
    - reflexivity. }
  rewrite Hs. apply IH. lia.
Qed.

(** X2.  The text base is not zero, but no program header of the core covers
    it: [merge_exe_text_into_core] does not fail as [merge_text_image]
    does; it replaces the core by the text image followed by the whole
    core. *)
Theorem merge_exe_text_no_header (core beyond : image) (a : Z) (text : list byte)
    (tlen : Z) :
  a <> 0 -> size core < 2 ^ 64 ->
  (forall j, 0 <= j < phnum_of core -> ~ contains core j a) ->
  merge_exe_text_into_core core beyond a text tlen = Some (slice text 0 tlen ++ core).
Proof.
  intros Ha Hsz Hno. unfold merge_exe_text_into_core, exe_walk_of.
  change (get core 0 e_phoff) with (phoff_of core).
  rewrite (exe_loop_no_match core a tlen phdr_fuel Hno 0 ltac:(lia)).
  cbn [x_textVaddr x_mem x_textOffset x_dataOffset].
  destruct (a =? 0) eqn:E; [apply Z.eqb_eq in E; contradiction|].
  f_equal.
  assert (H1 : write_from core beyond 0 0 = []) by reflexivity.
  rewrite H1. cbn [app]. f_equal.
  unfold write_from, slice, wrap64. rewrite Z.sub_0_r.
  rewrite Z.mod_small by (unfold size in *; lia).
  change (Z.to_nat 0) with 0%nat. rewrite drop_0. unfold size. rewrite Nat2Z.id.
  rewrite take_app_length. reflexivity.
Qed.

End MergeEdges.

Section MergeSegments.
Import Mem Elf TextMerge.

Lemma slice_merged (m junk text : image) (t nx o n : Z) :
  0 <= t -> t <= nx -> nx <= o -> 0 <= n -> o + n <= size m ->
  slice (firstn (Z.to_nat t) m ++ text ++ skipn (Z.to_nat nx) m ++ junk)
        (o + size text - (nx - t)) n = slice m o n.
Proof.
  intros Ht Htn Hno Hn Hon. unfold slice, size in *.
  rewrite skipn_app_r by (rewrite length_take; lia).
  rewrite length_take.
  replace (Z.to_nat (o + Z.of_nat (length text) - (nx - t)) - Z.to_nat t `min` length m
           - length text)%nat with (Z.to_nat o - Z.to_nat nx)%nat by lia.
  rewrite firstn_skipn_app_l by (rewrite length_drop; lia).
  rewrite drop_drop. f_equal. f_equal. lia.
Qed.

Lemma slice_merged_text (m rest text : image) (t : Z) :
  0 <= t <= size m ->
  slice (firstn (Z.to_nat t) m ++ text ++ rest) t (size text) = text.
Proof.
  intros Ht. unfold slice, size in *.
  rewrite drop_app_length' by (rewrite length_take; lia).
  rewrite Nat2Z.id. apply take_app_length.
Qed.

(** X3.  The segments follow their headers.  When the text segment of the core
    holds one page in the file (the next header's offset is the text
    header's plus 4096), a text-merge pass leaves the text image at the
    text header's offset, and the bytes of every LOAD segment behind it
    where its rewritten header says. *)
Theorem merged_segments_follow_headers (core beyond : image) (text : list byte)
    (a tlen k : Z) (out : image) :
  table_ok core -> text_header core k a -> a <> 0 ->
  k + 1 < phnum_of core ->
  tabend_of core <= get core (ph_of core k) p_offset ->
  get core (ph_of core (k + 1)) p_offset = get core (ph_of core k) p_offset + 4096 ->
  get core (ph_of core (k + 1)) p_offset <= size core ->
  size core + tlen < 2 ^ 64 ->
  Z.of_nat (length text) = tlen ->
  merge_exe_text_into_core core beyond a text tlen = Some out \/
  merge_text_image core beyond a text tlen = Some out ->
  slice out (get core (ph_of core k) p_offset) tlen = text /\
  forall j n,
    k < j < phnum_of core -> get out (ph_of core j) p_type = PT_LOAD ->
    get core (ph_of core (k + 1)) p_offset <= get core (ph_of core j) p_offset ->
    0 <= n -> get core (ph_of core j) p_offset + n <= size core ->
    slice out (get out (ph_of core j) p_offset) n =
    slice core (get core (ph_of core j) p_offset) n.
Proof.
  intros Htab Htext Ha Hk1 Hte Hpage Hnx Hsz Hl Hrun.
  pose proof (get_range core (ph_of core k) p_offset) as Hr.
  destruct (merged_output_layout core beyond text a tlen k Htab Htext Ha Hk1
              ltac:(lia) Hnx ltac:(lia) Hl) as (m & m' & junk & junk' & Pm & Pm' & Ex & Im).
  assert (Hhd : headers_merged core tlen k out).
  { destruct Hrun as [E|E].
    - eapply exe_out_headers; eassumption.
    - eapply image_out_headers; eassumption. }
  assert (Hgen : forall mm jj, patched_table core mm ->
            out = firstn (Z.to_nat (get core (ph_of core k) p_offset)) mm ++ text
                  ++ skipn (Z.to_nat (get core (ph_of core (k + 1)) p_offset)) mm ++ jj ->
            slice out (get core (ph_of core k) p_offset) tlen = text /\
            forall j n,
              k < j < phnum_of core -> get out (ph_of core j) p_type = PT_LOAD ->
              get core (ph_of core (k + 1)) p_offset <= get core (ph_of core j) p_offset ->
              0 <= n -> get core (ph_of core j) p_offset + n <= size core ->
              slice out (get out (ph_of core j) p_offset) n =
              slice core (get core (ph_of core j) p_offset) n).
  { intros mm jj (Ps & Ph & Pt) ->. split.
    - rewrite <- Hl. apply slice_merged_text. rewrite Ps. lia.
    - intros j n Hj Hty Hge Hn Hin.
      destruct Hhd as (_ & _ & _ & Hoff).
      rewrite (Hoff j Hj Hty).
      unfold wrap64. rewrite Z.mod_small by lia.
      replace (get core (ph_of core j) p_offset + (tlen - 4096))
        with (get core (ph_of core j) p_offset + size text
              - (get core (ph_of core (k + 1)) p_offset - get core (ph_of core k) p_offset))
        by (unfold size; lia).
      rewrite slice_merged by (rewrite ?Ps; lia).
      apply (slice_skipn_eq _ _ _ _ (Z.to_nat (tabend_of core))); [lia|exact Pt]. }
  destruct Hrun as [E|E].
  - rewrite Ex in E. injection E as E. apply (Hgen m junk Pm). symmetry. exact E.
  - rewrite Im in E. injection E as E. apply (Hgen m' junk' Pm'). symmetry. exact E.
Qed.

End MergeSegments.

(** ** Further properties: NoteParse and Snapshot *)

Section NtFileFacts.
Import Mem Elf Notes NtFile.

Lemma length_pack_range (f : nt_file_entry) : length (pack_range f) = 24%nat.
Proof. unfold pack_range. rewrite !length_app, !length_le_split. reflexivity. Qed.

Lemma length_pack_ranges (fs : list nt_file_entry) :
  length (flat_map pack_range fs) = (24 * length fs)%nat.
Proof.
  induction fs as [|f fs IH]; [reflexivity|].
  cbn [flat_map]. rewrite length_app, length_pack_range, IH. cbn [length]. lia.
Qed.

(** A [long] of the packed bytes [b] at [o], wherever they are in the image. *)
Lemma load_packed (a b c : list byte) (o v : Z) (b1 b2 : list byte) :
  b = b1 ++ le_split 8 v ++ b2 -> o = size b1 -> 0 <= v < 2 ^ 64 ->
  load 8 (a ++ b ++ c) (size a + o) = v.
Proof.
  intros -> -> Hv.
  replace (a ++ (b1 ++ le_split 8 v ++ b2) ++ c)
    with ((a ++ b1) ++ le_split 8 v ++ (b2 ++ c)) by (rewrite <- !app_assoc; reflexivity).
  replace (size a + size b1) with (size (a ++ b1))
    by (unfold size; rewrite length_app; lia).
  rewrite load_le_split. apply Z.mod_small. exact Hv.
Qed.

(** The [i]-th range of the packed ranges. *)
Lemma nt_range_packed (fs : list nt_file_entry) : forall (a c : list byte) (i : nat) f,
  Forall packable fs -> fs !! i = Some f ->
  let m := a ++ flat_map pack_range fs ++ c in
  let fmp := size a + 24 * Z.of_nat i in
  load 8 m fmp = nf_addr f /\ load 8 m (fmp + 8) = nf_addr f + nf_size f /\
  load 8 m (fmp + 16) = nf_pgoff f.
Proof.
  induction fs as [|g fs IH]; intros a c i f Hp Hi; [discriminate Hi|].
  apply Forall_cons in Hp. destruct Hp as [Hg Hp].
  destruct i as [|i].
  - injection Hi as <-. cbv zeta. cbn [flat_map].
    destruct Hg as (A & B & C & D & _).
    replace (size a + 24 * Z.of_nat 0) with (size a + 0) by lia.
    rewrite <- !app_assoc.
    split; [|split].
    + apply (load_packed a (pack_range g) _ 0 _ [] (le_split 8 (nf_addr g + nf_size g)
               ++ le_split 8 (nf_pgoff g))); [reflexivity|reflexivity|lia].
    + replace (size a + 0 + 8) with (size a + 8) by lia.
      apply (load_packed a (pack_range g) _ 8 _ (le_split 8 (nf_addr g))
               (le_split 8 (nf_pgoff g))); [reflexivity| |lia].
      unfold size. rewrite length_le_split. reflexivity.
    + replace (size a + 0 + 16) with (size a + 16) by lia.
      apply (load_packed a (pack_range g) _ 16 _
               (le_split 8 (nf_addr g) ++ le_split 8 (nf_addr g + nf_size g)) []).
      * unfold pack_range. rewrite <- !app_assoc, app_nil_r. reflexivity.
      * unfold size. rewrite length_app, !length_le_split. reflexivity.
      * lia.
  - cbn [lookup list_lookup] in Hi. cbv zeta. cbn [flat_map].
    specialize (IH (a ++ pack_range g) c i f Hp Hi). cbv zeta in IH.
    rewrite <- !app_assoc in IH. rewrite <- !app_assoc.
    replace (size (a ++ pack_range g) + 24 * Z.of_nat i)
      with (size a + 24 * Z.of_nat (S i)) in IH
      by (unfold size; rewrite length_app, length_pack_range; lia).
    exact IH.
Qed.

(** The names of the packed names. *)
Lemma nt_paths_packed (fs : list nt_file_entry) : forall (a c : list byte),
  Forall packable fs ->
  nt_paths (length fs) (a ++ flat_map pack_name fs ++ c) (size a) = List.map nf_path fs.
Proof.
  induction fs as [|g fs IH]; intros a c Hp; [reflexivity|].
  apply Forall_cons in Hp. destruct Hp as [Hg Hp].
  cbn [length nt_paths flat_map List.map]. cbv zeta.
  assert (Hs : cstring_at (a ++ (pack_name g ++ flat_map pack_name fs) ++ c) (size a)
               = nf_path g).
  { unfold cstring_at, size. rewrite Nat2Z.id, drop_app_length.
    unfold pack_name at 1. rewrite <- !app_assoc. cbn [app].
    apply cstring_terminated. destruct Hg as (_ & _ & _ & _ & Hn). exact Hn. }
  rewrite Hs. f_equal.
  specialize (IH (a ++ pack_name g) c Hp).
  rewrite <- !app_assoc in IH. rewrite <- !app_assoc.
  replace (size (a ++ pack_name g)) with (size a + Z.of_nat (length (nf_path g)) + 1) in IH
    by (unfold size, pack_name; rewrite !length_app; cbn [length]; lia).
  exact IH.
Qed.

Lemma map_seq_eq {A : Type} (f : nat -> A) (l : list A) :
  (forall i x, l !! i = Some x -> f i = x) ->
  List.map f (seq 0 (length l)) = l.
Proof.
  intros Hf. apply list_eq. intros i.
  rewrite list_lookup_fmap.
  destruct (l !! i) as [x|] eqn:E.
  - rewrite lookup_seq_lt by (apply lookup_lt_Some in E; exact E).
    cbn. f_equal. apply Hf. exact E.
  - rewrite lookup_seq_ge by (apply lookup_ge_None in E; lia). reflexivity.
Qed.

(** X4.  [parse_nt_files] undoes the kernel's packing.  On a note that holds
    the count, the page size, the ranges and the names of the mapped
    files [fs], wherever it stands in the mapping and whatever follows it,
    the function returns the count, the page size and the files
    themselves: the address, the size (end minus start), the page offset
    and the name of each, in order. *)
Theorem parse_nt_files_unpacks (pre post : list byte) (page : Z) (fs : list nt_file_entry) :
  0 <= page < 2 ^ 64 -> Z.of_nat (length fs) < 2 ^ 63 -> Forall packable fs ->
  parse_nt_files (pre ++ pack page fs ++ post) (size pre) =
  {| fcount := Z.of_nat (length fs); page_size := page; files := fs |}.
Proof.
  intros Hpage Hn Hp. unfold parse_nt_files. cbv zeta.
  set (m := pre ++ pack page fs ++ post).
  assert (Hc : load 8 m (size pre) = Z.of_nat (length fs)).
  { replace (size pre) with (size pre + 0) by lia.
    apply (load_packed pre (pack page fs) post 0 _ []
             (le_split 8 page ++ flat_map pack_range fs ++ flat_map pack_name fs));
      [reflexivity|reflexivity|lia]. }
  assert (Hs : signed64 (load 8 m (size pre)) = Z.of_nat (length fs)).
  { rewrite Hc. unfold signed64. destruct (Z.of_nat (length fs) <? 2 ^ 63) eqn:E;
      [reflexivity|apply Z.ltb_ge in E; lia]. }
  assert (Hm : m = pre ++ le_split 8 (Z.of_nat (length fs)) ++ le_split 8 page
                   ++ flat_map pack_range fs ++ flat_map pack_name fs ++ post).
  { unfold m, pack. rewrite <- !app_assoc. reflexivity. }
  rewrite Hs, Nat2Z.id. f_equal.
  - apply (load_packed pre (pack page fs) post sizeof_long _
             (le_split 8 (Z.of_nat (length fs)))
             (flat_map pack_range fs ++ flat_map pack_name fs)); [reflexivity| |exact Hpage].
    unfold size. rewrite length_le_split. reflexivity.
  - assert (Hpaths : nt_paths (length fs) m
                       (size pre + (2 + 3 * Z.of_nat (length fs)) * sizeof_long)
                     = List.map nf_path fs).
    { pose proof (nt_paths_packed fs
                    (pre ++ le_split 8 (Z.of_nat (length fs)) ++ le_split 8 page
                     ++ flat_map pack_range fs) post Hp) as P.
      rewrite <- !app_assoc in P.
      replace (size (pre ++ le_split 8 (Z.of_nat (length fs)) ++ le_split 8 page
                     ++ flat_map pack_range fs))
        with (size pre + (2 + 3 * Z.of_nat (length fs)) * sizeof_long) in P.
      - rewrite Hm. exact P.
      - unfold size, sizeof_long.
        rewrite !length_app, !length_le_split, length_pack_ranges. lia. }
    rewrite Hpaths.
    apply map_seq_eq. intros i f Hi.
    pose proof (nt_range_packed fs
                  (pre ++ le_split 8 (Z.of_nat (length fs)) ++ le_split 8 page)
                  (flat_map pack_name fs ++ post) i f Hp Hi) as R.
    cbv zeta in R. rewrite <- !app_assoc in R.
    replace (size (pre ++ le_split 8 (Z.of_nat (length fs)) ++ le_split 8 page)
             + 24 * Z.of_nat i)
      with (size pre + 2 * sizeof_long + 3 * sizeof_long * Z.of_nat i) in R
      by (unfold size, sizeof_long; rewrite !length_app, !length_le_split; lia).
    destruct R as (R1 & R2 & R3).
    unfold nt_range. cbv zeta.
    rewrite <- Hm in R1, R2, R3.
    rewrite R1, R2, R3.
    destruct (Forall_lookup_1 _ _ _ _ Hp Hi) as (A & B & C & D & _).
    replace (nf_addr f + nf_size f - nf_addr f) with (nf_size f) by lia.
    unfold wrap64. rewrite Z.mod_small by lia.
    assert (Hnth : nth i (List.map nf_path fs) [] = nf_path f).
    { change [] with (nf_path {| nf_addr := 0; nf_size := 0; nf_pgoff := 0; nf_path := [] |}).
      rewrite map_nth. f_equal. apply nth_lookup_Some. exact Hi. }
    rewrite Hnth. destruct f. reflexivity.
Qed.

End NtFileFacts.

Section ThreadNotes.
Import Mem Elf Notes.
Context {H : Headers}.

(** The threads of a descriptor are numbered from 0 without a gap, the
    first is the one in [prstatus], and no [prstatus] is longer than the
    struct. *)
Lemma note_switch_threads (m : image) (notes : Z) (nd : notedesc_t) :
  (0 <= thread_count nd /\
   (forall i, is_Some (thread_core_info nd !! i) <-> 0 <= i < thread_count nd) /\
   prstatus nd = thread_core_info nd !! 0 /\
   (forall i q, thread_core_info nd !! i = Some q ->
      Z.of_nat (length q) <= sizeof_elf_prstatus)) ->
  let nd' := note_switch m notes nd in
  0 <= thread_count nd' /\
  (forall i, is_Some (thread_core_info nd' !! i) <-> 0 <= i < thread_count nd') /\
  prstatus nd' = thread_core_info nd' !! 0 /\
  (forall i q, thread_core_info nd' !! i = Some q ->
     Z.of_nat (length q) <= sizeof_elf_prstatus).
Proof.
  intros (H0 & Hk & Hp & Hl). unfold note_switch. cbv zeta.
  pose proof (get_range m notes n_descsz) as Hd.
  destruct (get m notes n_type =? NT_PRSTATUS).
  - destruct (get m notes n_descsz =? sizeof_elf_prstatus) eqn:Es; cbn [negb].
    2:{ split; [exact H0|]. split; [exact Hk|]. split; [exact Hp|exact Hl]. }
    apply Z.eqb_eq in Es.
    cbn [thread_count prstatus thread_core_info].
    split; [lia|]. split; [|split].
    + intros i. destruct (Z.eq_dec i (thread_count nd)) as [->|Hne].
      * rewrite lookup_insert_eq. split; [lia|]. intros _. eexists. reflexivity.
      * rewrite lookup_insert_ne by congruence. rewrite Hk. lia.
    + destruct (thread_count nd =? 0) eqn:E0.
      * apply Z.eqb_eq in E0. rewrite E0, lookup_insert_eq. reflexivity.
      * apply Z.eqb_neq in E0. rewrite lookup_insert_ne by congruence. exact Hp.
    + intros i q. destruct (Z.eq_dec i (thread_count nd)) as [->|Hne].
      * rewrite lookup_insert_eq. intros [= <-].
        pose proof (length_slice_le m (ELFNOTE_DESC m notes) (get m notes n_descsz)). lia.
      * rewrite lookup_insert_ne by congruence. apply Hl.
  - repeat match goal with
           | |- context [if ?b then _ else _] => destruct b; cbn [negb]
           end; cbn [thread_count prstatus thread_core_info];
      (split; [exact H0|]); (split; [exact Hk|]); (split; [exact Hp|exact Hl]).
Qed.

Lemma notes_loop_threads (m : image) (noteSize : Z) (fuel : nat) :
  forall (c : cursor) (nd : notedesc_t),
  (0 <= thread_count nd /\
   (forall i, is_Some (thread_core_info nd !! i) <-> 0 <= i < thread_count nd) /\
   prstatus nd = thread_core_info nd !! 0 /\
   (forall i q, thread_core_info nd !! i = Some q ->
      Z.of_nat (length q) <= sizeof_elf_prstatus)) ->
  let nd' := notes_loop fuel m noteSize c nd in
  0 <= thread_count nd' /\
  (forall i, is_Some (thread_core_info nd' !! i) <-> 0 <= i < thread_count nd') /\
  prstatus nd' = thread_core_info nd' !! 0 /\
  (forall i q, thread_core_info nd' !! i = Some q ->
     Z.of_nat (length q) <= sizeof_elf_prstatus).
Proof.
  induction fuel as [|fuel IH]; intros c nd Hinv; cbn [notes_loop]; [exact Hinv|].
  destruct (cur_i c <? noteSize); [|exact Hinv].
  apply IH. apply note_switch_threads. exact Hinv.
Qed.

End ThreadNotes.

Section ThreadPayload.
Import Mem Elf Notes Handle Sections.
Context {H : Headers} {L : Layout}.

Lemma thread_prstatus_keys (nd : notedesc_t) (n : nat) : forall (i : Z),
  (forall j, i <= j < i + Z.of_nat n -> is_Some (thread_core_info nd !! j)) ->
  is_Some (thread_prstatus n i nd).
Proof.
  induction n as [|n IH]; intros i Hq; [eexists; reflexivity|].
  destruct (Hq i ltac:(lia)) as (q & Hqi).
  destruct (IH (i + 1)) as (rest & Hr); [intros j Hj; apply Hq; lia|].
  simpl thread_prstatus. unfold image. rewrite Hqi, Hr. eexists. reflexivity.
Qed.

(** X5.  The threads that [parse_notes_area] collects.  Whatever the note
    segment holds, the threads of the descriptor are numbered from 0 to
    [thread_count - 1] without a gap, [prstatus] is the entry of thread 0,
    and no entry is longer than [struct elf_prstatus].  So the writes of
    the [prstatus] structs in [core2ecfs] find a buffer for every thread,
    and the first of them fails exactly when the segment had no
    NT_PRSTATUS note of the right size. *)
Theorem parsed_threads_are_complete (m : image) (nhdr noteSize : Z)
    (e : elfdesc_t) (md : memdesc_t) (fdinfo : option (list byte)) (arglist : list byte)
    (personality : Z) :
  let nd := parse_notes_area m nhdr noteSize in
  0 <= thread_count nd /\
  (forall i, is_Some (thread_core_info nd !! i) <-> 0 <= i < thread_count nd) /\
  prstatus nd = thread_core_info nd !! 0 /\
  (forall i q, thread_core_info nd !! i = Some q ->
     Z.of_nat (length q) <= sizeof_elf_prstatus) /\
  (payload e md nd fdinfo arglist personality = None <-> thread_count nd = 0).
Proof.
  intros nd.
  assert (Hinv : 0 <= thread_count nd /\
    (forall i, is_Some (thread_core_info nd !! i) <-> 0 <= i < thread_count nd) /\
    prstatus nd = thread_core_info nd !! 0 /\
    (forall i q, thread_core_info nd !! i = Some q ->
       Z.of_nat (length q) <= sizeof_elf_prstatus)).
  { apply notes_loop_threads. cbn [notedesc_zero thread_count prstatus thread_core_info].
    split; [lia|]. split; [|split].
    - intros i. rewrite lookup_empty. split; [intros [? [=]]|lia].
    - rewrite lookup_empty. reflexivity.
    - intros i q. rewrite lookup_empty. discriminate. }
  destruct Hinv as (H0 & Hk & Hp & Hl).
  split; [exact H0|]. split; [exact Hk|]. split; [exact Hp|]. split; [exact Hl|].
  unfold payload.
  destruct (thread_prstatus_keys nd (Z.to_nat (thread_count nd - 1)) 1) as (th & Hth).
  { intros j Hj. apply Hk. lia. }
  rewrite Hth, Hp.
  destruct (thread_core_info nd !! 0) as [q|] eqn:E0.
  - split; [discriminate|]. intros Hz.
    assert (is_Some (thread_core_info nd !! 0)) as Hs by (eexists; exact E0).
    apply Hk in Hs. lia.
  - split; [|reflexivity]. intros _.
    destruct (Z.eq_dec (thread_count nd) 0) as [Hz|Hz]; [exact Hz|].
    assert (is_Some (thread_core_info nd !! 0)) as [q Hq] by (apply Hk; lia).
    rewrite E0 in Hq. discriminate Hq.
Qed.

End ThreadPayload.

Section SocketTables.
Import Mem CStr FdLinks.
Context {H : Headers}.

Lemma scan_table_app (tag ino : Z) (a b : list net_line) (f : fd_info_t) :
  scan_table tag ino (a ++ b) f = scan_table tag ino b (scan_table tag ino a f).
Proof. unfold scan_table. apply fold_left_app. Qed.

Lemma scan_table_fd_path (tag ino : Z) (lines : list net_line) : forall (f : fd_info_t),
  fd (scan_table tag ino lines f) = fd f /\ path (scan_table tag ino lines f) = path f.
Proof.
  induction lines as [|l r IH]; intros f; [split; reflexivity|].
  cbn [scan_table fold_left]. 
  change (fold_left _ r ?x) with (scan_table tag ino r x).
  destruct (inode l =? ino).
  - destruct (IH {| fd := fd f; path := path f; net := tag;
            socket := {| src_addr := local_addr l; dst_addr := rem_addr l;
                         src_port := local_port l; dst_port := rem_port l |} |}) as [A B].
    split; assumption.
  - apply IH.
Qed.

(** A scan in terms of the last line with the inode. *)
Lemma scan_table_last (tag ino : Z) (lines : list net_line) (f : fd_info_t) :
  scan_table tag ino lines f =
  match List.find (fun l => inode l =? ino) (rev lines) with
  | Some l => {| fd := fd f; path := path f; net := tag;
                 socket := {| src_addr := local_addr l; dst_addr := rem_addr l;
                              src_port := local_port l; dst_port := rem_port l |} |}
  | None => f
  end.
Proof.
  induction lines as [|l r IH] using rev_ind; [reflexivity|].
  rewrite scan_table_app, rev_app_distr. cbn [rev app List.find scan_table fold_left].
  destruct (inode l =? ino).
  - destruct (scan_table_fd_path tag ino r f) as [A B].
    change (fold_left _ r f) with (scan_table tag ino r f). rewrite A, B. reflexivity.
  - exact IH.
Qed.

(** X6.  What [fill_sock_info] leaves in the entry.  The last line of
    /proc/net/udp with the inode decides; if there is none, the last line
    of /proc/net/tcp with the inode; if there is none either, the entry is
    left as it was, with whatever it held. *)
Theorem fill_sock_info_last_match (f : fd_info_t) (ino : Z) (tcp udp : list net_line) :
  fill_sock_info f ino tcp udp =
  match List.find (fun l => inode l =? ino) (rev udp),
        List.find (fun l => inode l =? ino) (rev tcp) with
  | Some l, _ =>
      {| fd := fd f; path := path f; net := NET_UDP;
         socket := {| src_addr := local_addr l; dst_addr := rem_addr l;
                      src_port := local_port l; dst_port := rem_port l |} |}
  | None, Some l =>
      {| fd := fd f; path := path f; net := NET_TCP;
         socket := {| src_addr := local_addr l; dst_addr := rem_addr l;
                      src_port := local_port l; dst_port := rem_port l |} |}
  | None, None => f
  end.
Proof.
  unfold fill_sock_info. rewrite (scan_table_last NET_UDP), (scan_table_last NET_TCP).
  destruct (List.find _ (rev udp)); destruct (List.find _ (rev tcp)); reflexivity.
Qed.

(** The entries of the directory that do not start with a dot. *)
Lemma fd_links_loop_entries (tcp udp : list net_line) (dir : list (list byte * list byte)) :
  forall (s s' : state),
  fd_links_loop tcp udp dir s = Some s' ->
  List.map (fun en => (fd en, path en)) (entries s') =
  List.map (fun en => (fd en, path en)) (entries s)
  ++ List.map (fun ent => (atoi (fst ent), snd ent))
       (List.filter (fun ent => match fst ent with
                                | b :: _ => negb (Byte.eqb b (chr "."))
                                | [] => true
                                end) dir) /\
  (length (entries s) <= 256 -> length (entries s') <= 256)%nat.
Proof.
  induction dir as [|[d_name target] dir IH]; intros s s' E; cbn [fd_links_loop] in E.
  - injection E as <-. cbn [List.filter List.map]. rewrite app_nil_r. split; [reflexivity|lia].
  - destruct (fd_link_step tcp udp (d_name, target) s) as [s1|] eqn:Es; [|discriminate E].
    destruct (IH _ _ E) as [IH1 IH2]. rewrite IH1. clear IH1.
    unfold fd_link_step in Es. cbn [List.filter fst snd].
    destruct (match d_name with b :: _ => Byte.eqb b (chr ".") | [] => false end) eqn:Edot.
    + injection Es as <-.
      destruct d_name as [|b r]; [discriminate Edot|]. rewrite Edot. cbn [negb].
      split; [reflexivity|exact IH2].
    + assert (Hkeep : (match d_name with b :: _ => negb (Byte.eqb b (chr ".")) | [] => true end)
                      = true).
      { destruct d_name as [|b r]; [reflexivity|]. rewrite Edot. reflexivity. }
      rewrite Hkeep. cbn [List.map fst snd].
      destruct (256 <=? length (entries s))%nat eqn:Ecap; [discriminate Es|].
      apply Nat.leb_gt in Ecap.
      destruct (has target "socket").
      * destruct (strchr target (chr ":")) as [c|]; [|discriminate Es].
        injection Es as <-. cbn [entries] in *. rewrite List.map_app, <- app_assoc.
        cbn [List.map fd path app]. split; [reflexivity|].
        intros _. apply IH2. rewrite length_app. cbn [length]. lia.
      * injection Es as <-. cbn [entries] in *. rewrite List.map_app, <- app_assoc.
        cbn [List.map fd path app]. split; [reflexivity|].
        intros _. apply IH2. rewrite length_app. cbn [length]. lia.
Qed.

(** X7.  The descriptor table.  When [get_fd_links] returns, the table has one
    entry for every name in /proc/pid/fd that does not start with a dot,
    in the order of the directory, with the number [atoi] reads from the
    name and the target of the link; and there are at most 256 of them, the
    size of the array. *)
Theorem get_fd_links_lists_directory (tcp udp : list net_line)
    (dir : list (list byte * list byte)) (tmp0 : fd_info_t) (es : list fd_info_t) :
  get_fd_links tcp udp dir tmp0 = Some es ->
  List.map (fun en => (fd en, path en)) es =
  List.map (fun ent => (atoi (fst ent), snd ent))
    (List.filter (fun ent => match fst ent with
                             | b :: _ => negb (Byte.eqb b (chr "."))
                             | [] => true
                             end) dir) /\
  (length es <= 256)%nat.
Proof.
  unfold get_fd_links. intros E.
  destruct (fd_links_loop tcp udp dir {| fdinfo_tmp := tmp0; entries := [] |}) as [s'|] eqn:El;
    [|discriminate E].
  injection E as <-.
  destruct (fd_links_loop_entries tcp udp dir _ _ El) as [A B].
  split; [exact A|]. apply B. cbn [entries length]. lia.
Qed.

End SocketTables.

Section MapsRanges.
Import Mem CStr ProcMaps.

(** The updates that leave the address range of an entry alone. *)
Lemma apply_update_range (u : update) (en : mappings_t) :
  (forall v, u <> SetBase v) -> (forall v, u <> SetSize v) ->
  base (apply_update u en) = base en /\ size (apply_update u en) = size en.
Proof.
  intros Hb Hs. destruct en. destruct u; cbn; try (split; reflexivity).
  - exfalso. apply (Hb v). reflexivity.
  - exfalso. apply (Hs v). reflexivity.
Qed.

Lemma assigns_range (us : list update) : forall (ms ms' : list mappings_t) (i : nat),
  Forall (fun u => (forall v, u <> SetBase v) /\ (forall v, u <> SetSize v)) us ->
  assigns ms i us = Some ms' ->
  length ms' = length ms /\
  forall k, option_map base (ms' !! k) = option_map base (ms !! k) /\
            option_map size (ms' !! k) = option_map size (ms !! k).
Proof.
  induction us as [|u us IH]; intros ms ms' i Hus E; cbn [assigns] in E.
  - injection E as <-. split; [reflexivity|]. intros k. split; reflexivity.
  - unfold assign in E. destruct (ms !! i) as [en|] eqn:Ei; [|discriminate E].
    apply Forall_cons in Hus. destruct Hus as [[Hb Hs] Hus].
    destruct (IH _ _ _ Hus E) as [IH1 IH2]. rewrite IH1, length_insert.
    split; [reflexivity|]. intros k. destruct (IH2 k) as [A B]. rewrite A, B.
    destruct (Nat.eq_dec k i) as [->|Hne].
    + rewrite list_lookup_insert_eq by (apply lookup_lt_Some in Ei; exact Ei).
      rewrite Ei. cbn [option_map].
      destruct (apply_update_range u en Hb Hs) as [-> ->]. split; reflexivity.
    + rewrite list_lookup_insert_ne by congruence. split; reflexivity.
Qed.

Lemma classify_updates (tmp : list byte) (chp : option nat) (path : list byte) (lc : nat)
    (q0 : list byte) (i : nat) (us : list update) (q1 : list byte) :
  classify tmp chp path lc q0 = Some (i, us, q1) ->
  Forall (fun u => (forall v, u <> SetBase v) /\ (forall v, u <> SetSize v)) us.
Proof.
  unfold classify. intros E.
  repeat match type of E with
         | (if ?b then _ else _) = _ => destruct b
         | match ?x with _ => _ end = _ => destruct x
         | Some _ = Some _ => injection E as <- <- <-
         | None = Some _ => discriminate E
         end;
    repeat match goal with
           | |- context [if ?b then _ else _] => destruct b
           end; cbn [app];
    repeat constructor; intros v; discriminate.
Qed.

Lemma permissions_updates (tmp : list byte) :
  Forall (fun u => (forall v, u <> SetBase v) /\ (forall v, u <> SetSize v))
         (permissions tmp).
Proof.
  unfold permissions.
  repeat match goal with
         | |- context [if ?b then _ else _] => destruct b
         end; repeat constructor; intros v; discriminate.
Qed.

(** One line: the entry of the line gets its range, the other entries
    keep theirs. *)
Lemma get_maps_line_range (path : list byte) (lc : nat) (buf : list byte) (s s' : state) :
  get_maps_line path lc buf s = Some s' ->
  length (maps s') = length (maps s) /\ (lc < length (maps s))%nat /\
  (exists dash, strchr buf (chr "-") = Some dash /\
     option_map base (maps s' !! lc) = Some (strtoul16 (firstn dash buf)) /\
     option_map size (maps s' !! lc) =
       Some (wrap64 (strtoul16 (skipn (S dash) buf) - strtoul16 (firstn dash buf)))) /\
  (forall k, k <> lc ->
     option_map base (maps s' !! k) = option_map base (maps s !! k) /\
     option_map size (maps s' !! k) = option_map size (maps s !! k)).
Proof.
  unfold get_maps_line. intros E.
  destruct (strchr buf (chr "-")) as [dash|]; [|discriminate E].
  set (lo := strtoul16 (firstn dash buf)) in *.
  set (hi := strtoul16 (skipn (S dash) buf)) in *.
  destruct (match strrchr buf (chr "/") with
            | Some c => match strchr (skipn c buf) (chr "010") with
                        | Some n => Some (firstn (c + n) buf)
                        | None => None
                        end
            | None => Some buf
            end) as [tmp|]; [|discriminate E].
  destruct (assigns (maps s) lc [SetElfmap0; SetBase lo; SetSize (wrap64 (hi - lo))])
    as [m1|] eqn:E1; [|discriminate E].
  destruct (classify tmp (strrchr buf (chr "/")) path lc (q s)) as [[[i us] q1]|] eqn:Ec;
    [|discriminate E].
  destruct (assigns m1 i us) as [m2|] eqn:E2; [|discriminate E].
  destruct (assigns m2 lc (permissions tmp)) as [m3|] eqn:E3; [|discriminate E].
  injection E as <-. cbn [maps].
  destruct (assigns_range _ _ _ _ (classify_updates _ _ _ _ _ _ _ _ Ec) E2) as [L2 R2].
  destruct (assigns_range _ _ _ _ (permissions_updates tmp) E3) as [L3 R3].
  cbn [assigns] in E1. unfold assign in E1.
  destruct (maps s !! lc) as [e0|] eqn:E0; [|discriminate E1].
  pose proof (lookup_lt_Some _ _ _ E0) as Hlt.
  rewrite list_lookup_insert_eq in E1 by exact Hlt.
  rewrite list_lookup_insert_eq in E1 by (rewrite length_insert; exact Hlt).
  injection E1 as <-.
  split; [rewrite L3, L2, !length_insert; reflexivity|].
  split; [exact Hlt|]. split.
  - exists dash. split; [reflexivity|].
    destruct (R3 lc) as [-> ->]. destruct (R2 lc) as [-> ->].
    rewrite list_lookup_insert_eq by (rewrite !length_insert; exact Hlt).
    destruct e0. cbn. split; reflexivity.
  - intros k Hk. destruct (R3 k) as [-> ->]. destruct (R2 k) as [-> ->].
    rewrite !list_lookup_insert_ne by congruence. split; reflexivity.
Qed.

Lemma get_maps_from_range (path : list byte) (lines : list (list byte)) :
  forall (lc : nat) (s s' : state),
  get_maps_from path lc lines s = Some s' ->
  length (maps s') = length (maps s) /\
  (lc + length lines <= length (maps s) \/ lines = [])%nat /\
  (forall k buf, lines !! k = Some buf ->
     exists dash, strchr buf (chr "-") = Some dash /\
       option_map base (maps s' !! (lc + k)%nat) = Some (strtoul16 (firstn dash buf)) /\
       option_map size (maps s' !! (lc + k)%nat) =
         Some (wrap64 (strtoul16 (skipn (S dash) buf) - strtoul16 (firstn dash buf)))) /\
  (forall k, (k < lc \/ lc + length lines <= k)%nat ->
     option_map base (maps s' !! k) = option_map base (maps s !! k) /\
     option_map size (maps s' !! k) = option_map size (maps s !! k)).
Proof.
  induction lines as [|buf lines IH]; intros lc s s' E; cbn [get_maps_from] in E.
  - injection E as <-. split; [reflexivity|]. split; [right; reflexivity|].
    split; [intros k b Hk; discriminate Hk|]. intros k _. split; reflexivity.
  - destruct (get_maps_line path lc buf s) as [s1|] eqn:E1; [|discriminate E].
    destruct (get_maps_line_range _ _ _ _ _ E1) as (L1 & Hlt & (dash & Hd & Hb & Hs) & O1).
    destruct (IH _ _ _ E) as (L2 & Hn & R2 & O2).
    split; [rewrite L2, L1; reflexivity|].
    split.
    { left. cbn [length]. destruct Hn as [Hn| ->]; [rewrite L1 in Hn|cbn [length]]; lia. }
    split.
    + intros [|k] b Hk.
      * cbn in Hk. injection Hk as <-. exists dash. split; [exact Hd|].
        rewrite Nat.add_0_r. destruct (O2 lc ltac:(lia)) as [-> ->]. split; assumption.
      * cbn in Hk. replace (lc + S k)%nat with (S lc + k)%nat by lia. apply (R2 k b Hk).
    + intros k Hk. cbn [length] in Hk.
      destruct (O2 k ltac:(lia)) as [-> ->]. apply O1. lia.
Qed.

(** X8.  The address ranges of the maps file.  When [get_maps] returns, the
    array has the length it had, the file had no more lines than the
    array has entries, and entry [k] holds the range of line [k]: its base
    is the hexadecimal number in front of the first dash, its size the
    number behind the dash minus the base, in 64 bits.  The entries behind
    the last line keep their range. *)
Theorem get_maps_ranges (path : list byte) (lines : list (list byte))
    (maps0 : list mappings_t) (q0 : list byte) (ms : list mappings_t) :
  get_maps path lines maps0 q0 = Some ms ->
  length ms = length maps0 /\
  (length lines <= length maps0)%nat /\
  (forall k buf, lines !! k = Some buf ->
     exists dash en, strchr buf (chr "-") = Some dash /\ ms !! k = Some en /\
       base en = strtoul16 (firstn dash buf) /\
       size en = wrap64 (strtoul16 (skipn (S dash) buf) - strtoul16 (firstn dash buf))) /\
  (forall k, (length lines <= k)%nat ->
     option_map base (ms !! k) = option_map base (maps0 !! k) /\
     option_map size (ms !! k) = option_map size (maps0 !! k)).
Proof.
  unfold get_maps. intros E.
  destruct (get_maps_from path 0 lines {| maps := maps0; q := q0 |}) as [s'|] eqn:El;
    [|discriminate E].
  injection E as <-.
  destruct (get_maps_from_range _ _ _ _ _ El) as (L & Hn & R & O). cbn [maps] in *.
  split; [exact L|].
  split; [destruct Hn as [Hn| ->]; cbn [length Nat.add] in *; lia|]. split.
  - intros k buf Hk. destruct (R k buf Hk) as (dash & Hd & Hb & Hs). cbn [Nat.add] in Hb, Hs.
    destruct (maps s' !! k) as [en|]; [|discriminate Hb].
    exists dash, en. cbn in Hb, Hs. injection Hb as Hb. injection Hs as Hs.
    split; [exact Hd|]. split; [reflexivity|]. split; assumption.
  - intros k Hk. apply O. right. cbn [Nat.add]. exact Hk.
Qed.

End MapsRanges.

(** ** Further properties: the offsets of the core *)

Section XrefFacts.
Import Mem Elf Handle Xref.

(** The fields that the walk reads or that the properties are about. *)
Local Abbreviation watched e :=
  (mem e, textVaddr e, dataVaddr e, textOffset e, textSize e, dataOffset e,
   noteOffset e, noteVaddr e).

Lemma set_note_watched (e : elfdesc_t) (a b : Z) :
  watched (e{{ noteOffset := a; noteVaddr := b }}) =
  (mem e, textVaddr e, dataVaddr e, textOffset e, textSize e, dataOffset e, a, b).
Proof. destruct e. reflexivity. Qed.

Lemma set_interp_watched (e : elfdesc_t) (a : Z) :
  watched (e{{ interpOffset := a }}) = watched e.
Proof. destruct e. reflexivity. Qed.

Lemma set_dyn_watched (e : elfdesc_t) (a : Z) :
  watched (e{{ dynOffset := a }}) = watched e.
Proof. destruct e. reflexivity. Qed.

Lemma set_ehframe_watched (e : elfdesc_t) (a : Z) :
  watched (e{{ ehframeOffset := a }}) = watched e.
Proof. destruct e. reflexivity. Qed.

Lemma set_text_watched (e : elfdesc_t) (a b : Z) :
  watched (e{{ textOffset := a; textSize := b }}) =
  (mem e, textVaddr e, dataVaddr e, a, b, dataOffset e, noteOffset e, noteVaddr e).
Proof. destruct e. reflexivity. Qed.

Lemma set_data_watched (e : elfdesc_t) (a : Z) :
  watched (e{{ dataOffset := a }}) =
  (mem e, textVaddr e, dataVaddr e, textOffset e, textSize e, a, noteOffset e, noteVaddr e).
Proof. destruct e. reflexivity. Qed.

Lemma set_bss_watched (e : elfdesc_t) (a : Z) :
  watched (e{{ bssVaddr := a }}) = watched e.
Proof. destruct e. reflexivity. Qed.

Lemma set_bssoff_watched (e : elfdesc_t) (a : Z) :
  watched (e{{ bssOffset := a }}) = watched e.
Proof. destruct e. reflexivity. Qed.

(** One header: what it does to the watched fields. *)
Lemma xref_step_watched (hacks : hacks_t) (ph : Z) (e : elfdesc_t) :
  watched (xref_step hacks ph e) =
  (mem e, textVaddr e, dataVaddr e,
   if textVaddr e =? get (mem e) ph p_vaddr then get (mem e) ph p_offset else textOffset e,
   if textVaddr e =? get (mem e) ph p_vaddr then get (mem e) ph p_memsz else textSize e,
   if dataVaddr e =? get (mem e) ph p_vaddr then get (mem e) ph p_offset else dataOffset e,
   if get (mem e) ph p_type =? PT_NOTE then get (mem e) ph p_offset else noteOffset e,
   if get (mem e) ph p_type =? PT_NOTE then get (mem e) ph p_vaddr else noteVaddr e).
Proof.
  set (r := xref_step hacks ph e).
  assert (Hr : r = xref_step hacks ph e) by reflexivity. clearbody r.
  cbv delta [xref_step] in Hr. cbv beta in Hr.
  repeat match type of Hr with
         | _ = (let x := ?v in @?f x) =>
             let y := fresh x in
             pose (y := v);
             let t := eval cbv beta in (f y) in
             change (r = t) in Hr
         end.
  assert (F0 : watched e0 =
            (mem e, textVaddr e, dataVaddr e, textOffset e, textSize e, dataOffset e,
             (if get m ph p_type =? PT_NOTE then off else noteOffset e),
             (if get m ph p_type =? PT_NOTE then va else noteVaddr e))).
  { unfold e0. destruct (get m ph p_type =? PT_NOTE); [apply set_note_watched|reflexivity]. }
  clearbody e0.
  assert (F1 : watched e1 = watched e0).
  { unfold e1. destruct (covers m ph (interpVaddr e0)); [apply set_interp_watched|reflexivity]. }
  clearbody e1.
  assert (F2 : watched e2 = watched e1).
  { unfold e2. destruct (covers m ph (dynVaddr e1)); [apply set_dyn_watched|reflexivity]. }
  clearbody e2.
  assert (F3 : watched e3 = watched e2).
  { unfold e3. destruct (negb (dynlinked e2 =? 0)).
    - destruct (covers m ph (ehframe_Vaddr e2)); [apply set_ehframe_watched|reflexivity].
    - destruct (covers m ph (wrap64 (ehframe_vaddr hacks)));
        [apply set_ehframe_watched|reflexivity]. }
  clearbody e3.
  assert (F4 : watched e4 =
            (mem e3, textVaddr e3, dataVaddr e3,
             (if textVaddr e3 =? va then off else textOffset e3),
             (if textVaddr e3 =? va then get m ph p_memsz else textSize e3),
             dataOffset e3, noteOffset e3, noteVaddr e3)).
  { unfold e4. destruct (textVaddr e3 =? va); [apply set_text_watched|reflexivity]. }
  clearbody e4.
  assert (F5 : watched r =
            (mem e4, textVaddr e4, dataVaddr e4, textOffset e4, textSize e4,
             (if dataVaddr e4 =? va then off else dataOffset e4),
             noteOffset e4, noteVaddr e4)).
  { rewrite Hr. destruct (dataVaddr e4 =? va); [|reflexivity].
    cbv zeta. rewrite set_bssoff_watched.
    destruct (negb (pie (e4{{ dataOffset := off }}) =? 0));
      rewrite ?set_bss_watched; apply set_data_watched. }
  clear Hr.
  injection F5 as -> -> -> -> -> -> -> ->.
  injection F4 as -> -> -> -> -> -> -> ->.
  injection F3 as -> -> -> -> -> -> -> ->.
  injection F2 as -> -> -> -> -> -> -> ->.
  injection F1 as -> -> -> -> -> -> -> ->.
  injection F0 as -> -> -> -> -> -> -> ->.
  reflexivity.
Qed.

(** The walk over the headers [phs]: the mapping and the two addresses
    stay, each offset is that of the last header that sets it. *)
Lemma xref_fold_watched (hacks : hacks_t) (phs : list Z) : forall (e : elfdesc_t),
  let m := mem e in
  let e' := fold_left (fun e ph => xref_step hacks ph e) phs e in
  let text := List.find (fun ph => textVaddr e =? get m ph p_vaddr) (rev phs) in
  let data := List.find (fun ph => dataVaddr e =? get m ph p_vaddr) (rev phs) in
  let note := List.find (fun ph => get m ph p_type =? PT_NOTE) (rev phs) in
  watched e' =
  (m, textVaddr e, dataVaddr e,
   match text with Some ph => get m ph p_offset | None => textOffset e end,
   match text with Some ph => get m ph p_memsz | None => textSize e end,
   match data with Some ph => get m ph p_offset | None => dataOffset e end,
   match note with Some ph => get m ph p_offset | None => noteOffset e end,
   match note with Some ph => get m ph p_vaddr | None => noteVaddr e end).
Proof.
  induction phs as [|ph phs IH] using rev_ind; intros e m e' text data note.
  - reflexivity.
  - subst e' text data note. rewrite fold_left_app, rev_app_distr. cbn [fold_left rev app List.find].
    rewrite xref_step_watched.
    specialize (IH e). cbv zeta in IH. fold m in IH.
    injection IH as -> -> -> -> -> -> -> ->. fold m.
    destruct (textVaddr e =? get m ph p_vaddr), (dataVaddr e =? get m ph p_vaddr),
      (get m ph p_type =? PT_NOTE); reflexivity.
Qed.

(** X9.  What [xref_phdrs_for_offsets] leaves in the descriptor.  The mapping
    is not written.  The text offset and size are those of the last
    program header of the core whose address is the text address, the
    data offset that of the last header at the data address, the note
    offset and address those of the last PT_NOTE header; a field for
    which no header qualifies keeps the value it had. *)
Theorem xref_last_header_wins (hacks : hacks_t) (e : elfdesc_t) :
  let m := mem e in
  let e' := xref_phdrs_for_offsets hacks e in
  let last (p : Z -> bool) := List.find p (rev (Personality.phdrs_of m)) in
  mem e' = m /\
  (textOffset e', textSize e') =
    match last (fun ph => textVaddr e =? get m ph p_vaddr) with
    | Some ph => (get m ph p_offset, get m ph p_memsz)
    | None => (textOffset e, textSize e)
    end /\
  dataOffset e' =
    match last (fun ph => dataVaddr e =? get m ph p_vaddr) with
    | Some ph => get m ph p_offset
    | None => dataOffset e
    end /\
  (noteOffset e', noteVaddr e') =
    match last (fun ph => get m ph p_type =? PT_NOTE) with
    | Some ph => (get m ph p_offset, get m ph p_vaddr)
    | None => (noteOffset e, noteVaddr e)
    end.
Proof.
  intros m e' last.
  pose proof (xref_fold_watched hacks (Personality.phdrs_of m) e) as F. cbv zeta in F.
  fold m in F. unfold xref_phdrs_for_offsets in e'. fold m in e'. fold e' in F.
  injection F as -> _ _ -> -> -> -> ->. unfold last.
  repeat split;
    match goal with |- context [List.find ?p ?l] => destruct (List.find p l) end;
    reflexivity.
Qed.

End XrefFacts.

(** ** Further properties: SymRecon *)

Section FinalizerEffects.
Import Mem Elf CStr Handle Sections SymRecon.

Lemma named_iff (m : image) (j : Z) (a : string) :
  named m j a = true <-> section_name m j = lit a.
Proof. unfold named, streq. apply bool_decide_eq_true. Qed.

Lemma named_false (m : image) (j : Z) (a : string) :
  section_name m j <> lit a -> named m j a = false.
Proof. intros Hn. unfold named, streq. apply bool_decide_eq_false. exact Hn. Qed.

(** X10.  The finalizer rewrites nothing but offsets and sizes.  On a file whose
    section header table lies in front of the section names, with a
    function table whose names fit the string buffer (21 bytes a name at
    most), the output is the old file with the two tables behind it; the
    bytes in front of the section header table and behind it are the old
    ones; in a section header every field but [sh_offset] and [sh_size]
    (the bytes 24 to 39) is the old one, [sh_offset] as well unless the
    section is called [.symtab] or [.strtab], and [sh_size] unless it is
    called [.symtab], [.strtab] or [.got.plt]. *)
Theorem finalizer_frame (m : image) (fns : list fde_func_data) (tsi : Z) :
  shdrs_ok m -> 21 * Z.of_nat (length fns) <= strtab_capacity ->
  exists out,
    build_local_symtab_and_finalize m fns tsi = Some out /\
    size out = size m + sizeof_Sym * Z.of_nat (length fns)
               + Z.of_nat (length (strtab_bytes fns)) /\
    firstn (Z.to_nat (shoff_of m)) out = firstn (Z.to_nat (shoff_of m)) m /\
    slice out (shend_of m) (size m - shend_of m) = skipn (Z.to_nat (shend_of m)) m /\
    (forall j f, 0 <= j < shnum_of m -> 0 <= f_off f ->
       f_off f + Z.of_nat (f_width f) <= 24 \/
       40 <= f_off f /\ f_off f + Z.of_nat (f_width f) <= 64 ->
       get out (sh_of m j) f = get m (sh_of m j) f) /\
    (forall j, 0 <= j < shnum_of m ->
       section_name m j <> lit ".symtab" -> section_name m j <> lit ".strtab" ->
       get out (sh_of m j) sh_offset = get m (sh_of m j) sh_offset /\
       (section_name m j <> lit ".got.plt" ->
        get out (sh_of m j) sh_size = get m (sh_of m j) sh_size)).
Proof.
  intros Hok Hcap. eexists. split; [apply finalize_some; exact Hcap|].
  pose proof (patch_headers_finalized m (sizeof_Sym * Z.of_nat (length fns))
                (Z.of_nat (length (strtab_bytes fns))) Hok) as F.
  generalize dependent (patch_headers m (sizeof_Sym * Z.of_nat (length fns))
                (Z.of_nat (length (strtab_bytes fns)))).
  intros pm F.
  pose proof (fz_size _ _ _ _ F) as Hs.
  pose proof (shnum_range m) as Hn.
  assert (Hg : 64 <= shoff_of m /\ shend_of m <= size m) by (destruct Hok as (A & B & _); split; [exact A|exact B]).
  assert (Hse : shoff_of m <= shend_of m) by (unfold shend_of, sizeof_Shdr; lia).
  split; [apply size_out; exact Hs|].
  split; [|split; [|split]].
  - rewrite firstn_app.
    replace (Z.to_nat (shoff_of m) - length pm)%nat with 0%nat by (unfold size in *; lia).
    cbn [firstn]. rewrite app_nil_r. apply (fz_head _ _ _ _ F).
  - rewrite slice_app_l by (rewrite ?Hs; lia).
    unfold slice. rewrite (fz_tail _ _ _ _ F).
    apply firstn_all2. rewrite length_skipn. unfold size. lia.
  - intros j f Hj Hf0 Hf.
    rewrite (get_out_header m Hok) by (try assumption; lia).
    apply (fz_keep _ _ _ _ F); assumption.
  - intros j Hj H1 H2. split.
    + rewrite (get_out_header m Hok) by (try assumption; cbn; lia).
      rewrite (fz_off _ _ _ _ F) by assumption. unfold patched_offset.
      rewrite (named_false _ _ _ H1), (named_false _ _ _ H2), !andb_false_r. reflexivity.
    + intros H3.
      rewrite (get_out_header m Hok) by (try assumption; cbn; lia).
      rewrite (fz_sz _ _ _ _ F) by assumption. unfold patched_size.
      rewrite (named_false _ _ _ H1), (named_false _ _ _ H2), !andb_false_r. reflexivity.
Qed.

(** X11.  The headers of the symbol sections point at the tables behind the
    file.  In the output of the finalizer the symbol array stands at the
    old end of the file and the names right behind it; every section
    header called [.symtab] has that offset and the size of the array,
    every one called [.strtab] the offset and the size of the names. *)
Theorem finalizer_symbol_sections (m : image) (fns : list fde_func_data) (tsi : Z)
    (out : image) :
  shdrs_ok m ->
  build_local_symtab_and_finalize m fns tsi = Some out ->
  size out < 2 ^ 64 ->
  let symsz := sizeof_Sym * Z.of_nat (length fns) in
  let strsz := Z.of_nat (length (strtab_bytes fns)) in
  size out = size m + symsz + strsz /\
  slice out (size m) symsz = symtab_bytes fns tsi 0 /\
  slice out (size m + symsz) strsz = strtab_bytes fns /\
  forall j, 0 <= j < shnum_of m ->
    (section_name m j = lit ".symtab" ->
     get out (sh_of m j) sh_offset = size m /\ get out (sh_of m j) sh_size = symsz) /\
    (section_name m j = lit ".strtab" ->
     get out (sh_of m j) sh_offset = size m + symsz /\
     get out (sh_of m j) sh_size = strsz).
Proof.
  intros Hok Hrun Hlt symsz strsz.
  apply finalize_inv in Hrun. destruct Hrun as [Hcap ->].
  pose proof (patch_headers_finalized m symsz strsz Hok) as F.
  fold symsz strsz in Hlt |- *.
  generalize dependent (patch_headers m symsz strsz).
  intros pm Hlt F.
  pose proof (fz_size _ _ _ _ F) as Hs.
  pose proof (size_out m pm Hs fns tsi) as Hso. fold symsz strsz in Hso.
  assert (Hsy : Z.of_nat (length (symtab_bytes fns tsi 0)) = symsz)
    by (rewrite length_symtab_bytes; unfold symsz, sizeof_Sym; lia).
  assert (H0 : 0 <= size m) by (unfold size; lia).
  assert (H1 : 0 <= symsz) by (unfold symsz, sizeof_Sym; lia).
  assert (H2 : 0 <= strsz) by (unfold strsz; lia).
  split; [exact Hso|]. split; [|split].
  - unfold slice. rewrite <- Hs. unfold size. rewrite Nat2Z.id.
    rewrite drop_app_length. rewrite <- Hsy, Nat2Z.id. apply take_app_length.
  - unfold slice. rewrite <- Hs, <- Hsy. unfold size.
    rewrite <- Nat2Z.inj_add, Nat2Z.id.
    rewrite app_assoc, <- length_app, drop_app_length.
    unfold strsz. rewrite Nat2Z.id. apply firstn_all.
  - intros j Hj. split; intros Hnm.
    + assert (Hng : section_name m j <> lit ".got.plt")
        by (rewrite Hnm; vm_compute; discriminate).
      rewrite !(get_out_header m Hok) by (try assumption; cbn; lia).
      rewrite (fz_off _ _ _ _ F), (fz_sz _ _ _ _ F) by assumption.
      unfold patched_offset, patched_size.
      apply named_iff in Hnm. rewrite Hnm.
      replace (j <? shnum_of m) with true by (symmetry; apply Z.ltb_lt; lia).
      cbn [andb]. unfold wrap64. rewrite !Z.mod_small by lia. split; reflexivity.
    + assert (Hng : section_name m j <> lit ".got.plt")
        by (rewrite Hnm; vm_compute; discriminate).
      assert (Hns : named m j ".symtab" = false)
        by (apply named_false; rewrite Hnm; vm_compute; discriminate).
      rewrite !(get_out_header m Hok) by (try assumption; cbn; lia).
      rewrite (fz_off _ _ _ _ F), (fz_sz _ _ _ _ F) by assumption.
      unfold patched_offset, patched_size.
      apply named_iff in Hnm. rewrite Hnm, Hns.
      replace (j <? shnum_of m) with true by (symmetry; apply Z.ltb_lt; lia).
      cbn [andb]. unfold wrap64. rewrite !Z.mod_small by lia. split; reflexivity.
Qed.

(** X12.  A file without a section called [.dynsym] (a static executable): the
    first [.got.plt] gets the size of the three reserved entries. *)
Theorem got_plt_without_dynsym (m : image) (fns : list fde_func_data) (tsi g : Z) :
  shdrs_ok m -> first_named m ".got.plt" g ->
  (forall j, 0 <= j < shnum_of m -> section_name m j <> lit ".dynsym") ->
  21 * Z.of_nat (length fns) <= strtab_capacity ->
  exists out,
    build_local_symtab_and_finalize m fns tsi = Some out /\
    get out (sh_of m g) sh_size = 3 * sizeof_Addr.
Proof. intros Hok. apply finalize_got_static. exact Hok. Qed.

End FinalizerEffects.

(** ** Further properties: the section table of the output *)

Section TableContents.
Import Mem Elf CStr Handle Sections SymRecon.
Context {H : Headers} {L : Layout}.

(** The headers a table has are kept by what is emitted behind them. *)
Lemma emit_libs_shdrs (libs : list lib_t) : forall (dc : Z) (t : table),
  exists rest, shdrs (emit_libs libs dc t) = shdrs t ++ rest.
Proof.
  induction libs as [|l r IH]; intros dc t; cbn [emit_libs].
  - exists []. rewrite app_nil_r. reflexivity.
  - destruct (lib_section_name l dc) as [str dc'].
    destruct (IH dc' (emit (if lib_injected l =? 0 then SHT_SHLIB else SHT_INJECTED)
                (lib_offset l) (lib_addr l) SHF_ALLOC 0 0 0 (lib_size l) 8 str t))
      as (rest & E).
    rewrite E. cbn [emit shdrs]. rewrite <- app_assoc. eexists. reflexivity.
Qed.

Lemma emit_body_shdrs (dynamic : bool) (e : elfdesc_t) (md : memdesc_t)
    (smeta : section_meta) (hacks : hacks_t) (t t1 : table) (w : Z) :
  emit_body dynamic e md smeta hacks t = Some (t1, w) ->
  exists s rest,
    shdrs t1 = shdrs t ++ s :: rest /\
    shdr_type s = wrap32 SHT_PROGBITS /\
    shdr_flags s = wrap64 (Z.lor SHF_ALLOC SHF_EXECINSTR) /\
    shdr_addr s = wrap64 (textVaddr e) /\
    shdr_offset s = wrap64 (textOffset e) /\
    shdr_size s = wrap64 (textSize e) /\
    shdr_addralign s = wrap64 16.
Proof.
  unfold emit_body. cbv zeta. intros E.
  destruct (size (mem e) <? _); [discriminate E|].
  destruct (get_internal_sh_offset e md HEAP); [|discriminate E].
  injection E as <- _.
  destruct dynamic; cbn [emit shdrs]; rewrite <- !app_assoc; cbn [app];
    eexists; eexists; (split; [reflexivity|]); cbn; repeat split; reflexivity.
Qed.

Lemma emit_tail_shdrs (e : elfdesc_t) (md : memdesc_t) (ef : ecfs_file_t) (e_shoff : Z)
    (t t' : table) :
  emit_tail e md ef e_shoff t = Some t' ->
  exists s10 s11 s12 rest,
    shdrs t' = shdrs t ++ rest /\ length rest = 13%nat /\
    rest !! 10%nat = Some s10 /\ rest !! 11%nat = Some s11 /\ rest !! 12%nat = Some s12 /\
    shdr_type s10 = wrap32 SHT_SYMTAB /\
    shdr_link s10 = wrap32 (scount t + 11) /\
    shdr_entsize s10 = wrap64 sizeof_Sym /\
    shdr_type s11 = wrap32 SHT_STRTAB /\
    shdr_type s12 = wrap32 SHT_STRTAB /\
    shdr_offset s12 = wrap64 (e_shoff + sizeof_Shdr * (scount t + 13)) /\
    shdr_size s12 = wrap64 (stoffset t').
Proof.
  unfold emit_tail. cbv zeta. intros E.
  destruct (get_internal_sh_offset e md STACK); [|discriminate E].
  destruct (get_internal_sh_offset e md VDSO); [|discriminate E].
  destruct (get_internal_sh_offset e md VSYSCALL); [|discriminate E].
  injection E as <-.
  cbn [emit shdrs]. rewrite <- !app_assoc. cbn [app].
  do 4 eexists.
  split; [reflexivity|]. split; [reflexivity|].
  split; [reflexivity|]. split; [reflexivity|]. split; [reflexivity|].
  cbn [shdr_type shdr_link shdr_entsize shdr_offset shdr_size].
  unfold scount. cbn [emit shdrs StringTable]. rewrite !length_app. cbn [length].
  split; [reflexivity|]. split; [f_equal; lia|]. split; [reflexivity|].
  split; [reflexivity|]. split; [reflexivity|]. split; [f_equal; f_equal; lia|].
  f_equal. unfold stoffset. cbn [StringTable emit]. rewrite !length_app. cbn [length].
  repeat match goal with
         | |- context [length (lit ?s)] =>
             let n := eval vm_compute in (length (lit s)) in
             change (length (lit s)) with n
         end.
  lia.
Qed.

End TableContents.

Section TableParts.
Import Mem Elf CStr Handle Sections SymRecon.
Context {H : Headers} {L : Layout}.

(** The run of [core2ecfs] with the three stages of the table. *)
Lemma core2ecfs_parts (e : elfdesc_t) (md : memdesc_t) (nd : Notes.notedesc_t)
    (libs : list lib_t) (smeta : section_meta) (hacks : hacks_t) (heuristics : Z)
    (fdinfo : option (list byte)) (arglist : list byte) (fns : list fde_func_data)
    (out : image) :
  core2ecfs e md nd libs smeta hacks heuristics fdinfo arglist fns = Some out ->
  let personality := Personality.build_elf_stats e heuristics (stripped hacks) in
  let dynamic := Z.land personality ELF_STATIC =? 0 in
  let stb := stb_offset (ecfs_layout (size (mem e)) nd md) in
  exists file t1 w t,
    payload e md nd fdinfo arglist personality = Some file /\
    emit_body dynamic e md smeta hacks (emit_head dynamic e smeta hacks) = Some (t1, w) /\
    emit_tail e md (ecfs_layout (size (mem e)) nd md) (size file)
      (if dynamic then emit_libs libs 0 t1 else t1) = Some t /\
    holds t (section_names dynamic libs) /\
    scount t <= MAX_SHDR_COUNT /\ stoffset t <= MAX_SHDR_COUNT * 64 /\
    Z.of_nat (length (strtab_bytes fns)) <= strtab_capacity /\
    out = patch_headers (sealed file t (o_entry md) stb)
            (sizeof_Sym * Z.of_nat (length fns)) (Z.of_nat (length (strtab_bytes fns)))
          ++ symtab_bytes fns (Z.of_nat (length (head_names dynamic))) 0
          ++ strtab_bytes fns.
Proof.
  unfold core2ecfs. cbv zeta. intros E.
  destruct (payload _ _ _ _ _ _) as [file|] eqn:Ep; [|discriminate E].
  destruct (build_section_headers _ _ _ _ _ _ _ _) as [b|] eqn:Eb; [|discriminate E].
  apply finalize_inv in E. destruct E as [Hcap E].
  unfold build_section_headers in Eb. cbv zeta in Eb.
  set (dynamic := (Z.land (Personality.build_elf_stats e heuristics (stripped hacks))
                     ELF_STATIC =? 0)) in *.
  pose proof (holds_head dynamic e smeta hacks) as Hh.
  destruct (emit_body dynamic e md smeta hacks (emit_head dynamic e smeta hacks))
    as [[t1 w]|] eqn:Ebody; [|discriminate Eb].
  pose proof (holds_body _ _ _ _ _ _ _ _ _ Ebody Hh) as Hb.
  assert (holds (if dynamic then emit_libs libs 0 t1 else t1)
            ((head_names dynamic ++ body_names dynamic)
             ++ (if dynamic then lib_names libs 0 else []))) as Hl.
  { destruct dynamic; [apply holds_emit_libs; exact Hb|].
    rewrite app_nil_r. exact Hb. }
  destruct (emit_tail e md _ (size file) (if dynamic then emit_libs libs 0 t1 else t1))
    as [t2|] eqn:Et; [|discriminate Eb].
  pose proof (holds_tail _ _ _ _ _ _ _ Et Hl) as Ht.
  destruct ((MAX_SHDR_COUNT <? scount t2) || (MAX_SHDR_COUNT * 64 <? stoffset t2)) eqn:Ec;
    [discriminate Eb|].
  apply orb_false_iff in Ec. destruct Ec as [Ec1 Ec2].
  apply Z.ltb_ge in Ec1, Ec2.
  injection Eb as <-. cbn [b_scount b_text_shdr_index b_file] in E.
  exists file, t1, w, t2.
  split; [reflexivity|]. split; [reflexivity|]. split; [exact Et|].
  split; [unfold section_names; rewrite <- !app_assoc in Ht; exact Ht|].
  split; [exact Ec1|]. split; [exact Ec2|]. split; [exact Hcap|].
  assert (Hti : scount (emit_head dynamic e smeta hacks)
                = Z.of_nat (length (head_names dynamic)))
    by (unfold scount; rewrite (h_len _ _ Hh); reflexivity).
  rewrite E, Hti. reflexivity.
Qed.

End TableParts.

(** A header of the table in the output of the finalizer. *)
Section HeaderInOutput.
Import Mem Elf CStr Handle Sections SymRecon.
Context {H : Headers} {L : Layout}.
Variables (file : image) (t : table) (entry : Z) (ns : list (list byte)).
Variables (pm tail : image) (symsz strsz : Z).
Hypothesis Hholds : holds t ns.
Hypothesis Hfile : 64 <= size file.
Hypothesis Hbig : size file < 2 ^ 63.
Hypothesis Hmax : MAX_SHDR_COUNT < 2 ^ 16.
Hypothesis Hc1 : scount t <= MAX_SHDR_COUNT.
Hypothesis Hc2 : stoffset t <= MAX_SHDR_COUNT * 64.
Hypothesis Hlast : exists s, shdrs t !! (length (shdrs t) - 1)%nat = Some s /\
    shdr_offset s = wrap64 (size file + sizeof_Shdr * scount t).
Hypothesis Hshstr : ns !! (length ns - 1)%nat = Some (lit ".shstrtab").

Local Abbreviation f := (sealed file t entry (size file)).
Hypothesis Hfin : finalized f pm symsz strsz.
Local Abbreviation out := (pm ++ tail).

Lemma ho_ok : shdrs_ok f.
Proof. eapply pl_ok; eassumption. Qed.

Lemma ho_count : 0 < scount t < 2 ^ 16.
Proof. eapply pl_count; eassumption. Qed.

Lemma ho_size : size file + 64 * scount t + stoffset t < 2 ^ 64.
Proof. eapply pl_size; eassumption. Qed.

Lemma ho_shnum : shnum_of f = Z.of_nat (length ns).
Proof. eapply pl_f_shnum; eassumption. Qed.

Lemma ho_name (j : nat) (nm : list byte) :
  ns !! j = Some nm -> nul_free nm -> section_name f (Z.of_nat j) = nm.
Proof. eapply pl_f_name; eassumption. Qed.

Lemma ho_sh (j : Z) : sh_of out j = sh_of f j.
Proof. eapply pl_sh; eassumption. Qed.

(** Every field of the header of a section that is not called [.symtab],
    [.strtab] or [.got.plt] is the field of the table. *)
Lemma ho_field (j : nat) (s : Shdr) (nm : list byte) (fld : field) :
  shdrs t !! j = Some s -> ns !! j = Some nm -> nul_free nm ->
  nm <> lit ".symtab" -> nm <> lit ".strtab" -> nm <> lit ".got.plt" ->
  In fld [sh_name; sh_type; sh_flags; sh_addr; sh_offset; sh_size; sh_link; sh_info;
          sh_addralign; sh_entsize] ->
  get out (sh_of out (Z.of_nat j)) fld = get (encode_shdr s) 0 fld.
Proof.
  intros Hs Hn Hnf N1 N2 N3 Hin.
  pose proof ho_ok as Hok. pose proof ho_count as Hcnt. pose proof ho_size as Hsz.
  pose proof (ho_name j nm Hn Hnf) as Hname.
  assert (Hr : 0 <= Z.of_nat j < shnum_of f).
  { rewrite ho_shnum. apply lookup_lt_Some in Hn. lia. }
  assert (Hsealed : forall fld', 0 <= f_off fld' -> f_off fld' + Z.of_nat (f_width fld') <= 64 ->
            get f (sh_of f (Z.of_nat j)) fld' = get (encode_shdr s) 0 fld').
  { intros fld' H0 H1. apply (sealed_get file t entry Hfile Hcnt Hsz); assumption. }
  assert (Hkept : forall fld', 0 <= f_off fld' ->
            f_off fld' + Z.of_nat (f_width fld') <= 24 \/
            40 <= f_off fld' /\ f_off fld' + Z.of_nat (f_width fld') <= 64 ->
            get out (sh_of out (Z.of_nat j)) fld' = get (encode_shdr s) 0 fld').
  { intros fld' H0 H1. eapply pl_get; eassumption. }
  assert (Hoff : get out (sh_of out (Z.of_nat j)) sh_offset = get (encode_shdr s) 0 sh_offset).
  { rewrite (out_header f pm tail Hok (fz_size _ _ _ _ Hfin) (fz_head _ _ _ _ Hfin))
      by (assumption || (cbn; lia)).
    rewrite (fz_off _ _ _ _ Hfin) by exact Hr. unfold patched_offset, named, streq.
    rewrite Hname, !bool_decide_eq_false_2 by assumption. rewrite !andb_false_r.
    apply Hsealed; cbn; lia. }
  assert (Hsize : get out (sh_of out (Z.of_nat j)) sh_size = get (encode_shdr s) 0 sh_size).
  { rewrite (out_header f pm tail Hok (fz_size _ _ _ _ Hfin) (fz_head _ _ _ _ Hfin))
      by (assumption || (cbn; lia)).
    rewrite (fz_sz _ _ _ _ Hfin) by (try exact Hr; rewrite Hname; exact N3).
    unfold patched_size, named, streq.
    rewrite Hname, !bool_decide_eq_false_2 by assumption. rewrite !andb_false_r.
    apply Hsealed; cbn; lia. }
  cbn [In] in Hin.
  destruct Hin as [<-|[<-|[<-|[<-|[<-|[<-|[<-|[<-|[<-|[<-|[]]]]]]]]]]];
    try exact Hoff; try exact Hsize; apply Hkept; cbn; lia.
Qed.

(** The fields of [.symtab] and [.strtab] that the finalizer keeps. *)
Lemma ho_kept (j : nat) (s : Shdr) (fld : field) :
  shdrs t !! j = Some s ->
  In fld [sh_name; sh_type; sh_flags; sh_addr; sh_link; sh_info; sh_addralign; sh_entsize] ->
  get out (sh_of out (Z.of_nat j)) fld = get (encode_shdr s) 0 fld.
Proof.
  intros Hs Hin.
  assert (Hkept : forall fld', 0 <= f_off fld' ->
            f_off fld' + Z.of_nat (f_width fld') <= 24 \/
            40 <= f_off fld' /\ f_off fld' + Z.of_nat (f_width fld') <= 64 ->
            get out (sh_of out (Z.of_nat j)) fld' = get (encode_shdr s) 0 fld').
  { intros fld' H0 H1. eapply pl_get; eassumption. }
  cbn [In] in Hin.
  destruct Hin as [<-|[<-|[<-|[<-|[<-|[<-|[<-|[<-|[]]]]]]]]]; apply Hkept; cbn; lia.
Qed.

(** The names behind the table. *)
Lemma ho_strings :
  slice out (size file + 64 * scount t) (stoffset t) = strings ns.
Proof.
  pose proof ho_ok as Hok. pose proof ho_count as Hcnt. pose proof ho_size as Hsz.
  pose proof (fz_size _ _ _ _ Hfin) as Hs.
  pose proof (size_sealed file t entry) as Hsf.
  pose proof (size_f0 file t) as Hs0.
  assert (Hst : 0 <= stoffset t) by (unfold stoffset; lia).
  rewrite slice_app_l by (rewrite ?Hs, ?Hsf, ?Hs0; lia).
  assert (Hend : shend_of f = size file + 64 * scount t).
  { unfold shend_of. rewrite (sealed_shoff file t entry Hfile Hcnt Hsz),
      (sealed_shnum file t entry Hfile Hcnt). unfold sizeof_Shdr. lia. }
  pose proof (fz_tail _ _ _ _ Hfin) as Htl.
  rewrite (slice_skipn_eq pm f (size file + 64 * scount t) (stoffset t)
             (Z.to_nat (shend_of f)) ltac:(rewrite Hend; lia) Htl).
  rewrite (slice_skipn_eq f (file ++ concat (List.map encode_shdr (shdrs t)) ++ StringTable t)
             (size file + 64 * scount t) (stoffset t) 64%nat ltac:(lia)
             (skipn_sealed file t entry)).
  unfold slice. rewrite app_assoc.
  replace (Z.to_nat (size file + 64 * scount t))
    with (length (file ++ concat (List.map encode_shdr (shdrs t)))).
  2:{ rewrite length_app, length_encode_shdrs. unfold size, scount. lia. }
  rewrite drop_app_length. unfold stoffset. rewrite Nat2Z.id, firstn_all.
  apply (h_strings _ _ Hholds).
Qed.

End HeaderInOutput.

Section OutputTable.
Import Mem Elf CStr Handle Sections SymRecon.
Context {H : Headers} {L : Layout}.
Variables (e : elfdesc_t) (md : memdesc_t) (nd : Notes.notedesc_t)
  (libs : list lib_t) (smeta : section_meta) (hacks : hacks_t) (heuristics : Z)
  (fdinfo : option (list byte)) (arglist : list byte) (fns : list fde_func_data).
Variables (file out : image).

Local Abbreviation personality := (Personality.build_elf_stats e heuristics (stripped hacks)).
Local Abbreviation dynamic := (Z.land personality ELF_STATIC =? 0).
Local Abbreviation ns := (section_names dynamic libs).
Local Abbreviation tsi := (Z.of_nat (length (head_names dynamic))).
Local Abbreviation symsz := (sizeof_Sym * Z.of_nat (length fns)).
Local Abbreviation strsz := (Z.of_nat (length (strtab_bytes fns))).

Hypothesis Hpayload : payload e md nd fdinfo arglist personality = Some file.
Hypothesis Hcomplete : size file = stb_offset (ecfs_layout (size (mem e)) nd md).
Hypothesis Hrun : core2ecfs e md nd libs smeta hacks heuristics fdinfo arglist fns = Some out.
Hypothesis Hhdr : 64 <= size (mem e).
Hypothesis Hbig : size file < 2 ^ 63.
Hypothesis Hmax : MAX_SHDR_COUNT < 2 ^ 16.

Lemma ot_shstrtab : ns !! (length ns - 1)%nat = Some (lit ".shstrtab").
Proof.
  rewrite length_section_names.
  replace (length (front_names dynamic libs) + 13 - 1)%nat
    with (length (front_names dynamic libs) + 12)%nat by lia.
  rewrite section_names_tail. reflexivity.
Qed.

(** The run, with the stages of the table and the work of the finalizer. *)
Lemma ot_setup :
  exists t1 w t pm,
    emit_body dynamic e md smeta hacks (emit_head dynamic e smeta hacks) = Some (t1, w) /\
    emit_tail e md (ecfs_layout (size (mem e)) nd md) (size file)
      (if dynamic then emit_libs libs 0 t1 else t1) = Some t /\
    holds t ns /\ scount t <= MAX_SHDR_COUNT /\ stoffset t <= MAX_SHDR_COUNT * 64 /\
    (exists s, shdrs t !! (length (shdrs t) - 1)%nat = Some s /\
       shdr_offset s = wrap64 (size file + sizeof_Shdr * scount t)) /\
    64 <= size file /\
    finalized (sealed file t (o_entry md) (size file)) pm symsz strsz /\
    out = pm ++ symtab_bytes fns tsi 0 ++ strtab_bytes fns.
Proof.
  pose proof Hrun as E. apply core2ecfs_parts in E. cbv zeta in E.
  destruct E as (file' & t1 & w & t & Hp & Eb & Et & Hh & Hc1 & Hc2 & Hcap & Hout).
  rewrite Hpayload in Hp. injection Hp as <-.
  rewrite <- Hcomplete in Hout.
  destruct (payload_prefix _ _ _ _ _ _ _ Hpayload) as (rest & Hfile).
  assert (Hsf : 64 <= size file)
    by (rewrite Hfile; unfold size in *; rewrite length_app; lia).
  destruct (emit_tail_last _ _ _ _ _ _ Et) as (s & Hs1 & Hs2 & _).
  assert (Hlast : exists s, shdrs t !! (length (shdrs t) - 1)%nat = Some s /\
            shdr_offset s = wrap64 (size file + sizeof_Shdr * scount t))
    by (exists s; split; assumption).
  exists t1, w, t.
  exists (patch_headers (sealed file t (o_entry md) (size file)) symsz strsz).
  split; [exact Eb|]. split; [exact Et|]. split; [exact Hh|]. split; [exact Hc1|].
  split; [exact Hc2|]. split; [exact Hlast|]. split; [exact Hsf|].
  split; [|exact Hout].
  apply patch_headers_finalized.
  apply (pl_ok file t (o_entry md) ns Hh Hsf Hbig Hmax Hc1 Hc2 Hlast ot_shstrtab).
Qed.

(** X13.  The section header table of a complete output.  It stands where the
    payload ends, [e_shoff] says so, [e_shnum] is the number of sections
    (those of the head, the body, one per library of a dynamic executable,
    and the thirteen of the tail), [e_shstrndx] is the last of them, and
    the name of every section reads back from the string table as it was
    built. *)
Theorem output_section_table :
  Forall (fun l => nul_free (lib_name l)) libs ->
  shoff_of out = size file /\
  shnum_of out = Z.of_nat (length ns) /\
  get out 0 e_shstrndx = Z.of_nat (length ns) - 1 /\
  (forall j nm, ns !! j = Some nm -> section_name out (Z.of_nat j) = nm).
Proof.
  intros Hlibs.
  destruct ot_setup as (t1 & w & t & pm & _ & _ & Hh & Hc1 & Hc2 & Hlast & Hsf & Hfin & ->).
  pose proof ot_shstrtab as Hshstr.
  split; [|split; [|split]].
  - apply (pl_shoff file t (o_entry md) ns pm _ _ _ Hh Hsf Hbig Hmax Hc1 Hc2 Hlast Hshstr Hfin).
  - apply (pl_shnum file t (o_entry md) ns pm _ _ _ Hh Hsf Hbig Hmax Hc1 Hc2 Hlast Hshstr Hfin).
  - apply (pl_shstrndx file t (o_entry md) ns pm _ _ _ Hh Hsf Hbig Hmax Hc1 Hc2 Hlast Hshstr Hfin).
  - intros j nm Hj.
    apply (pl_name file t (o_entry md) ns pm _ _ _ Hh Hsf Hbig Hmax Hc1 Hc2 Hlast Hshstr Hfin);
      [exact Hj|].
    pose proof (section_names_nul_free dynamic libs Hlibs) as Hnf.
    apply (Forall_lookup_1 _ _ _ _ Hnf Hj).
Qed.

(** X14.  The section name string table.  The last section of a complete output
    is [.shstrtab], a string table that starts right behind the section
    headers and holds the names of all sections, each with its NUL, in the
    order of the table. *)
Theorem shstrtab_holds_names :
  let last := Z.of_nat (length ns) - 1 in
  section_name out last = lit ".shstrtab" /\
  get out (sh_of out last) sh_type = SHT_STRTAB /\
  get out (sh_of out last) sh_offset = shoff_of out + sizeof_Shdr * shnum_of out /\
  get out (sh_of out last) sh_size = Z.of_nat (length (strings ns)) /\
  slice out (get out (sh_of out last) sh_offset) (get out (sh_of out last) sh_size)
    = strings ns.
Proof.
  intros last.
  destruct ot_setup as (t1 & w & t & pm & _ & Et & Hh & Hc1 & Hc2 & Hlast & Hsf & Hfin & ->).
  pose proof ot_shstrtab as Hshstr.
  assert (Hcnt : 0 < scount t < 2 ^ 16) by (eapply pl_count; eassumption).
  assert (Hsc : scount t = Z.of_nat (length ns)) by (eapply pl_scount; eassumption).
  assert (Hlen : (0 < length ns)%nat) by (apply lookup_lt_Some in Hshstr; lia).
  assert (Hl : last = Z.of_nat (length ns - 1)) by (unfold last; lia).
  destruct (emit_tail_last _ _ _ _ _ _ Et) as (s & Hs1 & Hs2 & Hs3).
  rewrite (h_len _ _ Hh) in Hs1.
  assert (Hnf : nul_free (lit ".shstrtab"))
    by (unfold nul_free; repeat constructor; vm_compute; discriminate).
  assert (Hfld : forall fld,
            In fld [sh_name; sh_type; sh_flags; sh_addr; sh_offset; sh_size; sh_link; sh_info;
                    sh_addralign; sh_entsize] ->
            get (pm ++ symtab_bytes fns tsi 0 ++ strtab_bytes fns)
                (sh_of (pm ++ symtab_bytes fns tsi 0 ++ strtab_bytes fns) last) fld
            = get (encode_shdr s) 0 fld).
  { intros fld Hin. rewrite Hl.
    apply (ho_field file t (o_entry md) ns pm _ symsz strsz Hh Hsf Hbig Hmax Hc1 Hc2 Hlast
             Hshstr Hfin _ s (lit ".shstrtab") fld Hs1 Hshstr Hnf);
      [vm_compute; discriminate|vm_compute; discriminate|vm_compute; discriminate|exact Hin]. }
  pose proof (get_encode_shdr s) as G. cbv zeta in G.
  destruct G as (_ & G2 & _ & _ & G5 & G6 & _).
  assert (Hst : stoffset t = Z.of_nat (length (strings ns)))
    by (unfold stoffset; rewrite (h_strings _ _ Hh); reflexivity).
  assert (Hoff : get (pm ++ symtab_bytes fns tsi 0 ++ strtab_bytes fns)
                   (sh_of (pm ++ symtab_bytes fns tsi 0 ++ strtab_bytes fns) last) sh_offset
                 = size file + 64 * scount t).
  { rewrite Hfld by (cbn; tauto). rewrite G5, Hs2.
    unfold wrap64, sizeof_Shdr. rewrite Z.mod_mod by lia. apply Z.mod_small. lia. }
  assert (Hsize : get (pm ++ symtab_bytes fns tsi 0 ++ strtab_bytes fns)
                   (sh_of (pm ++ symtab_bytes fns tsi 0 ++ strtab_bytes fns) last) sh_size
                 = stoffset t).
  { rewrite Hfld by (cbn; tauto). rewrite G6, Hs3.
    unfold wrap64. rewrite Z.mod_mod by lia. apply Z.mod_small. unfold stoffset in *. lia. }
  split; [|split; [|split; [|split]]].
  - rewrite Hl.
    apply (pl_name file t (o_entry md) ns pm _ _ _ Hh Hsf Hbig Hmax Hc1 Hc2 Hlast Hshstr Hfin);
      assumption.
  - rewrite Hfld by (cbn; tauto). rewrite G2.
    destruct (emit_tail_shdrs _ _ _ _ _ _ Et)
      as (s10 & s11 & s12 & rest & E1 & E2 & _ & _ & E5 & _ & _ & _ & _ & E9 & _).
    assert (s = s12) as ->.
    { rewrite <- (h_len _ _ Hh) in Hs1. rewrite E1 in Hs1.
      rewrite lookup_app_r in Hs1 by (rewrite length_app; lia).
      rewrite length_app, E2 in Hs1.
      replace (length (shdrs (if dynamic then emit_libs libs 0 t1 else t1)) + 13 - 1
               - length (shdrs (if dynamic then emit_libs libs 0 t1 else t1)))%nat
        with 12%nat in Hs1 by lia.
      congruence. }
    rewrite E9. vm_compute. reflexivity.
  - rewrite Hoff.
    rewrite (pl_shoff file t (o_entry md) ns pm _ _ _ Hh Hsf Hbig Hmax Hc1 Hc2 Hlast Hshstr Hfin).
    rewrite (pl_shnum file t (o_entry md) ns pm _ _ _ Hh Hsf Hbig Hmax Hc1 Hc2 Hlast Hshstr Hfin).
    rewrite Hsc. unfold sizeof_Shdr. reflexivity.
  - rewrite Hsize. exact Hst.
  - rewrite Hoff, Hsize.
    apply (ho_strings file t (o_entry md) ns pm _ symsz strsz Hh Hsf Hbig Hmax Hc1 Hc2 Hlast
             Hshstr Hfin).
Qed.

(** A header of the head or of [.text] is a header of the finished table. *)
Lemma ot_lookup_body (t1 t : table) (w : Z) (j : nat) (s : Shdr) :
  emit_tail e md (ecfs_layout (size (mem e)) nd md) (size file)
    (if dynamic then emit_libs libs 0 t1 else t1) = Some t ->
  shdrs t1 !! j = Some s -> shdrs t !! j = Some s.
Proof.
  intros Et Hj.
  destruct (emit_tail_shdrs _ _ _ _ _ _ Et) as (_ & _ & _ & rest & E1 & _).
  rewrite E1. apply lookup_app_l_Some.
  destruct dynamic; [|exact Hj].
  destruct (emit_libs_shdrs libs 0 t1) as (r & ->).
  apply lookup_app_l_Some. exact Hj.
Qed.

(** X15.  The [.text] section of a complete output.  Its header stands at the
    static index [text_shdr_index], behind the sections of the head; it is
    a PROGBITS section, allocated and executable, with the address, the
    offset and the size of the text segment in the descriptor; and when
    that range lies in the core behind the ELF header, the section holds
    the bytes the core has there. *)
Theorem text_section_of_output :
  0 <= textVaddr e < 2 ^ 64 -> 0 <= textSize e < 2 ^ 64 ->
  64 <= textOffset e -> textOffset e + textSize e <= size (mem e) ->
  section_name out tsi = lit ".text" /\
  get out (sh_of out tsi) sh_type = SHT_PROGBITS /\
  get out (sh_of out tsi) sh_flags = Z.lor SHF_ALLOC SHF_EXECINSTR /\
  get out (sh_of out tsi) sh_addr = textVaddr e /\
  get out (sh_of out tsi) sh_offset = textOffset e /\
  get out (sh_of out tsi) sh_size = textSize e /\
  slice out (get out (sh_of out tsi) sh_offset) (get out (sh_of out tsi) sh_size)
    = slice (mem e) (textOffset e) (textSize e).
Proof.
  intros Hva Hsz Hoff Hin.
  destruct ot_setup as (t1 & w & t & pm & Eb & Et & Hh & Hc1 & Hc2 & Hlast & Hsf & Hfin & Hout).
  pose proof ot_shstrtab as Hshstr.
  destruct (emit_body_shdrs _ _ _ _ _ _ _ _ Eb)
    as (s & rest & E1 & S1 & S2 & S3 & S4 & S5 & _).
  pose proof (holds_head dynamic e smeta hacks) as Hhead.
  assert (Hs : shdrs t !! length (head_names dynamic) = Some s).
  { apply (ot_lookup_body t1 t w _ _ Et). rewrite E1, <- (h_len _ _ Hhead).
    rewrite lookup_app_r by lia. rewrite Nat.sub_diag. reflexivity. }
  pose proof (section_names_text dynamic libs) as Hn.
  assert (Hnf : nul_free (lit ".text"))
    by (unfold nul_free; repeat constructor; vm_compute; discriminate).
  assert (Hfld : forall fld,
            In fld [sh_name; sh_type; sh_flags; sh_addr; sh_offset; sh_size; sh_link; sh_info;
                    sh_addralign; sh_entsize] ->
            get out (sh_of out tsi) fld = get (encode_shdr s) 0 fld).
  { intros fld Hin'. rewrite Hout.
    apply (ho_field file t (o_entry md) ns pm _ symsz strsz Hh Hsf Hbig Hmax Hc1 Hc2 Hlast
             Hshstr Hfin _ s (lit ".text") fld Hs Hn Hnf);
      [vm_compute; discriminate|vm_compute; discriminate|vm_compute; discriminate|exact Hin']. }
  pose proof (get_encode_shdr s) as G. cbv zeta in G.
  destruct G as (_ & G2 & G3 & G4 & G5 & G6 & _).
  assert (Ho : get out (sh_of out tsi) sh_offset = textOffset e).
  { rewrite Hfld by (cbn; tauto). rewrite G5, S4. unfold wrap64.
    rewrite Z.mod_mod by lia. apply Z.mod_small.
    pose proof (payload_prefix _ _ _ _ _ _ _ Hpayload) as (r & Hf).
    assert (size (mem e) <= size file) by (rewrite Hf; unfold size; rewrite length_app; lia).
    lia. }
  assert (Hz : get out (sh_of out tsi) sh_size = textSize e).
  { rewrite Hfld by (cbn; tauto). rewrite G6, S5. unfold wrap64.
    rewrite Z.mod_mod by lia. apply Z.mod_small. lia. }
  split; [|split; [|split; [|split; [|split; [|split]]]]].
  - rewrite Hout.
    apply (pl_name file t (o_entry md) ns pm _ _ _ Hh Hsf Hbig Hmax Hc1 Hc2 Hlast Hshstr Hfin);
      assumption.
  - rewrite Hfld by (cbn; tauto). rewrite G2, S1. vm_compute. reflexivity.
  - rewrite Hfld by (cbn; tauto). rewrite G3, S2. vm_compute. reflexivity.
  - rewrite Hfld by (cbn; tauto). rewrite G4, S3. unfold wrap64.
    rewrite Z.mod_mod by lia. apply Z.mod_small. lia.
  - exact Ho.
  - exact Hz.
  - rewrite Ho, Hz.
    assert (Hstb : size (mem e) <= stb_offset (ecfs_layout (size (mem e)) nd md) < 2 ^ 64).
    { rewrite <- Hcomplete.
      pose proof (payload_prefix _ _ _ _ _ _ _ Hpayload) as (r & Hf).
      split; [rewrite Hf; unfold size; rewrite length_app; lia|lia]. }
    destruct (core2ecfs_keeps_core _ _ _ _ _ _ _ _ _ _ _ Hrun Hhdr Hstb) as (Hk & _).
    apply Hk; try lia. unfold in_kept_ehdr. lia.
Qed.

(** X16.  The symbol sections are linked to their string tables.  In a complete
    output the section [.symtab] (the eleventh of the tail) is a symbol
    table whose [sh_link] is the index of the section behind it, and that
    section is [.strtab], a string table. *)
Theorem symtab_links_strtab :
  let isym := Z.of_nat (length (front_names dynamic libs) + 10) in
  section_name out isym = lit ".symtab" /\
  section_name out (isym + 1) = lit ".strtab" /\
  get out (sh_of out isym) sh_type = SHT_SYMTAB /\
  get out (sh_of out isym) sh_entsize = sizeof_Sym /\
  get out (sh_of out isym) sh_link = isym + 1 /\
  get out (sh_of out (isym + 1)) sh_type = SHT_STRTAB.
Proof.
  intros isym.
  destruct ot_setup as (t1 & w & t & pm & Eb & Et & Hh & Hc1 & Hc2 & Hlast & Hsf & Hfin & Hout).
  pose proof ot_shstrtab as Hshstr.
  destruct (emit_tail_shdrs _ _ _ _ _ _ Et)
    as (s10 & s11 & s12 & rest & E1 & E2 & L10 & L11 & _ & T10 & K10 & Z10 & T11 & _).
  assert (Hlen : length (shdrs (if dynamic then emit_libs libs 0 t1 else t1))
                 = length (front_names dynamic libs)).
  { pose proof (h_len _ _ Hh) as Hl. rewrite E1, length_app, E2, length_section_names in Hl.
    lia. }
  assert (H10 : shdrs t !! (length (front_names dynamic libs) + 10)%nat = Some s10).
  { rewrite E1, lookup_app_r by lia. rewrite Hlen.
    replace (length (front_names dynamic libs) + 10 - length (front_names dynamic libs))%nat
      with 10%nat by lia. exact L10. }
  assert (H11 : shdrs t !! (length (front_names dynamic libs) + 11)%nat = Some s11).
  { rewrite E1, lookup_app_r by lia. rewrite Hlen.
    replace (length (front_names dynamic libs) + 11 - length (front_names dynamic libs))%nat
      with 11%nat by lia. exact L11. }
  assert (N10 : ns !! (length (front_names dynamic libs) + 10)%nat = Some (lit ".symtab"))
    by (rewrite section_names_tail; reflexivity).
  assert (N11 : ns !! (length (front_names dynamic libs) + 11)%nat = Some (lit ".strtab"))
    by (rewrite section_names_tail; reflexivity).
  assert (Hi1 : isym + 1 = Z.of_nat (length (front_names dynamic libs) + 11))
    by (unfold isym; lia).
  assert (Hk : forall j s fld, shdrs t !! j = Some s ->
            In fld [sh_name; sh_type; sh_flags; sh_addr; sh_link; sh_info; sh_addralign;
                    sh_entsize] ->
            get out (sh_of out (Z.of_nat j)) fld = get (encode_shdr s) 0 fld).
  { intros j s fld Hj Hin. rewrite Hout.
    apply (ho_kept file t (o_entry md) ns pm _ symsz strsz Hh Hsf Hbig Hmax Hc1 Hc2 Hlast
             Hshstr Hfin j s fld Hj Hin). }
  assert (Hnm : forall j nm, ns !! j = Some nm -> nul_free nm ->
            section_name out (Z.of_nat j) = nm).
  { intros j nm Hj Hnf. rewrite Hout.
    apply (pl_name file t (o_entry md) ns pm _ _ _ Hh Hsf Hbig Hmax Hc1 Hc2 Hlast Hshstr Hfin);
      assumption. }
  assert (Hcnt : scount (if dynamic then emit_libs libs 0 t1 else t1) + 11 < 2 ^ 32).
  { unfold scount in *. rewrite Hlen. rewrite (h_len _ _ Hh), length_section_names in Hc1.
    lia. }
  pose proof (get_encode_shdr s10) as G. cbv zeta in G.
  destruct G as (_ & G2 & _ & _ & _ & _ & G7 & _ & _ & G10).
  pose proof (get_encode_shdr s11) as G'. cbv zeta in G'.
  destruct G' as (_ & G2' & _).
  split; [|split; [|split; [|split; [|split]]]].
  - apply Hnm; [exact N10|]. unfold nul_free. repeat constructor; vm_compute; discriminate.
  - rewrite Hi1. apply Hnm; [exact N11|].
    unfold nul_free. repeat constructor; vm_compute; discriminate.
  - unfold isym. rewrite (Hk _ _ _ H10) by (cbn; tauto). rewrite G2, T10.
    vm_compute. reflexivity.
  - unfold isym. rewrite (Hk _ _ _ H10) by (cbn; tauto). rewrite G10, Z10.
    vm_compute. reflexivity.
  - unfold isym at 1. rewrite (Hk _ _ _ H10) by (cbn; tauto). rewrite G7, K10.
    unfold wrap32. rewrite Z.mod_mod by lia. rewrite Z.mod_small.
    + unfold isym, scount. rewrite Hlen. lia.
    + unfold scount in *. lia.
  - rewrite Hi1. rewrite (Hk _ _ _ H11) by (cbn; tauto). rewrite G2', T11.
    vm_compute. reflexivity.
Qed.

Lemma emit_head_dynamic (e0 : elfdesc_t) (sm : section_meta) (hk : hacks_t) :
  exists s4 s5 s6 s7,
    shdrs (emit_head true e0 sm hk) !! 4%nat = Some s4 /\
    shdrs (emit_head true e0 sm hk) !! 5%nat = Some s5 /\
    shdrs (emit_head true e0 sm hk) !! 6%nat = Some s6 /\
    shdrs (emit_head true e0 sm hk) !! 7%nat = Some s7 /\
    shdr_type s4 = wrap32 SHT_DYNSYM /\ shdr_link s4 = wrap32 5 /\
    shdr_entsize s4 = wrap64 sizeof_Sym /\
    shdr_type s5 = wrap32 SHT_STRTAB /\
    shdr_type s6 = wrap32 SHT_RELA /\ shdr_link s6 = wrap32 4 /\
    shdr_entsize s6 = wrap64 sizeof_Rela /\
    shdr_type s7 = wrap32 SHT_RELA /\ shdr_link s7 = wrap32 4 /\
    shdr_entsize s7 = wrap64 sizeof_Rela.
Proof.
  unfold emit_head. cbv zeta. cbn [emit shdrs StringTable app].
  do 4 eexists. repeat (split; [reflexivity|]). reflexivity.
Qed.

(** X17.  The dynamic symbol sections are linked.  In a complete output for a
    dynamically linked executable, section 4 is [.dynsym], a dynamic
    symbol table linked to section 5, [.dynstr], a string table; sections
    6 and 7 are [.rela.dyn] and [.rela.plt], relocation tables linked to
    [.dynsym]. *)
Theorem dynamic_sections_linked :
  Z.land personality ELF_STATIC = 0 ->
  section_name out 4 = lit ".dynsym" /\ section_name out 5 = lit ".dynstr" /\
  section_name out 6 = lit ".rela.dyn" /\ section_name out 7 = lit ".rela.plt" /\
  get out (sh_of out 4) sh_type = SHT_DYNSYM /\
  get out (sh_of out 4) sh_entsize = sizeof_Sym /\
  get out (sh_of out 4) sh_link = 5 /\
  get out (sh_of out 5) sh_type = SHT_STRTAB /\
  (forall j, j = 6 \/ j = 7 ->
     get out (sh_of out j) sh_type = SHT_RELA /\
     get out (sh_of out j) sh_entsize = sizeof_Rela /\
     get out (sh_of out j) sh_link = 4).
Proof.
  intros Hdyn.
  destruct ot_setup as (t1 & w & t & pm & Eb & Et & Hh & Hc1 & Hc2 & Hlast & Hsf & Hfin & Hout).
  pose proof ot_shstrtab as Hshstr.
  assert (Hd : dynamic = true) by (apply Z.eqb_eq; exact Hdyn).
  destruct (emit_body_shdrs _ _ _ _ _ _ _ _ Eb) as (s & rest & E1 & _).
  assert (Hhead : forall j s', shdrs (emit_head true e smeta hacks) !! j = Some s' ->
            shdrs t !! j = Some s').
  { intros j s' Hj. apply (ot_lookup_body t1 t w _ _ Et). rewrite E1, Hd.
    apply lookup_app_l_Some. exact Hj. }
  destruct (emit_head_dynamic e smeta hacks)
    as (s4 & s5 & s6 & s7 & L4 & L5 & L6 & L7 & T4 & K4 & Z4 & T5 & T6 & K6 & Z6 & T7 & K7 & Z7).
  apply Hhead in L4, L5, L6, L7.
  assert (Hk : forall j s fld, shdrs t !! j = Some s ->
            In fld [sh_name; sh_type; sh_flags; sh_addr; sh_link; sh_info; sh_addralign;
                    sh_entsize] ->
            get out (sh_of out (Z.of_nat j)) fld = get (encode_shdr s) 0 fld).
  { intros j s' fld Hj Hin. rewrite Hout.
    apply (ho_kept file t (o_entry md) ns pm _ symsz strsz Hh Hsf Hbig Hmax Hc1 Hc2 Hlast
             Hshstr Hfin j s' fld Hj Hin). }
  assert (Hnm : forall j nm, ns !! j = Some (lit nm) -> nul_free (lit nm) ->
            section_name out (Z.of_nat j) = lit nm).
  { intros j nm Hj Hnf. rewrite Hout.
    apply (pl_name file t (o_entry md) ns pm _ _ _ Hh Hsf Hbig Hmax Hc1 Hc2 Hlast Hshstr Hfin);
      assumption. }
  assert (N4 : ns !! 4%nat = Some (lit ".dynsym"))
    by (unfold section_names; rewrite Hd; reflexivity).
  assert (N5 : ns !! 5%nat = Some (lit ".dynstr"))
    by (unfold section_names; rewrite Hd; reflexivity).
  assert (N6 : ns !! 6%nat = Some (lit ".rela.dyn"))
    by (unfold section_names; rewrite Hd; reflexivity).
  assert (N7 : ns !! 7%nat = Some (lit ".rela.plt"))
    by (unfold section_names; rewrite Hd; reflexivity).
  pose proof (get_encode_shdr s4) as G4. cbv zeta in G4.
  destruct G4 as (_ & G42 & _ & _ & _ & _ & G47 & _ & _ & G410).
  pose proof (get_encode_shdr s5) as G5. cbv zeta in G5.
  destruct G5 as (_ & G52 & _).
  pose proof (get_encode_shdr s6) as G6. cbv zeta in G6.
  destruct G6 as (_ & G62 & _ & _ & _ & _ & G67 & _ & _ & G610).
  pose proof (get_encode_shdr s7) as G7. cbv zeta in G7.
  destruct G7 as (_ & G72 & _ & _ & _ & _ & G77 & _ & _ & G710).
  split; [apply (Hnm 4%nat); [exact N4|]; unfold nul_free; repeat constructor;
          vm_compute; discriminate|].
  split; [apply (Hnm 5%nat); [exact N5|]; unfold nul_free; repeat constructor;
          vm_compute; discriminate|].
  split; [apply (Hnm 6%nat); [exact N6|]; unfold nul_free; repeat constructor;
          vm_compute; discriminate|].
  split; [apply (Hnm 7%nat); [exact N7|]; unfold nul_free; repeat constructor;
          vm_compute; discriminate|].
  split; [rewrite (Hk 4%nat _ _ L4) by (cbn; tauto); rewrite G42, T4; vm_compute; reflexivity|].
  split; [rewrite (Hk 4%nat _ _ L4) by (cbn; tauto); rewrite G410, Z4; vm_compute; reflexivity|].
  split; [rewrite (Hk 4%nat _ _ L4) by (cbn; tauto); rewrite G47, K4; vm_compute; reflexivity|].
  split; [rewrite (Hk 5%nat _ _ L5) by (cbn; tauto); rewrite G52, T5; vm_compute; reflexivity|].
  intros j [->| ->].
  - split; [rewrite (Hk 6%nat _ _ L6) by (cbn; tauto); rewrite G62, T6; vm_compute; reflexivity|].
    split; [rewrite (Hk 6%nat _ _ L6) by (cbn; tauto); rewrite G610, Z6; vm_compute; reflexivity|].
    rewrite (Hk 6%nat _ _ L6) by (cbn; tauto); rewrite G67, K6; vm_compute; reflexivity.
  - split; [rewrite (Hk 7%nat _ _ L7) by (cbn; tauto); rewrite G72, T7; vm_compute; reflexivity|].
    split; [rewrite (Hk 7%nat _ _ L7) by (cbn; tauto); rewrite G710, Z7; vm_compute; reflexivity|].
    rewrite (Hk 7%nat _ _ L7) by (cbn; tauto); rewrite G77, K7; vm_compute; reflexivity.
Qed.

End OutputTable.

Section PayloadLayout.
Import Mem Elf CStr Handle Sections SymRecon.
Context {H : Headers} {L : Layout}.

Lemma length_slice_0 (b : list byte) (n : Z) :
  0 <= n <= Z.of_nat (length b) -> Z.of_nat (length (slice b 0 n)) = n.
Proof.
  intros Hn. unfold slice. change (Z.to_nat 0) with 0%nat. rewrite drop_0, length_take. lia.
Qed.

Lemma slice_mid (pre x post : list byte) (off len : Z) :
  off = size pre -> len = size x -> slice (pre ++ x ++ post) off len = x.
Proof.
  intros -> ->. unfold slice, size. rewrite !Nat2Z.id.
  rewrite drop_app_length. apply take_app_length.
Qed.

Lemma slice_front (x post : list byte) (len : Z) :
  len = size x -> slice (x ++ post) 0 len = x.
Proof.
  intros ->. unfold slice, size. change (Z.to_nat 0) with 0%nat.
  rewrite drop_0, Nat2Z.id. apply take_app_length.
Qed.

Lemma slice_back (pre x : list byte) (off len : Z) :
  off = size pre -> len = size x -> slice (pre ++ x) off len = x.
Proof.
  intros -> ->. unfold slice, size. rewrite !Nat2Z.id.
  rewrite drop_app_length. apply firstn_all.
Qed.

(** The [prstatus] structs of the threads behind the first, when each
    thread has one. *)
Lemma thread_prstatus_some (nd : Notes.notedesc_t) (n : nat) : forall (i : Z),
  0 <= sizeof_elf_prstatus ->
  (forall j, i <= j < i + Z.of_nat n ->
     exists q, Notes.thread_core_info nd !! j = Some q /\
               sizeof_elf_prstatus <= Z.of_nat (length q)) ->
  exists threads,
    thread_prstatus n i nd = Some threads /\
    Z.of_nat (length threads) = Z.of_nat n * sizeof_elf_prstatus.
Proof.
  induction n as [|n IH]; intros i H0 Hq.
  - exists []. split; [reflexivity|]. cbn [length]. lia.
  - destruct (Hq i ltac:(lia)) as (q & Hqi & Hql).
    destruct (IH (i + 1) H0) as (rest & Hr & Hrl).
    { intros j Hj. apply Hq. lia. }
    exists (slice q 0 sizeof_elf_prstatus ++ rest).
    simpl thread_prstatus. unfold image. rewrite Hqi, Hr. split; [reflexivity|].
    rewrite length_app, Nat2Z.inj_add, length_slice_0 by lia. lia.
Qed.

(** The payload, piece by piece: what [payload] returns when every
    buffer is there and has its size. *)
Lemma payload_parts (e : elfdesc_t) (md : memdesc_t) (nd : Notes.notedesc_t)
    (fdinfo : option (list byte)) (arglist : list byte) (personality : Z)
    (p fb sb ab : list byte) :
  Notes.prstatus nd = Some p -> sizeof_elf_prstatus <= Z.of_nat (length p) ->
  0 <= sizeof_elf_prstatus -> 1 <= Notes.thread_count nd ->
  (forall j, 1 <= j < Notes.thread_count nd ->
     exists q, Notes.thread_core_info nd !! j = Some q /\
               sizeof_elf_prstatus <= Z.of_nat (length q)) ->
  fdinfo = Some fb -> 0 <= fdinfo_size md <= Z.of_nat (length fb) ->
  Notes.siginfo nd = Some sb -> 0 <= sizeof_siginfo_t <= Z.of_nat (length sb) ->
  Notes.auxv nd = Some ab -> 0 <= Notes.auxv_size nd <= Z.of_nat (length ab) ->
  Z.of_nat (length (elf_stat_image personality)) = sizeof_elf_stat_t ->
  0 <= ELF_PRARGSZ <= Z.of_nat (length arglist) ->
  let ef := ecfs_layout (size (mem e)) nd md in
  exists file threads,
    payload e md nd fdinfo arglist personality = Some file /\
    thread_prstatus (Z.to_nat (Notes.thread_count nd - 1)) 1 nd = Some threads /\
    size file = stb_offset ef /\
    slice file 0 (size (mem e)) = mem e /\
    slice file (prstatus_offset ef) (prstatus_size ef)
      = slice p 0 sizeof_elf_prstatus ++ threads /\
    slice file (fdinfo_offset ef) (ef_fdinfo_size ef) = slice fb 0 (fdinfo_size md) /\
    slice file (siginfo_offset ef) (siginfo_size ef) = slice sb 0 sizeof_siginfo_t /\
    slice file (auxv_offset ef) (ef_auxv_size ef) = slice ab 0 (Notes.auxv_size nd) /\
    slice file (exepath_offset ef) (exepath_size ef) = exe_path md ++ [Byte.x00] /\
    slice file (personality_offset ef) (personality_size ef) = elf_stat_image personality /\
    slice file (arglist_offset ef) (arglist_size ef) = slice arglist 0 ELF_PRARGSZ.
Proof.
  intros Hp Hpl Hps Htc Hthr -> Hfd Hsig Hsigl Haux Hauxl Hstat Harg ef.
  destruct (thread_prstatus_some nd (Z.to_nat (Notes.thread_count nd - 1)) 1 Hps)
    as (threads & Ht & Htl).
  { intros j Hj. apply Hthr. lia. }
  exists (mem e ++ slice p 0 sizeof_elf_prstatus ++ threads
          ++ slice fb 0 (fdinfo_size md) ++ slice sb 0 sizeof_siginfo_t
          ++ slice ab 0 (Notes.auxv_size nd) ++ (exe_path md ++ [Byte.x00])
          ++ elf_stat_image personality ++ slice arglist 0 ELF_PRARGSZ), threads.
  split; [unfold payload, write_buf; rewrite Hp, Ht, Hsig, Haux; reflexivity|].
  split; [exact Ht|].
  pose proof (length_slice_0 p sizeof_elf_prstatus (conj Hps Hpl)) as L1.
  pose proof (length_slice_0 fb (fdinfo_size md) Hfd) as L3.
  pose proof (length_slice_0 sb sizeof_siginfo_t Hsigl) as L4.
  pose proof (length_slice_0 ab (Notes.auxv_size nd) Hauxl) as L5.
  pose proof (length_slice_0 arglist ELF_PRARGSZ Harg) as L8.
  rewrite Z2Nat.id in Htl by lia.
  set (a0 := mem e) in *.
  set (a1 := slice p 0 sizeof_elf_prstatus) in *.
  set (a3 := slice fb 0 (fdinfo_size md)) in *.
  set (a4 := slice sb 0 sizeof_siginfo_t) in *.
  set (a5 := slice ab 0 (Notes.auxv_size nd)) in *.
  set (a6 := exe_path md ++ [Byte.x00]) in *.
  set (a7 := elf_stat_image personality) in *.
  set (a8 := slice arglist 0 ELF_PRARGSZ) in *.
  assert (L6 : Z.of_nat (length a6) = Z.of_nat (length (exe_path md)) + 1)
    by (unfold a6; rewrite length_app; cbn [length]; lia).
  unfold ef, ecfs_layout.
  cbn [stb_offset prstatus_offset prstatus_size fdinfo_offset ef_fdinfo_size siginfo_offset
       siginfo_size auxv_offset ef_auxv_size exepath_offset exepath_size personality_offset
       personality_size arglist_offset arglist_size].
  split; [unfold size; rewrite !length_app; lia|].
  split; [apply slice_front; reflexivity|].
  split.
  { rewrite (app_assoc a1 threads). apply slice_mid; [reflexivity|].
    unfold size. rewrite length_app. lia. }
  split.
  { rewrite (app_assoc a1 threads), (app_assoc a0).
    apply slice_mid; unfold size; rewrite ?length_app; lia. }
  split.
  { rewrite (app_assoc a1 threads), (app_assoc a0), (app_assoc _ a3).
    apply slice_mid; unfold size; rewrite ?length_app; lia. }
  split.
  { rewrite (app_assoc a1 threads), (app_assoc a0), (app_assoc _ a3), (app_assoc _ a4).
    apply slice_mid; unfold size; rewrite ?length_app; lia. }
  split.
  { rewrite (app_assoc a1 threads), (app_assoc a0), (app_assoc _ a3), (app_assoc _ a4),
      (app_assoc _ a5).
    apply slice_mid; unfold size; rewrite ?length_app; lia. }
  split.
  { rewrite (app_assoc a1 threads), (app_assoc a0), (app_assoc _ a3), (app_assoc _ a4),
      (app_assoc _ a5), (app_assoc _ a6).
    apply slice_mid; unfold size; rewrite ?length_app; lia. }
  rewrite (app_assoc a1 threads), (app_assoc a0), (app_assoc _ a3), (app_assoc _ a4),
    (app_assoc _ a5), (app_assoc _ a6), (app_assoc _ a7).
  apply slice_back; unfold size; rewrite ?length_app; lia.
Qed.

(** X18.  The offsets that [core2ecfs] computes before it writes are the
    places where the data ends up, when every buffer is there and has
    its size: the core, a [prstatus] per thread, the descriptor table,
    [siginfo], the auxiliary vector, the path of the executable with its
    NUL, the personality and the argument list follow one another; the
    section header table will start where [stb_offset] says. *)
Theorem payload_layout (e : elfdesc_t) (md : memdesc_t) (nd : Notes.notedesc_t)
    (fdinfo : option (list byte)) (arglist : list byte) (personality : Z)
    (p fb sb ab : list byte) :
  Notes.prstatus nd = Some p -> sizeof_elf_prstatus <= Z.of_nat (length p) ->
  0 <= sizeof_elf_prstatus -> 1 <= Notes.thread_count nd ->
  (forall j, 1 <= j < Notes.thread_count nd ->
     exists q, Notes.thread_core_info nd !! j = Some q /\
               sizeof_elf_prstatus <= Z.of_nat (length q)) ->
  fdinfo = Some fb -> 0 <= fdinfo_size md <= Z.of_nat (length fb) ->
  Notes.siginfo nd = Some sb -> 0 <= sizeof_siginfo_t <= Z.of_nat (length sb) ->
  Notes.auxv nd = Some ab -> 0 <= Notes.auxv_size nd <= Z.of_nat (length ab) ->
  Z.of_nat (length (elf_stat_image personality)) = sizeof_elf_stat_t ->
  0 <= ELF_PRARGSZ <= Z.of_nat (length arglist) ->
  let ef := ecfs_layout (size (mem e)) nd md in
  exists file threads,
    payload e md nd fdinfo arglist personality = Some file /\
    thread_prstatus (Z.to_nat (Notes.thread_count nd - 1)) 1 nd = Some threads /\
    size file = stb_offset ef /\
    slice file 0 (size (mem e)) = mem e /\
    slice file (prstatus_offset ef) (prstatus_size ef)
      = slice p 0 sizeof_elf_prstatus ++ threads /\
    slice file (fdinfo_offset ef) (ef_fdinfo_size ef) = slice fb 0 (fdinfo_size md) /\
    slice file (siginfo_offset ef) (siginfo_size ef) = slice sb 0 sizeof_siginfo_t /\
    slice file (auxv_offset ef) (ef_auxv_size ef) = slice ab 0 (Notes.auxv_size nd) /\
    slice file (exepath_offset ef) (exepath_size ef) = exe_path md ++ [Byte.x00] /\
    slice file (personality_offset ef) (personality_size ef) = elf_stat_image personality /\
    slice file (arglist_offset ef) (arglist_size ef) = slice arglist 0 ELF_PRARGSZ.
Proof.
  intros Hp Hpl Hps Htc Hthr Hfdi Hfd Hsig Hsigl Haux Hauxl Hstat Harg.
  eapply payload_parts; eassumption.
Qed.

End PayloadLayout.

Section PayloadSections.
Import Mem Elf CStr Handle Sections SymRecon.
Context {H : Headers} {L : Layout}.

(** The headers of the payload sections in the tail of the table. *)
Lemma emit_tail_payload (e : elfdesc_t) (md : memdesc_t) (ef : ecfs_file_t) (e_shoff : Z)
    (t t' : table) (k : nat) (off sz : Z) :
  emit_tail e md ef e_shoff t = Some t' ->
  In (k, off, sz)
     [(0%nat, prstatus_offset ef, prstatus_size ef);
      (1%nat, fdinfo_offset ef, ef_fdinfo_size ef);
      (2%nat, siginfo_offset ef, siginfo_size ef);
      (3%nat, auxv_offset ef, ef_auxv_size ef);
      (4%nat, exepath_offset ef, exepath_size ef);
      (5%nat, personality_offset ef, personality_size ef);
      (6%nat, arglist_offset ef, arglist_size ef)] ->
  exists s, shdrs t' !! (length (shdrs t) + k)%nat = Some s /\
    shdr_type s = wrap32 SHT_PROGBITS /\
    shdr_offset s = wrap64 off /\ shdr_size s = wrap64 sz.
Proof.
  unfold emit_tail. cbv zeta. intros E Hin.
  destruct (get_internal_sh_offset e md STACK); [|discriminate E].
  destruct (get_internal_sh_offset e md VDSO); [|discriminate E].
  destruct (get_internal_sh_offset e md VSYSCALL); [|discriminate E].
  injection E as <-.
  cbn [emit shdrs]. rewrite <- !app_assoc. cbn [app].
  cbn [In] in Hin.
  destruct Hin as [E|[E|[E|[E|[E|[E|[E|[]]]]]]]]; injection E as <- <- <-;
    eexists; (split; [rewrite lookup_app_r by lia;
                      match goal with
                      | |- context [(?a + ?b - ?a)%nat] =>
                          replace (a + b - a)%nat with b by lia
                      end; reflexivity|]);
    repeat split; reflexivity.
Qed.

(** The output keeps what was written in front of the section header
    table, but for the ELF header. *)
Lemma output_keeps_payload (file : image) (t : table) (entry : Z) (pm tail : image)
    (symsz strsz off len : Z) :
  64 <= size file ->
  finalized (sealed file t entry (size file)) pm symsz strsz ->
  shoff_of (sealed file t entry (size file)) = size file ->
  64 <= off -> 0 <= len -> off + len <= size file ->
  slice (pm ++ tail) off len = slice file off len.
Proof.
  intros Hsf Hfin Hshoff Ho Hl Hin.
  pose proof (fz_size _ _ _ _ Hfin) as Hs.
  pose proof (fz_head _ _ _ _ Hfin) as Hh. rewrite Hshoff in Hh.
  pose proof (size_sealed_any file t entry (size file)) as Hsz.
  assert (Hge : size file <= size pm).
  { rewrite Hs, Hsz. unfold size. rewrite length_app. lia. }
  rewrite slice_app_l by lia.
  rewrite (slice_firstn_eq pm (sealed file t entry (size file)) off len
             (Z.to_nat (size file)) ltac:(lia) Hl ltac:(lia) Hh).
  apply sealed_any_slice; try lia.
Qed.

Variables (e : elfdesc_t) (md : memdesc_t) (nd : Notes.notedesc_t)
  (libs : list lib_t) (smeta : section_meta) (hacks : hacks_t) (heuristics : Z)
  (fdinfo : option (list byte)) (arglist : list byte) (fns : list fde_func_data).
Variables (out p fb sb ab threads : list byte).

Local Abbreviation personality := (Personality.build_elf_stats e heuristics (stripped hacks)).
Local Abbreviation dynamic := (Z.land personality ELF_STATIC =? 0).
Local Abbreviation ns := (section_names dynamic libs).
Local Abbreviation ef := (ecfs_layout (size (mem e)) nd md).
Local Abbreviation tsi := (Z.of_nat (length (head_names dynamic))).
Local Abbreviation symsz := (sizeof_Sym * Z.of_nat (length fns)).
Local Abbreviation strsz := (Z.of_nat (length (strtab_bytes fns))).

(** X19.  The sections of the process state.  When every buffer that
    [core2ecfs] writes is there and has its size, the seven sections
    [.prstatus], [.fdinfo], [.siginfo], [.auxvector], [.exepath],
    [.personality] and [.arglist] of the output (the first seven of the
    tail of the table) are PROGBITS sections whose offset and size are
    those computed before the writes, and each holds its data: the
    [prstatus] of every thread, the descriptor table, the signal
    information, the auxiliary vector, the path of the executable with
    its NUL, the personality and the arguments. *)
Theorem payload_sections_of_output :
  core2ecfs e md nd libs smeta hacks heuristics fdinfo arglist fns = Some out ->
  64 <= size (mem e) -> stb_offset ef < 2 ^ 63 -> MAX_SHDR_COUNT < 2 ^ 16 ->
  Notes.prstatus nd = Some p -> sizeof_elf_prstatus <= Z.of_nat (length p) ->
  0 <= sizeof_elf_prstatus -> 1 <= Notes.thread_count nd ->
  (forall j, 1 <= j < Notes.thread_count nd ->
     exists q, Notes.thread_core_info nd !! j = Some q /\
               sizeof_elf_prstatus <= Z.of_nat (length q)) ->
  thread_prstatus (Z.to_nat (Notes.thread_count nd - 1)) 1 nd = Some threads ->
  fdinfo = Some fb -> 0 <= fdinfo_size md <= Z.of_nat (length fb) ->
  Notes.siginfo nd = Some sb -> 0 <= sizeof_siginfo_t <= Z.of_nat (length sb) ->
  Notes.auxv nd = Some ab -> 0 <= Notes.auxv_size nd <= Z.of_nat (length ab) ->
  Z.of_nat (length (elf_stat_image personality)) = sizeof_elf_stat_t ->
  0 <= ELF_PRARGSZ <= Z.of_nat (length arglist) ->
  forall (k : nat) (nm : string) (off sz : Z) (data : list byte),
    In (k, nm, off, sz, data)
       [(0%nat, ".prstatus"%string, prstatus_offset ef, prstatus_size ef,
           slice p 0 sizeof_elf_prstatus ++ threads);
        (1%nat, ".fdinfo"%string, fdinfo_offset ef, ef_fdinfo_size ef,
           slice fb 0 (fdinfo_size md));
        (2%nat, ".siginfo"%string, siginfo_offset ef, siginfo_size ef,
           slice sb 0 sizeof_siginfo_t);
        (3%nat, ".auxvector"%string, auxv_offset ef, ef_auxv_size ef,
           slice ab 0 (Notes.auxv_size nd));
        (4%nat, ".exepath"%string, exepath_offset ef, exepath_size ef,
           exe_path md ++ [Byte.x00]);
        (5%nat, ".personality"%string, personality_offset ef, personality_size ef,
           elf_stat_image personality);
        (6%nat, ".arglist"%string, arglist_offset ef, arglist_size ef,
           slice arglist 0 ELF_PRARGSZ)] ->
    let i := Z.of_nat (length (front_names dynamic libs) + k) in
    section_name out i = lit nm /\
    get out (sh_of out i) sh_type = SHT_PROGBITS /\
    get out (sh_of out i) sh_offset = off /\
    get out (sh_of out i) sh_size = sz /\
    slice out off sz = data.
Proof.
  intros Hrun Hhdr Hstb Hmax Hp Hpl Hps Htc Hthr Hthreads Hfdi Hfd Hsig Hsigl Haux Hauxl
    Hstat Harg k nm off sz data Hin i.
  destruct (payload_parts e md nd fdinfo arglist personality p fb sb ab
              Hp Hpl Hps Htc Hthr Hfdi Hfd Hsig Hsigl Haux Hauxl Hstat Harg)
    as (file & threads' & Hpayload & Hthreads' & Hcomplete & _ & D0 & D1 & D2 & D3 & D4 & D5 & D6).
  cbv zeta in Hcomplete, D0, D1, D2, D3, D4, D5, D6.
  rewrite Hthreads in Hthreads'. injection Hthreads' as <-.
  assert (Hbig : size file < 2 ^ 63) by (rewrite Hcomplete; exact Hstb).
  destruct (ot_setup e md nd libs smeta hacks heuristics fdinfo arglist fns file out
              Hpayload Hcomplete Hrun Hhdr Hbig Hmax)
    as (t1 & w & t & pm & Eb & Et & Hh & Hc1 & Hc2 & Hlast & Hsf & Hfin & Hout).
  pose proof (ot_shstrtab e libs hacks heuristics) as Hshstr.
  assert (Hlen : length (shdrs (if dynamic then emit_libs libs 0 t1 else t1))
                 = length (front_names dynamic libs)).
  { destruct (emit_tail_shdrs _ _ _ _ _ _ Et) as (_ & _ & _ & rest & E1 & E2 & _).
    pose proof (h_len _ _ Hh) as Hl. rewrite E1, length_app, E2, length_section_names in Hl.
    lia. }
  assert (Hshoff : shoff_of (sealed file t (o_entry md) (size file)) = size file)
    by (eapply pl_f_shoff; eassumption).
  assert (Hkeep : forall o l, 64 <= o -> 0 <= l -> o + l <= size file ->
            slice out o l = slice file o l).
  { intros o l Ho Hl Hol. rewrite Hout.
    apply (output_keeps_payload file t (o_entry md) pm _ symsz strsz o l Hsf Hfin Hshoff
             Ho Hl Hol). }
  assert (Hsizes : 0 <= Z.of_nat (length (exe_path md)) /\ 0 <= sizeof_elf_stat_t)
    by (split; lia).
  assert (Hgeom : In (k, off, sz)
     [(0%nat, prstatus_offset ef, prstatus_size ef);
      (1%nat, fdinfo_offset ef, ef_fdinfo_size ef);
      (2%nat, siginfo_offset ef, siginfo_size ef);
      (3%nat, auxv_offset ef, ef_auxv_size ef);
      (4%nat, exepath_offset ef, exepath_size ef);
      (5%nat, personality_offset ef, personality_size ef);
      (6%nat, arglist_offset ef, arglist_size ef)] /\
     ns !! (length (front_names dynamic libs) + k)%nat = Some (lit nm) /\
     nul_free (lit nm) /\
     lit nm <> lit ".symtab" /\ lit nm <> lit ".strtab" /\ lit nm <> lit ".got.plt" /\
     64 <= off /\ 0 <= sz /\ off + sz <= size file /\
     slice file off sz = data).
  { rewrite Hcomplete. clear Hkeep Hfin Hout.
    unfold ecfs_layout in *.
    cbn [stb_offset prstatus_offset prstatus_size fdinfo_offset ef_fdinfo_size siginfo_offset
         siginfo_size auxv_offset ef_auxv_size exepath_offset exepath_size personality_offset
         personality_size arglist_offset arglist_size] in *.
    cbn [In] in Hin.
    destruct Hin as [E|[E|[E|[E|[E|[E|[E|[]]]]]]]]; injection E as <- <- <- <- <-;
      (split; [cbn [In]; tauto|]);
      (split; [rewrite section_names_tail; reflexivity|]);
      (split; [unfold nul_free; repeat constructor; vm_compute; discriminate|]);
      (split; [vm_compute; discriminate|]);
      (split; [vm_compute; discriminate|]);
      (split; [vm_compute; discriminate|]);
      (split; [nia|]); (split; [nia|]); (split; [nia|]); assumption. }
  destruct Hgeom as (Hin3 & Hn & Hnf & N1 & N2 & N3 & Ho & Hz & Hoz & Hdata).
  destruct (emit_tail_payload _ _ _ _ _ _ k off sz Et Hin3) as (s & Hs & S1 & S2 & S3).
  rewrite Hlen in Hs.
  assert (Hfld : forall fld,
            In fld [sh_name; sh_type; sh_flags; sh_addr; sh_offset; sh_size; sh_link; sh_info;
                    sh_addralign; sh_entsize] ->
            get out (sh_of out i) fld = get (encode_shdr s) 0 fld).
  { intros fld Hin'. rewrite Hout. unfold i.
    apply (ho_field file t (o_entry md) ns pm _ symsz strsz Hh Hsf Hbig Hmax Hc1 Hc2 Hlast
             Hshstr Hfin _ s (lit nm) fld Hs Hn Hnf N1 N2 N3 Hin'). }
  pose proof (get_encode_shdr s) as G. cbv zeta in G.
  destruct G as (_ & G2 & _ & _ & G5 & G6 & _).
  split; [|split; [|split; [|split]]].
  - rewrite Hout. unfold i.
    apply (pl_name file t (o_entry md) ns pm _ _ _ Hh Hsf Hbig Hmax Hc1 Hc2 Hlast Hshstr Hfin);
      assumption.
  - rewrite Hfld by (cbn; tauto). rewrite G2, S1. vm_compute. reflexivity.
  - rewrite Hfld by (cbn; tauto). rewrite G5, S2. unfold wrap64.
    rewrite Z.mod_mod by lia. apply Z.mod_small. lia.
  - rewrite Hfld by (cbn; tauto). rewrite G6, S3. unfold wrap64.
    rewrite Z.mod_mod by lia. apply Z.mod_small. lia.
  - rewrite Hkeep by lia. exact Hdata.
Qed.

End PayloadSections.

Section MissingSiginfo.
Import Mem Elf CStr Handle Sections SymRecon.
Context {H : Headers} {L : Layout}.

(** X20.  A core without signal information.  [core2ecfs] only logs the failed
    write of the NULL [siginfo] buffer and goes on: what it has written
    when it comes to the section header table is [sizeof(siginfo_t)] bytes
    shorter than the computed [stb_offset], while [e_shoff] of the output
    is that [stb_offset]. *)
Theorem missing_siginfo_shifts_table (e : elfdesc_t) (md : memdesc_t)
    (nd : Notes.notedesc_t) (libs : list lib_t) (smeta : section_meta) (hacks : hacks_t)
    (heuristics : Z) (fdinfo : option (list byte)) (arglist : list byte)
    (fns : list fde_func_data) (out p fb ab : list byte) :
  core2ecfs e md nd libs smeta hacks heuristics fdinfo arglist fns = Some out ->
  64 <= size (mem e) -> stb_offset (ecfs_layout (size (mem e)) nd md) < 2 ^ 64 ->
  Notes.siginfo nd = None -> 0 <= sizeof_siginfo_t ->
  Notes.prstatus nd = Some p -> sizeof_elf_prstatus <= Z.of_nat (length p) ->
  0 <= sizeof_elf_prstatus -> 1 <= Notes.thread_count nd ->
  (forall j, 1 <= j < Notes.thread_count nd ->
     exists q, Notes.thread_core_info nd !! j = Some q /\
               sizeof_elf_prstatus <= Z.of_nat (length q)) ->
  fdinfo = Some fb -> 0 <= fdinfo_size md <= Z.of_nat (length fb) ->
  Notes.auxv nd = Some ab -> 0 <= Notes.auxv_size nd <= Z.of_nat (length ab) ->
  Z.of_nat (length (elf_stat_image
     (Personality.build_elf_stats e heuristics (stripped hacks)))) = sizeof_elf_stat_t ->
  0 <= ELF_PRARGSZ <= Z.of_nat (length arglist) ->
  exists file,
    payload e md nd fdinfo arglist (Personality.build_elf_stats e heuristics (stripped hacks))
      = Some file /\
    size file = stb_offset (ecfs_layout (size (mem e)) nd md) - sizeof_siginfo_t /\
    get out 0 e_shoff = stb_offset (ecfs_layout (size (mem e)) nd md).
Proof.
  intros Hrun Hhdr Hstb Hsig Hsg Hp Hpl Hps Htc Hthr -> Hfd Haux Hauxl Hstat Harg.
  destruct (thread_prstatus_some nd (Z.to_nat (Notes.thread_count nd - 1)) 1 Hps)
    as (threads & Ht & Htl).
  { intros j Hj. apply Hthr. lia. }
  rewrite Z2Nat.id in Htl by lia.
  pose proof (length_slice_0 p sizeof_elf_prstatus (conj Hps Hpl)) as L1.
  pose proof (length_slice_0 fb (fdinfo_size md) Hfd) as L3.
  pose proof (length_slice_0 ab (Notes.auxv_size nd) Hauxl) as L5.
  pose proof (length_slice_0 arglist ELF_PRARGSZ Harg) as L8.
  assert (Hsize : forall file,
    payload e md nd (Some fb) arglist (Personality.build_elf_stats e heuristics (stripped hacks))
      = Some file ->
    size file = stb_offset (ecfs_layout (size (mem e)) nd md) - sizeof_siginfo_t).
  { intros file Hf. unfold payload, write_buf in Hf. rewrite Hp, Ht, Hsig, Haux in Hf.
    injection Hf as <-. unfold ecfs_layout. cbn [stb_offset].
    unfold size. rewrite !length_app. cbn [length]. lia. }
  destruct (payload e md nd (Some fb) arglist
              (Personality.build_elf_stats e heuristics (stripped hacks))) as [file|] eqn:Ep.
  2:{ unfold payload in Ep. rewrite Hp, Ht in Ep. discriminate Ep. }
  exists file. split; [reflexivity|]. split; [apply Hsize; reflexivity|].
  assert (Hge : size (mem e) <= stb_offset (ecfs_layout (size (mem e)) nd md)).
  { unfold ecfs_layout. cbn [stb_offset]. nia. }
  destruct (core2ecfs_keeps_core _ _ _ _ _ _ _ _ _ _ _ Hrun Hhdr (conj Hge Hstb))
    as (_ & _ & _ & Hs & _).
  exact Hs.
Qed.

End MissingSiginfo.

(** ** Examples *)

Section Witnesses.
Import Mem Elf CStr Handle Sections SymRecon TextMerge Notes.

Lemma sample_note_format : @note_format Sample.linux_x86_64 Sample.odd_notes.
Proof. intros p. reflexivity. Defined.

Lemma note_walk_stride_witness :
  let entries :=
    note_entries
      (@note_rounds Sample.linux_x86_64 (Z.to_nat 64) Sample.odd_notes 64 (Cursor 0 0))
      Sample.odd_notes 0 in
  @parse_notes_area Sample.linux_x86_64 Sample.odd_notes 0 64 =
    fold_left (fun nd p => @note_switch Sample.linux_x86_64 Sample.odd_notes p nd) entries
      notedesc_zero /\
  (forall p, entries !! 0%nat = Some p -> p = 0) /\
  (forall k p next, entries !! k = Some p -> entries !! S k = Some next ->
     next = cur_notes (@advance Sample.linux_x86_64 Sample.odd_notes (Cursor 0 p)) /\
     next = align4 (@name_end Sample.linux_x86_64 Sample.odd_notes p
                    + get Sample.odd_notes p n_descsz) /\
     next - p = sizeof_Nhdr + align4 (get Sample.odd_notes p n_namesz)
                + align4 (get Sample.odd_notes p n_descsz)).
Proof.
  apply (@note_walk_stride Sample.linux_x86_64 Sample.odd_notes 0 64).
  - exact sample_note_format.
  - reflexivity.
Defined.

(** C3, as stated, fails on a region whose first entry has a name of 5
    and a descriptor of 6 bytes: the walk of [parse_notes_area] goes from
    the entry at 0 to the entry at 28 (it finds the NT_AUXV entry there),
    not to 24, which is the header size plus [n_namesz] plus [n_descsz]
    rounded up to a multiple of four and lies inside the descriptor. *)
Lemma note_stride_pads_name_and_descriptor :
  get Sample.odd_notes 0 n_namesz = 5 /\ get Sample.odd_notes 0 n_descsz = 6 /\
  align4 (sizeof_Nhdr + get Sample.odd_notes 0 n_namesz + get Sample.odd_notes 0 n_descsz)
    = 24 /\
  @ELFNOTE_DESC Sample.linux_x86_64 Sample.odd_notes 0 = 20 /\
  note_entries
    (@note_rounds Sample.linux_x86_64 (Z.to_nat 64) Sample.odd_notes 64 (Cursor 0 0))
    Sample.odd_notes 0 = [0; 28; 64; 76] /\
  cur_notes (@advance Sample.linux_x86_64 Sample.odd_notes (Cursor 0 0)) = 28 /\
  cur_notes (@advance Sample.linux_x86_64 Sample.odd_notes (Cursor 0 0)) - 0 <>
    align4 (sizeof_Nhdr + get Sample.odd_notes 0 n_namesz
            + get Sample.odd_notes 0 n_descsz) /\
  get Sample.odd_notes 28 n_type = NT_AUXV /\ get Sample.odd_notes 24 n_type <> NT_AUXV /\
  auxv (@parse_notes_area Sample.linux_x86_64 Sample.odd_notes 0 64)
    = Some (repeat Byte.x07 16).
Proof.
  repeat split; try (vm_compute; reflexivity); vm_compute; discriminate.
Qed.

Lemma wrong_sized_prstatus_skipped_witness :
  @note_switch Sample.linux_x86_64 Sample.notes 0 notedesc_zero = notedesc_zero /\
  thread_count (@note_switch Sample.linux_x86_64 Sample.notes 0 notedesc_zero) = 0 /\
  prstatus (@note_switch Sample.linux_x86_64 Sample.notes 0 notedesc_zero) = None /\
  thread_core_info (@note_switch Sample.linux_x86_64 Sample.notes 0 notedesc_zero) = ∅ /\
  @notes_loop Sample.linux_x86_64 8 Sample.notes 56 (Cursor 0 0) notedesc_zero =
  @notes_loop Sample.linux_x86_64 7 Sample.notes 56
    (@advance Sample.linux_x86_64 Sample.notes (Cursor 0 0)) notedesc_zero.
Proof.
  apply (@wrong_sized_prstatus_skipped Sample.linux_x86_64 Sample.notes 56 (Cursor 0 0)
           notedesc_zero 7).
  - reflexivity.
  - left. split; [vm_compute; reflexivity|vm_compute; discriminate].
Defined.

Lemma sample_no_wrap : Pmem.no_wrap Sample.one_map.
Proof.
  intros mp [<-|[]]. vm_compute. repeat split; discriminate.
Defined.

Lemma sample_pread_ok : Pmem.pread_ok Sample.pread_all.
Proof. intros pid vaddr len Hl. unfold Sample.pread_all. simpl. lia. Defined.

Lemma get_segment_from_pmem_spec_witness :
  let ms := firstn (Z.to_nat (Handle.mapcount Sample.one_map)) (Handle.maps Sample.one_map) in
  ((forall mp, In mp ms -> ~ (ProcMaps.base mp <= 0x400010 < ProcMaps.base mp + ProcMaps.size mp)) ->
   Pmem.get_segment_from_pmem Sample.pread_all 0x400010 Sample.one_map = ((-1, None), [])) /\
  (forall i mp,
     nth_error ms i = Some mp ->
     ProcMaps.base mp <= 0x400010 < ProcMaps.base mp + ProcMaps.size mp ->
     (forall j mq, (j < i)%nat -> nth_error ms j = Some mq ->
        ~ (ProcMaps.base mq <= 0x400010 < ProcMaps.base mq + ProcMaps.size mq)) ->
     Pmem.get_segment_from_pmem Sample.pread_all 0x400010 Sample.one_map =
     ((if fst (Sample.pread_all (task_pid Sample.one_map) (ProcMaps.base mp) (ProcMaps.size mp)) =? ProcMaps.size mp
       then ProcMaps.size mp else -1,
       Some (snd (Sample.pread_all (task_pid Sample.one_map) (ProcMaps.base mp) (ProcMaps.size mp)))),
      [Pmem.Alloc (ProcMaps.size mp); Pmem.Signal (task_pid Sample.one_map) Pmem.SIGSTOP;
       Pmem.OpenMem (task_pid Sample.one_map);
       Pmem.Pread (task_pid Sample.one_map) (ProcMaps.base mp) (ProcMaps.size mp);
       Pmem.Signal (task_pid Sample.one_map) Pmem.SIGCONT])).
Proof.
  apply (get_segment_from_pmem_spec Sample.pread_all 0x400010 Sample.one_map).
  - exact sample_no_wrap.
  - exact sample_pread_ok.
Defined.

Lemma tiny_shdrs_ok : shdrs_ok SampleRun.tiny_ecfs.
Proof. vm_compute. repeat split; discriminate. Defined.

Lemma tiny_got_plt : first_named SampleRun.tiny_ecfs ".got.plt" 2.
Proof.
  split; [vm_compute; split; [discriminate|reflexivity]|].
  split; [vm_compute; reflexivity|].
  intros j Hj. assert (j = 0 \/ j = 1) as [->| ->] by lia; vm_compute; discriminate.
Defined.

Lemma tiny_dynsym : last_named SampleRun.tiny_ecfs ".dynsym" 1.
Proof.
  split; [vm_compute; split; [discriminate|reflexivity]|].
  split; [vm_compute; reflexivity|].
  intros j Hj.
  assert (Hn : shnum_of SampleRun.tiny_ecfs = 4) by (vm_compute; reflexivity).
  rewrite Hn in Hj.
  assert (j = 2 \/ j = 3) as [->| ->] by lia; vm_compute; discriminate.
Defined.

Lemma got_plt_resized_witness :
  exists out,
    build_local_symtab_and_finalize SampleRun.tiny_ecfs SampleRun.fns 0 = Some out /\
    get out (sh_of SampleRun.tiny_ecfs 2) sh_size =
      (get SampleRun.tiny_ecfs (sh_of SampleRun.tiny_ecfs 1) sh_size / sizeof_Sym + 3)
      * sizeof_Addr /\
    get out (sh_of SampleRun.tiny_ecfs 1) sh_size =
      get SampleRun.tiny_ecfs (sh_of SampleRun.tiny_ecfs 1) sh_size.
Proof.
  apply (got_plt_resized SampleRun.tiny_ecfs SampleRun.fns 0 2 1).
  - exact tiny_shdrs_ok.
  - exact tiny_got_plt.
  - exact tiny_dynsym.
  - vm_compute. reflexivity.
  - vm_compute. discriminate.
Defined.

Lemma sample_run :
  @core2ecfs Sample.linux_x86_64 SampleRun.layout SampleRun.elfdesc SampleRun.memdesc
    SampleRun.notedesc SampleRun.libs SampleRun.smeta hacks_zero 0 (Some []) SampleRun.arglist
    SampleRun.fns = Some SampleRun.ecfs.
Proof. vm_compute. reflexivity. Defined.




End Witnesses.

(** ** Examples for the further properties *)

Section MoreWitnesses.
Import Mem Elf CStr Handle Sections SymRecon TextMerge Notes.

Lemma sample_no_header_at :
  forall j, 0 <= j < phnum_of Sample.core ->
    get Sample.core (ph_of Sample.core j) p_vaddr <> 0x500000.
Proof.
  intros j Hj. assert (Hn : phnum_of Sample.core = 3) by (vm_compute; reflexivity).
  rewrite Hn in Hj.
  assert (j = 0 \/ j = 1 \/ j = 2) as [->|[->| ->]] by lia; vm_compute; discriminate.
Defined.

Lemma sample_no_header_covers :
  forall j, 0 <= j < phnum_of Sample.core -> ~ contains Sample.core j 0x500000.
Proof.
  intros j Hj. assert (Hn : phnum_of Sample.core = 3) by (vm_compute; reflexivity).
  rewrite Hn in Hj. unfold contains.
  assert (j = 0 \/ j = 1 \/ j = 2) as [->|[->| ->]] by lia; vm_compute;
    intros [A B]; first [apply A; reflexivity | discriminate B].
Defined.

Lemma merge_text_image_no_header_witness :
  merge_text_image Sample.core [] 0x500000 Sample.text 8192 = None.
Proof.
  apply (merge_text_image_no_header Sample.core [] 0x500000 Sample.text 8192).
  exact sample_no_header_at.
Defined.

Lemma merge_exe_text_no_header_witness :
  merge_exe_text_into_core Sample.core [] 0x500000 Sample.text 8192 =
  Some (slice Sample.text 0 8192 ++ Sample.core).
Proof.
  apply (merge_exe_text_no_header Sample.core [] 0x500000 Sample.text 8192).
  - discriminate.
  - vm_compute. reflexivity.
  - exact sample_no_header_covers.
Defined.

Lemma merged_segments_follow_headers_witness :
  slice SampleEdges.merged (get Sample.core (ph_of Sample.core 1) p_offset) 8192 = Sample.text /\
  forall j n,
    1 < j < phnum_of Sample.core ->
    get SampleEdges.merged (ph_of Sample.core j) p_type = PT_LOAD ->
    get Sample.core (ph_of Sample.core (1 + 1)) p_offset
      <= get Sample.core (ph_of Sample.core j) p_offset ->
    0 <= n -> get Sample.core (ph_of Sample.core j) p_offset + n <= size Sample.core ->
    slice SampleEdges.merged (get SampleEdges.merged (ph_of Sample.core j) p_offset) n =
    slice Sample.core (get Sample.core (ph_of Sample.core j) p_offset) n.
Proof.
  apply (merged_segments_follow_headers Sample.core [] Sample.text 0x400000 8192 1
           SampleEdges.merged).
  - exact sample_table_ok.
  - exact sample_text_header.
  - discriminate.
  - vm_compute. reflexivity.
  - vm_compute. discriminate.
  - vm_compute. reflexivity.
  - vm_compute. discriminate.
  - vm_compute. reflexivity.
  - vm_compute. reflexivity.
  - right. vm_compute. reflexivity.
Defined.

Lemma finalizer_frame_witness :
  exists out,
    build_local_symtab_and_finalize SampleRun.tiny_ecfs SampleRun.fns 0 = Some out /\
    size out = size SampleRun.tiny_ecfs + sizeof_Sym * Z.of_nat (length SampleRun.fns)
               + Z.of_nat (length (strtab_bytes SampleRun.fns)) /\
    firstn (Z.to_nat (shoff_of SampleRun.tiny_ecfs)) out
      = firstn (Z.to_nat (shoff_of SampleRun.tiny_ecfs)) SampleRun.tiny_ecfs /\
    slice out (shend_of SampleRun.tiny_ecfs)
      (size SampleRun.tiny_ecfs - shend_of SampleRun.tiny_ecfs)
      = skipn (Z.to_nat (shend_of SampleRun.tiny_ecfs)) SampleRun.tiny_ecfs /\
    (forall j f, 0 <= j < shnum_of SampleRun.tiny_ecfs -> 0 <= f_off f ->
       f_off f + Z.of_nat (f_width f) <= 24 \/
       40 <= f_off f /\ f_off f + Z.of_nat (f_width f) <= 64 ->
       get out (sh_of SampleRun.tiny_ecfs j) f
         = get SampleRun.tiny_ecfs (sh_of SampleRun.tiny_ecfs j) f) /\
    (forall j, 0 <= j < shnum_of SampleRun.tiny_ecfs ->
       section_name SampleRun.tiny_ecfs j <> lit ".symtab" ->
       section_name SampleRun.tiny_ecfs j <> lit ".strtab" ->
       get out (sh_of SampleRun.tiny_ecfs j) sh_offset
         = get SampleRun.tiny_ecfs (sh_of SampleRun.tiny_ecfs j) sh_offset /\
       (section_name SampleRun.tiny_ecfs j <> lit ".got.plt" ->
        get out (sh_of SampleRun.tiny_ecfs j) sh_size
          = get SampleRun.tiny_ecfs (sh_of SampleRun.tiny_ecfs j) sh_size)).
Proof.
  apply (finalizer_frame SampleRun.tiny_ecfs SampleRun.fns 0).
  - exact tiny_shdrs_ok.
  - vm_compute. discriminate.
Defined.

Lemma finalizer_symbol_sections_witness :
  let m := SampleRun.tiny_ecfs in
  let out := SampleEdges.tiny_out in
  let symsz := sizeof_Sym * Z.of_nat (length SampleRun.fns) in
  let strsz := Z.of_nat (length (strtab_bytes SampleRun.fns)) in
  size out = size m + symsz + strsz /\
  slice out (size m) symsz = symtab_bytes SampleRun.fns 0 0 /\
  slice out (size m + symsz) strsz = strtab_bytes SampleRun.fns /\
  forall j, 0 <= j < shnum_of m ->
    (section_name m j = lit ".symtab" ->
     get out (sh_of m j) sh_offset = size m /\ get out (sh_of m j) sh_size = symsz) /\
    (section_name m j = lit ".strtab" ->
     get out (sh_of m j) sh_offset = size m + symsz /\
     get out (sh_of m j) sh_size = strsz).
Proof.
  apply (finalizer_symbol_sections SampleRun.tiny_ecfs SampleRun.fns 0 SampleEdges.tiny_out).
  - exact tiny_shdrs_ok.
  - vm_compute. reflexivity.
  - vm_compute. reflexivity.
Defined.

Lemma static_shdrs_ok : shdrs_ok SampleEdges.static_ecfs.
Proof. vm_compute. repeat split; discriminate. Defined.

Lemma static_got_plt : first_named SampleEdges.static_ecfs ".got.plt" 1.
Proof.
  split; [vm_compute; split; [discriminate|reflexivity]|].
  split; [vm_compute; reflexivity|].
  intros j Hj. assert (j = 0) as -> by lia. vm_compute. discriminate.
Defined.

Lemma static_no_dynsym :
  forall j, 0 <= j < shnum_of SampleEdges.static_ecfs ->
    section_name SampleEdges.static_ecfs j <> lit ".dynsym".
Proof.
  intros j Hj.
  assert (Hn : shnum_of SampleEdges.static_ecfs = 3) by (vm_compute; reflexivity).
  rewrite Hn in Hj.
  assert (j = 0 \/ j = 1 \/ j = 2) as [->|[->| ->]] by lia; vm_compute; discriminate.
Defined.

Lemma got_plt_without_dynsym_witness :
  exists out,
    build_local_symtab_and_finalize SampleEdges.static_ecfs SampleRun.fns 0 = Some out /\
    get out (sh_of SampleEdges.static_ecfs 1) sh_size = 3 * sizeof_Addr.
Proof.
  apply (got_plt_without_dynsym SampleEdges.static_ecfs SampleRun.fns 0 1).
  - exact static_shdrs_ok.
  - exact static_got_plt.
  - exact static_no_dynsym.
  - vm_compute. discriminate.
Defined.

Lemma sample_payload :
  @payload Sample.linux_x86_64 SampleRun.layout SampleRun.elfdesc SampleRun.memdesc
    SampleRun.notedesc (Some []) SampleRun.arglist
    (@Personality.build_elf_stats Sample.linux_x86_64 SampleRun.elfdesc 0 (stripped hacks_zero))
  = Some SampleRun.payload_file.
Proof. vm_compute. reflexivity. Defined.

Lemma sample_payload_complete :
  size SampleRun.payload_file =
  stb_offset (@ecfs_layout Sample.linux_x86_64 SampleRun.layout (size (mem SampleRun.elfdesc))
                SampleRun.notedesc SampleRun.memdesc).
Proof. vm_compute. reflexivity. Defined.

Lemma sample_libs_nul_free : Forall (fun l => nul_free (lib_name l)) SampleRun.libs.
Proof. repeat constructor; vm_compute; discriminate. Defined.

Lemma output_section_table_witness :
  let out := SampleRun.ecfs in
  let ns := section_names
              (Z.land SampleRun.personality (@ELF_STATIC Sample.linux_x86_64) =? 0)
              SampleRun.libs in
  shoff_of out = size SampleRun.payload_file /\
  shnum_of out = Z.of_nat (length ns) /\
  get out 0 e_shstrndx = Z.of_nat (length ns) - 1 /\
  (forall j nm, ns !! j = Some nm -> section_name out (Z.of_nat j) = nm).
Proof.
  apply (@output_section_table Sample.linux_x86_64 SampleRun.layout SampleRun.elfdesc
           SampleRun.memdesc SampleRun.notedesc SampleRun.libs SampleRun.smeta hacks_zero 0
           (Some []) SampleRun.arglist SampleRun.fns SampleRun.payload_file SampleRun.ecfs).
  - exact sample_payload.
  - exact sample_payload_complete.
  - exact sample_run.
  - vm_compute. discriminate.
  - vm_compute. reflexivity.
  - vm_compute. reflexivity.
  - exact sample_libs_nul_free.
Defined.

Lemma shstrtab_holds_names_witness :
  let out := SampleRun.ecfs in
  let ns := section_names
              (Z.land SampleRun.personality (@ELF_STATIC Sample.linux_x86_64) =? 0)
              SampleRun.libs in
  let last := Z.of_nat (length ns) - 1 in
  section_name out last = lit ".shstrtab" /\
  get out (sh_of out last) sh_type = SHT_STRTAB /\
  get out (sh_of out last) sh_offset = shoff_of out + sizeof_Shdr * shnum_of out /\
  get out (sh_of out last) sh_size = Z.of_nat (length (strings ns)) /\
  slice out (get out (sh_of out last) sh_offset) (get out (sh_of out last) sh_size)
    = strings ns.
Proof.
  apply (@shstrtab_holds_names Sample.linux_x86_64 SampleRun.layout SampleRun.elfdesc
           SampleRun.memdesc SampleRun.notedesc SampleRun.libs SampleRun.smeta hacks_zero 0
           (Some []) SampleRun.arglist SampleRun.fns SampleRun.payload_file SampleRun.ecfs).
  - exact sample_payload.
  - exact sample_payload_complete.
  - exact sample_run.
  - vm_compute. discriminate.
  - vm_compute. reflexivity.
  - vm_compute. reflexivity.
Defined.

Lemma text_section_of_output_witness :
  let out := SampleRun.ecfs in
  let e := SampleRun.elfdesc in
  let tsi := Z.of_nat (length (head_names
               (Z.land SampleRun.personality (@ELF_STATIC Sample.linux_x86_64) =? 0))) in
  section_name out tsi = lit ".text" /\
  get out (sh_of out tsi) sh_type = SHT_PROGBITS /\
  get out (sh_of out tsi) sh_flags = Z.lor SHF_ALLOC SHF_EXECINSTR /\
  get out (sh_of out tsi) sh_addr = textVaddr e /\
  get out (sh_of out tsi) sh_offset = textOffset e /\
  get out (sh_of out tsi) sh_size = textSize e /\
  slice out (get out (sh_of out tsi) sh_offset) (get out (sh_of out tsi) sh_size)
    = slice (mem e) (textOffset e) (textSize e).
Proof.
  apply (@text_section_of_output Sample.linux_x86_64 SampleRun.layout SampleRun.elfdesc
           SampleRun.memdesc SampleRun.notedesc SampleRun.libs SampleRun.smeta hacks_zero 0
           (Some []) SampleRun.arglist SampleRun.fns SampleRun.payload_file SampleRun.ecfs).
  - exact sample_payload.
  - exact sample_payload_complete.
  - exact sample_run.
  - vm_compute. discriminate.
  - vm_compute. reflexivity.
  - vm_compute. reflexivity.
  - vm_compute. split; [discriminate|reflexivity].
  - vm_compute. split; [discriminate|reflexivity].
  - vm_compute. discriminate.
  - vm_compute. discriminate.
Defined.

Lemma symtab_links_strtab_witness :
  let out := SampleRun.ecfs in
  let isym := Z.of_nat (length (front_names
                (Z.land SampleRun.personality (@ELF_STATIC Sample.linux_x86_64) =? 0)
                SampleRun.libs) + 10) in
  section_name out isym = lit ".symtab" /\
  section_name out (isym + 1) = lit ".strtab" /\
  get out (sh_of out isym) sh_type = SHT_SYMTAB /\
  get out (sh_of out isym) sh_entsize = sizeof_Sym /\
  get out (sh_of out isym) sh_link = isym + 1 /\
  get out (sh_of out (isym + 1)) sh_type = SHT_STRTAB.
Proof.
  apply (@symtab_links_strtab Sample.linux_x86_64 SampleRun.layout SampleRun.elfdesc
           SampleRun.memdesc SampleRun.notedesc SampleRun.libs SampleRun.smeta hacks_zero 0
           (Some []) SampleRun.arglist SampleRun.fns SampleRun.payload_file SampleRun.ecfs).
  - exact sample_payload.
  - exact sample_payload_complete.
  - exact sample_run.
  - vm_compute. discriminate.
  - vm_compute. reflexivity.
  - vm_compute. reflexivity.
Defined.

Lemma dynamic_sections_linked_witness :
  let out := SampleRun.ecfs in
  section_name out 4 = lit ".dynsym" /\ section_name out 5 = lit ".dynstr" /\
  section_name out 6 = lit ".rela.dyn" /\ section_name out 7 = lit ".rela.plt" /\
  get out (sh_of out 4) sh_type = SHT_DYNSYM /\
  get out (sh_of out 4) sh_entsize = sizeof_Sym /\
  get out (sh_of out 4) sh_link = 5 /\
  get out (sh_of out 5) sh_type = SHT_STRTAB /\
  (forall j, j = 6 \/ j = 7 ->
     get out (sh_of out j) sh_type = SHT_RELA /\
     get out (sh_of out j) sh_entsize = sizeof_Rela /\
     get out (sh_of out j) sh_link = 4).
Proof.
  apply (@dynamic_sections_linked Sample.linux_x86_64 SampleRun.layout SampleRun.elfdesc
           SampleRun.memdesc SampleRun.notedesc SampleRun.libs SampleRun.smeta hacks_zero 0
           (Some []) SampleRun.arglist SampleRun.fns SampleRun.payload_file SampleRun.ecfs).
  - exact sample_payload.
  - exact sample_payload_complete.
  - exact sample_run.
  - vm_compute. discriminate.
  - vm_compute. reflexivity.
  - vm_compute. reflexivity.
  - vm_compute. reflexivity.
Defined.

Lemma sample_threads :
  forall j, 1 <= j < Notes.thread_count SampleRun.notedesc ->
    exists q, Notes.thread_core_info SampleRun.notedesc !! j = Some q /\
              @sizeof_elf_prstatus Sample.linux_x86_64 <= Z.of_nat (length q).
Proof. intros j Hj. simpl in Hj. lia. Defined.

Lemma payload_layout_witness :
  let e := SampleRun.elfdesc in
  let md := SampleRun.memdesc in
  let nd := SampleRun.notedesc in
  let ef := @ecfs_layout Sample.linux_x86_64 SampleRun.layout (size (mem e)) nd md in
  exists file threads,
    @payload Sample.linux_x86_64 SampleRun.layout e md nd (Some []) SampleRun.arglist
      SampleRun.personality = Some file /\
    @thread_prstatus Sample.linux_x86_64 (Z.to_nat (Notes.thread_count nd - 1)) 1 nd
      = Some threads /\
    size file = stb_offset ef /\
    slice file 0 (size (mem e)) = mem e /\
    slice file (prstatus_offset ef) (prstatus_size ef)
      = slice (Sample.zeros (Z.to_nat 336)) 0 (@sizeof_elf_prstatus Sample.linux_x86_64)
        ++ threads /\
    slice file (fdinfo_offset ef) (ef_fdinfo_size ef) = slice [] 0 (fdinfo_size md) /\
    slice file (siginfo_offset ef) (siginfo_size ef)
      = slice (Sample.zeros (Z.to_nat 128)) 0 (@sizeof_siginfo_t Sample.linux_x86_64) /\
    slice file (auxv_offset ef) (ef_auxv_size ef)
      = slice (Sample.zeros (Z.to_nat 32)) 0 (Notes.auxv_size nd) /\
    slice file (exepath_offset ef) (exepath_size ef) = exe_path md ++ [Byte.x00] /\
    slice file (personality_offset ef) (personality_size ef)
      = @elf_stat_image SampleRun.layout SampleRun.personality /\
    slice file (arglist_offset ef) (arglist_size ef)
      = slice SampleRun.arglist 0 (@ELF_PRARGSZ SampleRun.layout).
Proof.
  apply (@payload_layout Sample.linux_x86_64 SampleRun.layout SampleRun.elfdesc
           SampleRun.memdesc SampleRun.notedesc (Some []) SampleRun.arglist
           SampleRun.personality (Sample.zeros (Z.to_nat 336)) []
           (Sample.zeros (Z.to_nat 128)) (Sample.zeros (Z.to_nat 32))).
  - reflexivity.
  - vm_compute. discriminate.
  - vm_compute. discriminate.
  - vm_compute. discriminate.
  - exact sample_threads.
  - reflexivity.
  - vm_compute. split; discriminate.
  - reflexivity.
  - vm_compute. split; discriminate.
  - reflexivity.
  - vm_compute. split; discriminate.
  - vm_compute. reflexivity.
  - vm_compute. split; discriminate.
Defined.

Lemma payload_sections_of_output_witness :
  let e := SampleRun.elfdesc in
  let md := SampleRun.memdesc in
  let nd := SampleRun.notedesc in
  let out := SampleRun.ecfs in
  let ef := @ecfs_layout Sample.linux_x86_64 SampleRun.layout (size (mem e)) nd md in
  Notes.siginfo nd = Some (Sample.zeros (Z.to_nat 128)) /\
  forall (k : nat) (nm : string) (off sz : Z) (data : list byte),
    In (k, nm, off, sz, data)
       [(0%nat, ".prstatus"%string, prstatus_offset ef, prstatus_size ef,
           slice (Sample.zeros (Z.to_nat 336)) 0 (@sizeof_elf_prstatus Sample.linux_x86_64)
           ++ []);
        (1%nat, ".fdinfo"%string, fdinfo_offset ef, ef_fdinfo_size ef,
           slice [] 0 (fdinfo_size md));
        (2%nat, ".siginfo"%string, siginfo_offset ef, siginfo_size ef,
           slice (Sample.zeros (Z.to_nat 128)) 0 (@sizeof_siginfo_t Sample.linux_x86_64));
        (3%nat, ".auxvector"%string, auxv_offset ef, ef_auxv_size ef,
           slice (Sample.zeros (Z.to_nat 32)) 0 (Notes.auxv_size nd));
        (4%nat, ".exepath"%string, exepath_offset ef, exepath_size ef,
           exe_path md ++ [Byte.x00]);
        (5%nat, ".personality"%string, personality_offset ef, personality_size ef,
           @elf_stat_image SampleRun.layout SampleRun.personality);
        (6%nat, ".arglist"%string, arglist_offset ef, arglist_size ef,
           slice SampleRun.arglist 0 (@ELF_PRARGSZ SampleRun.layout))] ->
    let i := Z.of_nat (length (front_names
               (Z.land SampleRun.personality (@ELF_STATIC Sample.linux_x86_64) =? 0)
               SampleRun.libs) + k) in
    section_name out i = lit nm /\
    get out (sh_of out i) sh_type = SHT_PROGBITS /\
    get out (sh_of out i) sh_offset = off /\
    get out (sh_of out i) sh_size = sz /\
    slice out off sz = data.
Proof.
  split; [reflexivity|].
  apply (@payload_sections_of_output Sample.linux_x86_64 SampleRun.layout SampleRun.elfdesc
           SampleRun.memdesc SampleRun.notedesc SampleRun.libs SampleRun.smeta hacks_zero 0
           (Some []) SampleRun.arglist SampleRun.fns SampleRun.ecfs
           (Sample.zeros (Z.to_nat 336)) [] (Sample.zeros (Z.to_nat 128))
           (Sample.zeros (Z.to_nat 32)) []).
  - exact sample_run.
  - vm_compute. discriminate.
  - vm_compute. reflexivity.
  - vm_compute. reflexivity.
  - reflexivity.
  - vm_compute. discriminate.
  - vm_compute. discriminate.
  - vm_compute. discriminate.
  - exact sample_threads.
  - reflexivity.
  - reflexivity.
  - vm_compute. split; discriminate.
  - reflexivity.
  - vm_compute. split; discriminate.
  - reflexivity.
  - vm_compute. split; discriminate.
  - vm_compute. reflexivity.
  - vm_compute. split; discriminate.
Defined.

Lemma nosig_run :
  @core2ecfs Sample.linux_x86_64 SampleRun.layout SampleRun.elfdesc SampleRun.memdesc
    SampleEdges.notedesc_nosig SampleRun.libs SampleRun.smeta hacks_zero 0 (Some [])
    SampleRun.arglist SampleRun.fns = Some SampleEdges.ecfs_nosig.
Proof. lazy. reflexivity. Defined.

Lemma nosig_threads :
  forall j, 1 <= j < Notes.thread_count SampleEdges.notedesc_nosig ->
    exists q, Notes.thread_core_info SampleEdges.notedesc_nosig !! j = Some q /\
              @sizeof_elf_prstatus Sample.linux_x86_64 <= Z.of_nat (length q).
Proof. intros j Hj. simpl in Hj. lia. Defined.

Lemma missing_siginfo_shifts_table_witness :
  let e := SampleRun.elfdesc in
  let md := SampleRun.memdesc in
  let nd := SampleEdges.notedesc_nosig in
  let ef := @ecfs_layout Sample.linux_x86_64 SampleRun.layout (size (mem e)) nd md in
  exists file,
    @payload Sample.linux_x86_64 SampleRun.layout e md nd (Some []) SampleRun.arglist
      (@Personality.build_elf_stats Sample.linux_x86_64 e 0 (stripped hacks_zero))
      = Some file /\
    size file = stb_offset ef - @sizeof_siginfo_t Sample.linux_x86_64 /\
    get SampleEdges.ecfs_nosig 0 e_shoff = stb_offset ef.
Proof.
  apply (@missing_siginfo_shifts_table Sample.linux_x86_64 SampleRun.layout SampleRun.elfdesc
           SampleRun.memdesc SampleEdges.notedesc_nosig SampleRun.libs SampleRun.smeta
           hacks_zero 0 (Some []) SampleRun.arglist SampleRun.fns SampleEdges.ecfs_nosig
           (Sample.zeros (Z.to_nat 336)) [] (Sample.zeros (Z.to_nat 32))).
  - exact nosig_run.
  - vm_compute. discriminate.
  - vm_compute. reflexivity.
  - reflexivity.
  - vm_compute. discriminate.
  - reflexivity.
  - vm_compute. discriminate.
  - vm_compute. discriminate.
  - vm_compute. discriminate.
  - exact nosig_threads.
  - reflexivity.
  - vm_compute. split; discriminate.
  - reflexivity.
  - vm_compute. split; discriminate.
  - vm_compute. reflexivity.
  - vm_compute. split; discriminate.
Defined.

Lemma get_fd_links_lists_directory_witness :
  List.map (fun en => (FdLinks.fd en, FdLinks.path en)) SampleEdges.fd_table =
  List.map (fun ent => (atoi (fst ent), snd ent))
    (List.filter (fun ent => match fst ent with
                             | b :: _ => negb (Byte.eqb b (chr "."))
                             | [] => true
                             end) SampleEdges.fd_dir) /\
  (length SampleEdges.fd_table <= 256)%nat.
Proof.
  apply (@get_fd_links_lists_directory Sample.linux_x86_64 Sample.tcp_table Sample.udp_table
           SampleEdges.fd_dir FdLinks.fd_info_zero SampleEdges.fd_table).
  vm_compute. reflexivity.
Defined.

Lemma get_maps_ranges_witness :
  let ms := SampleEdges.maps_table in
  let maps0 := repeat ProcMaps.mapping_zero 18 in
  length ms = length maps0 /\
  (length Sample.maps_lines <= length maps0)%nat /\
  (forall k buf, Sample.maps_lines !! k = Some buf ->
     exists dash en, strchr buf (chr "-") = Some dash /\ ms !! k = Some en /\
       ProcMaps.base en = strtoul16 (firstn dash buf) /\
       ProcMaps.size en
         = wrap64 (strtoul16 (skipn (S dash) buf) - strtoul16 (firstn dash buf))) /\
  (forall k, (length Sample.maps_lines <= k)%nat ->
     option_map ProcMaps.base (ms !! k) = option_map ProcMaps.base (maps0 !! k) /\
     option_map ProcMaps.size (ms !! k) = option_map ProcMaps.size (maps0 !! k)).
Proof.
  apply (get_maps_ranges (lit "cat") Sample.maps_lines (repeat ProcMaps.mapping_zero 18)
           (repeat Byte.x00 32) SampleEdges.maps_table).
  vm_compute. reflexivity.
Defined.

End MoreWitnesses.

Section NtFileWitness.
Import Mem Elf Notes NtFile.

Lemma app_files_packable : Forall packable (files Sample.app_files).
Proof.
  repeat (apply Forall_cons; split); [| | |apply Forall_nil];
    (unfold packable; cbn [nf_addr nf_size nf_pgoff nf_path];
     repeat split; try lia; vm_compute; repeat constructor; discriminate).
Defined.

Lemma parse_nt_files_unpacks_witness :
  parse_nt_files
    (Sample.zeros 20 ++ pack 4096 (files Sample.app_files) ++ Sample.zeros 4) (size (Sample.zeros 20)) =
  {| fcount := Z.of_nat (length (files Sample.app_files)); page_size := 4096;
     files := files Sample.app_files |}.
Proof.
  apply (parse_nt_files_unpacks (Sample.zeros 20) (Sample.zeros 4) 4096
           (files Sample.app_files)).
  - lia.
  - vm_compute. reflexivity.
  - exact app_files_packable.
Defined.

End NtFileWitness.
